(* ===== verification/_CoqProject ===== *)
-Q . S2P
Prelude.v
Str.v
Utf8.v
Hex.v
KeyValue.v
SshKeys.v
AuthorizedKeys.v
Auth.v
Envelope.v
Transport.v
Discovery.v
Config.v
Daemon.v
Http.v
Ip.v
Paths.v
System.v
Files.v
Tls.v
Control.v
Server.v
Runtime.v
Invariants.v
Cli.v
Tests.v
EndToEnd.v
Convergence.v
