(* ===== verification/Prelude.v ===== *)
(** * ssh-key-sync: a verification development

    The program (src/src/, Rust) keeps the SSH public keys of the hosts of a
    group in each other's authorized_keys.  A host runs a daemon that serves its
    own key over HTTP, announces itself by UDP broadcast, learns of its peers
    from signed announcements and from a configured bootstrap list, fetches
    their keys, and rewrites a managed block of authorized_keys.  All messages
    are signed with a token the group shares.

    ** The files and what they model

    - Prelude: the machine integers, [result], [outcome] (a computation that may
      panic), the two ways the compiler treats overflow ([Build]), list lemmas,
      tactics and the hint database [text].
    - Str, Utf8: what the program uses of the standard library's strings: [trim],
      [split], [lines], [split_once], [parse] and [to_string] of integers; the
      UTF-8 encoder and both decoders.  A string is the list of its scalar
      values, a byte string a list of numbers below 256 ([wf_str], [wf_bytes]).
    - Hex: [encode_hex], [decode_hex] (auth.rs) and [to_hex], [from_hex]
      (runtime.rs).
    - KeyValue: [serialize_payload], [parse_payload] (transport.rs, discovery.rs).
    - SshKeys: ssh_keys.rs.
    - AuthorizedKeys: the text functions of authorized_keys.rs
      ([upsert_managed_block]); Files: its file functions
      ([apply_managed_block_to_file], [atomic_write]).
    - Auth: auth.rs ([sign_envelope], [verify_envelope], [EnvelopeVerifier]).
    - Envelope: [serialize_envelope] and [parse_envelope] (runtime.rs), and
      [RuntimeError].
    - Transport: transport.rs ([HttpKeyExchangeService] and its messages).
    - Discovery: discovery.rs ([DiscoveryEngine]).
    - Config: config.rs ([load_config]).
    - Daemon: daemon.rs ([DaemonLoop], which the runtime does not use).
    - Http: [read_http_request], [write_http_response] and the bytes of
      [send_http_post] (runtime.rs).
    - Ip: the standard library's parser of IP addresses, which decides how a
      peer's name is validated.
    - Paths: addresses, paths and names of control files (runtime.rs).
    - System: system calls.  A program is a tree of calls ([io]) with a monadic
      bind; a [World] says what calls do and answer.  There are the file system,
      where any call may fail and other processes act while the program sleeps,
      the histories of all possible answers, and both together.
    - Tls: [build_transport_security], the loaders of certificates and keys, and
      the exchange of [send_http_post] in the clear or in a session (runtime.rs).
    - Control: the control files, [status_daemon], [stop_daemon],
      [resolve_current_sid] (runtime.rs).
    - Server: [handle_http_connection], [handle_udp_announcements],
      [request_public_key], [run_sync_cycle], [run_single_sync] (runtime.rs).
    - Runtime: [run_daemon] (runtime.rs), which composes all of the above;
      Invariants: what holds of every state and answer of its loop.
    - Cli: main.rs, the four commands with their messages and exit codes.
    - Tests: the unit tests of all modules; EndToEnd: e2e.rs, and the isolation of
      groups; Convergence: what all components achieve together.

    State is passed explicitly: methods with [&mut self] return the new record.
    Errors are the source's error types in [result]; a panic is [Panic].

    ** Interfaces between the components

    [Crypto] (Auth) stands for the crates sha2 and hmac and for the Unicode
    upper-case table, with [CryptoOk] for what is relied on: digests are bytes,
    checking a tag is comparing it, upper-casing gives text without line feeds;
    and nothing about collisions.
    [HashOrder] (Server) is the order in which [HashMap::values] enumerates;
    [HashOrderOk] only says that it enumerates the values.  [KeySource] is what a
    cycle asks for keys, with the law that keys are in normal form; the service's
    requests are an instance.  [Rustls] and [Network] (Tls) are the functions the
    code calls of rustls and rustls-pemfile, and the sockets and sessions of an
    exchange; they have no laws.  [World] (System) is what
    programs run in, and [Environment] a machine: what its other processes do,
    and of which paths the metadata can be read ([stat_works]).  That is a
    condition of its own because [Path::exists] and [is_dir] answer false when
    the metadata cannot be read: the programs take that for a missing file.  A
    theorem that needs the answer to be right names the paths.  Every theorem with such a parameter has a witness with a
    concrete one.

    ** The theorems

    - Convergence: a host that joins late has its key installed by the round of
      the daemon that hears it ([Convergence.late_joiner_converges]); a single
      synchronisation ends with exactly the keys of the members that the
      configuration names ([Convergence.sync_converges]).  Both say that the run
      in which every call succeeds ends so, and that whatever run ends without an
      error has this effect.  On authorized_keys they suppose that its markers
      are in order ([in_order]) and its metadata can be read.
    - End to end: a key asked for over the network is the peer's key
      ([Server.fetch_end_to_end], over [Transport.key_exchange],
      [Envelope.parse_serialize_envelope], [Http.http_round_trip]); an
      announcement built by one member reaches the table of another
      ([Discovery.announcement_reaches_table]).
    - authorized_keys: when its markers are in order, the text update keeps the
      user's lines; when it is also [tidy], it is idempotent and the last update
      wins (AuthorizedKeys); writing it is atomic under any failures
      ([Files.update_is_atomic], which says which text the update starts from); a
      single synchronisation writes exactly the keys fetched in it
      ([Server.single_sync_writes]); and over the whole life of the daemon the
      file is the user's text with at most one managed block
      ([Runtime.daemon_keeps_user_lines]).
    - Authenticity: no replay inside the verifier ([Auth.verify_no_replay]),
      tampering makes the signed texts collide ([Envelope.wire_tamper_evident]), only
      authenticated requests are answered ([Server.connection_answers]), the
      table changes only by authenticated announcements and once each
      ([Discovery.process_announcement_exact], [announcement_effective_once]),
      messages of another group or token change nothing and are refused
      ([EndToEnd.groups_isolated]).
    - Confidentiality of the transport: what the configuration builds
      ([Tls.build_transport_security_exact]), that with TLS no request and no
      answer goes out in the clear, and that without it the warning comes before
      every answer ([Tls.exchange_in_session],
      [Invariants.daemon_answers_in_session]).
    - Robustness: what ends the daemon, and that every failed call that matters
      does so with its error ([Runtime.daemon_failures], by [strict] programs of
      System), exactly which
      requests make the HTTP reader panic ([Http.read_request_panics_iff]), that
      the hex decoders do not ([Hex.decode_hex_equiv]), that reading does not
      depend on how the bytes are cut ([Http.read_request_chunking]) and looks at
      a bounded part of them ([Http.read_request_bounded]), and that the state of
      the loop is well formed whatever arrives ([Invariants.daemon_well_formed]).
    - Control: starting, status, stopping and the choice of the group
      ([Runtime.startup_takes_over], [Runtime.stop_request_honoured] and Control),
      stopping ends ([Control.stop_daemon_terminates]); which line and exit code
      each command ends with for the results of its parts, and when a daemon is
      started in the background ([Cli.exit_codes], [Cli.background_start_exact]).
    - Configuration: the three sources are one layered environment, and every
      outcome of loading ([Config.load_config_layers], [load_config_outcomes]).
    - The state machine of daemon.rs refines idle, syncing, draining, halted
      (Daemon).
    - The tests of the repository pass in the model ([Tests.unit_tests_pass]), the
      end-to-end ones with every cryptography ([EndToEnd.e2e_tests_pass]).
    - Error outcomes: the exact error of each fallible operation, in the order of
      the checks of the code.

    Behaviour that is probably not intended is stated as theorems and Examples
    next to the component it concerns: the panic on a huge Content-Length, the
    duplicated lines after a stray end marker, the lines lost when the metadata
    of authorized_keys cannot be read, the keys that a synchronisation removes of
    peers that do not answer, the sender named in key requests, the requests
    whose age is not checked, the shared control directories, the mode of a
    control file while it is rewritten, the overflow of the next synchronisation
    time, the panic when a line cannot be printed, and others.

    ** Bounds and termination

    Recursion is structural on the text, the list of chunks or the list of
    rounds, except: the hex decoders run with the length of the text as fuel, one
    step per pair of digits, and [decode_loop_pairs], [from_hex_loop_eq] show that
    it is enough; [to_string] has at most one step per bit of the number, and
    [parse_to_string] shows that it is enough; the wait of [stop_daemon] recurses
    on the time that is left (Equations).  Programs are inductive trees, so each
    ends after finitely many calls on every run; [bounded] (System) counts them,
    134 for [stop_daemon] (at most 121 of its wait, which polls a process every 50
    of 3000 milliseconds), three for [status_daemon].  The daemon is run on any
    finite list of rounds, which stands for every prefix of its endless loop.
    [usize] has 64 bits.

    ** What is not modelled

    The inside of rustls and rustls-pemfile, name resolution, sockets and their
    time-outs: parameters.  The parsing of the arguments by clap, which delivers
    the [Command].  The texts of operating system errors in the messages of a
    failed start in the background are a parameter too.  The time at which a
    system call answers: only the sleeps of the program and the clock readings it
    takes are seen.  Durability after a power loss, symbolic links and hard links.
    What other processes do between two calls that are not a sleep.  The removal
    of temporary files at the end of tests. *)

From Stdlib Require Export Ascii.
From stdpp Require Export base option list gmap strings numbers sorting.

(** ** Machine integers

    Every integer of the program is unsigned.  A [w]-bit integer is an [N];
    the bounds below are the [MAX] constants of the Rust types. *)

Definition U8_MAX : N := 255.
Definition U16_MAX : N := 65535.
Definition U32_MAX : N := 4294967295.
Definition U64_MAX : N := 18446744073709551615.

(** ** Text and bytes

    A Rust [str] is the list of its Unicode scalar values, a [Vec<u8>] is the
    list of its bytes. *)

Abbreviation char := N (only parsing).
Abbreviation str := (list N) (only parsing).
Abbreviation bytes := (list N) (only parsing).

Definition is_scalar (c : N) : Prop := (c < 0xD800 ∨ 0xE000 ≤ c < 0x110000)%N.
Definition is_byte (b : N) : Prop := (b < 256)%N.

(** [wf_str s]: [s] is the list of scalar values of some Rust [str]. *)
Definition wf_str (s : str) : Prop := Forall is_scalar s.
Definition wf_bytes (b : bytes) : Prop := Forall is_byte b.

(** [lit "text"] is an ASCII literal of the source. *)
Definition lit (s : string) : str :=
  (λ a, Ascii.N_of_ascii a) <$> String.list_ascii_of_string s.
Arguments lit _%_string.

(** ** Results and panics *)

Inductive result (E A : Type) : Type :=
| Ok (a : A)
| Err (e : E).
Arguments Ok {E A} a.
Arguments Err {E A} e.

#[export] Instance result_ret E : MRet (result E) := λ A a, Ok a.
#[export] Instance result_bind E : MBind (result E) := λ A B f m,
  match m with Ok a => f a | Err e => Err e end.
#[export] Instance result_fmap E : FMap (result E) := λ A B f m,
  match m with Ok a => Ok (f a) | Err e => Err e end.
#[export] Instance result_eq_dec E A `{EqDecision E, EqDecision A} :
  EqDecision (result E A).
Proof. solve_decision. Defined.

(** [Option::ok_or], [Result::map_err], [Result::ok], [is_ok]. *)
Definition ok_or {E A} (e : E) (o : option A) : result E A :=
  match o with Some a => Ok a | None => Err e end.
Definition map_err {E F A} (f : E → F) (r : result E A) : result F A :=
  match r with Ok a => Ok a | Err e => Err (f e) end.
Definition ok {E A} (r : result E A) : option A :=
  match r with Ok a => Some a | Err _ => None end.
Definition is_ok {E A} (r : result E A) : bool :=
  match r with Ok _ => true | Err _ => false end.

(** A computation that may panic (index or slice out of range, arithmetic
    overflow in a build with overflow checks). *)
Inductive outcome (A : Type) : Type :=
| Val (a : A)
| Panic.
Arguments Val {A} a.
Arguments Panic {A}.

#[export] Instance outcome_ret : MRet outcome := λ A a, Val a.
#[export] Instance outcome_bind : MBind outcome := λ A B f m,
  match m with Val a => f a | Panic => Panic end.
#[export] Instance outcome_eq_dec A `{EqDecision A} : EqDecision (outcome A).
Proof. solve_decision. Defined.

(** The two ways the compiler builds [a + b] on [u64] (and on [usize], which
    is taken to have 64 bits): with overflow checks an overflow panics, without
    them it wraps around. *)
Class Build := overflow_checks : bool.

Definition add_u64 `{Build} (a b : N) : outcome N :=
  if (a + b <=? U64_MAX)%N then Val (a + b)%N
  else if overflow_checks then Panic
  else Val ((a + b) mod 18446744073709551616)%N.

(** [Option::or_else]: the second option when the first one is [None]. *)
Definition or_else {A} (o o' : option A) : option A :=
  match o with Some a => Some a | None => o' end.

(** [iter().position(p)]. *)
Definition position {A} (P : A → Prop) `{∀ x, Decision (P x)} (l : list A) : option nat :=
  fst <$> list_find P l.

(** ** Tactics *)

(** Split a successful bind chain in a hypothesis. *)
Ltac inv_bind H :=
  lazymatch type of H with
  | mbind _ ?m = Ok _ =>
      let E := fresh "E" in
      destruct m eqn:E; [cbn [mbind result_bind] in H | discriminate H]
  | mbind _ ?m = Some _ =>
      let E := fresh "E" in
      destruct m eqn:E; [cbn [mbind option_bind] in H | discriminate H]
  end.

Ltac inv_result :=
  repeat match goal with
  | H : Ok _ = Ok _ |- _ => injection H as H; subst
  | H : Err _ = Err _ |- _ => injection H as H; subst
  | H : Some _ = Some _ |- _ => injection H as H; subst
  | H : Val _ = Val _ |- _ => injection H as H; subst
  | H : Ok _ = Err _ |- _ => discriminate H
  | H : Err _ = Ok _ |- _ => discriminate H
  | H : Some _ = None |- _ => discriminate H
  | H : None = Some _ |- _ => discriminate H
  | H : ok_or _ ?o = Ok _ |- _ =>
      let E := fresh "E" in destruct o eqn:E; [cbn in H | discriminate H]
  | H : map_err _ ?r = Ok _ |- _ =>
      let E := fresh "E" in destruct r eqn:E; [cbn in H | discriminate H]
  end.

(** Turn boolean comparisons on [N] into propositions. *)
Ltac bool_to_prop :=
  repeat match goal with
  | H : (_ && _)%bool = true |- _ => apply andb_prop in H as [? ?]
  | H : (_ =? _)%N = true |- _ => apply N.eqb_eq in H
  | H : (_ =? _)%N = false |- _ => apply N.eqb_neq in H
  | H : (_ <=? _)%N = true |- _ => apply N.leb_le in H
  | H : (_ <=? _)%N = false |- _ => apply N.leb_gt in H
  | H : (_ <? _)%N = true |- _ => apply N.ltb_lt in H
  | H : (_ <? _)%N = false |- _ => apply N.ltb_ge in H
  end.

(** Decide a closed goal by evaluation. *)
Ltac by_compute := apply (bool_decide_unpack _); vm_compute; exact I.

(** The facts that automate the routine goals on text: built up by the
    component files. *)
Create HintDb text.

(** ** Generic lemmas *)

Lemma ok_or_Ok {E A} (e : E) (o : option A) a : ok_or e o = Ok a ↔ o = Some a.
Proof. destruct o; cbn; split; intros [=]; congruence. Qed.

Lemma map_err_Ok {E F A} (f : E → F) (r : result E A) a :
  map_err f r = Ok a ↔ r = Ok a.
Proof. destruct r; cbn; split; intros [=]; congruence. Qed.

Lemma bind_Ok {E A B} (m : result E A) (f : A → result E B) b :
  m ≫= f = Ok b ↔ ∃ a, m = Ok a ∧ f a = Ok b.
Proof.
  destruct m as [a|e]; cbn; split; [eauto| |done|].
  - intros (a' & [= ->] & H). exact H.
  - by intros (a' & [=] & _).
Qed.

Lemma add_u64_Val `{Build} a b : (a + b ≤ U64_MAX)%N → add_u64 a b = Val (a + b)%N.
Proof. intros Hle. unfold add_u64. by rewrite (proj2 (N.leb_le _ _) Hle). Qed.

(** *** [position] *)

Lemma position_Some {A} (P : A → Prop) `{∀ x, Decision (P x)} (l : list A) i :
  position P l = Some i ↔
  ∃ l1 x l2, l = l1 ++ x :: l2 ∧ length l1 = i ∧ P x ∧ Forall (λ y, ¬ P y) l1.
Proof.
  unfold position. rewrite fmap_Some. split.
  - intros ([j x] & H0 & ->). apply list_find_Some in H0 as (Hl & HP & Hn). cbn.
    exists (take j l), x, (drop (S j) l). split_and!.
    + by rewrite take_drop_middle.
    + apply length_take_le. apply lookup_lt_Some in Hl. lia.
    + done.
    + apply Forall_lookup. intros k y Hk. apply lookup_take_Some in Hk as [Hk ?]. eauto.
  - intros (l1 & x & l2 & -> & <- & HP & Hn). exists (length l1, x). split; [|done].
    apply list_find_Some. split_and!; [by rewrite list_lookup_middle | done |].
    intros j y Hj Hlt. rewrite lookup_app_l in Hj by done.
    rewrite Forall_lookup in Hn. eauto.
Qed.

Lemma position_None {A} (P : A → Prop) `{∀ x, Decision (P x)} (l : list A) :
  position P l = None ↔ Forall (λ y, ¬ P y) l.
Proof. unfold position. by rewrite fmap_None, list_find_None. Qed.

Lemma position_is_Some {A} (P : A → Prop) `{∀ x, Decision (P x)} (l : list A) :
  is_Some (position P l) ↔ Exists P l.
Proof.
  split.
  - intros [i (l1 & x & l2 & -> & _ & Hx & _)%position_Some].
    apply Exists_app. right. by left.
  - intros He. destruct (position P l) as [i|] eqn:E; [done|]. apply position_None in E.
    exfalso. revert E. by induction He; inversion 1.
Qed.

Lemma position_app {A} (P : A → Prop) `{∀ x, Decision (P x)} (l1 l2 : list A) x :
  P x → Forall (λ y, ¬ P y) l1 → position P (l1 ++ x :: l2) = Some (length l1).
Proof. intros. apply position_Some. eauto 10. Qed.

(** ** Keeping the first occurrence of each element

    The reference definition for the loops over a [HashSet] of seen items. *)

Fixpoint nub {A} `{EqDecision A} (l : list A) : list A :=
  match l with
  | [] => []
  | x :: r => x :: filter (λ y, y ≠ x) (nub r)
  end.

Section nub.
Context {A : Type} `{EqDecision A}.
Implicit Types l : list A.

Lemma nub_cons x l : nub (x :: l) = x :: filter (λ y, y ≠ x) (nub l).
Proof. done. Qed.

Lemma elem_of_nub l x : x ∈ nub l ↔ x ∈ l.
Proof.
  induction l as [|y l IH]; cbn; [done|].
  rewrite !elem_of_cons, list_elem_of_filter, IH.
  destruct (decide (x = y)) as [->|Hne]; split; [by left|by left|tauto|tauto].
Qed.

Lemma NoDup_nub l : NoDup (nub l).
Proof.
  induction l as [|x l IH]; cbn; constructor.
  - rewrite list_elem_of_filter. tauto.
  - by apply NoDup_filter.
Qed.

Lemma nub_NoDup_id l : NoDup l → nub l = l.
Proof.
  induction 1 as [|x l Hx _ IH]; cbn; [done|]. rewrite IH. f_equal.
  clear IH. induction l as [|y l IH]; [done|].
  apply not_elem_of_cons in Hx as [Hxy Hx]. rewrite filter_cons_True by done.
  by rewrite IH.
Qed.

Lemma sublist_nub l : nub l `sublist_of` l.
Proof.
  induction l as [|x l IH]; cbn; constructor.
  etrans; [apply sublist_filter|done].
Qed.

Lemma Forall_nub (P : A → Prop) l : Forall P l → Forall P (nub l).
Proof. rewrite !Forall_forall. setoid_rewrite elem_of_nub. auto. Qed.
End nub.
