(* ===== verification/Str.v ===== *)
(** * Text operations of the Rust standard library

    The operations of [str], [String] and the integer parsers that the
    program calls, on lists of Unicode scalar values: trimming, lines,
    splitting, joining, ASCII case, decimal printing and parsing.  Nothing
    here is specific to ssh-key-sync. *)

From S2P Require Import Prelude.

Local Open Scope N_scope.

(** ** Character classes *)

Definition LF : char := 10.
Definition CR : char := 13.

(** [char::is_whitespace]: the Unicode property White_Space. *)
Definition is_whitespace (c : char) : bool :=
  ((9 <=? c) && (c <=? 13)) || (c =? 0x20) || (c =? 0x85) || (c =? 0xA0)
  || (c =? 0x1680) || ((0x2000 <=? c) && (c <=? 0x200A)) || (c =? 0x2028)
  || (c =? 0x2029) || (c =? 0x202F) || (c =? 0x205F) || (c =? 0x3000).

Definition is_ascii (c : char) : bool := c <? 128.
Definition is_ascii_digit (c : char) : bool := (48 <=? c) && (c <=? 57).
Definition is_ascii_uppercase (c : char) : bool := (65 <=? c) && (c <=? 90).
Definition is_ascii_lowercase (c : char) : bool := (97 <=? c) && (c <=? 122).
Definition is_ascii_alphanumeric (c : char) : bool :=
  is_ascii_digit c || is_ascii_uppercase c || is_ascii_lowercase c.

(** [to_ascii_lowercase], [to_ascii_uppercase], [eq_ignore_ascii_case]. *)
Definition ascii_lower (c : char) : char := if is_ascii_uppercase c then c + 32 else c.
Definition ascii_upper (c : char) : char := if is_ascii_lowercase c then c - 32 else c.
Definition to_ascii_lowercase (s : str) : str := ascii_lower <$> s.
Definition eq_ignore_ascii_case (s t : str) : bool :=
  bool_decide (to_ascii_lowercase s = to_ascii_lowercase t).

(** ** Trimming *)

Fixpoint trim_start (s : str) : str :=
  match s with
  | c :: r => if is_whitespace c then trim_start r else s
  | [] => []
  end.
Definition trim_end (s : str) : str := reverse (trim_start (reverse s)).
Definition trim (s : str) : str := trim_end (trim_start s).

(** [str::is_empty]. *)
Definition is_empty (s : str) : bool := bool_decide (s = []).

(** ** Splitting and joining *)

(** [str::split(p)]: the pieces between the characters satisfying [p];
    never the empty list. *)
Fixpoint split (p : char → bool) (s : str) : list str :=
  match s with
  | [] => [[]]
  | c :: r =>
      if p c then [] :: split p r
      else match split p r with
           | h :: t => (c :: h) :: t
           | [] => [[c]]
           end
  end.

Definition split_char (c : char) (s : str) : list str := split (N.eqb c) s.

Definition split_whitespace (s : str) : list str :=
  filter (λ w, w ≠ []) (split is_whitespace s).

(** [strip_suffix('\r')], keeping the line when there is none. *)
Fixpoint strip_cr (s : str) : str :=
  match s with
  | [] => []
  | [c] => if c =? CR then [] else [c]
  | c :: r => c :: strip_cr r
  end.

(** [str::lines]: the pieces ended by a line feed lose it and the carriage
    return before it; a last piece without line feed is kept as it is, and
    dropped when empty. *)
Fixpoint lines_of (ps : list str) : list str :=
  match ps with
  | [] => []
  | [l] => if is_empty l then [] else [l]
  | p :: r => strip_cr p :: lines_of r
  end.
Definition lines (s : str) : list str := lines_of (split_char LF s).

(** [str::split_once(c)] and [str::rsplit_once(c)]. *)
Fixpoint split_once (c : char) (s : str) : option (str * str) :=
  match s with
  | [] => None
  | x :: r => if c =? x then Some ([], r) else prod_map (cons x) id <$> split_once c r
  end.

Fixpoint rsplit_once (c : char) (s : str) : option (str * str) :=
  match s with
  | [] => None
  | x :: r =>
      match rsplit_once c r with
      | Some (a, b) => Some (x :: a, b)
      | None => if c =? x then Some ([], r) else None
      end
  end.

(** [[T]::join(sep)]. *)
Fixpoint join (sep : str) (ls : list str) : str :=
  match ls with
  | [] => []
  | [x] => x
  | x :: r => x ++ sep ++ join sep r
  end.

Fixpoint starts_with (p s : str) : bool :=
  match p, s with
  | [], _ => true
  | x :: p', y :: s' => (x =? y) && starts_with p' s'
  | _ :: _, [] => false
  end.

(** [str::strip_prefix]. *)
Fixpoint strip_prefix (p s : str) : option str :=
  match p, s with
  | [], _ => Some s
  | x :: p', y :: s' => if x =? y then strip_prefix p' s' else None
  | _ :: _, [] => None
  end.

(** ** Decimal integers *)

(** [ToString::to_string] of an unsigned integer: the digits of [n], with
    [fuel] of at least the number of digits. *)
Fixpoint digits (fuel : nat) (n : N) (acc : str) : str :=
  match fuel with
  | O => acc
  | S fuel =>
      let acc := (48 + n mod 10) :: acc in
      if n <? 10 then acc else digits fuel (n / 10) acc
  end.
Definition to_string (n : N) : str := digits (S (N.to_nat (N.size n))) n [].

Definition digit_value (c : char) : option N :=
  if is_ascii_digit c then Some (c - 48) else None.

(** The checked multiply and add of [from_str_radix]: an overflow beyond
    [max] is an error. *)
Fixpoint parse_digits (max acc : N) (s : str) : option N :=
  match s with
  | [] => Some acc
  | c :: r =>
      d ← digit_value c;
      let acc := acc * 10 + d in
      if acc <=? max then parse_digits max acc r else None
  end.

(** [str::parse::<uN>().ok()]: an optional ['+'], then at least one digit. *)
Definition parse_uint (max : N) (s : str) : option N :=
  match s with
  | [] => None
  | c :: r =>
      if c =? 43 then if is_empty r then None else parse_digits max 0 r
      else parse_digits max 0 s
  end.

(** ** Key-value text

    [kv_line k v] is the line ["k=v"]; [kv_text] a sequence of them, each
    ended by a line feed.  A value is safe on such a line when it has no
    line feed and no surrounding white space. *)
Definition kv_line (kv : str * str) : str := kv.1 ++ lit "=" ++ kv.2.
Definition kv_text (kvs : list (str * str)) : str :=
  concat (map (λ kv, kv_line kv ++ [LF]) kvs).

Definition line_safe (s : str) : Prop := (LF ∉ s) ∧ trim s = s.
Definition key_safe (s : str) : Prop := line_safe s ∧ ((61 : N) ∉ s) ∧ s ≠ [].

#[export] Instance line_safe_dec s : Decision (line_safe s).
Proof. unfold line_safe. apply _. Defined.
#[export] Instance key_safe_dec s : Decision (key_safe s).
Proof. unfold key_safe. apply _. Defined.

Arguments lit : simpl never.
Arguments trim : simpl never.
Arguments lines : simpl never.
Arguments split_char : simpl never.
Arguments split_whitespace : simpl never.
Arguments to_string : simpl never.
Arguments parse_uint : simpl never.

Lemma is_empty_false s : is_empty s = false ↔ s ≠ [].
Proof. unfold is_empty. by rewrite bool_decide_eq_false. Qed.

Lemma is_empty_true s : is_empty s = true ↔ s = [].
Proof. unfold is_empty. by rewrite bool_decide_eq_true. Qed.

(** ** Trimming lemmas *)

(** [trimmed s]: no white space at either end. *)
Definition edge_ok (o : option char) : Prop :=
  match o with Some c => is_whitespace c = false | None => True end.

Lemma trim_start_split s :
  ∃ p, s = p ++ trim_start s ∧ Forall (λ c, is_whitespace c = true) p
       ∧ edge_ok (head (trim_start s)).
Proof.
  induction s as [|c s (p & E & Hp & Hh)]; [by exists []|]. cbn.
  destruct (is_whitespace c) eqn:Hc.
  - exists (c :: p). split; [by rewrite E at 1 | by auto].
  - exists []. auto.
Qed.

Lemma trim_start_ok s : edge_ok (head s) → trim_start s = s.
Proof. destruct s as [|c s]; cbn; [done|]. by intros ->. Qed.

Lemma trim_end_split s :
  ∃ q, s = trim_end s ++ q ∧ Forall (λ c, is_whitespace c = true) q
       ∧ edge_ok (last (trim_end s)).
Proof.
  unfold trim_end. destruct (trim_start_split (reverse s)) as (p & E & Hp & Hh).
  exists (reverse p). split_and!.
  - rewrite <- reverse_app, <- E. by rewrite reverse_involutive.
  - by apply Forall_reverse.
  - by rewrite last_reverse.
Qed.

Lemma trim_end_ok s : edge_ok (last s) → trim_end s = s.
Proof.
  intros H. unfold trim_end. rewrite trim_start_ok, reverse_involutive; [done|].
  by rewrite head_reverse.
Qed.

Lemma head_app_prefix (s q : str) : edge_ok (head (s ++ q)) → edge_ok (head s).
Proof. by destruct s. Qed.

Lemma trim_split s :
  ∃ p q, s = p ++ trim s ++ q
    ∧ Forall (λ c, is_whitespace c = true) p ∧ Forall (λ c, is_whitespace c = true) q
    ∧ edge_ok (head (trim s)) ∧ edge_ok (last (trim s)).
Proof.
  destruct (trim_start_split s) as (p & E & Hp & Hh).
  destruct (trim_end_split (trim_start s)) as (q & E' & Hq & Hl).
  exists p, q. unfold trim. split_and!; try done.
  - by rewrite <- E'.
  - rewrite E' in Hh. by eapply head_app_prefix.
Qed.

Lemma trim_ok s : edge_ok (head s) → edge_ok (last s) → trim s = s.
Proof. intros. unfold trim. by rewrite trim_start_ok, trim_end_ok. Qed.

Lemma trim_id_edges s : trim s = s ↔ edge_ok (head s) ∧ edge_ok (last s).
Proof.
  split; [|intros []; by apply trim_ok].
  intros E. destruct (trim_split s) as (_ & _ & _ & _ & _ & ? & ?). by rewrite E in *.
Qed.

Lemma trim_start_blank p s :
  Forall (λ c, is_whitespace c = true) p → trim_start (p ++ s) = trim_start s.
Proof. induction 1 as [|c p Hc _ IH]; cbn; [done|]. by rewrite Hc. Qed.

(** Blanks around a trimmed text are what [trim] removes. *)
Lemma trim_pad l s r :
  Forall (λ c, is_whitespace c = true) l → Forall (λ c, is_whitespace c = true) r →
  trim s = s → trim (l ++ s ++ r) = s.
Proof.
  intros Hl Hr [Hh Hs]%trim_id_edges. unfold trim. rewrite trim_start_blank by done.
  destruct s as [|c s].
  - cbn [app]. rewrite <- (app_nil_r r), trim_start_blank by done. done.
  - rewrite trim_start_ok by done. unfold trim_end.
    rewrite reverse_app, trim_start_blank by (by apply Forall_reverse).
    apply trim_end_ok in Hs. exact Hs.
Qed.

Lemma trim_idem s : trim (trim s) = trim s.
Proof. destruct (trim_split s) as (_ & _ & _ & _ & _ & ? & ?). by apply trim_ok. Qed.

Lemma trim_elem s c : c ∈ trim s → c ∈ s.
Proof.
  destruct (trim_split s) as (p & q & E & _). intros H. rewrite E. set_solver.
Qed.

Lemma trim_LF s : LF ∉ s → LF ∉ trim s.
Proof. intros H ?. by apply H, trim_elem. Qed.

Lemma trim_no_ws s : Forall (λ c, is_whitespace c = false) s → trim s = s.
Proof.
  intros H. apply trim_ok.
  - destruct H; cbn; auto.
  - destruct (last s) as [c|] eqn:E; cbn; [|done].
    apply last_Some_elem_of in E. rewrite Forall_forall in H. by apply H.
Qed.

Lemma trim_line_safe s : LF ∉ s → line_safe (trim s).
Proof. split; [by apply trim_LF | apply trim_idem]. Qed.

Lemma trim_nil_Forall s : trim s = [] → Forall (λ c, is_whitespace c = true) s.
Proof.
  destruct (trim_split s) as (p & q & E & Hp & Hq & _). intros E0.
  rewrite E, E0. by apply Forall_app.
Qed.

Lemma Forall_trim (P : char → Prop) s : Forall P s → Forall P (trim s).
Proof. rewrite !Forall_forall. intros H c Hc. by apply H, trim_elem. Qed.

#[export] Hint Resolve trim_line_safe trim_LF : text.

(** ** Splitting lemmas *)

Lemma split_not_nil p s : split p s ≠ [].
Proof. destruct s as [|c s]; cbn; [done|]. destruct (p c); [done|]. by destruct (split p s). Qed.

Lemma split_app_sep p a c b :
  p c = true → split p (a ++ c :: b) = split p a ++ split p b.
Proof.
  intros Hc. induction a as [|x a IH]; cbn.
  - by rewrite Hc.
  - destruct (p x); [by rewrite IH|]. rewrite IH.
    destruct (split p a) as [|h t] eqn:E; [by apply split_not_nil in E | done].
Qed.

Lemma split_none p s : Forall (λ c, p c = false) s → split p s = [s].
Proof. induction 1 as [|c s Hc _ IH]; cbn; [done|]. by rewrite Hc, IH. Qed.

Lemma split_pieces p s : Forall (Forall (λ c, p c = false)) (split p s).
Proof.
  induction s as [|c s IH]; cbn; [by repeat constructor|].
  destruct (p c) eqn:Hc; [by constructor|].
  destruct IH as [|h t]; repeat constructor; auto.
Qed.

Lemma elem_split p s w c : w ∈ split p s → c ∈ w → c ∈ s.
Proof.
  revert w. induction s as [|x s IH]; intros w; cbn.
  - rewrite list_elem_of_singleton. by intros ->.
  - destruct (p x).
    + rewrite elem_of_cons. intros [->|H] Hc; [by apply not_elem_of_nil in Hc|].
      right. by eapply IH.
    + destruct (split p s) as [|h t]; rewrite !elem_of_cons.
      * intros [->|H]; [|by apply not_elem_of_nil in H].
        rewrite list_elem_of_singleton. auto.
      * intros [->|H]; [rewrite elem_of_cons; intros [->|Hc]; [auto|] | intros Hc];
          right; eapply IH; eauto; set_solver.
Qed.

Lemma no_sep_Forall c s : c ∉ s ↔ Forall (λ x, N.eqb c x = false) s.
Proof.
  rewrite Forall_forall. setoid_rewrite N.eqb_neq.
  split; [intros H x Hx ->; done | intros H Hc; by apply (H c)].
Qed.

Lemma split_char_pieces c s : Forall (λ w, c ∉ w) (split_char c s).
Proof.
  eapply Forall_impl; [apply split_pieces|]. intros w. cbn. by rewrite no_sep_Forall.
Qed.

Lemma split_char_none c s : c ∉ s → split_char c s = [s].
Proof. intros. by apply split_none, no_sep_Forall. Qed.

Lemma split_char_app c a b : c ∉ a → split_char c (a ++ c :: b) = a :: split_char c b.
Proof.
  intros H. unfold split_char. rewrite split_app_sep by apply N.eqb_refl.
  by rewrite split_none by (by apply no_sep_Forall).
Qed.

Lemma join_cons2 sep x y r : join sep (x :: y :: r) = x ++ sep ++ join sep (y :: r).
Proof. done. Qed.

Lemma split_char_join c ls :
  ls ≠ [] → Forall (λ w, c ∉ w) ls → split_char c (join [c] ls) = ls.
Proof.
  intros Hne H. induction H as [|w ls Hw H IH]; [done|].
  destruct ls as [|w' ls]; [by apply split_char_none|].
  rewrite join_cons2. cbn [app]. rewrite split_char_app by done. by rewrite IH.
Qed.

(** ** White-space words *)

Definition word (w : str) : Prop := w ≠ [] ∧ Forall (λ c, is_whitespace c = false) w.

Lemma split_whitespace_words s : Forall word (split_whitespace s).
Proof.
  apply Forall_forall. intros w. unfold split_whitespace.
  rewrite list_elem_of_filter. intros [Hne Hw]. split; [done|].
  pose proof (split_pieces is_whitespace s) as H. rewrite Forall_forall in H. auto.
Qed.

Lemma elem_split_whitespace s w c : w ∈ split_whitespace s → c ∈ w → c ∈ s.
Proof.
  unfold split_whitespace. rewrite list_elem_of_filter. intros [_ H].
  by eapply elem_split.
Qed.

Lemma split_whitespace_sep a c b :
  is_whitespace c = true →
  split_whitespace (a ++ c :: b) = split_whitespace a ++ split_whitespace b.
Proof. intros H. unfold split_whitespace. by rewrite split_app_sep, filter_app. Qed.

Lemma split_whitespace_word w : word w → split_whitespace w = [w].
Proof.
  intros [Hne H]. unfold split_whitespace. rewrite split_none by done.
  by rewrite filter_cons_True.
Qed.

Lemma split_whitespace_blank p :
  Forall (λ c, is_whitespace c = true) p → split_whitespace p = [].
Proof.
  induction 1 as [|c p Hc _ IH]; [done|].
  apply (split_whitespace_sep [] c p) in Hc. cbn [app] in Hc. by rewrite Hc, IH.
Qed.

Lemma split_whitespace_blank_l p s :
  Forall (λ c, is_whitespace c = true) p → split_whitespace (p ++ s) = split_whitespace s.
Proof.
  induction 1 as [|c p Hc _ IH]; [done|].
  pose proof (split_whitespace_sep [] c (p ++ s) Hc) as E. cbn [app] in *. by rewrite E, IH.
Qed.

Lemma split_whitespace_blank_r s q :
  Forall (λ c, is_whitespace c = true) q → split_whitespace (s ++ q) = split_whitespace s.
Proof.
  intros Hq. destruct Hq as [|c q Hc Hq]; [by rewrite app_nil_r|].
  rewrite split_whitespace_sep by done. by rewrite (split_whitespace_blank q), app_nil_r.
Qed.

Lemma split_whitespace_trim s : split_whitespace (trim s) = split_whitespace s.
Proof.
  destruct (trim_split s) as (p & q & E & Hp & Hq & _). rewrite E at 2.
  by rewrite split_whitespace_blank_l, split_whitespace_blank_r.
Qed.

Lemma split_whitespace_join ws :
  Forall word ws → split_whitespace (join (lit " ") ws) = ws.
Proof.
  induction 1 as [|w ws Hw H IH]; [done|]. cbn [join].
  destruct ws as [|w' ws]; [by apply split_whitespace_word|].
  change (lit " ") with [32] in *. cbn [app].
  rewrite split_whitespace_sep by done. by rewrite IH, split_whitespace_word.
Qed.

Lemma word_edges w : word w → edge_ok (head w) ∧ edge_ok (last w) ∧ w ≠ [].
Proof.
  intros [Hne H]. split_and!; [| |done].
  - by destruct H.
  - destruct (last w) as [c|] eqn:E; cbn; [|done].
    apply last_Some_elem_of in E. rewrite Forall_forall in H. auto.
Qed.

Lemma join_words_edges ws :
  Forall word ws →
  edge_ok (head (join (lit " ") ws)) ∧ edge_ok (last (join (lit " ") ws))
  ∧ (ws ≠ [] → join (lit " ") ws ≠ []).
Proof.
  induction 1 as [|w ws Hw H (IHh & IHl & IHn)]; [done|].
  destruct (word_edges w Hw) as (? & ? & ?).
  destruct ws as [|w' ws]; [done|]. rewrite join_cons2.
  assert (Hne : join (lit " ") (w' :: ws) ≠ []) by auto.
  split_and!.
  - by destruct w.
  - rewrite !last_app. by destruct (last (join _ _)) eqn:E; [|apply last_None in E].
  - by destruct w.
Qed.

Lemma trim_join_words ws : Forall word ws → trim (join (lit " ") ws) = join (lit " ") ws.
Proof. intros H. apply trim_id_edges. split; by apply join_words_edges. Qed.

Lemma elem_join sep ls c : c ∈ join sep ls → c ∈ sep ∨ ∃ w, w ∈ ls ∧ c ∈ w.
Proof.
  induction ls as [|x ls IH]; [by intros ?%not_elem_of_nil|].
  destruct ls as [|y ls].
  - intros H. right. exists x. split; [by left|exact H].
  - rewrite join_cons2, !elem_of_app.
    intros [?|[?|H]]; [right; exists x; split; [by left|done] | by left |].
    destruct (IH H) as [?|(w & ? & ?)]; [by left|].
    right. exists w. split; [by right|done].
Qed.

(** ** Lines *)

Definition no_cr_end (s : str) : Prop := last s ≠ Some CR.

Lemma strip_cr_id s : no_cr_end s → strip_cr s = s.
Proof.
  unfold no_cr_end. induction s as [|c s IH]; [done|].
  destruct s as [|d s].
  - cbn. destruct (N.eqb_spec c CR) as [->|]; [intros []; done | done].
  - intros H. cbn [strip_cr] in *. f_equal. apply IH. exact H.
Qed.

Lemma line_safe_no_cr s : trim s = s → no_cr_end s.
Proof. intros [_ H]%trim_id_edges E. by rewrite E in H. Qed.

Lemma lines_of_app ps q : q ≠ [] → lines_of (ps ++ q) = (strip_cr <$> ps) ++ lines_of q.
Proof.
  intros Hq. induction ps as [|p ps IH]; [done|]. cbn [app fmap list_fmap].
  cbn [lines_of]. destruct (ps ++ q) eqn:E; [by apply app_eq_nil in E as [_ ->]|].
  by rewrite IH.
Qed.

Lemma lines_cons l t : LF ∉ l → lines (l ++ LF :: t) = strip_cr l :: lines t.
Proof.
  intros H. unfold lines. rewrite split_char_app by done.
  cbn [lines_of]. by destruct (split_char LF t) eqn:E; [apply split_not_nil in E|].
Qed.

Lemma lines_last l : LF ∉ l → lines l = if is_empty l then [] else [l].
Proof. intros. unfold lines. by rewrite split_char_none. Qed.

(** Text made of complete lines. *)
Lemma lines_concat ls :
  Forall (λ l, (LF ∉ l) ∧ no_cr_end l) ls → lines (concat (map (λ l, l ++ [LF]) ls)) = ls.
Proof.
  induction 1 as [|l ls [Hl Hc] H IH]; [done|].
  cbn [map concat]. rewrite <- app_assoc. cbn [app]. rewrite lines_cons by done.
  by rewrite strip_cr_id, IH.
Qed.

(** Lines joined by line feeds, the last one not empty. *)
Lemma lines_join ls :
  Forall (λ l, LF ∉ l) ls → Forall no_cr_end (removelast ls) → last ls ≠ Some [] →
  lines (join [LF] ls) = ls.
Proof.
  induction 1 as [|l ls Hl H IH]; [done|]. intros Hcr Hlast.
  destruct ls as [|l' ls].
  - cbn in *. rewrite lines_last by done. unfold is_empty.
    case_bool_decide; [by subst | done].
  - rewrite join_cons2. cbn [app]. rewrite lines_cons by done.
    cbn [removelast] in Hcr. inversion Hcr as [|? ? Hl' Hcr']; subst.
    rewrite strip_cr_id by done. f_equal. apply IH; [exact Hcr'|exact Hlast].
Qed.

Lemma strip_cr_elem c s : c ∈ strip_cr s → c ∈ s.
Proof.
  induction s as [|x s IH]; [done|]. destruct s as [|y s].
  - cbn. case_match; [by intros ?%not_elem_of_nil | done].
  - intros [->|H]%elem_of_cons; [by left | right; by apply IH].
Qed.

Lemma elem_lines s l c : l ∈ lines s → c ∈ l → c ∈ s ∧ c ≠ LF.
Proof.
  unfold lines. intros Hl Hc.
  assert (∃ w, w ∈ split_char LF s ∧ c ∈ w) as (w & Hw & Hcw).
  { revert Hl. generalize (split_char LF s). intros ps.
    induction ps as [|p ps IH]; cbn; [by intros ?%not_elem_of_nil|].
    destruct ps as [|q ps].
    - case_match; [by intros ?%not_elem_of_nil|].
      rewrite list_elem_of_singleton. intros ->. exists p. split; [by left|done].
    - intros [->|H]%elem_of_cons.
      + exists p. split; [by left|by apply strip_cr_elem].
      + destruct (IH H) as (w & ? & ?). exists w. split; [by right|done]. }
  split; [by eapply elem_split|]. intros ->.
  pose proof (split_char_pieces LF s) as HF. rewrite Forall_forall in HF. by apply (HF w).
Qed.

Lemma lines_no_LF s : Forall (λ l, LF ∉ l) (lines s).
Proof. apply Forall_forall. intros l Hl Hc. by destruct (elem_lines _ _ _ Hl Hc). Qed.

(** ** [split_once] *)

Lemma split_once_app c a b : c ∉ a → split_once c (a ++ c :: b) = Some (a, b).
Proof.
  intros H. induction a as [|x a IH]; cbn; [by rewrite N.eqb_refl|].
  apply not_elem_of_cons in H as [Hx H]. apply N.eqb_neq in Hx. rewrite Hx.
  by rewrite IH.
Qed.

Lemma split_once_Some c s a b :
  split_once c s = Some (a, b) → s = a ++ c :: b ∧ c ∉ a.
Proof.
  revert a. induction s as [|x s IH]; intros a; cbn; [done|].
  destruct (N.eqb_spec c x) as [<-|Hx].
  - intros [= <- <-]. split; [done|apply not_elem_of_nil].
  - destruct (split_once c s) as [[a' b']|]; [|done]. intros [= <- <-].
    destruct (IH _ eq_refl) as [-> H]. split; [done|]. by apply not_elem_of_cons.
Qed.

Lemma split_once_None c s : c ∉ s → split_once c s = None.
Proof.
  induction s as [|x s IH]; cbn; [done|]. intros [Hx Hs]%not_elem_of_cons.
  rewrite (proj2 (N.eqb_neq c x)) by done. by rewrite IH.
Qed.

Lemma rsplit_once_None c s : c ∉ s → rsplit_once c s = None.
Proof.
  induction s as [|x s IH]; [done|]. intros [Hx H]%not_elem_of_cons. cbn.
  rewrite IH by done. apply N.eqb_neq in Hx. by rewrite Hx.
Qed.

Lemma rsplit_once_app c a b : c ∉ b → rsplit_once c (a ++ c :: b) = Some (a, b).
Proof.
  intros H. induction a as [|x a IH]; cbn.
  - by rewrite rsplit_once_None, N.eqb_refl.
  - by rewrite IH.
Qed.

Lemma rsplit_once_is_Some c s : c ∈ s → is_Some (rsplit_once c s).
Proof.
  induction s as [|x s IH]; [by intros ?%not_elem_of_nil|]. intros H. cbn.
  destruct (rsplit_once c s) as [[a b]|]; [by eexists|].
  apply elem_of_cons in H as [<-|H]; [rewrite N.eqb_refl; by eexists|].
  by destruct (IH H).
Qed.

Lemma rsplit_once_Some c s a b :
  rsplit_once c s = Some (a, b) → s = a ++ c :: b ∧ c ∉ b.
Proof.
  revert a. induction s as [|x s IH]; intros a; cbn; [done|].
  destruct (rsplit_once c s) as [[a' b']|] eqn:E.
  - intros [= <- <-]. destruct (IH _ eq_refl) as [-> H]. done.
  - destruct (N.eqb_spec c x) as [<-|Hx]; [|done]. intros [= <- <-].
    split; [done|]. intros H. apply list_elem_of_split in H as (p & q & ->).
    clear IH. revert E. induction p as [|y p IHp]; cbn.
    + destruct (rsplit_once c q) as [[]|]; [done|]. by rewrite N.eqb_refl.
    + destruct (rsplit_once c (p ++ c :: q)) as [[]|]; [done|]. by intros; apply IHp.
Qed.

(** ** Key-value text *)

Lemma kv_line_parts k v : kv_line (k, v) = k ++ 61 :: v.
Proof. done. Qed.

Lemma kv_line_no_cr k v : trim v = v → no_cr_end (kv_line (k, v)).
Proof.
  intros H. rewrite kv_line_parts. unfold no_cr_end.
  rewrite last_app, last_cons. destruct (last v) eqn:E; [|done].
  apply line_safe_no_cr in H. by unfold no_cr_end in H; rewrite E in H.
Qed.

Lemma kv_line_no_LF k v : LF ∉ k → LF ∉ v → LF ∉ kv_line (k, v).
Proof.
  intros Hk Hv. rewrite kv_line_parts, elem_of_app, elem_of_cons. by intros [?|[?|?]].
Qed.

Definition kv_safe (kv : str * str) : Prop := key_safe kv.1 ∧ line_safe kv.2.

Lemma lines_kv_text kvs :
  Forall kv_safe kvs → lines (kv_text kvs) = map kv_line kvs.
Proof.
  intros H. unfold kv_text.
  rewrite <- (lines_concat (map kv_line kvs)); [by rewrite map_map|].
  apply Forall_forall. intros l Hl. apply list_elem_of_fmap in Hl as ([k v] & -> & Hkv).
  rewrite Forall_forall in H. destruct (H _ Hkv) as (((? & ?) & _) & ? & ?). cbn in *.
  split; [by apply kv_line_no_LF | by apply kv_line_no_cr].
Qed.

Lemma split_once_kv k v : key_safe k → split_once 61 (kv_line (k, v)) = Some (k, v).
Proof. intros (_ & H & _). by apply split_once_app. Qed.

Lemma kv_line_not_blank k v : key_safe k → is_empty (trim (kv_line (k, v))) = false.
Proof.
  intros _. unfold is_empty. rewrite bool_decide_eq_false. intros E.
  apply trim_nil_Forall in E. rewrite Forall_forall in E.
  specialize (E 61). rewrite kv_line_parts in E.
  assert (is_whitespace 61 = true) as H; [apply E; set_solver | done].
Qed.

Lemma kv_text_app a b : kv_text (a ++ b) = kv_text a ++ kv_text b.
Proof. unfold kv_text. by rewrite map_app, concat_app. Qed.

(** ** Decimal integers *)

Lemma parse_digits_bound max acc s n :
  parse_digits max acc s = Some n → acc ≤ max → n ≤ max.
Proof.
  revert acc. induction s as [|c s IH]; intros acc; cbn; [congruence|].
  destruct (digit_value c); cbn; [|done].
  destruct (N.leb_spec (acc * 10 + n0) max); [eauto|done].
Qed.

Lemma parse_uint_bound max s n : parse_uint max s = Some n → n ≤ max.
Proof.
  unfold parse_uint. destruct s as [|c s]; [done|].
  repeat case_match; intros; simplify_eq; eapply parse_digits_bound; eauto; lia.
Qed.

Lemma digit_value_digit d : d < 10 → digit_value (48 + d) = Some d.
Proof.
  intros H. unfold digit_value, is_ascii_digit.
  destruct (N.leb_spec 48 (48 + d)); [|lia]. destruct (N.leb_spec (48 + d) 57); [|lia].
  cbn. f_equal. lia.
Qed.

Lemma digits_S fuel n acc :
  digits (S fuel) n acc =
  if n <? 10 then (48 + n mod 10) :: acc else digits fuel (n / 10) ((48 + n mod 10) :: acc).
Proof. done. Qed.

(** [digits] prepends to its accumulator the decimal notation of [n]. *)
Lemma parse_digits_digits max fuel n tail :
  n < 2 ^ N.of_nat fuel → n ≤ max →
  parse_digits max 0 (digits (S fuel) n tail) = parse_digits max n tail.
Proof.
  revert n tail. induction fuel as [|fuel IH]; intros n tail Hf Hm.
  - assert (n = 0) as -> by (cbn in Hf; lia). by destruct max.
  - rewrite digits_S. destruct (N.ltb_spec n 10) as [Hn|Hn].
    + rewrite N.mod_small by done. cbn [parse_digits]. rewrite digit_value_digit by done.
      cbn -[N.mul N.add]. change (0 * 10 + n) with n. by destruct (N.leb_spec n max); [|lia].
    + assert (n / 10 ≤ n) by (apply N.Div0.div_le_upper_bound; lia).
      rewrite IH; [| |lia].
      * cbn [parse_digits]. rewrite digit_value_digit by (apply N.mod_lt; lia).
        cbn -[N.mul N.add]. replace (n / 10 * 10 + n mod 10) with n
          by (rewrite (N.div_mod n 10) at 1; lia).
        by destruct (N.leb_spec n max); [|lia].
      * rewrite Nat2N.inj_succ, N.pow_succ_r' in Hf.
        apply N.Div0.div_lt_upper_bound. lia.
Qed.

Lemma digits_Forall fuel n tail :
  Forall (λ c, is_ascii_digit c = true) tail →
  Forall (λ c, is_ascii_digit c = true) (digits fuel n tail).
Proof.
  revert n tail. induction fuel as [|fuel IH]; intros n tail H; [done|]. rewrite digits_S.
  assert (is_ascii_digit (48 + n mod 10) = true).
  { unfold is_ascii_digit. pose proof (N.mod_lt n 10 ltac:(done)) as Hm.
    revert Hm. generalize (n mod 10). intros d Hd.
    apply andb_true_intro; split; apply N.leb_le; lia. }
  case_match; [by constructor|]. apply IH. by constructor.
Qed.

Lemma digits_not_nil fuel n tail : digits (S fuel) n tail ≠ [].
Proof.
  revert n tail. induction fuel as [|fuel IH]; intros n tail; rewrite digits_S.
  - by case_match.
  - case_match; [done|]. apply IH.
Qed.

Lemma to_string_digits n : Forall (λ c, is_ascii_digit c = true) (to_string n).
Proof. by apply digits_Forall. Qed.

Lemma to_string_not_nil n : to_string n ≠ [].
Proof. apply digits_not_nil. Qed.

Lemma digit_facts c :
  is_ascii_digit c = true →
  is_whitespace c = false ∧ c ≠ LF ∧ c ≠ 43 ∧ c ≠ 58 ∧ c < 128.
Proof.
  unfold is_ascii_digit. intros. bool_to_prop. split_and!; try (unfold LF; lia).
  unfold is_whitespace. rewrite !orb_false_iff, !andb_false_iff, !N.leb_gt, !N.eqb_neq. lia.
Qed.

Lemma to_string_word n : word (to_string n).
Proof.
  split; [apply to_string_not_nil|]. eapply Forall_impl; [apply to_string_digits|].
  intros c Hc. by apply digit_facts.
Qed.

Lemma to_string_no c n : is_ascii_digit c = false → c ∉ to_string n.
Proof.
  intros Hc H. pose proof (to_string_digits n) as HF. rewrite Forall_forall in HF.
  specialize (HF _ H). congruence.
Qed.

Lemma to_string_line_safe n : line_safe (to_string n).
Proof. split; [by apply to_string_no | by apply trim_no_ws, to_string_word]. Qed.

Lemma parse_to_string max n : n ≤ max → parse_uint max (to_string n) = Some n.
Proof.
  intros Hn. unfold parse_uint. pose proof (to_string_digits n) as Hd.
  destruct (to_string n) as [|c s] eqn:E; [by apply to_string_not_nil in E|].
  inversion Hd as [|? ? Hc _]; subst. apply digit_facts in Hc as (_ & _ & Hc & _).
  apply N.eqb_neq in Hc. rewrite Hc, <- E. unfold to_string.
  rewrite parse_digits_digits; [done| |done]. rewrite N2Nat.id. apply N.size_gt.
Qed.

Lemma to_string_inj n m : to_string n = to_string m → n = m.
Proof.
  intros H. apply (f_equal (parse_uint (N.max n m))) in H.
  rewrite !parse_to_string in H by lia. congruence.
Qed.

#[export] Hint Resolve to_string_line_safe : text.

(** ** Well-formedness of literals *)

Lemma lit_ascii s : Forall (λ c, c < 256) (lit s).
Proof.
  apply Forall_forall. intros c Hc. apply list_elem_of_fmap in Hc as (a & -> & _).
  apply N_ascii_bounded.
Qed.

Lemma lit_wf s : wf_str (lit s).
Proof.
  eapply Forall_impl; [apply lit_ascii|]. intros c Hc. left. cbn in Hc. lia.
Qed.

Lemma app_wf s t : wf_str s → wf_str t → wf_str (s ++ t).
Proof. intros. by apply Forall_app. Qed.

Lemma to_string_wf n : wf_str (to_string n).
Proof.
  eapply Forall_impl; [apply to_string_digits|].
  intros c Hc. apply digit_facts in Hc as (_ & _ & _ & _ & ?). left. lia.
Qed.

Lemma ascii_wf s : Forall (λ c, c < 128) s → wf_str s.
Proof. intros H. eapply Forall_impl; [exact H|]. intros c Hc. left. cbn in Hc. lia. Qed.

Lemma LF_wf : wf_str [LF].
Proof. by repeat constructor. Qed.

#[export] Hint Resolve lit_wf app_wf to_string_wf LF_wf : text.
