(* ===== verification/Utf8.v ===== *)
(** * UTF-8

    [String::into_bytes]/[as_bytes], [str::from_utf8] and
    [String::from_utf8_lossy] of the Rust standard library: the encoder, and
    one decoder from which the strict and the lossy conversions are derived.
    The decoder cuts an ill-formed sequence the way [Utf8Chunks] does: a
    maximal prefix of a well-formed sequence becomes one replacement
    character. *)

From S2P Require Import Prelude Str.

Local Open Scope N_scope.

Definition REPLACEMENT : char := 0xFFFD.

(** ** Encoding *)

Definition encode_char (c : char) : bytes :=
  if c <? 0x80 then [c]
  else if c <? 0x800 then [0xC0 + c / 64; 0x80 + c mod 64]
  else if c <? 0x10000 then [0xE0 + c / 4096; 0x80 + (c / 64) mod 64; 0x80 + c mod 64]
  else [0xF0 + c / 262144; 0x80 + (c / 4096) mod 64; 0x80 + (c / 64) mod 64; 0x80 + c mod 64].

(** [as_bytes] and [into_bytes]; [str::len] is the length of the encoding. *)
Definition encode (s : str) : bytes := concat (map encode_char s).
Definition byte_len (s : str) : N := N.of_nat (length (encode s)).

(** ** Decoding *)

Definition between (lo hi b : N) : bool := (lo <=? b) && (b <=? hi).
Definition is_cont (b : N) : bool := between 0x80 0xBF b.

(** The second bytes allowed after a three-byte and a four-byte lead. *)
Definition second3 (b0 b1 : N) : bool :=
  if b0 =? 0xE0 then between 0xA0 0xBF b1
  else if b0 =? 0xED then between 0x80 0x9F b1
  else is_cont b1.
Definition second4 (b0 b1 : N) : bool :=
  if b0 =? 0xF0 then between 0x90 0xBF b1
  else if b0 =? 0xF4 then between 0x80 0x8F b1
  else is_cont b1.

(** The scalar values of the input, [None] for each ill-formed sequence. *)
Fixpoint utf8_chunks (bs : bytes) : list (option char) :=
  match bs with
  | [] => []
  | b0 :: r0 =>
      if b0 <? 0x80 then Some b0 :: utf8_chunks r0
      else if between 0xC2 0xDF b0 then
        match r0 with
        | b1 :: r1 =>
            if is_cont b1
            then Some ((b0 - 0xC0) * 64 + (b1 - 0x80)) :: utf8_chunks r1
            else None :: utf8_chunks r0
        | [] => [None]
        end
      else if between 0xE0 0xEF b0 then
        match r0 with
        | b1 :: r1 =>
            if second3 b0 b1 then
              match r1 with
              | b2 :: r2 =>
                  if is_cont b2
                  then Some ((b0 - 0xE0) * 4096 + (b1 - 0x80) * 64 + (b2 - 0x80))
                       :: utf8_chunks r2
                  else None :: utf8_chunks r1
              | [] => [None]
              end
            else None :: utf8_chunks r0
        | [] => [None]
        end
      else if between 0xF0 0xF4 b0 then
        match r0 with
        | b1 :: r1 =>
            if second4 b0 b1 then
              match r1 with
              | b2 :: r2 =>
                  if is_cont b2 then
                    match r2 with
                    | b3 :: r3 =>
                        if is_cont b3
                        then Some ((b0 - 0xF0) * 262144 + (b1 - 0x80) * 4096
                                   + (b2 - 0x80) * 64 + (b3 - 0x80))
                             :: utf8_chunks r3
                        else None :: utf8_chunks r2
                    | [] => [None]
                    end
                  else None :: utf8_chunks r1
              | [] => [None]
              end
            else None :: utf8_chunks r0
        | [] => [None]
        end
      else None :: utf8_chunks r0
  end.

(** [str::from_utf8(..).ok()] and [String::from_utf8_lossy]. *)
Definition from_utf8 (bs : bytes) : option str := mapM id (utf8_chunks bs).
Definition from_utf8_lossy (bs : bytes) : str := map (default REPLACEMENT) (utf8_chunks bs).

Arguments encode : simpl never.
Arguments from_utf8 : simpl never.
Arguments from_utf8_lossy : simpl never.

(** ** Lemmas *)

Lemma between_spec lo hi b : reflect (lo ≤ b ≤ hi) (between lo hi b).
Proof.
  apply iff_reflect. unfold between. by rewrite andb_true_iff, !N.leb_le.
Qed.

Lemma encode_app s t : encode (s ++ t) = encode s ++ encode t.
Proof. unfold encode. by rewrite map_app, concat_app. Qed.

Lemma encode_ascii s : Forall (λ c, c < 128) s → encode s = s.
Proof.
  induction 1 as [|c s Hc _ IH]; [done|]. unfold encode in *. cbn [map concat].
  rewrite IH. unfold encode_char. by destruct (N.ltb_spec c 0x80); [|lia].
Qed.

(** Every number below [64 * n] is split by [/ 64] and [mod 64]. *)
Lemma div_mod_64 c : ∃ q r, c = q * 64 + r ∧ r < 64 ∧ c / 64 = q ∧ c mod 64 = r.
Proof.
  exists (c / 64), (c mod 64). split_and!; try done.
  - rewrite (N.div_mod c 64) at 1; lia.
  - by apply N.mod_lt.
Qed.

Lemma div_64_64 c : c / 4096 = c / 64 / 64.
Proof. by rewrite N.Div0.div_div. Qed.

Lemma div_64_64_64 c : c / 262144 = c / 64 / 64 / 64.
Proof. by rewrite !N.Div0.div_div. Qed.

Ltac between_cases :=
  repeat match goal with
  | |- context [between ?a ?b ?c] =>
      destruct (between_spec a b c); [try (exfalso; lia)|try (exfalso; lia)]
  | |- context [?a =? ?b] => destruct (N.eqb_spec a b); [try (exfalso; lia)|try (exfalso; lia)]
  | |- context [?a <? ?b] => destruct (N.ltb_spec a b); [try (exfalso; lia)|try (exfalso; lia)]
  end.

Lemma utf8_chunks_encode_char c rest :
  is_scalar c → utf8_chunks (encode_char c ++ rest) = Some c :: utf8_chunks rest.
Proof.
  intros Hc. unfold is_scalar in Hc. unfold encode_char.
  destruct (N.ltb_spec c 0x80) as [H1|H1].
  { cbn [app utf8_chunks]. by destruct (N.ltb_spec c 0x80); [|lia]. }
  rewrite div_64_64, div_64_64_64.
  destruct (div_mod_64 c) as (q & r & E & Hr & -> & ->).
  destruct (N.ltb_spec c 0x800) as [H2|H2].
  { cbn [app utf8_chunks]. unfold is_cont. between_cases. do 2 f_equal. lia. }
  destruct (div_mod_64 q) as (q2 & r2 & E2 & Hr2 & -> & ->).
  destruct (N.ltb_spec c 0x10000) as [H3|H3].
  { cbn [app utf8_chunks]. unfold second3, is_cont. between_cases; do 2 f_equal; lia. }
  destruct (div_mod_64 q2) as (q3 & r3 & E3 & Hr3 & -> & ->).
  cbn [app utf8_chunks]. unfold second4, is_cont. between_cases; do 2 f_equal; lia.
Qed.

Lemma utf8_chunks_encode s rest :
  wf_str s → utf8_chunks (encode s ++ rest) = map Some s ++ utf8_chunks rest.
Proof.
  induction 1 as [|c s Hc _ IH]; [done|]. unfold encode in *. cbn [map concat].
  rewrite <- app_assoc, utf8_chunks_encode_char by done. cbn. by rewrite IH.
Qed.

Lemma utf8_chunks_encode_nil s : wf_str s → utf8_chunks (encode s) = map Some s.
Proof.
  intros H. pose proof (utf8_chunks_encode s [] H) as E. by rewrite !app_nil_r in E.
Qed.

(** Decoding an encoding gives the text back, strictly and lossily. *)
Lemma from_utf8_encode s : wf_str s → from_utf8 (encode s) = Some s.
Proof.
  intros H. unfold from_utf8. rewrite utf8_chunks_encode_nil by done.
  clear H. induction s as [|c s IH]; [done|]. cbn. by rewrite IH.
Qed.

Lemma from_utf8_lossy_encode s : wf_str s → from_utf8_lossy (encode s) = s.
Proof.
  intros H. unfold from_utf8_lossy. rewrite utf8_chunks_encode_nil by done.
  rewrite map_map. cbn. apply map_id.
Qed.

Lemma encode_wf s : wf_str s → wf_bytes (encode s).
Proof.
  induction 1 as [|c s Hc _ IH]; [constructor|]. unfold encode in *. cbn [map concat].
  apply Forall_app. split; [|done]. unfold is_scalar in Hc. unfold encode_char.
  rewrite div_64_64, div_64_64_64.
  destruct (div_mod_64 c) as (q & r & E & Hr & -> & ->).
  destruct (div_mod_64 q) as (q2 & r2 & E2 & Hr2 & -> & ->).
  destruct (div_mod_64 q2) as (q3 & r3 & E3 & Hr3 & -> & ->).
  repeat case_match; bool_to_prop; repeat constructor; unfold is_byte; lia.
Qed.

#[export] Hint Resolve from_utf8_encode from_utf8_lossy_encode encode_wf : text.

(** The decoder only produces scalar values. *)
Lemma utf8_chunks_scalar bs :
  wf_bytes bs → Forall (λ o, match o with Some c => is_scalar c | None => True end) (utf8_chunks bs).
Proof.
  induction bs as [bs IH] using (induction_ltof1 _ (@length N)); unfold ltof in IH.
  intros H. destruct H as [|b0 r0 Hb0 H]; [constructor|]. cbn [utf8_chunks].
  assert (IHr0 := IH r0 ltac:(cbn; lia) H). unfold is_byte in *.
  destruct (N.ltb_spec b0 0x80).
  { constructor; [left; lia|done]. }
  destruct H as [|b1 r1 Hb1 H].
  { repeat case_match; repeat constructor. }
  assert (IHr1 := IH r1 ltac:(cbn; lia) H).
  destruct (between_spec 0xC2 0xDF b0).
  { unfold is_cont. destruct (between_spec 0x80 0xBF b1); constructor; try done. left; lia. }
  destruct H as [|b2 r2 Hb2 H].
  { repeat case_match; repeat constructor; done. }
  assert (IHr2 := IH r2 ltac:(cbn; lia) H).
  destruct (between_spec 0xE0 0xEF b0).
  { unfold second3, is_cont, is_scalar in *. between_cases; constructor; try done; lia. }
  destruct H as [|b3 r3 Hb3 H].
  { repeat case_match; repeat constructor; done. }
  assert (IHr3 := IH r3 ltac:(cbn; lia) H).
  unfold second4, is_cont, is_scalar in *. between_cases; constructor; try done; lia.
Qed.

Lemma from_utf8_wf bs s : wf_bytes bs → from_utf8 bs = Some s → wf_str s.
Proof.
  intros H Hs. pose proof (utf8_chunks_scalar bs H) as Hc. unfold from_utf8 in Hs.
  revert s Hs Hc. generalize (utf8_chunks bs). intros l. induction l as [|o l IH]; intros s.
  - intros [= <-] _. constructor.
  - cbn. destruct o as [c|]; [cbn|done]. destruct (mapM id l) as [s'|]; [cbn|done].
    intros [= <-] Hf. inversion Hf; subst. constructor; [done|]. by apply IH.
Qed.

Lemma from_utf8_lossy_wf bs : wf_bytes bs → wf_str (from_utf8_lossy bs).
Proof.
  intros H. pose proof (utf8_chunks_scalar bs H) as Hc. unfold from_utf8_lossy, wf_str.
  rewrite Forall_map. eapply Forall_impl; [done|]. intros [c|]; [done|].
  intros _. right. done.
Qed.
