(* ===== verification/Hex.v ===== *)
(** * Hexadecimal codecs

    The two hexadecimal codecs of the program: [encode_hex]/[decode_hex] of
    src/src/auth.rs, which index a vector of [char], and [to_hex]/[from_hex]
    of src/src/runtime.rs, which index the bytes of the text.  Indexing can
    panic, so the decoders are first written with an explicit [Panic]; they
    never do ([decode_hex_equiv]). *)

From S2P Require Import Prelude Str Utf8.

Local Open Scope N_scope.

(** ** Encoding *)

Definition HEX : list N := lit "0123456789abcdef".

(** [HEX[n as usize] as char]; the nibble of a [u8] is always in range. *)
Definition hex_digit (n : N) : char := default 0 (HEX !! N.to_nat n).

Module AuthHex.

Fixpoint encode_hex (bs : bytes) : str :=
  match bs with
  | [] => []
  | b :: r => hex_digit (N.shiftr b 4) :: hex_digit (N.land b 0x0f) :: encode_hex r
  end.

(** [decode_nibble] on a [char]. *)
Definition decode_nibble (value : char) : option N :=
  if (48 <=? value) && (value <=? 57) then Some (value - 48)
  else if (97 <=? value) && (value <=? 102) then Some (value - 97 + 10)
  else if (65 <=? value) && (value <=? 70) then Some (value - 65 + 10)
  else None.

(** [cs[i]]: a panic when out of range. *)
Definition index (cs : list N) (i : nat) : outcome N :=
  match cs !! i with Some c => Val c | None => Panic end.

(** [(high << 4) | low] on [u8]. *)
Definition join_nibbles (high low : N) : N := N.lor (N.shiftl high 4 mod 256) low.

(** The loop [for index in (0..chars.len()).step_by(2)]. *)
Fixpoint decode_loop (fuel : nat) (chars : list N) (i : nat) : outcome (option bytes) :=
  match fuel with
  | O => Panic
  | S fuel =>
      if (i <? length chars)%nat then
        c ← index chars i;
        match decode_nibble c with
        | None => Val None
        | Some high =>
            c' ← index chars (i + 1);
            match decode_nibble c' with
            | None => Val None
            | Some low =>
                rest ← decode_loop fuel chars (i + 2);
                Val (cons (join_nibbles high low) <$> (rest : option bytes))
            end
        end
      else Val (Some [])
  end.

Definition decode_hex_checked (value : str) : outcome (option bytes) :=
  if negb (byte_len value mod 2 =? 0) then Val None
  else decode_loop (S (length value)) value 0.

(** [decode_hex] as its callers see it: the panic is impossible. *)
Definition decode_hex (value : str) : option bytes :=
  match decode_hex_checked value with Val r => r | Panic => None end.

End AuthHex.

Module RuntimeHex.

Fixpoint to_hex (bs : bytes) : str :=
  match bs with
  | [] => []
  | b :: r => hex_digit (N.shiftr b 4) :: hex_digit (N.land b 0x0f) :: to_hex r
  end.

(** [decode_nibble] on a [u8]. *)
Definition decode_nibble (value : N) : option N :=
  if (48 <=? value) && (value <=? 57) then Some (value - 48)
  else if (97 <=? value) && (value <=? 102) then Some (value - 97 + 10)
  else if (65 <=? value) && (value <=? 70) then Some (value - 65 + 10)
  else None.

(** The loop [while idx < bytes.len()]. *)
Fixpoint from_hex_loop (fuel : nat) (bs : bytes) (idx : nat) : outcome (option bytes) :=
  match fuel with
  | O => Panic
  | S fuel =>
      if (idx <? length bs)%nat then
        b ← AuthHex.index bs idx;
        match decode_nibble b with
        | None => Val None
        | Some high =>
            b' ← AuthHex.index bs (idx + 1);
            match decode_nibble b' with
            | None => Val None
            | Some low =>
                rest ← from_hex_loop fuel bs (idx + 2);
                Val (cons (AuthHex.join_nibbles high low) <$> (rest : option bytes))
            end
        end
      else Val (Some [])
  end.

Definition from_hex_checked (value : str) : outcome (option bytes) :=
  if negb (byte_len value mod 2 =? 0) then Val None
  else let bs := encode value in from_hex_loop (S (length bs)) bs 0.

Definition from_hex (value : str) : option bytes :=
  match from_hex_checked value with Val r => r | Panic => None end.

End RuntimeHex.

(** ** The decoders as functions on consecutive pairs *)

Fixpoint decode_pairs (cs : list N) : outcome (option bytes) :=
  match cs with
  | [] => Val (Some [])
  | [c] => match AuthHex.decode_nibble c with None => Val None | Some _ => Panic end
  | c :: c' :: r =>
      match AuthHex.decode_nibble c, AuthHex.decode_nibble c' with
      | Some high, Some low =>
          rest ← decode_pairs r; Val (cons (AuthHex.join_nibbles high low) <$> (rest : option bytes))
      | _, _ => Val None
      end
  end.

Lemma drop_lookup2 (cs : list N) i :
  (i < length cs)%nat →
  ∃ c, cs !! i = Some c ∧
    ((∃ c', cs !! (i + 1)%nat = Some c' ∧ drop i cs = c :: c' :: drop (i + 2) cs)
     ∨ (cs !! (i + 1)%nat = None ∧ drop i cs = [c])).
Proof.
  intros H. destruct (lookup_lt_is_Some_2 cs i H) as [c Hc]. exists c. split; [done|].
  rewrite (drop_S cs c i Hc). replace (S i) with (i + 1)%nat by lia.
  destruct (cs !! (i + 1)%nat) as [c'|] eqn:Hc'.
  - left. exists c'. rewrite (drop_S cs c' _ Hc'). by replace (S (i + 1)) with (i + 2)%nat by lia.
  - right. split; [done|]. apply lookup_ge_None in Hc'. by rewrite drop_ge.
Qed.

Lemma decode_loop_pairs fuel cs i :
  (length cs - i < fuel)%nat → AuthHex.decode_loop fuel cs i = decode_pairs (drop i cs).
Proof.
  revert i. induction fuel as [|fuel IH]; intros i H; cbn [AuthHex.decode_loop].
  { lia. }
  destruct (Nat.ltb_spec i (length cs)) as [Hi|Hi]; [|by rewrite drop_ge].
  destruct (drop_lookup2 cs i Hi) as (c & Hc & [(c' & Hc' & ->)|[Hc' ->]]);
    unfold AuthHex.index; rewrite Hc, Hc'; cbn; [|done].
  destruct (AuthHex.decode_nibble c), (AuthHex.decode_nibble c'); cbn; try done.
  by rewrite IH by lia.
Qed.

Lemma from_hex_loop_eq fuel cs i :
  RuntimeHex.from_hex_loop fuel cs i = AuthHex.decode_loop fuel cs i.
Proof.
  revert i. induction fuel as [|fuel IH]; intros i; [done|].
  cbn [RuntimeHex.from_hex_loop AuthHex.decode_loop]. destruct (i <? length cs)%nat; [|done].
  destruct (AuthHex.index cs i) as [c|]; cbn; [|done].
  change (RuntimeHex.decode_nibble c) with (AuthHex.decode_nibble c).
  destruct (AuthHex.decode_nibble c); [|done].
  destruct (AuthHex.index cs (i + 1)) as [c'|]; cbn; [|done].
  change (RuntimeHex.decode_nibble c') with (AuthHex.decode_nibble c').
  destruct (AuthHex.decode_nibble c'); [|done]. by rewrite IH.
Qed.

Lemma nibble_ascii c n : AuthHex.decode_nibble c = Some n → c < 128 ∧ n < 16.
Proof.
  unfold AuthHex.decode_nibble. repeat case_match; intros; simplify_eq; bool_to_prop; lia.
Qed.

(** A character is ASCII, or its encoding starts with a byte that is not. *)
Lemma encode_char_head c :
  c < 128 ∨ 128 ≤ c ∧ ∃ b r, encode_char c = b :: r ∧ 128 ≤ b.
Proof.
  unfold encode_char.
  generalize (c / 64) (c / 4096) (c / 262144) (c mod 64). intros q1 q2 q3 r.
  repeat case_match; bool_to_prop; [left; lia| | |];
    (right; split; [lia|]; eexists _, _; split; [done|lia]).
Qed.

Lemma nibble_none c : 128 ≤ c → AuthHex.decode_nibble c = None.
Proof.
  intros H. destruct (AuthHex.decode_nibble c) eqn:E; [|done]. apply nibble_ascii in E. lia.
Qed.

Lemma encode_cons_ascii c s : c < 128 → encode (c :: s) = c :: encode s.
Proof.
  intros H. unfold encode. cbn [map concat]. unfold encode_char.
  by destruct (N.ltb_spec c 0x80); [|lia].
Qed.

Lemma list_ind2 {A} (P : list A → Prop) :
  P [] → (∀ x, P [x]) → (∀ x y l, P l → P (x :: y :: l)) → ∀ l, P l.
Proof.
  intros H0 H1 H2. fix IH 1. intros [|x [|y l]]; [exact H0|apply H1|apply H2, IH].
Qed.

(** Decoding characters and decoding bytes agree, and neither panics, when
    the text has an even number of bytes. *)
Lemma decode_pairs_encode s :
  Nat.even (length (encode s)) = true →
  decode_pairs (encode s) = decode_pairs s ∧ decode_pairs s ≠ Panic.
Proof.
  induction s as [|c|c c' s IH] using list_ind2; intros He; [done| |].
  - destruct (encode_char_head c) as [Ha|(Hc128 & b & r & E & Hb)].
    + by rewrite encode_cons_ascii in He.
    + unfold encode in *. cbn [map concat] in *. rewrite E, app_nil_r in *.
      cbn [decode_pairs]. rewrite (nibble_none c) by done.
      destruct r as [|b' r]; [done|]. by rewrite (nibble_none b).
  - destruct (encode_char_head c) as [Ha|(Hc128 & b & r & E & Hb)].
    2: { unfold encode in *. cbn [map concat] in *. rewrite E in *. cbn [app] in *.
      cbn [decode_pairs]. rewrite (nibble_none c) by done.
      destruct (r ++ _) as [|b' r']; [done|]. by rewrite (nibble_none b). }
    rewrite encode_cons_ascii in * by done. cbn [decode_pairs].
    destruct (encode_char_head c') as [Ha'|(Hc128 & b & r & E & Hb)].
    + rewrite encode_cons_ascii in * by done. cbn [length Nat.even] in He.
      destruct (IH He) as [-> Hp]. split; [done|].
      destruct (AuthHex.decode_nibble c), (AuthHex.decode_nibble c'); try done.
      by destruct (decode_pairs s).
    + unfold encode. cbn [map concat]. rewrite E. cbn [app].
      rewrite (nibble_none c'), (nibble_none b) by done. by destruct (AuthHex.decode_nibble c).
Qed.

Lemma byte_len_even s : (byte_len s mod 2 =? 0) = Nat.even (length (encode s)).
Proof.
  unfold byte_len. generalize (length (encode s)). intros n.
  change 2 with (N.of_nat 2). rewrite <- Nat2N.inj_mod.
  apply eq_true_iff_eq. rewrite N.eqb_eq, Nat.even_spec.
  split.
  - intros H. exists (n / 2)%nat. pose proof (Nat.div_mod_eq n 2). lia.
  - intros [k ->]. rewrite (Nat.mul_comm 2 k), Nat.Div0.mod_mul. done.
Qed.

Lemma decode_hex_checked_pairs s :
  AuthHex.decode_hex_checked s =
  if Nat.even (length (encode s)) then decode_pairs s else Val None.
Proof.
  unfold AuthHex.decode_hex_checked. rewrite byte_len_even.
  destruct (Nat.even _); cbn [negb]; [|done].
  by rewrite decode_loop_pairs by lia.
Qed.

Lemma from_hex_checked_pairs s :
  RuntimeHex.from_hex_checked s =
  if Nat.even (length (encode s)) then decode_pairs s else Val None.
Proof.
  unfold RuntimeHex.from_hex_checked. rewrite byte_len_even.
  destruct (Nat.even _) eqn:E; cbn [negb]; [|done].
  rewrite from_hex_loop_eq, decode_loop_pairs by lia. rewrite drop_0.
  by apply decode_pairs_encode.
Qed.

Lemma decode_hex_Some s bs :
  AuthHex.decode_hex s = Some bs → decode_pairs s = Val (Some bs).
Proof.
  unfold AuthHex.decode_hex. rewrite decode_hex_checked_pairs.
  destruct (Nat.even _); [|done]. destruct (decode_pairs s); [by intros ->|done].
Qed.

(** ** Round trip *)

Definition nibbles_ok (b : N) : bool :=
  match AuthHex.decode_nibble (hex_digit (N.shiftr b 4)),
        AuthHex.decode_nibble (hex_digit (N.land b 0x0f)) with
  | Some h, Some l => AuthHex.join_nibbles h l =? b
  | _, _ => false
  end.

Lemma nibbles_all b : is_byte b → nibbles_ok b = true.
Proof.
  intros Hb.
  assert (forallb nibbles_ok (map N.of_nat (seq 0 256)) = true) as H by (by vm_compute).
  rewrite forallb_forall in H. apply H, in_map_iff. exists (N.to_nat b).
  rewrite N2Nat.id, in_seq. unfold is_byte in Hb. split; [done|lia].
Qed.

Lemma nibble_pair b :
  is_byte b → ∃ h l,
    AuthHex.decode_nibble (hex_digit (N.shiftr b 4)) = Some h
    ∧ AuthHex.decode_nibble (hex_digit (N.land b 0x0f)) = Some l
    ∧ AuthHex.join_nibbles h l = b.
Proof.
  intros Hb%nibbles_all. revert Hb. unfold nibbles_ok. repeat case_match; try done.
  intros ?%N.eqb_eq. eauto.
Qed.

Lemma encode_hex_ascii bs : wf_bytes bs → Forall (λ c, c < 128) (AuthHex.encode_hex bs).
Proof.
  induction 1 as [|b bs Hb _ IH]; cbn; [constructor|].
  destruct (nibble_pair b Hb) as (h & l & Hh & Hl & _).
  constructor; [by eapply nibble_ascii|]. constructor; [by eapply nibble_ascii|done].
Qed.

Lemma encode_hex_length bs : length (AuthHex.encode_hex bs) = (2 * length bs)%nat.
Proof. induction bs as [|b bs IH]; cbn; [done|]. rewrite IH. lia. Qed.

Lemma decode_encode_hex bs : wf_bytes bs → decode_pairs (AuthHex.encode_hex bs) = Val (Some bs).
Proof.
  induction 1 as [|b bs Hb _ IH]; cbn; [done|].
  destruct (nibble_pair b Hb) as (h & l & -> & -> & E). rewrite IH. cbn. by rewrite E.
Qed.

Lemma to_hex_encode_hex bs : RuntimeHex.to_hex bs = AuthHex.encode_hex bs.
Proof. induction bs as [|b bs IH]; cbn; [done|]. by rewrite IH. Qed.

Lemma encode_hex_even bs :
  wf_bytes bs → Nat.even (length (encode (AuthHex.encode_hex bs))) = true.
Proof.
  intros H. rewrite encode_ascii by by apply encode_hex_ascii.
  rewrite encode_hex_length. apply Nat.even_spec. by exists (length bs).
Qed.

Lemma from_hex_to_hex bs : wf_bytes bs → RuntimeHex.from_hex (RuntimeHex.to_hex bs) = Some bs.
Proof.
  intros H. unfold RuntimeHex.from_hex.
  by rewrite from_hex_checked_pairs, to_hex_encode_hex, encode_hex_even, decode_encode_hex.
Qed.

Lemma decode_hex_encode_hex bs : wf_bytes bs → AuthHex.decode_hex (AuthHex.encode_hex bs) = Some bs.
Proof.
  intros H. unfold AuthHex.decode_hex.
  by rewrite decode_hex_checked_pairs, encode_hex_even, decode_encode_hex.
Qed.

(** Decoded nibbles join to a byte. *)
Lemma join_nibbles_byte h l : h < 16 → l < 16 → is_byte (AuthHex.join_nibbles h l).
Proof.
  intros Hh Hl. unfold AuthHex.join_nibbles.
  assert (forallb (λ h, forallb (λ l, N.lor (N.shiftl h 4 mod 256) l <? 256)
    (map N.of_nat (seq 0 16))) (map N.of_nat (seq 0 16)) = true) as H by (by vm_compute).
  assert (∀ n, n < 16 → In n (map N.of_nat (seq 0 16))) as Hin.
  { intros n Hn. apply in_map_iff. exists (N.to_nat n). rewrite N2Nat.id, in_seq. split; [done|lia]. }
  rewrite forallb_forall in H. specialize (H h (Hin h Hh)).
  rewrite forallb_forall in H. specialize (H l (Hin l Hl)). by apply N.ltb_lt.
Qed.

Lemma decode_pairs_wf cs bs : decode_pairs cs = Val (Some bs) → wf_bytes bs.
Proof.
  revert bs. induction cs as [|c|c c' cs IH] using list_ind2; intros bs; cbn.
  - intros [= <-]. constructor.
  - by destruct (AuthHex.decode_nibble c).
  - destruct (AuthHex.decode_nibble c) as [h|] eqn:Eh; [|done].
    destruct (AuthHex.decode_nibble c') as [l|] eqn:El; [|done].
    destruct (decode_pairs cs) as [[r|]|]; cbn; [|done|done]. intros [= <-].
    constructor; [|by apply IH]. apply nibble_ascii in Eh as [_ ?], El as [_ ?]. by apply join_nibbles_byte.
Qed.

Lemma from_hex_wf s bs : RuntimeHex.from_hex s = Some bs → wf_bytes bs.
Proof.
  unfold RuntimeHex.from_hex. rewrite from_hex_checked_pairs. destruct (Nat.even _); [|done].
  destruct (decode_pairs s) as [o|] eqn:E; [|done]. intros ->. by eapply decode_pairs_wf.
Qed.

(** Hexadecimal text is safe on a key-value line. *)
Lemma hex_char_facts b n :
  n = N.shiftr b 4 ∨ n = N.land b 0x0f → is_byte b →
  is_whitespace (hex_digit n) = false ∧ hex_digit n ≠ LF ∧ hex_digit n < 128.
Proof.
  intros Hn Hb.
  assert (n < 16) as H16.
  { unfold is_byte in Hb. destruct Hn as [->| ->].
    - rewrite N.shiftr_div_pow2. apply N.Div0.div_lt_upper_bound. lia.
    - change 15 with (N.ones 4). rewrite N.land_ones. by apply N.mod_lt. }
  assert (forallb (λ n, negb (is_whitespace (hex_digit n)) && negb (hex_digit n =? LF)
    && (hex_digit n <? 128)) (map N.of_nat (seq 0 16)) = true) as H by (by vm_compute).
  rewrite forallb_forall in H. specialize (H n).
  assert (In n (map N.of_nat (seq 0 16))) as Hin.
  { apply in_map_iff. exists (N.to_nat n). rewrite N2Nat.id, in_seq. split; [done|lia]. }
  apply H in Hin. rewrite !andb_true_iff, !negb_true_iff, N.eqb_neq, N.ltb_lt in Hin. tauto.
Qed.

Lemma encode_hex_line_safe bs : wf_bytes bs → line_safe (AuthHex.encode_hex bs).
Proof.
  intros H.
  assert (Forall (λ c, is_whitespace c = false ∧ c ≠ LF) (AuthHex.encode_hex bs)) as HF.
  { induction H as [|b bs Hb _ IH]; cbn; [constructor|].
    destruct (hex_char_facts b _ (or_introl eq_refl) Hb) as (? & ? & _).
    destruct (hex_char_facts b _ (or_intror eq_refl) Hb) as (? & ? & _).
    constructor; [done|]. by constructor. }
  split.
  - intros Hc. rewrite Forall_forall in HF. by destruct (HF _ Hc).
  - apply trim_no_ws. eapply Forall_impl; [done|]. by intros c [].
Qed.

#[export] Hint Resolve encode_hex_line_safe : text.

(** ** Properties *)

(** C40: the two hexadecimal decoders of the program, one on characters
    (auth.rs) and one on bytes (runtime.rs), never index out of range although
    they check only that the number of BYTES is even, accept the same texts,
    give the same bytes, and undo both encoders. *)
Theorem decode_hex_equiv (value : str) (bs : bytes) :
  (AuthHex.decode_hex_checked value ≠ Panic ∧ RuntimeHex.from_hex_checked value ≠ Panic)
  ∧ AuthHex.decode_hex value = RuntimeHex.from_hex value
  ∧ (wf_bytes bs → AuthHex.decode_hex (AuthHex.encode_hex bs) = Some bs
                   ∧ RuntimeHex.from_hex (RuntimeHex.to_hex bs) = Some bs).
Proof.
  split_and!.
  - rewrite decode_hex_checked_pairs. destruct (Nat.even _) eqn:E; [|done].
    by apply decode_pairs_encode.
  - rewrite from_hex_checked_pairs. destruct (Nat.even _) eqn:E; [|done].
    by apply decode_pairs_encode.
  - unfold AuthHex.decode_hex, RuntimeHex.from_hex.
    by rewrite decode_hex_checked_pairs, from_hex_checked_pairs.
  - intros Hb. split; [by apply decode_hex_encode_hex|by apply from_hex_to_hex].
Qed.
