(* ===== verification/KeyValue.v ===== *)
(** * Key-value payloads

    The bodies exchanged by transport.rs and discovery.rs are sequences of
    key=value lines; both files define the same [serialize_payload] and
    [parse_payload], up to the error they report.  They are modelled once,
    with the error as an argument. *)

From S2P Require Import Prelude Str Utf8.

Local Open Scope N_scope.

(** ** Operations *)

Definition serialize_payload (entries : list (str * str)) : bytes := encode (kv_text entries).

(** The loop over [text.lines()]: blank lines are skipped, a line without ['=']
    is an error, a later key overrides an earlier one. *)
Fixpoint payload_loop {E} (err : E) (map : gmap str str) (ls : list str) :
    result E (gmap str str) :=
  match ls with
  | [] => Ok map
  | line :: rest =>
      if is_empty (trim line) then payload_loop err map rest
      else
        '(key, value) ← ok_or err (split_once 61 line);
        payload_loop err (<[trim key := trim value]> map) rest
  end.

Definition parse_payload_with {E} (err : E) (body : bytes) : result E (gmap str str) :=
  text ← ok_or err (from_utf8 body);
  payload_loop err ∅ (lines text).

Arguments serialize_payload : simpl never.
Arguments parse_payload_with : simpl never.

(** The map built by inserting the entries in order. *)
Definition insert_all (m : gmap str str) (kvs : list (str * str)) : gmap str str :=
  foldl (λ m kv, <[kv.1 := kv.2]> m) m kvs.

(** ** Tactics *)

Ltac kv_lookup :=
  repeat first
    [ rewrite lookup_insert_eq
    | rewrite lookup_insert_ne by by_compute
    | rewrite lookup_delete_ne by by_compute ].

Lemma kv_safe_intro k v : key_safe k → line_safe v → kv_safe (k, v).
Proof. done. Qed.

(** Close [Forall kv_safe] goals on lists with literal keys. *)
Ltac kv_safe_list :=
  repeat (apply Forall_cons_2; [apply kv_safe_intro; [by_compute|] | ]);
  try apply Forall_nil_2; try first [done | by auto with text | by_compute].

(** ** Lemmas *)

Lemma kv_text_wf kvs :
  Forall (λ kv, wf_str kv.1 ∧ wf_str kv.2) kvs → wf_str (kv_text kvs).
Proof.
  induction 1 as [|[k v] kvs [Hk Hv] _ IH]; [constructor|].
  unfold kv_text in *. cbn [map concat]. unfold kv_line. cbn [fst snd] in *. auto 8 with text.
Qed.

Lemma payload_loop_kv {E} (err : E) m kvs :
  Forall kv_safe kvs → payload_loop err m (map kv_line kvs) = Ok (insert_all m kvs).
Proof.
  intros H. revert m. induction H as [|[k v] kvs [Hk Hv] _ IH]; intros m; [done|].
  cbn [map payload_loop fst snd] in *. rewrite kv_line_not_blank by done.
  rewrite split_once_kv by done. cbn [ok_or mbind result_bind]. rewrite IH.
  destruct Hk as [[_ ->] _], Hv as [_ ->]. done.
Qed.

(** A payload of safe entries is read back as the map of its entries. *)
Lemma parse_serialize_payload {E} (err : E) kvs :
  Forall kv_safe kvs → Forall (λ kv, wf_str kv.1 ∧ wf_str kv.2) kvs →
  parse_payload_with err (serialize_payload kvs) = Ok (insert_all ∅ kvs).
Proof.
  intros Hs Hw. unfold parse_payload_with, serialize_payload.
  rewrite from_utf8_encode by (by apply kv_text_wf). cbn [ok_or mbind result_bind].
  by rewrite lines_kv_text, payload_loop_kv.
Qed.

(** The values of a parsed payload are trimmed lines. *)
Lemma payload_loop_safe {E} (err : E) m ls m' :
  Forall (λ l, LF ∉ l) ls → map_Forall (λ _ v, line_safe v) m →
  payload_loop err m ls = Ok m' → map_Forall (λ _ v, line_safe v) m'.
Proof.
  intros HL. revert m. induction HL as [|l ls Hl _ IH]; intros m Hm; cbn; [by intros [= <-]|].
  case_match; [by apply IH|].
  destruct (split_once 61 l) as [[k v]|] eqn:E1; cbn; [|done].
  apply IH, map_Forall_insert_2; [|done].
  apply split_once_Some in E1 as [-> _]. apply trim_line_safe.
  intros Hin. apply Hl, elem_of_app. right. by right.
Qed.

Lemma parse_payload_safe {E} (err : E) b m :
  parse_payload_with err b = Ok m → map_Forall (λ _ v, line_safe v) m.
Proof.
  unfold parse_payload_with. destruct (from_utf8 b) as [t|]; cbn; [|done].
  apply payload_loop_safe; [apply lines_no_LF|apply map_Forall_empty].
Qed.

(** Close [Forall] goals on the well-formedness of literal-keyed entries. *)
Ltac kv_wf_list :=
  repeat (apply Forall_cons_2; [cbn [fst snd]; split; [by apply lit_wf|] | ]);
  try apply Forall_nil_2; try first [done | by auto with text].
