(* ===== verification/SshKeys.v ===== *)
(** * Public keys (src/src/ssh_keys.rs)

    Parsing and normalisation of an OpenSSH public-key line.  The theorems:
    which inputs each outcome of [parse_public_key] stands for, and what
    [normalize_public_key] guarantees to the code that stores and sends keys:
    a single trimmed line, stable under a second normalisation. *)

From S2P Require Import Prelude Str Utf8.

(** ** Data *)

Record PublicKeyRecord := {
  algorithm : str;
  key_data : str;
  comment : option str;
  original : str
}.

Inductive PublicKeyError :=
| EmptyInput
| InvalidFormat
| UnsupportedAlgorithm
| ReadFailed (path : str).

#[export] Instance PublicKeyError_eq_dec : EqDecision PublicKeyError.
Proof. solve_decision. Defined.
#[export] Instance PublicKeyRecord_eq_dec : EqDecision PublicKeyRecord.
Proof. solve_decision. Defined.

(** ** Operations *)

Definition supported_algorithms : list str :=
  [lit "ssh-ed25519"; lit "ssh-rsa"; lit "ecdsa-sha2-nistp256";
   lit "ecdsa-sha2-nistp384"; lit "ecdsa-sha2-nistp521"].

Definition is_supported_algorithm (value : str) : bool :=
  bool_decide (value ∈ supported_algorithms).

(** [parts[0]] and [parts[1]] exist after the length test: the match binds
    them. *)
Definition parse_public_key (input : str) : result PublicKeyError PublicKeyRecord :=
  let trimmed := trim input in
  if is_empty trimmed then Err EmptyInput
  else
    match split_whitespace trimmed with
    | alg :: data :: rest =>
        if negb (is_supported_algorithm alg) then Err UnsupportedAlgorithm
        else if is_empty data then Err InvalidFormat
        else
          let comment :=
            match rest with [] => None | _ => Some (join (lit " ") rest) end in
          Ok {| algorithm := alg; key_data := data; comment := comment; original := trimmed |}
    | _ => Err InvalidFormat
    end.

Definition normalize_public_key (input : str) : result PublicKeyError str :=
  record ← parse_public_key input;
  let normalized := algorithm record ++ lit " " ++ key_data record in
  match comment record with
  | Some c => Ok (normalized ++ lit " " ++ trim c)
  | None => Ok normalized
  end.

(** [fs::read_to_string] of the file system is an argument: the content of a
    readable UTF-8 file. *)
Definition read_local_public_key (read_to_string : str → option str) (path : str) :
    result PublicKeyError str :=
  content ← ok_or (ReadFailed path) (read_to_string path);
  normalize_public_key content.

Arguments normalize_public_key : simpl never.
Arguments parse_public_key : simpl never.

(** ** Lemmas *)

(** A word list that is a key: an algorithm, the key data, a comment. *)
Definition key_words (ws : list str) : Prop :=
  ∃ alg data rest, ws = alg :: data :: rest ∧ is_supported_algorithm alg = true.

Lemma trim_nil_words s : trim s = [] ↔ split_whitespace s = [].
Proof.
  split.
  - intros H. rewrite <- split_whitespace_trim, H. done.
  - intros H. rewrite <- split_whitespace_trim in H.
    destruct (trim s) as [|c t] eqn:E; [done|].
    destruct (trim_split s) as (_ & _ & _ & _ & _ & Hh & _). rewrite E in Hh. cbn in Hh.
    exfalso. revert H. unfold split_whitespace. cbn [split]. rewrite Hh.
    destruct (split is_whitespace t) as [|h l]; by rewrite filter_cons_True.
Qed.

Lemma parse_public_key_words input :
  parse_public_key input =
  match split_whitespace input with
  | [] => Err EmptyInput
  | [_] => Err InvalidFormat
  | alg :: data :: rest =>
      if is_supported_algorithm alg then
        Ok {| algorithm := alg; key_data := data;
              comment := match rest with [] => None | _ => Some (join (lit " ") rest) end;
              original := trim input |}
      else Err UnsupportedAlgorithm
  end.
Proof.
  unfold parse_public_key, is_empty. rewrite split_whitespace_trim.
  case_bool_decide as H.
  { apply trim_nil_words in H. by rewrite H. }
  pose proof (split_whitespace_words input) as HF.
  destruct (split_whitespace input) as [|alg [|data rest]] eqn:E; [|done|].
  { by apply trim_nil_words in E. }
  destruct (is_supported_algorithm alg); cbn [negb]; [|done].
  rewrite bool_decide_false; [done|].
  inversion HF as [|? ? _ HF']; subst. inversion HF' as [|? ? [Hd _] _]; by subst.
Qed.

Lemma normalize_words input :
  normalize_public_key input =
  match split_whitespace input with
  | [] => Err EmptyInput
  | [_] => Err InvalidFormat
  | alg :: _ :: _ =>
      if is_supported_algorithm alg then Ok (join (lit " ") (split_whitespace input))
      else Err UnsupportedAlgorithm
  end.
Proof.
  unfold normalize_public_key. rewrite parse_public_key_words.
  pose proof (split_whitespace_words input) as HF.
  destruct (split_whitespace input) as [|alg [|data rest]]; try done.
  destruct (is_supported_algorithm alg); [|done]. cbn [mbind result_bind comment algorithm key_data].
  destruct rest as [|w rest]; [done|].
  rewrite trim_join_words by (by inversion HF as [|? ? _ HF']; inversion HF').
  by rewrite !join_cons2, <- !app_assoc.
Qed.

Lemma normalize_Ok input r :
  normalize_public_key input = Ok r ↔
  key_words (split_whitespace input) ∧ r = join (lit " ") (split_whitespace input).
Proof.
  rewrite normalize_words. unfold key_words. split.
  - destruct (split_whitespace input) as [|alg [|data rest]]; try done.
    destruct (is_supported_algorithm alg) eqn:E; [|done]. intros [= <-]. eauto 7.
  - intros ((alg & data & rest & -> & E) & ->). by rewrite E.
Qed.

Lemma normalize_idem input r :
  normalize_public_key input = Ok r → normalize_public_key r = Ok r.
Proof.
  rewrite !normalize_Ok. intros [Hk ->].
  by rewrite split_whitespace_join by apply split_whitespace_words.
Qed.

Lemma is_whitespace_LF : is_whitespace LF = true.
Proof. done. Qed.

Lemma word_no_LF w : word w → LF ∉ w.
Proof. intros [_ H] Hc. rewrite Forall_forall in H. by specialize (H _ Hc). Qed.

Lemma join_words_line_safe ws : Forall word ws → line_safe (join (lit " ") ws).
Proof.
  intros H. split; [|by apply trim_join_words].
  intros [Hc|(w & Hw & Hc)]%elem_join.
  - apply list_elem_of_singleton in Hc. done.
  - rewrite Forall_forall in H. by apply (word_no_LF w); [apply H|].
Qed.

Lemma normalize_line_safe input r :
  normalize_public_key input = Ok r → line_safe r ∧ r ≠ [].
Proof.
  rewrite normalize_Ok. intros [(alg & data & rest & E & _) ->].
  pose proof (split_whitespace_words input) as HF.
  split; [by apply join_words_line_safe|]. apply join_words_edges; [done|]. by rewrite E.
Qed.

Lemma normalize_wf input r : wf_str input → normalize_public_key input = Ok r → wf_str r.
Proof.
  unfold wf_str. rewrite !Forall_forall, normalize_Ok. intros H [_ ->] c.
  intros [Hc|(w & Hw & Hc)]%elem_join.
  - apply list_elem_of_singleton in Hc as ->. by left.
  - apply H. by eapply elem_split_whitespace.
Qed.

(** A normalised key starts with its algorithm, hence never with ['#']. *)
Lemma normalize_head input r :
  normalize_public_key input = Ok r → head r = Some 115%N ∨ head r = Some 101%N.
Proof.
  rewrite normalize_Ok. intros [(alg & data & rest & -> & E) ->].
  rewrite join_cons2. unfold is_supported_algorithm in E. apply bool_decide_eq_true in E.
  unfold supported_algorithms in E.
  repeat (apply elem_of_cons in E as [->|E]; [vm_compute; auto|]).
  by apply not_elem_of_nil in E.
Qed.

#[export] Hint Resolve normalize_idem : text.

(** ** Properties *)

(** The outcome of [parse_public_key] is determined by the white-space
    separated words of the input: no word is [EmptyInput], one word is
    [InvalidFormat], an unknown first word [UnsupportedAlgorithm], and
    otherwise the record has the first word, the second word, and the rest
    joined by single spaces; in particular the code's second [InvalidFormat]
    (empty key data) is unreachable. *)
Theorem parse_public_key_outcomes (input : str) :
  match split_whitespace input with
  | [] => parse_public_key input = Err EmptyInput
  | [_] => parse_public_key input = Err InvalidFormat
  | alg :: data :: rest =>
      ((alg ∉ supported_algorithms) ∧ parse_public_key input = Err UnsupportedAlgorithm)
      ∨ ((alg ∈ supported_algorithms) ∧ data ≠ [] ∧
         ∃ r, parse_public_key input = Ok r ∧ algorithm r = alg ∧ key_data r = data
              ∧ original r = trim input
              ∧ (comment r = None ↔ rest = [])
              ∧ (∀ c, comment r = Some c → c = join (lit " ") rest ∧ trim c = c))
  end.
Proof.
  rewrite parse_public_key_words. pose proof (split_whitespace_words input) as HF.
  destruct (split_whitespace input) as [|alg [|data rest]]; try done.
  inversion HF as [|? ? _ HF']; subst. inversion HF' as [|? ? [Hd _] HF'']; subst.
  unfold is_supported_algorithm. case_bool_decide; [right|left; done].
  split_and!; [done|done|]. eexists. split; [done|]. cbn [algorithm key_data comment original].
  split_and!; try done; [by destruct rest|].
  intros c. destruct rest as [|w rest]; [done|]. intros <-%(inj Some).
  split; [done|]. by apply trim_join_words.
Qed.

(** C39: a key accepted by [normalize_public_key] comes out as one non-empty
    line without surrounding white space and starting with one of the supported
    algorithms, whatever line feeds or tabs the input had, and normalising it
    again changes nothing: no input can make the tool write an extra line into
    authorized_keys or onto the wire. *)
Theorem normalize_public_key_canonical (input r : str) :
  normalize_public_key input = Ok r →
  normalize_public_key r = Ok r ∧ line_safe r ∧ r ≠ []
  ∧ (∃ alg, (alg ∈ supported_algorithms) ∧ starts_with (alg ++ lit " ") r = true)
  ∧ split_whitespace r = split_whitespace input.
Proof.
  intros H. pose proof (normalize_line_safe _ _ H) as [? ?].
  pose proof (normalize_idem _ _ H). split_and!; try done.
  - apply normalize_Ok in H as [(alg & data & rest & -> & E) ->]. exists alg.
    apply bool_decide_eq_true in E. split; [done|].
    rewrite join_cons2, app_assoc.
    generalize (alg ++ lit " "). intros p. generalize (join (lit " ") (data :: rest)).
    intros q. induction p as [|c p IH]; cbn; [done|]. by rewrite N.eqb_refl.
  - apply normalize_Ok in H as [_ ->]. by apply split_whitespace_join, split_whitespace_words.
Qed.

Definition sample_key : str := lit "  ssh-ed25519   AAAAC3Nza    node-a  ".

Lemma normalize_public_key_canonical_witness :
  normalize_public_key sample_key = Ok (lit "ssh-ed25519 AAAAC3Nza node-a")
  ∧ normalize_public_key (lit "ssh-ed25519 AAAAC3Nza node-a")
    = Ok (lit "ssh-ed25519 AAAAC3Nza node-a").
Proof.
  split; [by vm_compute|].
  apply (normalize_public_key_canonical sample_key). by vm_compute.
Defined.
