(* ===== verification/AuthorizedKeys.v ===== *)
(** * The managed block of authorized_keys (src/src/authorized_keys.rs)

    [upsert_managed_block] as a function on text.  The theorems: lines outside
    the block are kept, the block holds exactly the normalised keys, applying
    the same keys again changes nothing, the two error outcomes are exact; and
    what happens on a file whose end marker precedes its begin marker. *)

From S2P Require Import Prelude Str Utf8 SshKeys.

(** ** Data *)

Definition MANAGED_BEGIN : str := lit "# ssh-key-sync begin".
Definition MANAGED_END : str := lit "# ssh-key-sync end".

Inductive AuthorizedKeysError :=
| MissingManagedEnd
| InvalidPublicKey
| ReadFailed (path : str)
| WriteFailed (path : str)
| SyncFailed (path : str)
| RenameFailed (path : str)
| SetPermissionsFailed (path : str).

#[export] Instance AuthorizedKeysError_eq_dec : EqDecision AuthorizedKeysError.
Proof. solve_decision. Defined.

(** ** Operations *)

(** The loop of [normalize_and_dedup]: [seen] is the [HashSet], [output] the
    vector built so far. *)
Fixpoint normalize_loop (seen : gset str) (output : list str) (managed_keys : list str) :
    result AuthorizedKeysError (list str) :=
  match managed_keys with
  | [] => Ok output
  | key :: rest =>
      normalized ← map_err (λ _, InvalidPublicKey) (normalize_public_key key);
      if decide (normalized ∈ seen) then normalize_loop seen output rest
      else normalize_loop ({[normalized]} ∪ seen) (output ++ [normalized]) rest
  end.

Definition normalize_and_dedup (managed_keys : list str) :
    result AuthorizedKeysError (list str) :=
  normalize_loop ∅ [] managed_keys.

Definition append_managed_block (output_lines keys : list str) : list str :=
  output_lines ++ [MANAGED_BEGIN] ++ keys ++ [MANAGED_END].

Definition is_begin (line : str) : Prop := trim line = MANAGED_BEGIN.
Definition is_end (line : str) : Prop := trim line = MANAGED_END.

#[export] Instance is_begin_dec line : Decision (is_begin line).
Proof. unfold is_begin. apply _. Defined.
#[export] Instance is_end_dec line : Decision (is_end line).
Proof. unfold is_end. apply _. Defined.

(** The lines of the updated file, once the keys are normalised.  The slices
    [lines[..begin]] and [lines[end + 1..]] are in range because both indices
    are positions of the vector. *)
Definition updated_lines (lines : list str) (keys : list str) : list str :=
  match position is_begin lines, position is_end lines with
  | Some b, Some e => append_managed_block (take b lines) keys ++ drop (e + 1) lines
  | _, _ =>
      let output :=
        if bool_decide (lines ≠ [] ∧ last lines ≠ Some []) then lines ++ [[]] else lines in
      append_managed_block output keys
  end.

Definition upsert_managed_block (existing_content : str) (managed_keys : list str) :
    result AuthorizedKeysError str :=
  normalized_keys ← normalize_and_dedup managed_keys;
  let lines := lines existing_content in
  if bool_decide (is_Some (position is_begin lines) ∧ position is_end lines = None)
  then Err MissingManagedEnd
  else Ok (join [LF] (updated_lines lines normalized_keys)).

Arguments upsert_managed_block : simpl never.

(** ** The block of a file

    [in_order ls]: the file has no marker at all, or its first end marker
    comes after its first begin marker. *)
Definition in_order (ls : list str) : Prop :=
  match position is_begin ls, position is_end ls with
  | None, None => True
  | Some b, Some e => (b < e)%nat
  | _, _ => False
  end.

#[export] Instance in_order_dec ls : Decision (in_order ls).
Proof. unfold in_order. repeat case_match; apply _. Defined.

(** [block keys]: the lines of a managed block. *)
Definition block (keys : list str) : list str := [MANAGED_BEGIN] ++ keys ++ [MANAGED_END].

(** ** Lemmas *)

Lemma normalize_loop_spec seen output keys :
  normalize_loop seen output keys =
  match mapM (M := result PublicKeyError) normalize_public_key keys with
  | Ok ns => Ok (output ++ filter (λ n, n ∉ seen) (nub ns))
  | Err _ => Err InvalidPublicKey
  end.
Proof.
  revert seen output. induction keys as [|key keys IH]; intros seen output.
  { cbn. by rewrite app_nil_r. }
  cbn [normalize_loop mapM].
  destruct (normalize_public_key key) as [n|e]; cbn; [|done].
  case_decide as Hn; rewrite IH; destruct (mapM _ keys) as [ns|]; cbn -[nub filter]; try done;
    rewrite nub_cons.
  - f_equal. f_equal. rewrite filter_cons_False by tauto. rewrite list_filter_filter.
    apply list_filter_iff. intros x. set_solver.
  - f_equal. rewrite filter_cons_True by done. rewrite <- app_assoc. f_equal. cbn [app]. f_equal.
    rewrite list_filter_filter. apply list_filter_iff. intros x. set_solver.
Qed.

Lemma normalize_and_dedup_spec keys :
  normalize_and_dedup keys =
  match mapM (M := result PublicKeyError) normalize_public_key keys with
  | Ok ns => Ok (nub ns)
  | Err _ => Err InvalidPublicKey
  end.
Proof.
  unfold normalize_and_dedup. rewrite normalize_loop_spec.
  destruct (mapM _ keys) as [ns|]; [|done]. cbn [app]. f_equal.
  induction (nub ns) as [|n l IH]; [done|]. by rewrite filter_cons_True, IH by set_solver.
Qed.

(** The user's lines before and after the block. *)
Definition before (ls : list str) : list str :=
  match position is_begin ls, position is_end ls with
  | Some b, Some e => take b ls
  | _, _ => if bool_decide (ls ≠ [] ∧ last ls ≠ Some []) then ls ++ [[]] else ls
  end.
Definition after (ls : list str) : list str :=
  match position is_begin ls, position is_end ls with
  | Some b, Some e => drop (e + 1) ls
  | _, _ => []
  end.

(** A line that is no marker. *)
Definition plain (line : str) : Prop := ¬ is_begin line ∧ ¬ is_end line.

(** A text whose rewriting does not disturb its line ends: no line keeps a
    carriage return once split, and what follows the block does not end with an
    empty line. *)
Definition tidy (ls : list str) : Prop :=
  Forall no_cr_end ls ∧ last (after ls) ≠ Some [].

#[export] Instance tidy_dec ls : Decision (tidy ls).
Proof. unfold tidy, no_cr_end. apply _. Defined.

Lemma updated_lines_frame ls keys :
  updated_lines ls keys = before ls ++ block keys ++ after ls.
Proof.
  unfold updated_lines, before, after, append_managed_block, block.
  repeat case_match; rewrite <- ?app_assoc, ?app_nil_r; done.
Qed.

Lemma markers : is_begin MANAGED_BEGIN ∧ is_end MANAGED_END
  ∧ ¬ is_end MANAGED_BEGIN ∧ ¬ is_begin MANAGED_END.
Proof. by vm_compute. Qed.

Lemma normalized_key_plain k r : normalize_public_key k = Ok r → plain r.
Proof.
  intros H. pose proof (normalize_line_safe _ _ H) as [[_ Ht] _].
  pose proof (normalize_head _ _ H) as Hh.
  unfold plain, is_begin, is_end. rewrite Ht.
  split; intros ->; vm_compute in Hh; destruct Hh; discriminate.
Qed.

Lemma mapM_result_Ok {E A B} (f : A → result E B) l ys :
  mapM (M := result E) f l = Ok ys ↔ Forall2 (λ x y, f x = Ok y) l ys.
Proof.
  revert ys. induction l as [|x l IH]; intros ys; cbn.
  - split; [intros [= <-]; constructor | by inversion 1].
  - split.
    + destruct (f x) as [y|] eqn:E1; [cbn|done]. destruct (mapM f l) as [ys'|]; [cbn|done].
      intros [= <-]. constructor; [done|by apply IH].
    + inversion 1 as [|? y ? ys' Hy Hys]; subst. rewrite Hy. cbn.
      apply IH in Hys. by rewrite Hys.
Qed.

Lemma normalized_keys_elem ks keys k :
  normalize_and_dedup ks = Ok keys → k ∈ keys → ∃ m, m ∈ ks ∧ normalize_public_key m = Ok k.
Proof.
  rewrite normalize_and_dedup_spec. destruct (mapM _ ks) as [ns|] eqn:E; [|done].
  intros [= <-]. rewrite elem_of_nub. apply mapM_result_Ok in E.
  induction E as [|m n ks ns Hm E IH]; [by intros ?%not_elem_of_nil|].
  intros [->|H]%elem_of_cons.
  - exists m. split; [by left|done].
  - destruct (IH H) as (m' & ? & ?). exists m'. split; [by right|done].
Qed.

(** What every line of the block's body satisfies. *)
Definition key_line (k : str) : Prop := plain k ∧ (LF ∉ k) ∧ no_cr_end k ∧ k ≠ [].

Lemma normalized_keys_lines ks keys :
  normalize_and_dedup ks = Ok keys → Forall key_line keys.
Proof.
  intros H. apply Forall_forall. intros k Hk.
  destruct (normalized_keys_elem _ _ _ H Hk) as (m & _ & Hm).
  pose proof (normalize_line_safe _ _ Hm) as [[? ?] ?].
  split_and!; [by eapply normalized_key_plain|done|by apply line_safe_no_cr|done].
Qed.

Lemma in_order_cases ls :
  in_order ls →
  (∃ b old e aft, ls = before ls ++ b :: old ++ e :: aft ∧ aft = after ls
     ∧ is_begin b ∧ is_end e ∧ Forall (λ l, ¬ is_end l) old ∧ Forall plain (before ls))
  ∨ (Forall plain ls ∧ after ls = [] ∧ (before ls = ls ∨ before ls = ls ++ [[]])).
Proof.
  unfold in_order, before, after.
  destruct (position is_begin ls) as [b|] eqn:Eb, (position is_end ls) as [e|] eqn:Ee; try done.
  - intros Hlt. left. apply position_Some in Eb as (l1 & x & l2 & -> & <- & Hx & Hl1).
    apply position_Some in Ee as (m1 & y & m2 & E & Hlen & Hy & Hm1).
    assert (∃ old, m1 = l1 ++ x :: old) as [old ->].
    { exists (drop (S (length l1)) m1). rewrite <- (take_drop (S (length l1)) m1) at 1.
      rewrite (cons_middle x), app_assoc. f_equal.
      apply (f_equal (take (S (length l1)))) in E.
      rewrite (take_app_le m1) in E by lia. rewrite <- E, (cons_middle x), app_assoc.
      rewrite take_app_length'; [done|]. rewrite length_app. cbn. lia. }
    rewrite <- app_assoc in E. apply app_inv_head in E. injection E as ->.
    apply Forall_app in Hm1 as [Hl1' Hm1]. inversion Hm1 as [|? ? Hxe Hold]; subst.
    exists x, old, y, m2. rewrite take_app_length. split_and!; try done.
    + rewrite app_comm_cons, (app_assoc l1), (cons_middle y), app_assoc.
      rewrite drop_app_length'; [done|]. rewrite !length_app. cbn. lia.
    + rewrite Forall_forall in *. intros l Hl. split; auto.
  - intros _. right. apply position_None in Eb, Ee. split_and!; [|done|].
    + rewrite Forall_forall in *. intros l Hl. split; auto.
    + case_bool_decide; auto.
Qed.

(** The frame of a file that holds a block between plain lines. *)
Lemma frame_of_block pre keys post :
  Forall plain pre → Forall plain keys →
  let ls := pre ++ block keys ++ post in
  before ls = pre ∧ after ls = post ∧ in_order ls.
Proof.
  intros Hpre Hkeys ls. destruct markers as (Hb & He & Hbe & Heb).
  assert (position is_begin ls = Some (length pre)) as Eb.
  { apply position_app; [done|]. eapply Forall_impl; [exact Hpre|]. by intros l []. }
  assert (position is_end ls = Some (length (pre ++ MANAGED_BEGIN :: keys))) as Ee.
  { subst ls. unfold block. rewrite <- !app_assoc. cbn [app].
    rewrite app_comm_cons, app_assoc. apply position_app; [done|].
    rewrite Forall_app, Forall_cons. split_and!; [|done|];
      (eapply Forall_impl; [eassumption|]; by intros l []). }
  unfold before, after, in_order. rewrite Eb, Ee. subst ls. split_and!.
  - by rewrite take_app_length.
  - unfold block. rewrite <- !app_assoc. cbn [app].
    rewrite (app_comm_cons keys), app_assoc, (cons_middle MANAGED_END), app_assoc.
    rewrite drop_app_length'; [done|]. rewrite !length_app. cbn. lia.
  - rewrite length_app. cbn. lia.
Qed.

Lemma plain_nil : plain [].
Proof. split; by vm_compute. Qed.

Lemma before_plain ls : in_order ls → Forall plain (before ls).
Proof.
  intros [(b & old & e & aft & _ & _ & _ & _ & _ & H)|(H & _ & [->| ->])]%in_order_cases;
    [done|done|].
  apply Forall_app. split; [done|]. constructor; [apply plain_nil|constructor].
Qed.

Lemma frame_elem ls l : in_order ls → l ∈ before ls ++ after ls → l ∈ ls ∨ l = [].
Proof.
  intros [(b & old & e & aft & E & Ea & _)|(_ & Ea & Hb)]%in_order_cases.
  - rewrite elem_of_app, <- Ea. intros H. left. rewrite E. set_solver.
  - rewrite Ea, app_nil_r. destruct Hb as [->| ->]; [by left|].
    rewrite elem_of_app, list_elem_of_singleton. tauto.
Qed.

(** The text written is read back as the lines it was made of. *)
Lemma lines_updated ls keys :
  in_order ls → tidy ls → Forall (λ l, LF ∉ l) ls → Forall key_line keys →
  lines (join [LF] (updated_lines ls keys)) = updated_lines ls keys.
Proof.
  intros Ho [Hcr Hlast] HLF Hkeys. rewrite updated_lines_frame.
  assert (Forall (λ l, (LF ∉ l) ∧ no_cr_end l) (before ls ++ block keys ++ after ls)) as HF.
  { rewrite Forall_forall in HLF. rewrite Forall_forall in Hcr.
    rewrite Forall_forall in Hkeys. apply Forall_forall. intros l Hl.
    assert (l ∈ before ls ++ after ls ∨ l ∈ block keys) as [Hl'|Hl']
      by (rewrite !elem_of_app in *; tauto); clear Hl; rename Hl' into Hl.
    - destruct (frame_elem ls l Ho) as [?| ->]; [done|by auto|].
      by split; [apply not_elem_of_nil|].
    - unfold block in Hl. rewrite !elem_of_app, !list_elem_of_singleton in Hl.
      destruct Hl as [->|[Hl| ->]]; [split; by_compute| |split; by_compute].
      by destruct (Hkeys l Hl) as (_ & ? & ? & _). }
  apply lines_join.
  - eapply Forall_impl; [exact HF|]. by intros l [].
  - assert (∀ l, l ∈ removelast (before ls ++ block keys ++ after ls) →
      l ∈ before ls ++ block keys ++ after ls) as Hr.
    { intros l. generalize (before ls ++ block keys ++ after ls). intros L.
      induction L as [|x [|y L] IH]; [done| by intros ?%not_elem_of_nil|].
      cbn [removelast]. intros [->|H]%elem_of_cons; [by left|right; by apply IH]. }
    rewrite Forall_forall in HF. apply Forall_forall. intros l Hl. by apply HF, Hr.
  - rewrite !last_app. destruct (last (after ls)); [done|].
    unfold block. by rewrite !last_app.
Qed.

Lemma upsert_Ok c ks t :
  upsert_managed_block c ks = Ok t ↔
  ∃ keys, normalize_and_dedup ks = Ok keys
    ∧ ¬ (is_Some (position is_begin (lines c)) ∧ position is_end (lines c) = None)
    ∧ t = join [LF] (updated_lines (lines c) keys).
Proof.
  unfold upsert_managed_block. destruct (normalize_and_dedup ks) as [keys|e]; cbn -[position].
  - case_bool_decide as H; split.
    + done.
    + by intros (? & [= <-] & ? & _).
    + intros [= <-]. eauto.
    + by intros (? & [= <-] & _ & ->).
  - by split; [|intros (? & ? & _)].
Qed.

Lemma in_order_no_error ls :
  in_order ls → ¬ (is_Some (position is_begin ls) ∧ position is_end ls = None).
Proof. unfold in_order. intros H [[b Hb] He]. by rewrite Hb, He in H. Qed.

(** Writing keys over a block already written keeps only the last keys. *)
Lemma upsert_upsert c ks keys ks' t :
  in_order (lines c) → tidy (lines c) →
  normalize_and_dedup ks = Ok keys → upsert_managed_block c ks = Ok t →
  upsert_managed_block t ks' = upsert_managed_block c ks'.
Proof.
  intros Ho Ht Hks (keys0 & E & _ & ->)%upsert_Ok. rewrite Hks in E. injection E as <-.
  pose proof (normalized_keys_lines _ _ Hks) as Hkl.
  assert (Forall plain keys) as Hkp by (eapply Forall_impl; [exact Hkl|by intros k []]).
  pose proof (frame_of_block _ _ (after (lines c)) (before_plain _ Ho) Hkp) as (Hb & Ha & Hio).
  unfold upsert_managed_block.
  rewrite lines_updated by (done || apply lines_no_LF).
  destruct (normalize_and_dedup ks') as [keys'|]; [|done]. cbn [mbind result_bind].
  rewrite updated_lines_frame.
  rewrite bool_decide_false by by apply in_order_no_error.
  rewrite bool_decide_false by by apply in_order_no_error.
  by rewrite !updated_lines_frame, Hb, Ha.
Qed.

(** ** Properties *)

(** C10: on a file whose markers are in order, a successful update keeps every
    line outside the managed block, in its place and unchanged: the new text is
    the lines before the block, the block, the lines after it.  When the file
    had no block, it is appended after one separating empty line (none if the
    file was empty or ended with an empty line). *)
Theorem upsert_preserves_user_lines (c : str) (ks : list str) (t : str) :
  in_order (lines c) → upsert_managed_block c ks = Ok t →
  ∃ user_before user_after keys,
    normalize_and_dedup ks = Ok keys ∧
    ((∃ b old e, is_begin b ∧ is_end e ∧ Forall (λ l, ¬ is_end l) old
        ∧ lines c = user_before ++ [b] ++ old ++ [e] ++ user_after
        ∧ t = join [LF] (user_before ++ block keys ++ user_after))
     ∨ (Forall plain (lines c) ∧ user_after = [] ∧ lines c = user_before
        ∧ (t = join [LF] (user_before ++ block keys)
           ∨ t = join [LF] (user_before ++ [[]] ++ block keys)))).
Proof.
  intros Ho (keys & Hk & _ & ->)%upsert_Ok. rewrite updated_lines_frame.
  destruct (in_order_cases _ Ho) as [(b & old & e & aft & E & -> & Hb & He & Hold & _)|(Hp & -> & Hbef)].
  - exists (before (lines c)), (after (lines c)), keys. split; [done|]. left.
    exists b, old, e. split_and!; done.
  - exists (lines c), [], keys. split; [done|]. right. split_and!; try done.
    rewrite app_nil_r. destruct Hbef as [->| ->]; [by left|right]. by rewrite <- app_assoc.
Qed.

(** C11: updating is idempotent, and more: on a tidy file with its markers in
    order, updating twice is updating once with the keys of the second call; so
    re-applying the same keys gives the same text. *)
Theorem upsert_last_write_wins (c : str) (ks ks' : list str) (t : str) :
  in_order (lines c) → tidy (lines c) → upsert_managed_block c ks = Ok t →
  upsert_managed_block t ks' = upsert_managed_block c ks'
  ∧ upsert_managed_block t ks = Ok t.
Proof.
  intros Ho Ht H. destruct (proj1 (upsert_Ok _ _ _) H) as (keys & Hk & _).
  split; [by eapply upsert_upsert|]. by rewrite <- H; eapply upsert_upsert.
Qed.

(** [normalize_and_dedup] gives each normalised key once, in the order of
    its first occurrence, and fails exactly when some key does not parse. *)
Theorem normalize_and_dedup_exact (ks : list str) :
  (∀ keys, normalize_and_dedup ks = Ok keys →
     ∃ ns, Forall2 (λ k n, normalize_public_key k = Ok n) ks ns
       ∧ NoDup keys ∧ keys `sublist_of` ns ∧ (∀ n, n ∈ keys ↔ n ∈ ns) ∧ keys = nub ns)
  ∧ (∀ e, normalize_and_dedup ks = Err e →
     e = InvalidPublicKey ∧ ∃ k, k ∈ ks ∧ is_ok (normalize_public_key k) = false).
Proof.
  rewrite normalize_and_dedup_spec. split.
  - intros keys. destruct (mapM _ ks) as [ns|] eqn:E; [|done]. intros [= <-].
    apply mapM_result_Ok in E. exists ns.
    split_and!; [done|apply NoDup_nub|apply sublist_nub|apply elem_of_nub|done].
  - intros e. destruct (mapM _ ks) as [ns|e'] eqn:E; [done|]. intros [= <-]. split; [done|].
    revert E. induction ks as [|k ks IH]; cbn; [done|].
    destruct (normalize_public_key k) as [n|] eqn:Ek; cbn.
    + destruct (mapM _ ks) as [ns|]; [done|]. intros H. destruct IH as (k' & ? & ?); [done|].
      exists k'. split; [by right|done].
    + intros _. exists k. by rewrite Ek; split; [left|].
Qed.

(** [upsert_managed_block] fails exactly when some key is invalid, or when
    all keys are valid and the file has a begin marker and no end marker. *)
Theorem upsert_errors_exact (c : str) (ks : list str) (e : AuthorizedKeysError) :
  upsert_managed_block c ks = Err e ↔
  (e = InvalidPublicKey ∧ Exists (λ k, is_ok (normalize_public_key k) = false) ks)
  ∨ (e = MissingManagedEnd ∧ Forall (λ k, is_ok (normalize_public_key k) = true) ks
     ∧ Exists is_begin (lines c) ∧ Forall (λ l, ¬ is_end l) (lines c)).
Proof.
  unfold upsert_managed_block. destruct (normalize_and_dedup_exact ks) as [HOk HErr].
  destruct (normalize_and_dedup ks) as [keys|e0]; cbn -[position].
  - destruct (HOk keys eq_refl) as (ns & HF & _).
    assert (Forall (λ k, is_ok (normalize_public_key k) = true) ks) as Hall.
    { clear -HF. induction HF as [|k n ks ns H _ IH]; constructor; [by rewrite H|done]. }
    assert (¬ Exists (λ k, is_ok (normalize_public_key k) = false) ks) as Hno.
    { rewrite Exists_exists, Forall_forall in *. intros (k & Hk & Hf).
      by rewrite Hall in Hf. }
    assert (is_Some (position is_begin (lines c)) ↔ Exists is_begin (lines c)) as Hbe.
    { apply position_is_Some. }
    case_bool_decide as Hm; rewrite position_None, Hbe in Hm; split.
    + intros [= <-]. tauto.
    + intros [[_ ?]|[-> _]]; [tauto|done].
    + done.
    + tauto.
  - destruct (HErr e0 eq_refl) as (-> & k & Hk & Hf). split.
    + intros [= <-]. left. split; [done|]. apply Exists_exists. eauto.
    + intros [[-> _]|(_ & Hall & _)]; [done|].
      rewrite Forall_forall in Hall. by rewrite Hall in Hf.
Qed.

(** When the first end marker comes before the first begin marker, the
    update does not replace a block: it keeps everything up to the begin
    marker, writes a block there, and then writes again everything after the
    end marker.  The lines between the two markers are duplicated and the old
    begin marker stays, so every later update duplicates them once more. *)
Theorem upsert_stray_end_duplicates (c : str) (ks : list str) (t : str)
    (pre mid post : list str) (e b : str) :
  lines c = pre ++ [e] ++ mid ++ [b] ++ post →
  Forall plain pre → is_end e → ¬ is_begin e → Forall (λ l, ¬ is_begin l) mid → is_begin b →
  upsert_managed_block c ks = Ok t →
  ∃ keys, normalize_and_dedup ks = Ok keys
    ∧ t = join [LF] (pre ++ [e] ++ mid ++ block keys ++ mid ++ [b] ++ post).
Proof.
  intros E Hpre He Hbe Hmid Hb (keys & Hk & _ & ->)%upsert_Ok. exists keys. split; [done|].
  assert (position is_end (lines c) = Some (length pre)) as Ee.
  { rewrite E. apply position_app; [done|]. eapply Forall_impl; [exact Hpre|]. by intros l []. }
  assert (position is_begin (lines c) = Some (length (pre ++ e :: mid))) as Eb.
  { rewrite E. cbn [app]. rewrite app_comm_cons, app_assoc. apply position_app; [done|].
    rewrite Forall_app, Forall_cons. split_and!; [|done|done].
    eapply Forall_impl; [exact Hpre|]. by intros l []. }
  unfold updated_lines, append_managed_block. rewrite Eb, Ee. f_equal.
  assert (take (length (pre ++ e :: mid)) (lines c) = pre ++ e :: mid) as ->.
  { rewrite E. cbn [app]. by rewrite app_comm_cons, app_assoc, take_app_length. }
  assert (drop (length pre + 1) (lines c) = mid ++ [b] ++ post) as ->.
  { rewrite E, app_assoc. apply drop_app_length'. rewrite length_app. cbn. lia. }
  unfold block. by rewrite <- !app_assoc.
Qed.

(** ** Witnesses *)

Definition LFs (ls : list str) : str := concat (map (λ l, l ++ [LF]) ls).

(** A file with a user line on each side of a block. *)
Definition sample_file : str :=
  LFs [lit "ssh-ed25519 AAAA user@host"; lit "# ssh-key-sync begin";
       lit "ssh-ed25519 OLD old"; lit "# ssh-key-sync end"; lit "ssh-ed25519 DDDD manual"].
Definition sample_keys : list str :=
  [lit "ssh-ed25519 BBBB node-b"; lit " ssh-ed25519  BBBB node-b"; lit "ssh-rsa CCCC node-c"].
Definition sample_updated : str :=
  join [LF]
    [lit "ssh-ed25519 AAAA user@host"; lit "# ssh-key-sync begin";
     lit "ssh-ed25519 BBBB node-b"; lit "ssh-rsa CCCC node-c"; lit "# ssh-key-sync end";
     lit "ssh-ed25519 DDDD manual"].

Lemma sample_upsert : upsert_managed_block sample_file sample_keys = Ok sample_updated.
Proof. by vm_compute. Qed.

Lemma upsert_preserves_user_lines_witness :
  in_order (lines sample_file) ∧
  ∃ user_before user_after keys,
    normalize_and_dedup sample_keys = Ok keys ∧
    ((∃ b old e, is_begin b ∧ is_end e ∧ Forall (λ l, ¬ is_end l) old
        ∧ lines sample_file = user_before ++ [b] ++ old ++ [e] ++ user_after
        ∧ sample_updated = join [LF] (user_before ++ block keys ++ user_after))
     ∨ (Forall plain (lines sample_file) ∧ user_after = [] ∧ lines sample_file = user_before
        ∧ (sample_updated = join [LF] (user_before ++ block keys)
           ∨ sample_updated = join [LF] (user_before ++ [[]] ++ block keys)))).
Proof.
  split; [by_compute|].
  exact (upsert_preserves_user_lines sample_file sample_keys sample_updated
           ltac:(by_compute) sample_upsert).
Defined.

Lemma upsert_last_write_wins_witness :
  upsert_managed_block sample_updated [] = upsert_managed_block sample_file []
  ∧ upsert_managed_block sample_updated sample_keys = Ok sample_updated.
Proof.
  exact (upsert_last_write_wins sample_file sample_keys [] sample_updated
           ltac:(by_compute) ltac:(by_compute) sample_upsert).
Defined.

(** A file whose end marker is stray, and its first update. *)
Definition stray_file : str :=
  LFs [lit "# ssh-key-sync end"; lit "ssh-ed25519 DDDD manual"; lit "# ssh-key-sync begin";
       lit "# ssh-key-sync end"].
Definition stray_updated : str :=
  join [LF]
    [lit "# ssh-key-sync end"; lit "ssh-ed25519 DDDD manual"; lit "# ssh-key-sync begin";
     lit "ssh-rsa CCCC node-c"; lit "# ssh-key-sync end";
     lit "ssh-ed25519 DDDD manual"; lit "# ssh-key-sync begin"; lit "# ssh-key-sync end"].

Lemma upsert_stray_end_duplicates_witness :
  ∃ keys, normalize_and_dedup [lit "ssh-rsa CCCC node-c"] = Ok keys
    ∧ stray_updated = join [LF] ([] ++ [lit "# ssh-key-sync end"]
        ++ [lit "ssh-ed25519 DDDD manual"] ++ block keys
        ++ [lit "ssh-ed25519 DDDD manual"] ++ [lit "# ssh-key-sync begin"]
        ++ [lit "# ssh-key-sync end"]).
Proof.
  apply (upsert_stray_end_duplicates stray_file [lit "ssh-rsa CCCC node-c"] stray_updated);
    [by vm_compute|by_compute|by_compute|by_compute|by_compute|by_compute|by vm_compute].
Defined.

(** The file keeps growing: the second update of the stray file is not the
    first, although the keys are the same. *)
Example stray_file_not_idempotent :
  upsert_managed_block stray_updated [lit "ssh-rsa CCCC node-c"] ≠ Ok stray_updated.
Proof. by vm_compute. Qed.

(** A file that ends with an empty line after the block loses it one update at
    a time: the update is not idempotent on it. *)
Example trailing_blank_not_idempotent :
  let c := LFs [lit "# ssh-key-sync begin"; lit "# ssh-key-sync end"; []] in
  ∃ t t', upsert_managed_block c [] = Ok t ∧ upsert_managed_block t [] = Ok t' ∧ t ≠ t'.
Proof. eexists _, _. split_and!; [by vm_compute|by vm_compute|by vm_compute]. Qed.
