(* ===== verification/Auth.v ===== *)
(** * Signed envelopes and replay protection (src/src/auth.rs)

    [sign_envelope], [verify_envelope], the canonical payload they agree on,
    and the stateful [EnvelopeVerifier].  SHA-256 and HMAC-SHA256 (crates
    [sha2] and [hmac]) and the Unicode upper-case table of the standard library
    are the class [Crypto]; what the code relies on about them is [CryptoOk].
    No theorem assumes that the hash functions are injective: tampering is
    reduced to an explicit collision. *)

From S2P Require Import Prelude Str Utf8 Hex.

Local Open Scope N_scope.

(** ** The external functions *)

Class Crypto := {
  (** [Sha256::new(); update(b); finalize()] *)
  sha256 : bytes → bytes;
  (** [HmacSha256::new_from_slice(key); update(msg); finalize().into_bytes()] *)
  hmac_sha256 : bytes → bytes → bytes;
  (** [HmacSha256::new_from_slice(key); update(msg); verify_slice(tag).is_ok()] *)
  verify_slice : bytes → bytes → bytes → bool;
  (** the upper-case mapping of a character that is not ASCII *)
  unicode_upper : char → str;
}.

Class CryptoOk (C : Crypto) : Prop := {
  sha256_wf b : wf_bytes (sha256 b);
  hmac_wf k m : wf_bytes (hmac_sha256 k m);
  verify_slice_spec k m tag : verify_slice k m tag = true ↔ tag = hmac_sha256 k m;
  unicode_upper_wf c : is_scalar c → wf_str (unicode_upper c);
  unicode_upper_LF c : c ≠ LF → LF ∉ unicode_upper c;
}.

(** ** Data *)

Inductive MessageContext :=
| HttpRequest (method path : str)
| HttpResponse (status_code : N) (path : str)
| UdpAnnouncement.

Record SignedEnvelope := {
  env_sid : str;
  sender_id : str;
  timestamp_secs : N;
  nonce : str;
  context : MessageContext;
  body : bytes;
  signature_hex : str
}.

Inductive AuthError :=
| SidMismatch
| InvalidSignatureEncoding
| InvalidSignature
| TimestampOutsideWindow
| ReplayNonce.

#[export] Instance MessageContext_eq_dec : EqDecision MessageContext.
Proof. solve_decision. Defined.
#[export] Instance SignedEnvelope_eq_dec : EqDecision SignedEnvelope.
Proof. solve_decision. Defined.
#[export] Instance AuthError_eq_dec : EqDecision AuthError.
Proof. solve_decision. Defined.

Record EnvelopeVerifier := {
  v_sid_token : str;
  v_expected_sid : str;
  v_timestamp_skew_secs : N;
  v_nonce_ttl_secs : N;
  v_seen_nonces : gmap str N
}.

(** ** Operations *)

Section auth.
Context {C : Crypto}.

(** [str::to_uppercase]: character by character. *)
Definition to_uppercase (s : str) : str :=
  concat (map (λ c, if is_ascii c then [ascii_upper c] else unicode_upper c) s).

Definition canonical_context (ctx : MessageContext) : str :=
  match ctx with
  | HttpRequest method path => lit "http_request:" ++ to_uppercase method ++ lit ":" ++ path
  | HttpResponse status_code path =>
      lit "http_response:" ++ to_string status_code ++ lit ":" ++ path
  | UdpAnnouncement => lit "udp_announcement"
  end.

Definition hash_body_hex (b : bytes) : str := AuthHex.encode_hex (sha256 b).

Definition canonical_payload (sid sender : str) (ts : N) (n : str)
    (ctx : MessageContext) (b : bytes) : str :=
  let context_value := canonical_context ctx in
  let body_hash := hash_body_hex b in
  sid ++ [LF] ++ sender ++ [LF] ++ to_string ts ++ [LF] ++ n ++ [LF]
    ++ context_value ++ [LF] ++ body_hash.

Definition hmac_signature_hex (sid_token : str) (payload : bytes) : str :=
  AuthHex.encode_hex (hmac_sha256 (encode sid_token) payload).

Definition sign_envelope (sid sid_token sender : str) (ts : N) (n : str)
    (ctx : MessageContext) (b : bytes) : SignedEnvelope :=
  let canonical := canonical_payload sid sender ts n ctx b in
  {| env_sid := sid; sender_id := sender; timestamp_secs := ts; nonce := n;
     context := ctx; body := b;
     signature_hex := hmac_signature_hex sid_token (encode canonical) |}.

Definition envelope_canonical (e : SignedEnvelope) : str :=
  canonical_payload (env_sid e) (sender_id e) (timestamp_secs e) (nonce e) (context e) (body e).

Definition verify_envelope (envelope : SignedEnvelope) (sid_token expected_sid : str) :
    result AuthError unit :=
  if negb (bool_decide (env_sid envelope = expected_sid)) then Err SidMismatch
  else
    signature ← ok_or InvalidSignatureEncoding (AuthHex.decode_hex (signature_hex envelope));
    let canonical := envelope_canonical envelope in
    if verify_slice (encode sid_token) (encode canonical) signature
    then Ok tt else Err InvalidSignature.

(** [EnvelopeVerifier::new]. *)
Definition EnvelopeVerifier_new (sid_token expected_sid : str) (skew ttl : N) :
    EnvelopeVerifier :=
  {| v_sid_token := sid_token; v_expected_sid := expected_sid;
     v_timestamp_skew_secs := skew; v_nonce_ttl_secs := ttl; v_seen_nonces := ∅ |}.

(** [saturating_sub] on [u64] is the subtraction of [N]. *)
Definition saturating_add_u64 (a b : N) : N := N.min (a + b) U64_MAX.

Definition with_nonces (v : EnvelopeVerifier) (m : gmap str N) : EnvelopeVerifier :=
  {| v_sid_token := v_sid_token v; v_expected_sid := v_expected_sid v;
     v_timestamp_skew_secs := v_timestamp_skew_secs v;
     v_nonce_ttl_secs := v_nonce_ttl_secs v; v_seen_nonces := m |}.

Definition prune_nonces (v : EnvelopeVerifier) (now_secs : N) : EnvelopeVerifier :=
  with_nonces v (filter (λ kv, now_secs - kv.2 ≤ v_nonce_ttl_secs v) (v_seen_nonces v)).

(** [format!("{}:{}", envelope.sender_id, envelope.nonce)]. *)
Definition nonce_key (e : SignedEnvelope) : str := sender_id e ++ lit ":" ++ nonce e.

(** [EnvelopeVerifier::verify]: the new state and the verdict. *)
Definition verify (v : EnvelopeVerifier) (envelope : SignedEnvelope) (now_secs : N) :
    EnvelopeVerifier * result AuthError unit :=
  match verify_envelope envelope (v_sid_token v) (v_expected_sid v) with
  | Err e => (v, Err e)
  | Ok _ =>
      let earliest := now_secs - v_timestamp_skew_secs v in
      let latest := saturating_add_u64 now_secs (v_timestamp_skew_secs v) in
      if (timestamp_secs envelope <? earliest) || (latest <? timestamp_secs envelope)
      then (v, Err TimestampOutsideWindow)
      else
        let v := prune_nonces v now_secs in
        let key := nonce_key envelope in
        match v_seen_nonces v !! key with
        | Some _ => (v, Err ReplayNonce)
        | None => (with_nonces v (<[key := now_secs]> (v_seen_nonces v)), Ok tt)
        end
  end.

(** The verifier after a sequence of messages, each with the clock reading at
    which it was processed. *)
Fixpoint verify_all (v : EnvelopeVerifier) (msgs : list (SignedEnvelope * N)) :
    EnvelopeVerifier :=
  match msgs with
  | [] => v
  | (e, now) :: rest => verify_all (verify v e now).1 rest
  end.

End auth.

Arguments verify_envelope : simpl never.
Arguments sign_envelope : simpl never.

(** ** Well-formed envelopes

    [envelope_wf]: the Rust types.  [envelope_lines]: no text field contains a
    line feed, so the fields of the canonical payload can be told apart; every
    envelope read from the wire has this property (file Envelope). *)

Definition context_wf (c : MessageContext) : Prop :=
  match c with
  | HttpRequest m p => wf_str m ∧ wf_str p
  | HttpResponse s p => s ≤ U16_MAX ∧ wf_str p
  | UdpAnnouncement => True
  end.

Definition context_lines (c : MessageContext) : Prop :=
  match c with
  | HttpRequest m p => (LF ∉ m) ∧ (LF ∉ p)
  | HttpResponse _ p => LF ∉ p
  | UdpAnnouncement => True
  end.

Definition envelope_wf (e : SignedEnvelope) : Prop :=
  wf_str (env_sid e) ∧ wf_str (sender_id e) ∧ timestamp_secs e ≤ U64_MAX
  ∧ wf_str (nonce e) ∧ context_wf (context e) ∧ wf_bytes (body e) ∧ wf_str (signature_hex e).

Definition envelope_lines (e : SignedEnvelope) : Prop :=
  (LF ∉ env_sid e) ∧ (LF ∉ sender_id e) ∧ (LF ∉ nonce e) ∧ context_lines (context e).

(** The contexts that the canonical payload identifies. *)
Definition same_context `{Crypto} (c c' : MessageContext) : Prop :=
  match c, c' with
  | HttpRequest m p, HttpRequest m' p' =>
      to_uppercase m ++ lit ":" ++ p = to_uppercase m' ++ lit ":" ++ p'
  | HttpResponse s p, HttpResponse s' p' => s = s' ∧ p = p'
  | UdpAnnouncement, UdpAnnouncement => True
  | _, _ => False
  end.

(** ** Lemmas *)

Section auth_lemmas.
Context {C : Crypto} {CO : CryptoOk C}.

Lemma ascii_upper_LF c : c ≠ LF → ascii_upper c ≠ LF.
Proof.
  unfold ascii_upper, is_ascii_lowercase, LF. intros H. case_match; bool_to_prop; lia.
Qed.

Lemma to_uppercase_LF s : LF ∉ s → LF ∉ to_uppercase s.
Proof.
  intros H Hin. apply list_elem_of_In, in_concat in Hin as (w & Hw & Hc).
  apply in_map_iff in Hw as (c & <- & Hcs). apply list_elem_of_In in Hcs.
  assert (c ≠ LF) as Hne by (intros ->; done). revert Hc.
  rewrite <- list_elem_of_In. case_match.
  - rewrite list_elem_of_singleton. intros E. by apply (ascii_upper_LF c).
  - by apply unicode_upper_LF.
Qed.

Lemma to_uppercase_wf s : wf_str s → wf_str (to_uppercase s).
Proof.
  induction 1 as [|c s Hc _ IH]; [constructor|]. unfold to_uppercase. cbn [map concat].
  apply Forall_app. split; [|done]. case_match eqn:E.
  - constructor; [|constructor]. unfold is_ascii in E. bool_to_prop. left.
    unfold ascii_upper. case_match; lia.
  - by apply unicode_upper_wf.
Qed.

Lemma encode_hex_wf b : wf_bytes b → wf_str (AuthHex.encode_hex b).
Proof. intros. by apply ascii_wf, encode_hex_ascii. Qed.

#[local] Hint Resolve encode_hex_wf sha256_wf hmac_wf to_uppercase_wf : text.

Lemma canonical_context_wf c : context_wf c → wf_str (canonical_context c).
Proof. destruct c; cbn; intros H; try (apply app_wf; [apply lit_wf|]); try destruct H; auto 6 with text. Qed.

Lemma canonical_wf e : envelope_wf e → wf_str (envelope_canonical e).
Proof.
  intros (? & ? & _ & ? & ?%canonical_context_wf & _).
  unfold envelope_canonical, canonical_payload, hash_body_hex. auto 15 with text.
Qed.

Lemma lit_no_LF s : bool_decide (LF ∈ lit s) = false → LF ∉ lit s.
Proof. by intros ?%bool_decide_eq_false. Qed.

Lemma canonical_context_LF c : context_lines c → LF ∉ canonical_context c.
Proof.
  destruct c; cbn; rewrite ?not_elem_of_app.
  - intros [? ?]. split_and!; [by_compute|by apply to_uppercase_LF|by_compute|done].
  - intros ?. split_and!; [by_compute|by apply to_string_line_safe|by_compute|done].
  - intros _. by_compute.
Qed.

(** The canonical payload is its six fields, one per line. *)
Lemma canonical_fields e :
  envelope_lines e →
  split_char LF (envelope_canonical e) =
  [env_sid e; sender_id e; to_string (timestamp_secs e); nonce e;
   canonical_context (context e); hash_body_hex (body e)].
Proof.
  intros (? & ? & ? & ?%canonical_context_LF). unfold envelope_canonical, canonical_payload.
  cbn [app]. rewrite !split_char_app by (done || by apply to_string_line_safe).
  rewrite split_char_none; [done|]. by apply encode_hex_line_safe, sha256_wf.
Qed.

Lemma encode_inj s t : wf_str s → wf_str t → encode s = encode t → s = t.
Proof.
  intros Hs Ht E. apply from_utf8_encode in Hs, Ht. rewrite E in Hs. congruence.
Qed.

Lemma encode_hex_inj a b :
  wf_bytes a → wf_bytes b → AuthHex.encode_hex a = AuthHex.encode_hex b → a = b.
Proof. intros Ha Hb E. apply decode_hex_encode_hex in Ha, Hb. rewrite E in Ha. congruence. Qed.

Lemma lit_app_inj s a b : lit s ++ a = lit s ++ b → a = b.
Proof. apply app_inv_head. Qed.

Lemma canonical_context_same c c' :
  canonical_context c = canonical_context c' → same_context c c'.
Proof.
  destruct c as [m p|s p|], c' as [m' p'|s' p'|]; cbn [canonical_context same_context];
    try (intros E; exfalso; by vm_compute in E).
  - apply lit_app_inj.
  - intros E%lit_app_inj. change (lit ":") with [58] in E. cbn [app] in E.
    assert (∀ n q, split_once 58 (to_string n ++ 58 :: q) = Some (to_string n, q)) as Hs.
    { intros n q. apply split_once_app, to_string_no. done. }
    pose proof (Hs s p) as E1. rewrite E, Hs in E1. injection E1 as E1 ->.
    by apply to_string_inj in E1.
  - done.
Qed.

Lemma verify_envelope_Ok e token sid :
  verify_envelope e token sid = Ok tt ↔
  env_sid e = sid ∧
  AuthHex.decode_hex (signature_hex e)
    = Some (hmac_sha256 (encode token) (encode (envelope_canonical e))).
Proof.
  unfold verify_envelope. case_bool_decide as Hs; cbn [negb].
  2: { split; [done|]. by intros [? _]. }
  destruct (AuthHex.decode_hex (signature_hex e)) as [sig|]; cbn [ok_or mbind result_bind].
  2: { split; [done|]. by intros [_ [=]]. }
  destruct (verify_slice _ _ _) eqn:E.
  - apply verify_slice_spec in E as ->. done.
  - split; [done|]. intros [_ [= ->]].
    assert (verify_slice (encode token) (encode (envelope_canonical e))
      (hmac_sha256 (encode token) (encode (envelope_canonical e))) = true) as H
      by (by apply verify_slice_spec).
    congruence.
Qed.

Lemma verify_sign sid token sender ts n ctx b :
  verify_envelope (sign_envelope sid token sender ts n ctx b) token sid = Ok tt.
Proof.
  apply verify_envelope_Ok. split; [done|]. cbn. apply decode_hex_encode_hex, hmac_wf.
Qed.

(** Two accepted envelopes with one signature agree on every field, or give two
    payloads with the same HMAC. *)
Lemma verify_tamper (e e' : SignedEnvelope) (token sid : str) :
  envelope_wf e → envelope_wf e' → envelope_lines e → envelope_lines e' →
  verify_envelope e token sid = Ok tt → verify_envelope e' token sid = Ok tt →
  signature_hex e = signature_hex e' →
  (env_sid e = env_sid e' ∧ sender_id e = sender_id e' ∧ timestamp_secs e = timestamp_secs e'
   ∧ nonce e = nonce e' ∧ same_context (context e) (context e')
   ∧ sha256 (body e) = sha256 (body e'))
  ∨ (encode (envelope_canonical e) ≠ encode (envelope_canonical e')
     ∧ hmac_sha256 (encode token) (encode (envelope_canonical e))
       = hmac_sha256 (encode token) (encode (envelope_canonical e'))).
Proof.
  intros Hw Hw' Hl Hl' [_ E]%verify_envelope_Ok [_ E']%verify_envelope_Ok Es.
  rewrite Es, E' in E. injection E as E.
  destruct (decide (encode (envelope_canonical e) = encode (envelope_canonical e'))) as [Ee|Hne].
  - left. apply encode_inj in Ee; [|by apply canonical_wf|by apply canonical_wf].
    apply (f_equal (split_char LF)) in Ee. rewrite !canonical_fields in Ee by done.
    injection Ee as E1 E2 E3%to_string_inj E4 E5%canonical_context_same E6.
    apply encode_hex_inj in E6; [|apply sha256_wf|apply sha256_wf]. by split_and!.
  - by right.
Qed.

(** *** The verifier *)

Lemma verify_cases v e now :
  (∃ err, verify v e now = (v, Err err) ∧ err ≠ ReplayNonce)
  ∨ (verify_envelope e (v_sid_token v) (v_expected_sid v) = Ok tt
     ∧ now - v_timestamp_skew_secs v ≤ timestamp_secs e
     ∧ timestamp_secs e ≤ saturating_add_u64 now (v_timestamp_skew_secs v)
     ∧ ((is_Some (v_seen_nonces (prune_nonces v now) !! nonce_key e)
         ∧ verify v e now = (prune_nonces v now, Err ReplayNonce))
        ∨ (v_seen_nonces (prune_nonces v now) !! nonce_key e = None
           ∧ verify v e now =
             (with_nonces (prune_nonces v now)
                (<[nonce_key e := now]> (v_seen_nonces (prune_nonces v now))), Ok tt)))).
Proof.
  unfold verify. destruct (verify_envelope _ _ _) as [[]|err] eqn:Ev.
  - destruct (N.ltb_spec (timestamp_secs e) (now - v_timestamp_skew_secs v)); cbn [orb].
    { left. eauto. }
    destruct (N.ltb_spec (saturating_add_u64 now (v_timestamp_skew_secs v)) (timestamp_secs e)).
    { left. eauto. }
    right. split_and!; try done.
    destruct (v_seen_nonces (prune_nonces v now) !! nonce_key e) eqn:E; [left|right]; eauto.
  - left. exists err. split; [done|]. unfold verify_envelope in Ev.
    repeat case_match; cbn in Ev; try destruct (AuthHex.decode_hex _); cbn in *;
      repeat case_match; simplify_eq; done.
Qed.

Lemma verify_config v e now :
  v_timestamp_skew_secs (verify v e now).1 = v_timestamp_skew_secs v
  ∧ v_nonce_ttl_secs (verify v e now).1 = v_nonce_ttl_secs v
  ∧ v_sid_token (verify v e now).1 = v_sid_token v
  ∧ v_expected_sid (verify v e now).1 = v_expected_sid v.
Proof.
  destruct (verify_cases v e now) as [(err & -> & _)|(_ & _ & _ & [[_ ->]|[_ ->]])]; done.
Qed.

(** A recorded nonce survives every message processed within the TTL. *)
Lemma verify_keeps v e now k t :
  v_seen_nonces v !! k = Some t → now - t ≤ v_nonce_ttl_secs v →
  v_seen_nonces (verify v e now).1 !! k = Some t.
Proof.
  intros Hk Ht.
  assert (v_seen_nonces (prune_nonces v now) !! k = Some t) as Hp.
  { cbn. by apply map_lookup_filter_Some. }
  destruct (verify_cases v e now) as [(err & -> & _)|(_ & _ & _ & [[_ ->]|[Hn ->]])]; try done.
  cbn [fst v_seen_nonces with_nonces]. rewrite lookup_insert_ne; [done|].
  intros <-. congruence.
Qed.

Lemma verify_all_keeps msgs v k t t2 :
  v_seen_nonces v !! k = Some t → Forall (λ m, m.2 ≤ t2) msgs →
  t2 - t ≤ v_nonce_ttl_secs v →
  v_seen_nonces (verify_all v msgs) !! k = Some t
  ∧ v_timestamp_skew_secs (verify_all v msgs) = v_timestamp_skew_secs v
  ∧ v_nonce_ttl_secs (verify_all v msgs) = v_nonce_ttl_secs v.
Proof.
  intros Hk H. revert v Hk. induction H as [|[e now] msgs Hnow _ IH]; intros v Hk Ht; [done|].
  cbn in Hnow. destruct (verify_config v e now) as (E1 & E2 & _).
  destruct (IH (verify v e now).1) as (? & ? & ?).
  - apply verify_keeps; [done|]. lia.
  - lia.
  - cbn [verify_all]. split_and!; [done|congruence|congruence].
Qed.

Lemma verify_seen_rejected v e now t :
  v_seen_nonces v !! nonce_key e = Some t → now - t ≤ v_nonce_ttl_secs v →
  (verify v e now).2 ≠ Ok tt.
Proof.
  intros Hk Ht.
  destruct (verify_cases v e now) as [(err & -> & _)|(_ & _ & _ & [[_ ->]|[Hn _]])]; try done.
  exfalso. assert (v_seen_nonces (prune_nonces v now) !! nonce_key e = Some t); [|congruence].
  cbn. by apply map_lookup_filter_Some.
Qed.

Lemma verify_Ok_inv v e now v' :
  verify v e now = (v', Ok tt) →
  v_seen_nonces v' !! nonce_key e = Some now
  ∧ now - v_timestamp_skew_secs v ≤ timestamp_secs e
  ∧ timestamp_secs e ≤ now + v_timestamp_skew_secs v
  ∧ v_nonce_ttl_secs v' = v_nonce_ttl_secs v
  ∧ v_timestamp_skew_secs v' = v_timestamp_skew_secs v.
Proof.
  intros H. destruct (verify_cases v e now) as [(err & E & _)|(_ & ? & Hl & [[_ E]|[Hn E]])];
    rewrite E in H; simplify_eq.
  unfold saturating_add_u64 in Hl.
  cbn [v_seen_nonces with_nonces]. rewrite lookup_insert_eq. split_and!; try done. lia.
Qed.

End auth_lemmas.

#[export] Hint Resolve encode_hex_wf to_uppercase_wf : text.

(** ** Properties *)

(** C7: replay protection.  Once a verifier whose nonce TTL is at least twice
    its timestamp skew has accepted a message, it never accepts a message with
    the same sender, nonce and timestamp again, whatever messages it processed
    in between, as long as no clock reading in between is later than the last
    one. *)
Theorem verify_no_replay {C : Crypto} (v v1 : EnvelopeVerifier) (e e' : SignedEnvelope)
    (t1 t2 : N) (msgs : list (SignedEnvelope * N)) :
  2 * v_timestamp_skew_secs v ≤ v_nonce_ttl_secs v →
  verify v e t1 = (v1, Ok tt) →
  Forall (λ m, m.2 ≤ t2) msgs →
  sender_id e' = sender_id e → nonce e' = nonce e → timestamp_secs e' = timestamp_secs e →
  (verify (verify_all v1 msgs) e' t2).2 ≠ Ok tt.
Proof.
  intros Httl H Hmsgs Hs Hn Hts Hok.
  destruct (verify_Ok_inv _ _ _ _ H) as (Hseen & ? & ? & Ettl & Eskew).
  destruct (decide (t2 - t1 ≤ v_nonce_ttl_secs v1)) as [Hin|Hout].
  - destruct (verify_all_keeps _ _ _ _ _ Hseen Hmsgs Hin) as (Hk & _ & Et).
    revert Hok. apply verify_seen_rejected with (t := t1); [|by rewrite Et].
    unfold nonce_key in *. by rewrite Hs, Hn.
  - destruct (verify _ e' t2) as [v2 r] eqn:E. cbn in Hok. subst r.
    destruct (verify_Ok_inv _ _ _ _ E) as (_ & ? & _ & _ & _).
    assert (v_timestamp_skew_secs (verify_all v1 msgs) = v_timestamp_skew_secs v) as Es.
    { clear -Eskew. revert v1 Eskew. induction msgs as [|[m now] msgs IH]; intros v1 Eskew; [done|].
      cbn. apply IH. destruct (verify_config v1 m now) as (-> & _). done. }
    lia.
Qed.

(** Exactly when [verify_envelope] accepts, and which error it gives
    otherwise, in the order of the code: wrong group, undecodable signature,
    wrong signature. *)
Theorem verify_envelope_outcomes {C : Crypto} {CO : CryptoOk C}
    (e : SignedEnvelope) (token sid : str) :
  let tag := hmac_sha256 (encode token) (encode (envelope_canonical e)) in
  (env_sid e ≠ sid ∧ verify_envelope e token sid = Err SidMismatch)
  ∨ (env_sid e = sid ∧ AuthHex.decode_hex (signature_hex e) = None
     ∧ verify_envelope e token sid = Err InvalidSignatureEncoding)
  ∨ (∃ s, env_sid e = sid ∧ AuthHex.decode_hex (signature_hex e) = Some s ∧ s ≠ tag
     ∧ verify_envelope e token sid = Err InvalidSignature)
  ∨ (env_sid e = sid ∧ AuthHex.decode_hex (signature_hex e) = Some tag
     ∧ verify_envelope e token sid = Ok tt).
Proof.
  intros tag. unfold verify_envelope. case_bool_decide as Hs; cbn [negb]; [right|by left].
  destruct (AuthHex.decode_hex (signature_hex e)) as [s|]; cbn [ok_or mbind result_bind];
    [right|by left].
  fold tag. destruct (verify_slice _ _ _) eqn:E.
  - right. apply verify_slice_spec in E as ->. done.
  - left. exists s. split_and!; try done. intros ->.
    assert (verify_slice (encode token) (encode (envelope_canonical e)) tag = true) as H
      by (by apply verify_slice_spec). congruence.
Qed.

(** An envelope made by [sign_envelope] is accepted by [verify_envelope]
    with the same group and token, for every content, and a fresh verifier of
    that group accepts it when its timestamp is inside the window. *)
Theorem sign_then_verify {C : Crypto} {CO : CryptoOk C}
    (sid token sender n : str) (ts now skew ttl : N) (ctx : MessageContext) (b : bytes) :
  let e := sign_envelope sid token sender ts n ctx b in
  verify_envelope e token sid = Ok tt
  ∧ (ts ≤ U64_MAX → now - skew ≤ ts ≤ now + skew →
     (verify (EnvelopeVerifier_new token sid skew ttl) e now).2 = Ok tt).
Proof.
  intros e. pose proof (verify_sign sid token sender ts n ctx b) as Hv. split; [done|].
  intros Hts Hw.
  destruct (verify_cases (EnvelopeVerifier_new token sid skew ttl) e now)
    as [(err & E & Hne)|(_ & _ & _ & [[Hs _]|[_ ->]])]; [| |done].
  - revert E. unfold verify. cbn [v_sid_token v_expected_sid EnvelopeVerifier_new].
    subst e. rewrite Hv. cbn [v_timestamp_skew_secs EnvelopeVerifier_new].
    change (timestamp_secs (sign_envelope sid token sender ts n ctx b)) with ts.
    unfold saturating_add_u64.
    destruct (N.ltb_spec ts (now - skew)); [lia|].
    destruct (N.ltb_spec (N.min (now + skew) U64_MAX) ts); [lia|]. cbn [orb].
    by destruct (_ !! _); intros [= <-].
  - exfalso. cbn in Hs. by destruct Hs.
Qed.

(** What [EnvelopeVerifier::verify] does to the nonce cache.  A message
    that fails the signature or window check leaves the verifier unchanged, so
    only members of the group can make it grow; a replay only prunes; an
    acceptance adds exactly the message's nonce, and afterwards no entry is
    older than the TTL. *)
Theorem verify_nonce_cache {C : Crypto} (v v' : EnvelopeVerifier) (e : SignedEnvelope)
    (now : N) (r : result AuthError unit) :
  verify v e now = (v', r) →
  (r = Ok tt →
     v_seen_nonces v' = <[nonce_key e := now]> (v_seen_nonces (prune_nonces v now))
     ∧ v_seen_nonces (prune_nonces v now) !! nonce_key e = None
     ∧ map_Forall (λ _ seen_at, now - seen_at ≤ v_nonce_ttl_secs v) (v_seen_nonces v'))
  ∧ (r = Err ReplayNonce → v' = prune_nonces v now)
  ∧ (r ≠ Ok tt → r ≠ Err ReplayNonce → v' = v).
Proof.
  intros H. destruct (verify_cases v e now)
    as [(err & E & Hne)|(_ & _ & _ & [[_ E]|[Hn E]])]; rewrite E in H; simplify_eq.
  - split_and!; [done|congruence|done].
  - split_and!; [done|done|congruence].
  - split_and!; [|done|done]. intros _. split_and!; [done|done|].
    cbn [v_seen_nonces with_nonces]. apply map_Forall_insert_2; [lia|].
    intros k t Hk. apply map_lookup_filter_Some in Hk as [_ Hk]. exact Hk.
Qed.

(** ** Witnesses

    A toy instance of the external functions: a 32-bit checksum. *)

Definition toy_sum (l : bytes) : bytes :=
  let x := foldl (λ a b, (a * 257 + b + 1) mod 4294967291) 7 l in
  [x / 16777216 mod 256; x / 65536 mod 256; x / 256 mod 256; x mod 256].

Definition toy_crypto : Crypto := {|
  sha256 := toy_sum;
  hmac_sha256 k m := toy_sum (k ++ [256] ++ m);
  verify_slice k m tag := bool_decide (tag = toy_sum (k ++ [256] ++ m));
  unicode_upper c := [c];
|}.

Lemma toy_sum_wf l : wf_bytes (toy_sum l).
Proof. unfold toy_sum. repeat constructor; unfold is_byte; by apply N.mod_lt. Qed.

Lemma toy_crypto_ok : CryptoOk toy_crypto.
Proof.
  constructor; cbn; intros.
  - apply toy_sum_wf.
  - apply toy_sum_wf.
  - by rewrite bool_decide_eq_true.
  - constructor; [done|constructor].
  - by rewrite list_elem_of_singleton.
Qed.

Definition sample_envelope : SignedEnvelope :=
  @sign_envelope toy_crypto (lit "group-a") (lit "secret-token") (lit "node-1") 1000
    (lit "nonce-1") UdpAnnouncement (lit "payload").
Definition other_envelope : SignedEnvelope :=
  @sign_envelope toy_crypto (lit "group-a") (lit "secret-token") (lit "node-2") 1010
    (lit "nonce-2") UdpAnnouncement (lit "payload").
Definition sample_verifier : EnvelopeVerifier :=
  EnvelopeVerifier_new (lit "secret-token") (lit "group-a") 60 120.

Lemma verify_no_replay_witness :
  2 * v_timestamp_skew_secs sample_verifier ≤ v_nonce_ttl_secs sample_verifier
  ∧ (@verify toy_crypto (@verify_all toy_crypto
      (@verify toy_crypto sample_verifier sample_envelope 1005).1
      [(other_envelope, 1020); (sample_envelope, 1030)]) sample_envelope 1050).2 ≠ Ok tt.
Proof.
  split; [by_compute|].
  apply (@verify_no_replay toy_crypto sample_verifier _ sample_envelope sample_envelope 1005 1050
    [(other_envelope, 1020); (sample_envelope, 1030)]); try reflexivity; by_compute.
Defined.

Lemma sign_then_verify_witness :
  (@verify toy_crypto (EnvelopeVerifier_new (lit "secret-token") (lit "group-a") 60 120)
     sample_envelope 1060).2 = Ok tt.
Proof.
  apply (@sign_then_verify toy_crypto toy_crypto_ok (lit "group-a") (lit "secret-token")
    (lit "node-1") (lit "nonce-1") 1000 1060 60 120 UdpAnnouncement (lit "payload")); by_compute.
Defined.

Lemma verify_envelope_outcomes_witness :
  @verify_envelope toy_crypto sample_envelope (lit "secret-token") (lit "group-b")
    = Err SidMismatch.
Proof.
  destruct (@verify_envelope_outcomes toy_crypto toy_crypto_ok sample_envelope
    (lit "secret-token") (lit "group-b")) as [[_ H]|[[H _]|[(s & H & _)|[H _]]]];
    [exact H|by vm_compute in H|by vm_compute in H|by vm_compute in H].
Defined.

#[export] Instance envelope_lines_dec e : Decision (envelope_lines e).
Proof. unfold envelope_lines, context_lines. destruct (context e); apply _. Defined.
#[export] Instance envelope_wf_dec e : Decision (envelope_wf e).
Proof.
  unfold envelope_wf, context_wf, wf_str, wf_bytes, is_scalar, is_byte.
  destruct (context e); apply _.
Defined.

Lemma verify_nonce_cache_witness :
  map_Forall (λ _ seen_at, 1005 - seen_at ≤ 120)
    (v_seen_nonces (@verify toy_crypto sample_verifier sample_envelope 1005).1).
Proof.
  apply (@verify_nonce_cache toy_crypto sample_verifier _ sample_envelope 1005 (Ok tt));
    reflexivity.
Defined.

(** The bound of the replay theorem is tight: with a skew of 300 and a TTL of 5
    the same message is accepted twice. *)
Example replay_when_ttl_is_short :
  let v := EnvelopeVerifier_new (lit "secret-token") (lit "group-a") 300 5 in
  (@verify toy_crypto v sample_envelope 1002).2 = Ok tt
  ∧ (@verify toy_crypto (@verify toy_crypto v sample_envelope 1002).1 sample_envelope 1010).2
    = Ok tt.
Proof. split; by vm_compute. Qed.

(** Two different HTTP request contexts with one canonical form: the method is
    not delimited. *)
Example http_request_context_ambiguous :
  @canonical_context toy_crypto (HttpRequest (lit "POST:/V1") (lit "/keys"))
  = @canonical_context toy_crypto (HttpRequest (lit "POST") (lit "/V1:/keys")).
Proof. by vm_compute. Qed.
