(* ===== verification/Envelope.v ===== *)
(** * Envelopes on the wire (src/src/runtime.rs)

    [serialize_envelope] and [parse_envelope]: the key=value text that carries
    a signed envelope over HTTP and UDP.  The theorems: the round trip, what
    every parsed envelope satisfies, and authenticity of what is read from the
    wire. *)

From S2P Require Import Prelude Str Utf8 Hex KeyValue Auth.

Local Open Scope N_scope.

(** ** Data *)

Inductive RuntimeError :=
| ReadLocalPublicKey (path : str)
| BindHttp (addr : str)
| BindUdp (addr : str)
| ParseListenAddress (addr : str)
| BuildAnnouncement
| ParseEnvelope
| HttpRequestFailed
| VerifyOrParseResponse
| WriteAuthorizedKeys (path : str)
| ControlFile (path : str)
| RuntimeDirectory (path : str)
| MissingHomeDir
| KillProcess (pid : N)
| MissingTlsConfig (name : str)
| InvalidTlsConfig (message : str).

#[export] Instance RuntimeError_eq_dec : EqDecision RuntimeError.
Proof. solve_decision. Defined.

(** ** Operations *)

Definition context_entries (ctx : MessageContext) : list (str * str) :=
  match ctx with
  | HttpRequest method path =>
      [(lit "context", lit "http_request"); (lit "method", method); (lit "path", path)]
  | HttpResponse status_code path =>
      [(lit "context", lit "http_response"); (lit "status_code", to_string status_code);
       (lit "path", path)]
  | UdpAnnouncement => [(lit "context", lit "udp_announcement")]
  end.

(** The lines pushed by [serialize_envelope], in order. *)
Definition envelope_entries (e : SignedEnvelope) : list (str * str) :=
  [(lit "sid", env_sid e); (lit "sender_id", sender_id e);
   (lit "timestamp_secs", to_string (timestamp_secs e)); (lit "nonce", nonce e);
   (lit "signature_hex", signature_hex e)]
  ++ context_entries (context e)
  ++ [(lit "body_hex", RuntimeHex.to_hex (body e))].

Definition serialize_envelope (e : SignedEnvelope) : str := kv_text (envelope_entries e).

(** The loop of [parse_envelope] over the lines; a later key overrides an
    earlier one, a line without ['='] is skipped. *)
Definition insert_line (values : gmap str str) (line : str) : gmap str str :=
  match split_once 61 line with
  | Some (key, value) => <[trim key := trim value]> values
  | None => values
  end.
Definition collect_values (text : str) : gmap str str :=
  foldl insert_line ∅ (lines text).

(** [values.remove(key).ok_or(ParseEnvelope)?] *)
Definition take_value (key : str) (values : gmap str str) :
    result RuntimeError (str * gmap str str) :=
  value ← ok_or ParseEnvelope (values !! key);
  Ok (value, delete key values).

Definition parse_context (kind : str) (values : gmap str str) :
    result RuntimeError (MessageContext * gmap str str) :=
  if bool_decide (kind = lit "http_request") then
    '(method, values) ← take_value (lit "method") values;
    '(path, values) ← take_value (lit "path") values;
    Ok (HttpRequest method path, values)
  else if bool_decide (kind = lit "http_response") then
    '(status, values) ← take_value (lit "status_code") values;
    status_code ← ok_or ParseEnvelope (parse_uint U16_MAX status);
    '(path, values) ← take_value (lit "path") values;
    Ok (HttpResponse status_code path, values)
  else if bool_decide (kind = lit "udp_announcement") then
    Ok (UdpAnnouncement, values)
  else Err ParseEnvelope.

Definition parse_envelope (text : str) : result RuntimeError SignedEnvelope :=
  let values := collect_values text in
  '(sid, values) ← take_value (lit "sid") values;
  '(sender, values) ← take_value (lit "sender_id") values;
  '(ts_text, values) ← take_value (lit "timestamp_secs") values;
  ts ← ok_or ParseEnvelope (parse_uint U64_MAX ts_text);
  '(n, values) ← take_value (lit "nonce") values;
  '(sig, values) ← take_value (lit "signature_hex") values;
  '(kind, values) ← take_value (lit "context") values;
  '(ctx, values) ← parse_context kind values;
  '(body_hex, values) ← take_value (lit "body_hex") values;
  b ← ok_or ParseEnvelope (RuntimeHex.from_hex body_hex);
  Ok {| env_sid := sid; sender_id := sender; timestamp_secs := ts; nonce := n;
        context := ctx; body := b; signature_hex := sig |}.

Arguments parse_envelope : simpl never.
Arguments serialize_envelope : simpl never.

(** ** Envelopes that fit on the wire *)

Definition context_safe (c : MessageContext) : Prop :=
  match c with
  | HttpRequest m p => line_safe m ∧ line_safe p
  | HttpResponse s p => s ≤ U16_MAX ∧ line_safe p
  | UdpAnnouncement => True
  end.

Definition envelope_safe (e : SignedEnvelope) : Prop :=
  line_safe (env_sid e) ∧ line_safe (sender_id e) ∧ timestamp_secs e ≤ U64_MAX
  ∧ line_safe (nonce e) ∧ context_safe (context e) ∧ wf_bytes (body e)
  ∧ line_safe (signature_hex e).

#[export] Instance envelope_safe_dec e : Decision (envelope_safe e).
Proof. unfold envelope_safe, context_safe, wf_bytes, is_byte. destruct (context e); apply _. Defined.

(** ** Lemmas *)

Lemma insert_line_kv m k v : kv_safe (k, v) → insert_line m (kv_line (k, v)) = <[k := v]> m.
Proof.
  intros [Hk Hv]. cbn [fst snd] in *. unfold insert_line. rewrite split_once_kv by done.
  destruct Hk as [[_ ->] _], Hv as [_ ->]. done.
Qed.

Lemma foldl_insert_lines m kvs :
  Forall kv_safe kvs → foldl insert_line m (map kv_line kvs) = insert_all m kvs.
Proof.
  intros H. revert m. induction H as [|[k v] kvs Hkv _ IH]; intros m; [done|].
  cbn [map foldl]. rewrite insert_line_kv by done. by rewrite IH.
Qed.

Lemma collect_kv_text kvs : Forall kv_safe kvs → collect_values (kv_text kvs) = insert_all ∅ kvs.
Proof. intros H. unfold collect_values. by rewrite lines_kv_text, foldl_insert_lines. Qed.

Lemma take_value_Ok k m v m' :
  take_value k m = Ok (v, m') ↔ m !! k = Some v ∧ m' = delete k m.
Proof.
  unfold take_value. destruct (m !! k) as [w|]; cbn; split.
  - intros [= -> <-]. done.
  - by intros [[= ->] ->].
  - done.
  - by intros [[=] _].
Qed.

Lemma take_value_lookup k m v : m !! k = Some v → take_value k m = Ok (v, delete k m).
Proof. intros H. by apply take_value_Ok. Qed.

Lemma context_entries_safe c : context_safe c → Forall kv_safe (context_entries c).
Proof.
  destruct c; cbn [context_safe context_entries]; intros H; try destruct H; kv_safe_list.
Qed.

Lemma envelope_entries_safe e : envelope_safe e → Forall kv_safe (envelope_entries e).
Proof.
  intros (? & ? & ? & ? & Hc & Hb & ?). unfold envelope_entries.
  rewrite !Forall_app. split_and!; [|by apply context_entries_safe|]; kv_safe_list.
Qed.

(** Run one [take_value] on a map built by insertions and deletions. *)
Ltac take_step :=
  erewrite take_value_lookup by (kv_lookup; reflexivity); cbn [mbind result_bind].

Lemma parse_serialize e : envelope_safe e → parse_envelope (serialize_envelope e) = Ok e.
Proof.
  intros H. unfold parse_envelope, serialize_envelope.
  rewrite collect_kv_text by (by apply envelope_entries_safe).
  destruct H as (_ & _ & Hts & _ & Hc & Hb & _), e as [sid sender ts n ctx b sig].
  cbn [env_sid sender_id timestamp_secs nonce context body signature_hex] in *.
  destruct ctx as [m p|s p|]; cbn [context_safe] in Hc;
    unfold insert_all, envelope_entries; cbn [context_entries app foldl fst snd
      env_sid sender_id timestamp_secs nonce context body signature_hex];
    do 3 take_step; rewrite parse_to_string by done; cbn [ok_or mbind result_bind];
    do 3 take_step; unfold parse_context; cbn [mbind result_bind].
  - rewrite bool_decide_true by done. do 3 take_step.
    by rewrite from_hex_to_hex.
  - rewrite bool_decide_false by by_compute. rewrite bool_decide_true by done.
    take_step. rewrite parse_to_string by apply Hc. cbn [ok_or mbind result_bind].
    do 2 take_step. by rewrite from_hex_to_hex.
  - rewrite bool_decide_false by by_compute. rewrite bool_decide_false by by_compute.
    rewrite bool_decide_true by done. cbn [mbind result_bind]. take_step.
    by rewrite from_hex_to_hex.
Qed.

(** *** What the parser produces *)

Definition map_safe (P : str → Prop) (m : gmap str str) : Prop :=
  map_Forall (λ _ v, line_safe v ∧ P v) m.

(** [P] is any property of text that trimming and cutting preserve. *)
Definition cut_closed (P : str → Prop) : Prop :=
  ∀ s t, P s → (∀ c, c ∈ t → c ∈ s) → P t.

Lemma wf_cut_closed : cut_closed wf_str.
Proof. intros s t Hs H. unfold wf_str in *. rewrite Forall_forall in *. auto. Qed.

Lemma collect_values_safe P text :
  cut_closed P → P text → map_safe P (collect_values text).
Proof.
  intros HP Ht. unfold collect_values.
  assert (Forall (λ l, (LF ∉ l) ∧ P l) (lines text)) as HL.
  { apply Forall_forall. intros l Hl. split.
    - pose proof (lines_no_LF text) as H. rewrite Forall_forall in H. by apply H.
    - apply (HP text); [done|]. intros c Hc. by eapply elem_lines. }
  assert (map_safe P ∅) as H0 by apply map_Forall_empty.
  revert H0. generalize (∅ : gmap str str).
  induction HL as [|l ls [Hl HPl] _ IH]; intros m Hm; [done|]. cbn [foldl]. apply IH.
  unfold insert_line. destruct (split_once 61 l) as [[k v]|] eqn:E; [|done].
  apply split_once_Some in E as [-> _]. apply map_Forall_insert_2; [|done].
  split.
  - apply trim_line_safe. intros Hin. apply Hl. apply elem_of_app. right. by right.
  - apply (HP _ _ HPl). intros c Hc%trim_elem. apply elem_of_app. right. by right.
Qed.

Lemma map_safe_take P k m v m' :
  map_safe P m → take_value k m = Ok (v, m') → line_safe v ∧ P v ∧ map_safe P m'.
Proof.
  intros Hm [Hv ->]%take_value_Ok. destruct (Hm _ _ Hv). split_and!; [done|done|].
  by apply map_Forall_delete.
Qed.

Ltac inv_take H :=
  lazymatch type of H with
  | mbind _ ?m = Ok _ =>
      let E := fresh "E" in
      destruct m as [[? ?]|] eqn:E; [cbn [mbind result_bind] in H | discriminate H]
  end.

Lemma parse_context_safe P kind m ctx m' :
  map_safe P m → parse_context kind m = Ok (ctx, m') →
  context_safe ctx ∧ map_safe P m'
  ∧ match ctx with
    | HttpRequest a b => P a ∧ P b | HttpResponse _ b => P b | UdpAnnouncement => True
    end.
Proof.
  intros Hm H. unfold parse_context in H. repeat case_bool_decide.
  - inv_take H. inv_take H. injection H as <- <-.
    destruct (map_safe_take _ _ _ _ _ Hm E) as (? & ? & Hm1).
    destruct (map_safe_take _ _ _ _ _ Hm1 E0) as (? & ? & ?). cbn. auto.
  - inv_take H. destruct (map_safe_take _ _ _ _ _ Hm E) as (? & ? & Hm1).
    destruct (parse_uint U16_MAX l) as [s|] eqn:Es; cbn [ok_or mbind result_bind] in H; [|done].
    inv_take H. injection H as <- <-.
    destruct (map_safe_take _ _ _ _ _ Hm1 E0) as (? & ? & ?). cbn.
    split_and!; try done. by eapply parse_uint_bound.
  - injection H as <- <-. done.
  - done.
Qed.

Lemma parse_envelope_fields P text e :
  cut_closed P → P text → parse_envelope text = Ok e →
  envelope_safe e ∧ P (env_sid e) ∧ P (sender_id e) ∧ P (nonce e) ∧ P (signature_hex e)
  ∧ match context e with
    | HttpRequest a b => P a ∧ P b | HttpResponse _ b => P b | UdpAnnouncement => True
    end.
Proof.
  intros HP Ht H. pose proof (collect_values_safe P text HP Ht) as Hm.
  unfold parse_envelope in H.
  inv_take H. destruct (map_safe_take _ _ _ _ _ Hm E) as (? & ? & Hm1).
  inv_take H. destruct (map_safe_take _ _ _ _ _ Hm1 E0) as (? & ? & Hm2).
  inv_take H. destruct (map_safe_take _ _ _ _ _ Hm2 E1) as (? & ? & Hm3).
  destruct (parse_uint U64_MAX _) as [ts|] eqn:Ets; cbn [ok_or mbind result_bind] in H; [|done].
  inv_take H. destruct (map_safe_take _ _ _ _ _ Hm3 E2) as (? & ? & Hm4).
  inv_take H. destruct (map_safe_take _ _ _ _ _ Hm4 E3) as (? & ? & Hm5).
  inv_take H. destruct (map_safe_take _ _ _ _ _ Hm5 E4) as (? & ? & Hm6).
  inv_take H. destruct (parse_context_safe _ _ _ _ _ Hm6 E5) as (? & Hm7 & ?).
  inv_take H. destruct (RuntimeHex.from_hex _) as [b|] eqn:Eb; cbn [ok_or mbind result_bind] in H; [|done].
  injection H as <-. unfold envelope_safe. cbn.
  apply parse_uint_bound in Ets. apply from_hex_wf in Eb. auto 15.
Qed.

Lemma parsed_safe text e : parse_envelope text = Ok e → envelope_safe e.
Proof. intros H. by apply (parse_envelope_fields (λ _, True) text e) in H as [? _]. Qed.

Lemma parsed_wf text e : wf_str text → parse_envelope text = Ok e → envelope_wf e.
Proof.
  intros Hw H.
  apply (parse_envelope_fields wf_str) in H as ((_ & _ & ? & _ & Hc & ? & _) & ? & ? & ? & ? & Hc');
    [|apply wf_cut_closed|done].
  unfold envelope_wf. split_and!; try done. destruct (context e); cbn in *; tauto.
Qed.

Lemma safe_lines e : envelope_safe e → envelope_lines e.
Proof.
  intros ([? _] & [? _] & _ & [? _] & Hc & _). unfold envelope_lines. split_and!; try done.
  destruct (context e) as [m p|s p|]; cbn in *; [|by destruct Hc as [_ [? _]]|done].
  by destruct Hc as [[? _] [? _]].
Qed.

#[export] Hint Resolve parse_serialize parsed_safe parsed_wf safe_lines : text.

Lemma context_entries_wf c : context_wf c →
  Forall (λ kv, wf_str kv.1 ∧ wf_str kv.2) (context_entries c).
Proof.
  destruct c; cbn [context_wf context_entries]; intros H; try destruct H;
    repeat (apply Forall_cons_2; [cbn [fst snd]; auto with text|]); apply Forall_nil_2.
Qed.

Lemma serialize_wf e : envelope_wf e → wf_str (serialize_envelope e).
Proof.
  intros (? & ? & ? & ? & ? & ? & ?). unfold serialize_envelope. apply kv_text_wf.
  unfold envelope_entries. rewrite !Forall_app.
  split_and!; [|by apply context_entries_wf|];
    repeat (apply Forall_cons_2; [cbn [fst snd]; auto with text|]); apply Forall_nil_2.
Qed.

Lemma sign_envelope_safe {C : Crypto} {CO : CryptoOk C} sid token sender ts n ctx b :
  line_safe sid → line_safe sender → ts ≤ U64_MAX → line_safe n → context_safe ctx →
  wf_bytes b → envelope_safe (sign_envelope sid token sender ts n ctx b).
Proof.
  intros. unfold envelope_safe. cbn. split_and!; try done.
  apply encode_hex_line_safe, hmac_wf.
Qed.

(** ** Properties *)

(** C36: the wire format round trip.  The envelopes that are read back unchanged
    from their serialisation are exactly those whose text fields have no line
    feed and no surrounding white space, whose numbers fit 64 and 16 bits and
    whose body consists of bytes. *)
Theorem parse_serialize_envelope (e : SignedEnvelope) :
  parse_envelope (serialize_envelope e) = Ok e ↔ envelope_safe e.
Proof. split; [eauto with text|apply parse_serialize]. Qed.

(** Whatever text arrives, an envelope that [parse_envelope] produces has
    one-line trimmed fields, integers in range and a body of bytes, so
    serialising and parsing it again gives the same envelope; and its text
    fields are well-formed when the text was. *)
Theorem parse_envelope_sound (text : str) (e : SignedEnvelope) :
  parse_envelope text = Ok e →
  envelope_safe e ∧ envelope_lines e ∧ (wf_str text → envelope_wf e)
  ∧ parse_envelope (serialize_envelope e) = Ok e.
Proof. intros H. split_and!; eauto with text. Qed.

(** C9: tamper evidence on the wire.  Two texts received from the network
    that parse to envelopes with the same signature and are both accepted agree
    on group, sender, timestamp, nonce, context and body hash, or the two texts
    that were signed are a collision of HMAC-SHA256 under the group token. *)
Theorem wire_tamper_evident {C : Crypto} {CO : CryptoOk C}
    (text text' : str) (e e' : SignedEnvelope) (token sid : str) :
  wf_str text → wf_str text' →
  parse_envelope text = Ok e → parse_envelope text' = Ok e' →
  verify_envelope e token sid = Ok tt → verify_envelope e' token sid = Ok tt →
  signature_hex e = signature_hex e' →
  (env_sid e = env_sid e' ∧ sender_id e = sender_id e' ∧ timestamp_secs e = timestamp_secs e'
   ∧ nonce e = nonce e' ∧ same_context (context e) (context e')
   ∧ sha256 (body e) = sha256 (body e'))
  ∨ (encode (envelope_canonical e) ≠ encode (envelope_canonical e')
     ∧ hmac_sha256 (encode token) (encode (envelope_canonical e))
       = hmac_sha256 (encode token) (encode (envelope_canonical e'))).
Proof. intros. eapply verify_tamper; eauto with text. Qed.

(** A message signed by a member is accepted by the other members after
    the trip over the wire, when its text fields fit on a line. *)
Theorem signed_message_accepted {C : Crypto} {CO : CryptoOk C}
    (sid token sender n : str) (ts : N) (ctx : MessageContext) (b : bytes) :
  line_safe sid → line_safe sender → ts ≤ U64_MAX → line_safe n → context_safe ctx →
  wf_bytes b →
  ∃ e, parse_envelope (serialize_envelope (sign_envelope sid token sender ts n ctx b)) = Ok e
       ∧ verify_envelope e token sid = Ok tt ∧ sender_id e = sender ∧ body e = b.
Proof.
  intros. eexists. split; [by apply parse_serialize, sign_envelope_safe|].
  split_and!; [apply verify_sign|done|done].
Qed.

(** ** Witnesses *)

Lemma parse_serialize_envelope_witness :
  envelope_safe sample_envelope
  ∧ parse_envelope (serialize_envelope sample_envelope) = Ok sample_envelope.
Proof. split; [by_compute|]. apply (parse_serialize_envelope sample_envelope). by_compute. Defined.

(** A message with a repeated key, a line that is not key=value and white space
    around its fields. *)
Definition noisy_text : str :=
  concat (map (λ l, l ++ [LF])
    [lit "sid=group-a"; lit "hello"; lit " sender_id = node-1 "; lit "timestamp_secs=7";
     lit "timestamp_secs=1000"; lit "nonce=n=1"; lit "signature_hex=00FF"; lit "context=http_request";
     lit "method=POST"; lit "path=/v1/keys/get"; lit "body_hex=6869"]).
Definition noisy_envelope : SignedEnvelope :=
  {| env_sid := lit "group-a"; sender_id := lit "node-1"; timestamp_secs := 1000;
     nonce := lit "n=1"; context := HttpRequest (lit "POST") (lit "/v1/keys/get");
     body := lit "hi"; signature_hex := lit "00FF" |}.

Lemma parse_envelope_sound_witness :
  envelope_safe noisy_envelope
  ∧ parse_envelope (serialize_envelope noisy_envelope) = Ok noisy_envelope.
Proof. split; apply (parse_envelope_sound noisy_text); by vm_compute. Defined.

(** The same message with its lines in another order. *)
Definition sample_text : str := serialize_envelope sample_envelope.
Definition sample_text' : str := lit "extra=1" ++ [LF] ++ sample_text.

Lemma wire_tamper_evident_witness :
  @sha256 toy_crypto (body sample_envelope) = @sha256 toy_crypto (body sample_envelope).
Proof.
  destruct (@wire_tamper_evident toy_crypto toy_crypto_ok sample_text sample_text'
    sample_envelope sample_envelope (lit "secret-token") (lit "group-a"))
    as [(_ & _ & _ & _ & _ & H)|H];
    [by_compute|by_compute|by vm_compute|by vm_compute|by vm_compute|by vm_compute|done| |].
  - exact H.
  - by destruct H.
Defined.

Lemma signed_message_accepted_witness :
  ∃ e, parse_envelope sample_text = Ok e
       ∧ @verify_envelope toy_crypto e (lit "secret-token") (lit "group-a") = Ok tt
       ∧ sender_id e = lit "node-1" ∧ body e = lit "payload".
Proof.
  apply (@signed_message_accepted toy_crypto toy_crypto_ok (lit "group-a") (lit "secret-token")
    (lit "node-1") (lit "nonce-1") 1000 UdpAnnouncement (lit "payload")); by_compute.
Defined.

(** A participant identifier with surrounding white space (the configuration
    does not trim it) is signed as it is and read back trimmed: no peer can
    verify its messages. *)
Example untrimmed_sender_rejected :
  let e := @sign_envelope toy_crypto (lit "group-a") (lit "secret-token") (lit "node-1 ") 1000
             (lit "nonce-1") UdpAnnouncement (lit "payload") in
  (e' ← ok (parse_envelope (serialize_envelope e));
   Some (sender_id e', @verify_envelope toy_crypto e' (lit "secret-token") (lit "group-a")))
  = Some (lit "node-1", Err InvalidSignature).
Proof. by vm_compute. Qed.
