(* ===== verification/Transport.v ===== *)
(** * The key-exchange service (src/src/transport.rs)

    [HttpKeyExchangeService]: building and handling the two signed requests
    (get a public key, publish a participant).  The theorems: which requests
    each handler serves and what it answers, that a client and a server of one
    group exchange the server's key, that a message of one kind is never taken
    for another, and that nothing here bounds the age or the reuse of a
    request. *)

From S2P Require Import Prelude Str Utf8 Hex KeyValue SshKeys Auth.

Local Open Scope N_scope.

(** ** Data *)

Definition PATH_GET_PUBLIC_KEY : str := lit "/v1/keys/get".
Definition PATH_PUBLISH_PARTICIPANT : str := lit "/v1/participants/publish".

Record KeyExchangeHttpRequest := {
  req_path : str;
  req_sender_id : str;
  req_timestamp_secs : N;
  req_nonce : str;
  req_body : bytes
}.

Record KeyExchangeHttpResponse := {
  resp_path : str;
  resp_status_code : N;
  resp_sender_id : str;
  resp_timestamp_secs : N;
  resp_nonce : str;
  resp_body : bytes
}.

Record PublicKeyPayload := {
  pk_sid : str;
  pk_participant_id : str;
  pk_public_key : str
}.

Record ParticipantPublishPayload := {
  pub_participant_id : str;
  pub_address : str;
  pub_port : N;
  pub_public_key : str
}.

Inductive TransportError :=
| Auth (e : AuthError)
| UnexpectedContext
| InvalidPayload
| MissingPayloadField (field : str).

#[export] Instance TransportError_eq_dec : EqDecision TransportError.
Proof. solve_decision. Defined.
#[export] Instance PublicKeyPayload_eq_dec : EqDecision PublicKeyPayload.
Proof. solve_decision. Defined.

Record HttpKeyExchangeService := {
  svc_sid : str;
  svc_sid_token : str;
  svc_participant_id : str;
  svc_public_key : str
}.

(** ** Operations *)

Definition parse_payload (body : bytes) : result TransportError (gmap str str) :=
  parse_payload_with InvalidPayload body.

Definition get_required (payload : gmap str str) (field : str) : result TransportError str :=
  ok_or (MissingPayloadField field) (payload !! field).

Definition parse_publish_request (body : bytes) :
    result TransportError ParticipantPublishPayload :=
  payload ← parse_payload body;
  participant_id ← get_required payload (lit "participant_id");
  address ← get_required payload (lit "address");
  port_text ← get_required payload (lit "port");
  port ← ok_or InvalidPayload (parse_uint U16_MAX port_text);
  public_key ← get_required payload (lit "public_key");
  Ok {| pub_participant_id := participant_id; pub_address := address; pub_port := port;
        pub_public_key := public_key |}.

Definition expect_http_request_context (envelope : SignedEnvelope)
    (expected_method expected_path : str) : result TransportError unit :=
  match context envelope with
  | HttpRequest method path =>
      if eq_ignore_ascii_case method expected_method && bool_decide (path = expected_path)
      then Ok tt else Err UnexpectedContext
  | _ => Err UnexpectedContext
  end.

Definition expect_http_response_context (envelope : SignedEnvelope)
    (expected_status : N) (expected_path : str) : result TransportError unit :=
  match context envelope with
  | HttpResponse status_code path =>
      if (status_code =? expected_status) && bool_decide (path = expected_path)
      then Ok tt else Err UnexpectedContext
  | _ => Err UnexpectedContext
  end.

Section transport.
Context {C : Crypto}.

Definition sign_http_request (sid sid_token : str) (request : KeyExchangeHttpRequest) :
    SignedEnvelope :=
  sign_envelope sid sid_token (req_sender_id request) (req_timestamp_secs request)
    (req_nonce request) (HttpRequest (lit "POST") (req_path request)) (req_body request).

Definition sign_http_response (sid sid_token : str) (response : KeyExchangeHttpResponse) :
    SignedEnvelope :=
  sign_envelope sid sid_token (resp_sender_id response) (resp_timestamp_secs response)
    (resp_nonce response) (HttpResponse (resp_status_code response) (resp_path response))
    (resp_body response).

Definition verify_http_request (envelope : SignedEnvelope) (sid_token expected_sid : str) :
    result AuthError unit :=
  verify_envelope envelope sid_token expected_sid.

Definition verify_http_response (envelope : SignedEnvelope) (sid_token expected_sid : str) :
    result AuthError unit :=
  verify_envelope envelope sid_token expected_sid.

(** [HttpKeyExchangeService::new]. *)
Definition HttpKeyExchangeService_new (sid sid_token participant_id public_key : str) :
    result TransportError HttpKeyExchangeService :=
  public_key ← map_err (λ _, InvalidPayload) (normalize_public_key public_key);
  Ok {| svc_sid := sid; svc_sid_token := sid_token; svc_participant_id := participant_id;
        svc_public_key := public_key |}.

Definition build_get_public_key_request (self : HttpKeyExchangeService)
    (sender : str) (ts : N) (n : str) : SignedEnvelope :=
  let request :=
    {| req_path := PATH_GET_PUBLIC_KEY; req_sender_id := sender; req_timestamp_secs := ts;
       req_nonce := n;
       req_body := serialize_payload [(lit "request", lit "public_key")] |} in
  sign_http_request (svc_sid self) (svc_sid_token self) request.

Definition handle_get_public_key_request (self : HttpKeyExchangeService)
    (request_envelope : SignedEnvelope) (response_ts : N) (response_nonce : str) :
    result TransportError SignedEnvelope :=
  _ ← map_err Auth (verify_http_request request_envelope (svc_sid_token self) (svc_sid self));
  _ ← expect_http_request_context request_envelope (lit "POST") PATH_GET_PUBLIC_KEY;
  let body := serialize_payload
    [(lit "sid", svc_sid self); (lit "participant_id", svc_participant_id self);
     (lit "public_key", svc_public_key self)] in
  let response :=
    {| resp_path := PATH_GET_PUBLIC_KEY; resp_status_code := 200;
       resp_sender_id := svc_participant_id self; resp_timestamp_secs := response_ts;
       resp_nonce := response_nonce; resp_body := body |} in
  Ok (sign_http_response (svc_sid self) (svc_sid_token self) response).

Definition verify_and_parse_public_key_response (self : HttpKeyExchangeService)
    (envelope : SignedEnvelope) : result TransportError PublicKeyPayload :=
  _ ← map_err Auth (verify_http_response envelope (svc_sid_token self) (svc_sid self));
  _ ← expect_http_response_context envelope 200 PATH_GET_PUBLIC_KEY;
  payload ← parse_payload (body envelope);
  sid ← get_required payload (lit "sid");
  participant_id ← get_required payload (lit "participant_id");
  raw_key ← get_required payload (lit "public_key");
  public_key ← map_err (λ _, InvalidPayload) (normalize_public_key raw_key);
  Ok {| pk_sid := sid; pk_participant_id := participant_id; pk_public_key := public_key |}.

Definition build_publish_request (self : HttpKeyExchangeService)
    (sender : str) (ts : N) (n : str) (payload : ParticipantPublishPayload) : SignedEnvelope :=
  let body := serialize_payload
    [(lit "participant_id", pub_participant_id payload); (lit "address", pub_address payload);
     (lit "port", to_string (pub_port payload)); (lit "public_key", pub_public_key payload)] in
  let request :=
    {| req_path := PATH_PUBLISH_PARTICIPANT; req_sender_id := sender; req_timestamp_secs := ts;
       req_nonce := n; req_body := body |} in
  sign_http_request (svc_sid self) (svc_sid_token self) request.

Definition handle_publish_request (self : HttpKeyExchangeService)
    (request_envelope : SignedEnvelope) (response_ts : N) (response_nonce : str) :
    result TransportError SignedEnvelope :=
  _ ← map_err Auth (verify_http_request request_envelope (svc_sid_token self) (svc_sid self));
  _ ← expect_http_request_context request_envelope (lit "POST") PATH_PUBLISH_PARTICIPANT;
  payload ← parse_publish_request (body request_envelope);
  _ ← map_err (λ _, InvalidPayload) (normalize_public_key (pub_public_key payload));
  let body := serialize_payload
    [(lit "status", lit "accepted"); (lit "participant_id", pub_participant_id payload)] in
  let response :=
    {| resp_path := PATH_PUBLISH_PARTICIPANT; resp_status_code := 202;
       resp_sender_id := svc_participant_id self; resp_timestamp_secs := response_ts;
       resp_nonce := response_nonce; resp_body := body |} in
  Ok (sign_http_response (svc_sid self) (svc_sid_token self) response).

End transport.

(** ** Well-formed services

    What [new] establishes about the key, and the identifiers that fit on a
    line of the payload. *)

Definition service_ok (s : HttpKeyExchangeService) : Prop :=
  normalize_public_key (svc_public_key s) = Ok (svc_public_key s)
  ∧ wf_str (svc_public_key s)
  ∧ line_safe (svc_sid s) ∧ wf_str (svc_sid s)
  ∧ line_safe (svc_participant_id s) ∧ wf_str (svc_participant_id s).

(** The message kinds an envelope can be accepted as. *)
Definition is_post_to (path : str) (e : SignedEnvelope) : Prop :=
  ∃ method, context e = HttpRequest method path
            ∧ to_ascii_lowercase method = to_ascii_lowercase (lit "POST").

#[export] Instance is_post_to_dec path e : Decision (is_post_to path e).
Proof.
  unfold is_post_to. destruct (context e) as [m p| |]; [|right; by intros (? & ? & ?)..].
  destruct (decide (p = path ∧ to_ascii_lowercase m = to_ascii_lowercase (lit "POST"))) as [[-> H]|H].
  - left. by exists m.
  - right. intros (m' & [= -> ->] & E). by apply H.
Defined.

(** ** Lemmas *)

Section transport_lemmas.
Context {C : Crypto} {CO : CryptoOk C}.
Implicit Types (s : HttpKeyExchangeService) (e : SignedEnvelope).

Lemma expect_request_Ok e path :
  expect_http_request_context e (lit "POST") path = Ok tt ↔ is_post_to path e.
Proof.
  unfold expect_http_request_context, is_post_to, eq_ignore_ascii_case. split.
  - destruct (context e) as [m p| |]; [|done|done].
    repeat case_bool_decide; cbn [andb]; [|done..]. intros _. subst. eauto.
  - intros (m & -> & E). rewrite !bool_decide_true by done. done.
Qed.

Lemma expect_response_Ok e status path :
  expect_http_response_context e status path = Ok tt ↔ context e = HttpResponse status path.
Proof.
  unfold expect_http_response_context. split.
  - destruct (context e) as [|st p|]; [done| |done].
    destruct (N.eqb_spec st status); case_bool_decide; cbn [andb]; [|done..]. by subst.
  - intros ->. rewrite N.eqb_refl, bool_decide_true by done. done.
Qed.

Lemma is_post_to_built path sender ts n b sid token :
  is_post_to path (sign_http_request sid token
    {| req_path := path; req_sender_id := sender; req_timestamp_secs := ts;
       req_nonce := n; req_body := b |}).
Proof. eexists. split; reflexivity. Qed.

Lemma handle_get_Ok s e ts n r :
  handle_get_public_key_request s e ts n = Ok r ↔
  verify_envelope e (svc_sid_token s) (svc_sid s) = Ok tt ∧ is_post_to PATH_GET_PUBLIC_KEY e
  ∧ r = sign_envelope (svc_sid s) (svc_sid_token s) (svc_participant_id s) ts n
          (HttpResponse 200 PATH_GET_PUBLIC_KEY)
          (serialize_payload [(lit "sid", svc_sid s);
             (lit "participant_id", svc_participant_id s); (lit "public_key", svc_public_key s)]).
Proof.
  unfold handle_get_public_key_request, verify_http_request. rewrite <- expect_request_Ok.
  destruct (verify_envelope _ _ _) as [[]|]; cbn [map_err mbind result_bind]; [|naive_solver].
  destruct (expect_http_request_context _ _ _) as [[]|]; cbn [mbind result_bind]; [|naive_solver].
  split; [intros [= <-]; done|]. by intros (_ & _ & ->).
Qed.

Lemma handle_publish_Ok s e ts n r :
  handle_publish_request s e ts n = Ok r ↔
  verify_envelope e (svc_sid_token s) (svc_sid s) = Ok tt ∧ is_post_to PATH_PUBLISH_PARTICIPANT e
  ∧ ∃ p, parse_publish_request (body e) = Ok p
     ∧ is_ok (normalize_public_key (pub_public_key p)) = true
     ∧ r = sign_envelope (svc_sid s) (svc_sid_token s) (svc_participant_id s) ts n
             (HttpResponse 202 PATH_PUBLISH_PARTICIPANT)
             (serialize_payload [(lit "status", lit "accepted");
                (lit "participant_id", pub_participant_id p)]).
Proof.
  unfold handle_publish_request, verify_http_request. rewrite <- expect_request_Ok.
  destruct (verify_envelope _ _ _) as [[]|]; cbn [map_err mbind result_bind]; [|naive_solver].
  destruct (expect_http_request_context _ _ _) as [[]|]; cbn [mbind result_bind]; [|naive_solver].
  destruct (parse_publish_request (body e)) as [p|]; cbn [mbind result_bind]; [|naive_solver].
  destruct (normalize_public_key (pub_public_key p)) eqn:E; cbn [map_err mbind result_bind].
  - split.
    + intros [= <-]. split_and!; try done. exists p. by rewrite E.
    + by intros (_ & _ & p' & [= <-] & _ & ->).
  - split; [done|]. intros (_ & _ & p' & [= <-] & Hn & _). by rewrite E in Hn.
Qed.

(** The payload of a get response, read back. *)
Lemma get_response_payload s :
  service_ok s →
  parse_payload (serialize_payload [(lit "sid", svc_sid s);
    (lit "participant_id", svc_participant_id s); (lit "public_key", svc_public_key s)])
  = Ok (insert_all ∅ [(lit "sid", svc_sid s);
    (lit "participant_id", svc_participant_id s); (lit "public_key", svc_public_key s)]).
Proof.
  intros (Hn & ? & ? & ? & ? & ?). pose proof (normalize_line_safe _ _ Hn) as [? _].
  apply parse_serialize_payload; [kv_safe_list|kv_wf_list].
Qed.

Lemma parse_built_publish p :
  line_safe (pub_participant_id p) → wf_str (pub_participant_id p) →
  line_safe (pub_address p) → wf_str (pub_address p) → pub_port p ≤ U16_MAX →
  line_safe (pub_public_key p) → wf_str (pub_public_key p) →
  parse_publish_request (serialize_payload
    [(lit "participant_id", pub_participant_id p); (lit "address", pub_address p);
     (lit "port", to_string (pub_port p)); (lit "public_key", pub_public_key p)]) = Ok p.
Proof.
  intros. unfold parse_publish_request, parse_payload.
  rewrite parse_serialize_payload; [|kv_safe_list|kv_wf_list]. cbn [mbind result_bind].
  unfold get_required, insert_all. cbn [foldl fst snd].
  kv_lookup. cbn [ok_or mbind result_bind].
  do 3 (kv_lookup; cbn [ok_or mbind result_bind]).
  rewrite parse_to_string by done. cbn [ok_or mbind result_bind]. by destruct p.
Qed.

End transport_lemmas.

Lemma service_new_ok sid token pid key s :
  HttpKeyExchangeService_new sid token pid key = Ok s →
  line_safe sid → wf_str sid → line_safe pid → wf_str pid → wf_str key → service_ok s.
Proof.
  unfold HttpKeyExchangeService_new. destruct (normalize_public_key key) as [k|] eqn:E; [|done].
  cbn. intros [= <-] ? ? ? ? ?. unfold service_ok. cbn.
  split_and!; try done; [by eapply normalize_idem|by eapply normalize_wf].
Qed.

(** A request signed at any time is served at any time: neither handler looks
    at the age of the envelope or at its nonce. *)
Lemma handle_get_any_age {C : Crypto} {CO : CryptoOk C} (s : HttpKeyExchangeService)
    (sender n m : str) (ts t : N) :
  is_ok (handle_get_public_key_request s (build_get_public_key_request s sender ts n) t m) = true.
Proof.
  assert (∃ r, handle_get_public_key_request s
    (build_get_public_key_request s sender ts n) t m = Ok r) as [r ->]; [|done].
  eexists. apply handle_get_Ok. split_and!; [apply verify_sign|apply is_post_to_built|reflexivity].
Qed.

(** One exchange of a key, from the request to the parsed response. *)
Lemma exchange_keys {C : Crypto} {CO : CryptoOk C} (client server : HttpKeyExchangeService)
    (sender n n' : str) (ts ts' : N) :
  svc_sid client = svc_sid server → svc_sid_token client = svc_sid_token server →
  service_ok server →
  ∃ response,
    handle_get_public_key_request server (build_get_public_key_request client sender ts n) ts' n'
      = Ok response
    ∧ verify_and_parse_public_key_response client response =
      Ok {| pk_sid := svc_sid server; pk_participant_id := svc_participant_id server;
            pk_public_key := svc_public_key server |}.
Proof.
  intros Hs Ht Hok. eexists. split.
  - apply handle_get_Ok. split_and!; [|apply is_post_to_built|reflexivity].
    unfold build_get_public_key_request, sign_http_request. rewrite Hs, Ht. apply verify_sign.
  - unfold verify_and_parse_public_key_response, verify_http_response.
    rewrite Hs, Ht, verify_sign. cbn [map_err mbind result_bind].
    rewrite (proj2 (expect_response_Ok _ _ _)) by done. cbn [mbind result_bind].
    change (body (sign_envelope ?a ?b ?c ?d ?e ?f ?x)) with x.
    rewrite get_response_payload by done. cbn [mbind result_bind].
    unfold get_required, insert_all. cbn [foldl fst snd].
    do 3 (kv_lookup; cbn [ok_or mbind result_bind]).
    destruct Hok as (-> & _). done.
Qed.

(** ** Properties *)

(** Exchange of a key between two services of one group.  Whatever sender
    name, timestamps and nonces are used, the server answers the client's
    request, and the client reads from the answer the server's group,
    participant and normalised key. *)
Theorem key_exchange {C : Crypto} {CO : CryptoOk C} (client server : HttpKeyExchangeService)
    (sender n n' : str) (ts ts' : N) :
  svc_sid client = svc_sid server → svc_sid_token client = svc_sid_token server →
  service_ok server →
  ∃ response,
    handle_get_public_key_request server (build_get_public_key_request client sender ts n) ts' n'
      = Ok response
    ∧ verify_and_parse_public_key_response client response =
      Ok {| pk_sid := svc_sid server; pk_participant_id := svc_participant_id server;
            pk_public_key := svc_public_key server |}.
Proof.
  apply exchange_keys.
Qed.

(** C33: what the get handler answers to every request.  An envelope that does
    not verify under the group's token is refused with the error of the
    verification, one that verifies and is no POST to the handler's path with
    the error for an unexpected context, and every other one is served: the
    answer is signed under the group's token by the participant with the
    response's time and nonce, and is a function of these and of the service
    alone; its body names the group, the participant and the public key and is
    the same for every token: the secret only enters the signature. *)
Theorem handle_get_serves_authenticated {C : Crypto} (s : HttpKeyExchangeService)
    (e : SignedEnvelope) (ts : N) (n : str) :
  handle_get_public_key_request s e ts n =
  match verify_envelope e (svc_sid_token s) (svc_sid s) with
  | Err err => Err (Auth err)
  | Ok _ =>
      if decide (is_post_to PATH_GET_PUBLIC_KEY e) then
        Ok (sign_envelope (svc_sid s) (svc_sid_token s) (svc_participant_id s) ts n
              (HttpResponse 200 PATH_GET_PUBLIC_KEY)
              (encode (kv_text [(lit "sid", svc_sid s);
                 (lit "participant_id", svc_participant_id s); (lit "public_key", svc_public_key s)])))
      else Err UnexpectedContext
  end.
Proof.
  case_decide as Hp.
  - destruct (verify_envelope _ _ _) as [[]|err] eqn:Hv.
    + by apply handle_get_Ok.
    + unfold handle_get_public_key_request, verify_http_request. by rewrite Hv.
  - unfold handle_get_public_key_request, verify_http_request.
    destruct (verify_envelope _ _ _) as [[]|err]; [|done]. cbn [map_err mbind result_bind].
    destruct (expect_http_request_context _ _ _) as [[]|err] eqn:E; cbn [mbind result_bind].
    + by apply expect_request_Ok in E.
    + unfold expect_http_request_context in E. repeat case_match; by simplify_eq.
Qed.

(** C32: the publish handler accepts exactly the authenticated POSTs to its
    path whose body names a participant, an address, a port of 16 bits and a
    valid public key, and answers 202 with the participant of the payload; a
    request built from such a payload is accepted. *)
Theorem handle_publish_accepts {C : Crypto} {CO : CryptoOk C} (s : HttpKeyExchangeService)
    (e : SignedEnvelope) (ts : N) (n : str) :
  (is_ok (handle_publish_request s e ts n) = true ↔
   verify_envelope e (svc_sid_token s) (svc_sid s) = Ok tt
   ∧ is_post_to PATH_PUBLISH_PARTICIPANT e
   ∧ ∃ p, parse_publish_request (body e) = Ok p
          ∧ is_ok (normalize_public_key (pub_public_key p)) = true)
  ∧ (∀ r, handle_publish_request s e ts n = Ok r →
       verify_envelope r (svc_sid_token s) (svc_sid s) = Ok tt
       ∧ context r = HttpResponse 202 PATH_PUBLISH_PARTICIPANT
       ∧ sender_id r = svc_participant_id s)
  ∧ (∀ sender ts' n' p,
       line_safe (pub_participant_id p) → wf_str (pub_participant_id p) →
       line_safe (pub_address p) → wf_str (pub_address p) → pub_port p ≤ U16_MAX →
       line_safe (pub_public_key p) → wf_str (pub_public_key p) →
       e = build_publish_request s sender ts' n' p →
       is_ok (handle_publish_request s e ts n) = is_ok (normalize_public_key (pub_public_key p))).
Proof.
  assert (Hiff : is_ok (handle_publish_request s e ts n) = true ↔
    ∃ r, handle_publish_request s e ts n = Ok r).
  { destruct (handle_publish_request s e ts n); cbn; naive_solver. }
  split_and!.
  - rewrite Hiff. setoid_rewrite handle_publish_Ok. naive_solver.
  - intros r (_ & _ & p & _ & _ & ->)%handle_publish_Ok. split_and!; [apply verify_sign|done|done].
  - intros sender ts' n' p ? ? ? ? ? ? ? E.
    apply eq_true_iff_eq. rewrite Hiff. setoid_rewrite handle_publish_Ok. subst e.
    change (body (build_publish_request s sender ts' n' p)) with (serialize_payload
      [(lit "participant_id", pub_participant_id p); (lit "address", pub_address p);
       (lit "port", to_string (pub_port p)); (lit "public_key", pub_public_key p)]).
    rewrite parse_built_publish by done. split.
    + by intros (r & _ & _ & p' & [= <-] & Hp & _).
    + intros Hp. eexists. split_and!; [apply verify_sign|apply is_post_to_built|].
      exists p. split_and!; [done|done|reflexivity].
Qed.

(** The four kinds of signed message are told apart.  An envelope that one
    of the two request handlers or the response parser accepts is refused by
    the other two, and a discovery announcement is refused by all three. *)
Theorem message_kinds_disjoint {C : Crypto} (s : HttpKeyExchangeService)
    (e : SignedEnvelope) (ts : N) (n : str) :
  let get := is_ok (handle_get_public_key_request s e ts n) in
  let publish := is_ok (handle_publish_request s e ts n) in
  let parse := is_ok (verify_and_parse_public_key_response s e) in
  (get && publish = false ∧ get && parse = false ∧ publish && parse = false)
  ∧ (context e = UdpAnnouncement → get = false ∧ publish = false ∧ parse = false).
Proof.
  intros get publish parse.
  assert (Hg : get = true → is_post_to PATH_GET_PUBLIC_KEY e).
  { subst get. destruct (handle_get_public_key_request s e ts n) eqn:E; [|done].
    by apply handle_get_Ok in E as (_ & ? & _). }
  assert (Hp : publish = true → is_post_to PATH_PUBLISH_PARTICIPANT e).
  { subst publish. destruct (handle_publish_request s e ts n) eqn:E; [|done].
    by apply handle_publish_Ok in E as (_ & ? & _). }
  assert (Hr : parse = true → context e = HttpResponse 200 PATH_GET_PUBLIC_KEY).
  { subst parse. unfold verify_and_parse_public_key_response.
    destruct (map_err _ _) as [[]|]; [|done]. cbn [mbind result_bind].
    destruct (expect_http_response_context _ _ _) as [[]|] eqn:E; [|done].
    intros _. by apply expect_response_Ok in E. }
  destruct get, publish, parse; cbn; split_and!; try done;
    repeat match goal with
    | H : true = true → _ |- _ => specialize (H eq_refl)
    | H : is_post_to _ _ |- _ => destruct H as (? & ? & _)
    end; intros; simplify_eq; try congruence.
  all: vm_compute in *; congruence.
Qed.


(** ** Witnesses *)

Definition sample_key : str := lit "ssh-ed25519 AAAAC3NzaC1lZDI1NTE5 owner@host".
Definition sample_server : HttpKeyExchangeService :=
  {| svc_sid := lit "group-a"; svc_sid_token := lit "secret-token";
     svc_participant_id := lit "node-1"; svc_public_key := sample_key |}.
Definition sample_client : HttpKeyExchangeService :=
  {| svc_sid := lit "group-a"; svc_sid_token := lit "secret-token";
     svc_participant_id := lit "node-2"; svc_public_key := lit "ssh-rsa AAAAB3NzaC1yc2E" |}.

Lemma sample_server_ok : service_ok sample_server.
Proof. unfold service_ok. split_and!; by_compute. Qed.

Lemma key_exchange_witness :
  ∃ response,
    @handle_get_public_key_request toy_crypto sample_server
      (@build_get_public_key_request toy_crypto sample_client (lit "node-2") 100 (lit "a"))
      101 (lit "b") = Ok response
    ∧ @verify_and_parse_public_key_response toy_crypto sample_client response =
      Ok {| pk_sid := lit "group-a"; pk_participant_id := lit "node-1";
            pk_public_key := sample_key |}.
Proof.
  exact (@key_exchange toy_crypto toy_crypto_ok sample_client sample_server (lit "node-2")
    (lit "a") (lit "b") 100 101 eq_refl eq_refl sample_server_ok).
Defined.

Lemma handle_publish_accepts_witness :
  is_ok (@handle_publish_request toy_crypto sample_server
    (@build_publish_request toy_crypto sample_server (lit "node-2") 100 (lit "a")
       {| pub_participant_id := lit "node-2"; pub_address := lit "10.0.0.2"; pub_port := 8080;
          pub_public_key := lit "ssh-rsa AAAAB3NzaC1yc2E" |}) 101 (lit "b")) = true.
Proof.
  etrans.
  - apply (proj2 (proj2 (@handle_publish_accepts toy_crypto toy_crypto_ok sample_server _ 101
      (lit "b"))) (lit "node-2") 100 (lit "a")
      {| pub_participant_id := lit "node-2"; pub_address := lit "10.0.0.2"; pub_port := 8080;
         pub_public_key := lit "ssh-rsa AAAAB3NzaC1yc2E" |});
      [by_compute..|reflexivity].
  - by vm_compute.
Defined.
