(* ===== verification/Discovery.v ===== *)
(** * Peer discovery (src/src/discovery.rs)

    [DiscoveryEngine]: the table of peers, filled from the configured bootstrap
    list and from signed announcements, and the flag that asks for a
    synchronisation.  The engine is a record passed through the operations;
    [engine_step] is its transition relation.  The theorems: an announcement
    built by one member reaches the table of another, what each verdict says
    about the table, the invariant of the reachable engines, that an
    announcement takes effect at most once, and what a bootstrap entry is. *)

From S2P Require Import Prelude Str Utf8 Hex KeyValue SshKeys Auth.

Local Open Scope N_scope.

(** ** Data *)

Record PeerRecord := {
  participant_id : str;
  address : str;
  port : N;
  public_key : str
}.

Record DiscoveryAnnouncement := {
  ann_sid : str;
  ann_participant_id : str;
  ann_address : str;
  ann_port : N;
  ann_public_key : str
}.

Inductive DiscoveryEvent :=
| Ignored
| PeerAdded (participant : str)
| PeerUpdated (participant : str).

Inductive DiscoveryError :=
| InvalidAnnouncementPayload
| InvalidPublicKey.

#[export] Instance PeerRecord_eq_dec : EqDecision PeerRecord.
Proof. solve_decision. Defined.
#[export] Instance DiscoveryEvent_eq_dec : EqDecision DiscoveryEvent.
Proof. solve_decision. Defined.
#[export] Instance DiscoveryError_eq_dec : EqDecision DiscoveryError.
Proof. solve_decision. Defined.

Record DiscoveryEngine := {
  de_sid : str;
  de_sid_token : str;
  de_verifier : EnvelopeVerifier;
  de_peers : gmap str PeerRecord;
  de_sync_trigger_pending : bool
}.

(** ** Operations *)

Definition with_verifier (d : DiscoveryEngine) (v : EnvelopeVerifier) : DiscoveryEngine :=
  {| de_sid := de_sid d; de_sid_token := de_sid_token d; de_verifier := v;
     de_peers := de_peers d; de_sync_trigger_pending := de_sync_trigger_pending d |}.

Definition with_peers (d : DiscoveryEngine) (m : gmap str PeerRecord) (trigger : bool) :
    DiscoveryEngine :=
  {| de_sid := de_sid d; de_sid_token := de_sid_token d; de_verifier := de_verifier d;
     de_peers := m; de_sync_trigger_pending := trigger |}.

(** [DiscoveryEngine::new]. *)
Definition DiscoveryEngine_new (sid sid_token : str) (skew ttl : N) : DiscoveryEngine :=
  {| de_sid := sid; de_sid_token := sid_token;
     de_verifier := EnvelopeVerifier_new sid_token sid skew ttl;
     de_peers := ∅; de_sync_trigger_pending := false |}.

Definition parse_bootstrap_peer (value : str) : option (str * str * N) :=
  let trimmed := trim value in
  if is_empty trimmed then None
  else
    let '(participant, host_port) :=
      match split_once 64 trimmed with
      | Some (participant, host_port) => (trim participant, trim host_port)
      | None => (trimmed, trimmed)
      end in
    '(addr, port_text) ← rsplit_once 58 host_port;
    port ← parse_uint U16_MAX (trim port_text);
    let addr := trim addr in
    if is_empty addr then None else Some (participant, addr, port).

(** One turn of the loop of [add_bootstrap_peers]. *)
Definition add_bootstrap_peer (d : DiscoveryEngine) (peer : str) : DiscoveryEngine :=
  match parse_bootstrap_peer peer with
  | None => d
  | Some (pid, addr, p) =>
      let peer_record :=
        {| participant_id := pid; address := addr; port := p; public_key := [] |} in
      let was_none := bool_decide (de_peers d !! pid = None) in
      with_peers d (<[pid := peer_record]> (de_peers d))
        (if was_none then true else de_sync_trigger_pending d)
  end.

Definition add_bootstrap_peers (d : DiscoveryEngine) (bootstrap_peers : list str) :
    DiscoveryEngine :=
  foldl add_bootstrap_peer d bootstrap_peers.

Definition parse_payload (b : bytes) : result DiscoveryError (gmap str str) :=
  parse_payload_with InvalidAnnouncementPayload b.

Definition parse_announcement_payload (b : bytes) :
    result DiscoveryError DiscoveryAnnouncement :=
  payload ← parse_payload b;
  sid ← ok_or InvalidAnnouncementPayload (payload !! lit "sid");
  pid ← ok_or InvalidAnnouncementPayload (payload !! lit "participant_id");
  addr ← ok_or InvalidAnnouncementPayload (payload !! lit "address");
  port_text ← ok_or InvalidAnnouncementPayload (payload !! lit "port");
  p ← ok_or InvalidAnnouncementPayload (parse_uint U16_MAX port_text);
  raw_key ← ok_or InvalidAnnouncementPayload (payload !! lit "public_key");
  key ← map_err (λ _, InvalidPublicKey) (normalize_public_key raw_key);
  if is_empty sid || is_empty addr then Err InvalidAnnouncementPayload
  else Ok {| ann_sid := sid; ann_participant_id := pid; ann_address := addr; ann_port := p;
             ann_public_key := key |}.

Definition take_sync_trigger (d : DiscoveryEngine) : DiscoveryEngine * bool :=
  if de_sync_trigger_pending d then (with_peers d (de_peers d) false, true) else (d, false).

Section discovery.
Context {C : Crypto}.

Definition build_startup_announcement (d : DiscoveryEngine) (pid addr : str) (p : N)
    (key : str) (ts : N) (n : str) : result DiscoveryError SignedEnvelope :=
  key ← map_err (λ _, InvalidPublicKey) (normalize_public_key key);
  let body := serialize_payload
    [(lit "sid", de_sid d); (lit "participant_id", pid); (lit "address", addr);
     (lit "port", to_string p); (lit "public_key", key)] in
  Ok (sign_envelope (de_sid d) (de_sid_token d) pid ts n UdpAnnouncement body).

Definition process_announcement (d : DiscoveryEngine) (envelope : SignedEnvelope)
    (now_secs : N) : DiscoveryEngine * result DiscoveryError DiscoveryEvent :=
  if negb (bool_decide (context envelope = UdpAnnouncement)) then (d, Ok Ignored)
  else
    let '(v, verdict) := verify (de_verifier d) envelope now_secs in
    let d := with_verifier d v in
    if negb (is_ok verdict) then (d, Ok Ignored)
    else
      match parse_announcement_payload (body envelope) with
      | Err e => (d, Err e)
      | Ok announcement =>
          if negb (bool_decide (ann_sid announcement = de_sid d)) then (d, Ok Ignored)
          else if is_empty (trim (ann_participant_id announcement))
          then (d, Err InvalidAnnouncementPayload)
          else
            let pid := ann_participant_id announcement in
            let new_record :=
              {| participant_id := pid; address := ann_address announcement;
                 port := ann_port announcement; public_key := ann_public_key announcement |} in
            let event :=
              match de_peers d !! pid with
              | None => PeerAdded pid
              | Some existing =>
                  if bool_decide (existing = new_record) then Ignored else PeerUpdated pid
              end in
            match event with
            | Ignored => (d, Ok event)
            | _ => (with_peers d (<[pid := new_record]> (de_peers d)) true, Ok event)
            end
      end.

(** ** The operations of an engine and the engines they reach *)

Inductive op :=
| Bootstrap (peers : list str)
| Announce (e : SignedEnvelope) (now_secs : N)
| TakeTrigger.

Definition apply_op (d : DiscoveryEngine) (o : op) : DiscoveryEngine :=
  match o with
  | Bootstrap peers => add_bootstrap_peers d peers
  | Announce e now => (process_announcement d e now).1
  | TakeTrigger => (take_sync_trigger d).1
  end.

Inductive reachable (sid token : str) (skew ttl : N) : DiscoveryEngine → Prop :=
| reachable_new : reachable sid token skew ttl (DiscoveryEngine_new sid token skew ttl)
| reachable_op d o :
    reachable sid token skew ttl d → reachable sid token skew ttl (apply_op d o).

(** The clock readings of a sequence of operations are at most [t]. *)
Definition before_op (t : N) (o : op) : Prop :=
  match o with Announce _ now => now ≤ t | _ => True end.

(** The announcements that count: authenticated, well-formed, of this group and
    with a participant. *)
Definition accepted (d : DiscoveryEngine) (e : SignedEnvelope) (now : N)
    (a : DiscoveryAnnouncement) : Prop :=
  context e = UdpAnnouncement
  ∧ (verify (de_verifier d) e now).2 = Ok tt
  ∧ parse_announcement_payload (body e) = Ok a
  ∧ ann_sid a = de_sid d ∧ trim (ann_participant_id a) ≠ [].

End discovery.

(** ** The invariant *)

(** A record of the table: stored under its own identifier, with an address, a
    16-bit port, and either no key (bootstrap) or a normalised key. *)
Definition record_ok (key : str) (r : PeerRecord) : Prop :=
  participant_id r = key ∧ trim key = key ∧ trim (address r) = address r ∧ address r ≠ []
  ∧ port r ≤ U16_MAX
  ∧ (public_key r = [] ∨ normalize_public_key (public_key r) = Ok (public_key r)).

Definition engine_ok (sid token : str) (skew ttl : N) (d : DiscoveryEngine) : Prop :=
  de_sid d = sid ∧ de_sid_token d = token
  ∧ v_expected_sid (de_verifier d) = sid ∧ v_sid_token (de_verifier d) = token
  ∧ v_timestamp_skew_secs (de_verifier d) = skew ∧ v_nonce_ttl_secs (de_verifier d) = ttl
  ∧ map_Forall record_ok (de_peers d).

(** The record an announcement stands for. *)
Definition announced (a : DiscoveryAnnouncement) : PeerRecord :=
  {| participant_id := ann_participant_id a; address := ann_address a;
     port := ann_port a; public_key := ann_public_key a |}.

(** What an announcement makes of the table: the specification of the last part
    of [process_announcement]. *)
Definition table_event (m : gmap str PeerRecord) (r : PeerRecord) : DiscoveryEvent :=
  match m !! participant_id r with
  | None => PeerAdded (participant_id r)
  | Some r' => if bool_decide (r' = r) then Ignored else PeerUpdated (participant_id r)
  end.

Definition is_ignored (ev : DiscoveryEvent) : bool := bool_decide (ev = Ignored).

(** ** Lemmas *)

(** *** Bootstrap entries *)

Lemma parse_bootstrap_sound value pid addr p :
  parse_bootstrap_peer value = Some (pid, addr, p) →
  trim pid = pid ∧ trim addr = addr ∧ addr ≠ [] ∧ p ≤ U16_MAX.
Proof.
  unfold parse_bootstrap_peer. case_match; [done|].
  assert (∀ q hp, trim q = q →
    ('(addr, port_text) ← rsplit_once 58 hp;
     port ← parse_uint U16_MAX (trim port_text);
     let addr := trim addr in
     if is_empty addr then None else Some (q, addr, port)) = Some (pid, addr, p) →
    trim pid = pid ∧ trim addr = addr ∧ addr ≠ [] ∧ p ≤ U16_MAX) as Hgen.
  { intros q hp Hq. destruct (rsplit_once 58 hp) as [[x y]|]; cbn [mbind option_bind]; [|done].
    destruct (parse_uint U16_MAX (trim y)) as [n|] eqn:E; cbn [mbind option_bind]; [|done].
    destruct (is_empty (trim x)) eqn:Ee; [done|]. intros [= <- <- <-].
    apply is_empty_false in Ee. split_and!; try done; [apply trim_idem|].
    by eapply parse_uint_bound. }
  destruct (split_once 64 (trim value)) as [[x y]|]; apply Hgen; apply trim_idem.
Qed.

Lemma host_port_parts host p :
  rsplit_once 58 (host ++ lit ":" ++ to_string p) = Some (host, to_string p).
Proof. apply rsplit_once_app, to_string_no. done. Qed.

Lemma to_string_trim p : trim (to_string p) = to_string p.
Proof. apply to_string_line_safe. Qed.

Lemma host_port_trim host p :
  trim host = host → host ≠ [] →
  trim (host ++ lit ":" ++ to_string p) = host ++ lit ":" ++ to_string p.
Proof.
  intros [Hh _]%trim_id_edges Hne. apply trim_ok.
  - by destruct host.
  - rewrite app_assoc, last_app. destruct (word_edges _ (to_string_word p)) as (_ & Hl & Hn).
    destruct (last (to_string p)) eqn:E; [done|]. by apply last_None in E.
Qed.

Lemma entry_trim pid hp :
  trim pid = pid → trim hp = hp → hp ≠ [] → trim (pid ++ lit "@" ++ hp) = pid ++ lit "@" ++ hp.
Proof.
  intros [Hp _]%trim_id_edges [_ Hl]%trim_id_edges Hne. apply trim_ok; [by destruct pid|].
  rewrite app_assoc, last_app. destruct (last hp) eqn:E; [done|]. by apply last_None in E.
Qed.

(** *** Announcements *)

Lemma parse_announcement_sound b a :
  parse_announcement_payload b = Ok a →
  trim (ann_participant_id a) = ann_participant_id a ∧ trim (ann_address a) = ann_address a
  ∧ ann_address a ≠ [] ∧ ann_port a ≤ U16_MAX
  ∧ normalize_public_key (ann_public_key a) = Ok (ann_public_key a).
Proof.
  unfold parse_announcement_payload. intros H. inv_bind H. rename E into E0.
  apply parse_payload_safe in E0. repeat inv_bind H.
  repeat match goal with
  | E : ok_or _ _ = Ok _ |- _ => apply ok_or_Ok in E
  | E : map_err _ _ = Ok _ |- _ => apply map_err_Ok in E
  | E : _ !! _ = Some _ |- _ => apply E0 in E as [_ E]
  end.
  case_match eqn:Ee; [done|]. apply orb_false_iff in Ee as [_ Ee%is_empty_false].
  inv_result. cbn. split_and!; try done; [by eapply parse_uint_bound|by eapply normalize_idem].
Qed.

Section discovery_lemmas.
Context {C : Crypto}.
Implicit Types (d : DiscoveryEngine) (e : SignedEnvelope).

Lemma process_not_udp d e now :
  context e ≠ UdpAnnouncement → process_announcement d e now = (d, Ok Ignored).
Proof. intros H. unfold process_announcement. by rewrite bool_decide_false. Qed.

Lemma process_accepted d e now a :
  accepted d e now a →
  process_announcement d e now =
    let d' := with_verifier d (verify (de_verifier d) e now).1 in
    let ev := table_event (de_peers d) (announced a) in
    (if is_ignored ev then d'
     else with_peers d' (<[ann_participant_id a := announced a]> (de_peers d)) true, Ok ev).
Proof.
  intros (Hc & Hv & Hp & Hs & Ht). unfold process_announcement.
  rewrite bool_decide_true by done. cbn [negb].
  destruct (verify (de_verifier d) e now) as [v r]. cbn [fst snd] in *. subst r. cbn [is_ok negb].
  rewrite Hp, bool_decide_true by done. cbn [negb].
  rewrite (proj2 (is_empty_false _)) by done. unfold table_event, announced.
  cbn [participant_id de_peers with_verifier].
  destruct (de_peers d !! ann_participant_id a) as [r'|]; [|done].
  case_bool_decide; done.
Qed.

Lemma process_rejected d e now :
  (¬ ∃ a, accepted d e now a) →
  ∃ r, process_announcement d e now =
    (if bool_decide (context e = UdpAnnouncement)
     then with_verifier d (verify (de_verifier d) e now).1 else d, r)
    ∧ ∀ ev, r = Ok ev → ev = Ignored.
Proof.
  intros Hn. unfold process_announcement. case_bool_decide as Hc; cbn [negb]; [|naive_solver].
  destruct (verify (de_verifier d) e now) as [v r] eqn:Ev. cbn [fst].
  destruct r as [[]|err]; cbn [is_ok negb]; [|naive_solver].
  destruct (parse_announcement_payload (body e)) as [a|err] eqn:Ep; [|naive_solver].
  cbn [de_sid with_verifier]. case_bool_decide as Hs; cbn [negb]; [|naive_solver].
  destruct (is_empty (trim (ann_participant_id a))) eqn:Ee; [naive_solver|].
  exfalso. apply Hn. exists a. unfold accepted. rewrite Ev. split_and!; try done.
  by apply is_empty_false.
Qed.

Lemma accepted_dec d e now : {a | accepted d e now a} + {¬ ∃ a, accepted d e now a}.
Proof.
  unfold accepted. destruct (decide (context e = UdpAnnouncement)); [|right; naive_solver].
  destruct (decide ((verify (de_verifier d) e now).2 = Ok tt)); [|right; naive_solver].
  destruct (parse_announcement_payload (body e)) as [a|]; [|right; naive_solver].
  destruct (decide (ann_sid a = de_sid d)); [|right; naive_solver].
  destruct (decide (trim (ann_participant_id a) = [])); [right; naive_solver|].
  left. by exists a.
Qed.

(** The table after an announcement, whether or not it counts. *)
Lemma process_config d e now :
  let d' := (process_announcement d e now).1 in
  de_sid d' = de_sid d ∧ de_sid_token d' = de_sid_token d
  ∧ (de_verifier d' = de_verifier d ∨ de_verifier d' = (verify (de_verifier d) e now).1).
Proof.
  destruct (accepted_dec d e now) as [[a Ha]|Hn].
  - rewrite (process_accepted _ _ _ _ Ha). cbn zeta. cbn [fst]. case_match; naive_solver.
  - destruct (process_rejected _ _ _ Hn) as (r & -> & _). cbn [fst]. case_match; naive_solver.
Qed.

Lemma bootstrap_verifier ps d :
  de_verifier (add_bootstrap_peers d ps) = de_verifier d
  ∧ de_sid (add_bootstrap_peers d ps) = de_sid d
  ∧ de_sid_token (add_bootstrap_peers d ps) = de_sid_token d.
Proof.
  unfold add_bootstrap_peers. revert d. induction ps as [|x ps IH]; intros d; [done|].
  cbn [foldl]. destruct (IH (add_bootstrap_peer d x)) as (-> & -> & ->).
  unfold add_bootstrap_peer. by destruct (parse_bootstrap_peer x) as [[[] ]|].
Qed.

Lemma take_config d :
  let d' := (take_sync_trigger d).1 in
  de_sid d' = de_sid d ∧ de_sid_token d' = de_sid_token d ∧ de_verifier d' = de_verifier d
  ∧ de_peers d' = de_peers d.
Proof. unfold take_sync_trigger. by destruct (de_sync_trigger_pending d). Qed.

End discovery_lemmas.

(** *** The invariant *)

Lemma record_ok_bootstrap value pid addr p :
  parse_bootstrap_peer value = Some (pid, addr, p) →
  record_ok pid {| participant_id := pid; address := addr; port := p; public_key := [] |}.
Proof. intros (? & ? & ? & ?)%parse_bootstrap_sound. unfold record_ok. cbn. auto 10. Qed.

Lemma record_ok_announced b a :
  parse_announcement_payload b = Ok a → record_ok (ann_participant_id a) (announced a).
Proof. intros (? & ? & ? & ? & ?)%parse_announcement_sound. unfold record_ok. cbn. auto 10. Qed.

Lemma bootstrap_records ps d :
  map_Forall record_ok (de_peers d) → map_Forall record_ok (de_peers (add_bootstrap_peers d ps)).
Proof.
  unfold add_bootstrap_peers. revert d. induction ps as [|x ps IH]; intros d Hd; [done|].
  cbn [foldl]. apply IH. unfold add_bootstrap_peer.
  destruct (parse_bootstrap_peer x) as [[[pid addr] p]|] eqn:E; [|done].
  cbn [de_peers with_peers]. apply map_Forall_insert_2; [|done]. by eapply record_ok_bootstrap.
Qed.

Section invariant.
Context {C : Crypto}.

Lemma process_peers d e now :
  de_peers (process_announcement d e now).1 = de_peers d
  ∨ ∃ a, accepted d e now a ∧ table_event (de_peers d) (announced a) ≠ Ignored
     ∧ de_peers (process_announcement d e now).1
       = <[ann_participant_id a := announced a]> (de_peers d)
     ∧ de_sync_trigger_pending (process_announcement d e now).1 = true.
Proof.
  destruct (accepted_dec d e now) as [[a Ha]|Hn].
  - rewrite (process_accepted _ _ _ _ Ha). cbn zeta. cbn [fst]. unfold is_ignored.
    case_bool_decide; [by left|right]. by exists a.
  - left. destruct (process_rejected _ _ _ Hn) as (r & -> & _). cbn [fst]. by case_match.
Qed.

Lemma process_trigger d e now :
  de_sync_trigger_pending d = true →
  de_sync_trigger_pending (process_announcement d e now).1 = true.
Proof.
  intros Ht. destruct (accepted_dec d e now) as [[a Ha]|Hn].
  - rewrite (process_accepted _ _ _ _ Ha). cbn zeta. cbn [fst]. by case_match.
  - destruct (process_rejected _ _ _ Hn) as (r & -> & _). cbn [fst]. by case_match.
Qed.

Lemma apply_op_ok sid token skew ttl d o :
  engine_ok sid token skew ttl d → engine_ok sid token skew ttl (apply_op d o).
Proof.
  unfold engine_ok. intros (<- & <- & H1 & H2 & H3 & H4 & Hr). destruct o as [ps|e now|]; cbn.
  - destruct (bootstrap_verifier ps d) as (-> & -> & ->). split_and!; try done.
    by apply bootstrap_records.
  - destruct (process_config d e now) as (-> & -> & Hv). split; [done|]. split; [done|].
    destruct (verify_config (de_verifier d) e now) as (E1 & E2 & E3 & E4).
    split_and!; [destruct Hv as [-> | ->]; congruence..|].
    destruct (process_peers d e now) as [->|(a & (_ & _ & Ha & _) & _ & -> & _)]; [done|].
    apply map_Forall_insert_2; [by eapply record_ok_announced|done].
  - destruct (take_config d) as (-> & -> & -> & ->). by split_and!.
Qed.

Lemma reachable_engine sid token skew ttl d :
  reachable sid token skew ttl d → engine_ok sid token skew ttl d.
Proof.
  induction 1 as [|d o _ IH]; [|by apply apply_op_ok].
  unfold engine_ok. cbn. by split_and!.
Qed.

(** *** Repeated announcements *)

Lemma apply_op_keeps d o k t t2 :
  v_seen_nonces (de_verifier d) !! k = Some t → before_op t2 o →
  t2 - t ≤ v_nonce_ttl_secs (de_verifier d) →
  v_seen_nonces (de_verifier (apply_op d o)) !! k = Some t.
Proof.
  intros Hk Ho Ht. destruct o as [ps|e now|]; cbn in Ho |- *.
  - destruct (bootstrap_verifier ps d) as (-> & _). done.
  - destruct (process_config d e now) as (_ & _ & [-> | ->]); [done|].
    apply verify_keeps; [done|]. lia.
  - destruct (take_config d) as (_ & _ & -> & _). done.
Qed.

Lemma apply_op_windows d o :
  v_timestamp_skew_secs (de_verifier (apply_op d o)) = v_timestamp_skew_secs (de_verifier d)
  ∧ v_nonce_ttl_secs (de_verifier (apply_op d o)) = v_nonce_ttl_secs (de_verifier d).
Proof.
  destruct o as [ps|e now|]; cbn.
  - by destruct (bootstrap_verifier ps d) as (-> & _).
  - destruct (verify_config (de_verifier d) e now) as (E1 & E2 & _).
    destruct (process_config d e now) as (_ & _ & [-> | ->]); by split.
  - by destruct (take_config d) as (_ & _ & -> & _).
Qed.

Lemma run_windows ops d :
  v_timestamp_skew_secs (de_verifier (foldl apply_op d ops)) = v_timestamp_skew_secs (de_verifier d)
  ∧ v_nonce_ttl_secs (de_verifier (foldl apply_op d ops)) = v_nonce_ttl_secs (de_verifier d).
Proof.
  revert d. induction ops as [|o ops IH]; intros d; [done|]. cbn [foldl].
  destruct (IH (apply_op d o)) as [-> ->]. apply apply_op_windows.
Qed.

Lemma run_keeps ops d k t t2 :
  v_seen_nonces (de_verifier d) !! k = Some t → Forall (before_op t2) ops →
  t2 - t ≤ v_nonce_ttl_secs (de_verifier d) →
  v_seen_nonces (de_verifier (foldl apply_op d ops)) !! k = Some t.
Proof.
  intros Hk H. revert d Hk. induction H as [|o ops Ho _ IH]; intros d Hk Ht; [done|].
  cbn [foldl]. apply IH; [by eapply apply_op_keeps|].
  destruct (apply_op_windows d o) as [_ ->]. done.
Qed.

(** *** The trigger *)

Lemma bootstrap_grows ps d :
  let d' := add_bootstrap_peers d ps in
  dom (de_peers d) ⊆ dom (de_peers d')
  ∧ (de_sync_trigger_pending d = true ∨ ¬ dom (de_peers d') ⊆ dom (de_peers d) →
     de_sync_trigger_pending d' = true).
Proof.
  unfold add_bootstrap_peers. revert d. induction ps as [|x ps IH]; intros d; cbn [foldl].
  { cbn. split; [done|]. intros [|[]]; done. }
  destruct (IH (add_bootstrap_peer d x)) as [H1 H2]. cbn zeta in *.
  unfold add_bootstrap_peer in *.
  destruct (parse_bootstrap_peer x) as [[[pid addr] p]|]; [|by split].
  cbn [de_peers with_peers de_sync_trigger_pending] in *. rewrite dom_insert in H1.
  split; [set_solver|]. intros H. apply H2. case_bool_decide as Hp; [by left|].
  destruct H as [?|Hd]; [by left|right]. contradict Hd. rewrite dom_insert in Hd.
  assert (pid ∈ dom (de_peers d)); [|set_solver]. by apply elem_of_dom, not_eq_None_Some.
Qed.

Lemma apply_op_grows d o :
  o ≠ TakeTrigger →
  dom (de_peers d) ⊆ dom (de_peers (apply_op d o))
  ∧ (de_sync_trigger_pending d = true ∨ ¬ dom (de_peers (apply_op d o)) ⊆ dom (de_peers d) →
     de_sync_trigger_pending (apply_op d o) = true).
Proof.
  destruct o as [ps|e now|]; cbn [apply_op]; intros Ho; [apply bootstrap_grows| |done].
  destruct (process_peers d e now) as [->|(a & _ & _ & -> & ->)].
  - split; [done|]. intros [H|[]]; [|done]. by apply process_trigger.
  - rewrite dom_insert. split; [set_solver|done].
Qed.

End invariant.

(** An announcement built by [build_startup_announcement], read back. *)
Lemma parse_built_announcement (sid pid addr key : str) (p : N) :
  line_safe sid → wf_str sid → sid ≠ [] → line_safe pid → wf_str pid →
  line_safe addr → wf_str addr → addr ≠ [] → p ≤ U16_MAX →
  normalize_public_key key = Ok key → wf_str key →
  parse_announcement_payload (serialize_payload
    [(lit "sid", sid); (lit "participant_id", pid); (lit "address", addr);
     (lit "port", to_string p); (lit "public_key", key)])
  = Ok {| ann_sid := sid; ann_participant_id := pid; ann_address := addr; ann_port := p;
          ann_public_key := key |}.
Proof.
  intros ? ? Hsid ? ? ? ? Haddr ? Hk ?. pose proof (normalize_line_safe _ _ Hk) as [? _].
  unfold parse_announcement_payload, parse_payload.
  rewrite parse_serialize_payload; [|kv_safe_list|kv_wf_list]. cbn [mbind result_bind].
  unfold insert_all. cbn [foldl fst snd].
  do 4 (kv_lookup; cbn [ok_or mbind result_bind]).
  rewrite parse_to_string by done. cbn [ok_or mbind result_bind].
  kv_lookup. cbn [ok_or mbind result_bind]. rewrite Hk. cbn [map_err mbind result_bind].
  apply is_empty_false in Hsid, Haddr. by rewrite Hsid, Haddr.
Qed.

(** An announcement of one member is accepted by another, in time and unless
    its nonce was seen. *)
Lemma built_announcement_accepted {C : Crypto} {CO : CryptoOk C}
    (sender receiver : DiscoveryEngine)
    (sid token pid addr key nkey n : str) (p ts now skew ttl skew' ttl' : N) (e : SignedEnvelope) :
  engine_ok sid token skew' ttl' sender → engine_ok sid token skew ttl receiver →
  line_safe sid → wf_str sid → sid ≠ [] → line_safe pid → wf_str pid → pid ≠ [] →
  line_safe addr → wf_str addr → addr ≠ [] → p ≤ U16_MAX →
  wf_str key → normalize_public_key key = Ok nkey →
  ts ≤ U64_MAX → now - skew ≤ ts ≤ now + skew →
  build_startup_announcement sender pid addr p key ts n = Ok e →
  v_seen_nonces (prune_nonces (de_verifier receiver) now) !! nonce_key e = None →
  accepted receiver e now {| ann_sid := sid; ann_participant_id := pid;
    ann_address := addr; ann_port := p; ann_public_key := nkey |}.
Proof.
  intros (Es & Et & _) (Rs & _ & Vs & Vt & Vk & Vl & _) ? ? ? ? ? Hpid ? ? ? ? ? Hn Hts Hw Hb Hnonce.
  unfold build_startup_announcement in Hb. rewrite Hn, Es, Et in Hb. cbn [map_err mbind result_bind] in Hb.
  injection Hb as <-. match goal with |- accepted _ ?x _ _ => set (e := x) in * end.
  split_and!; [done| | |done|].
  - destruct (verify_cases (de_verifier receiver) e now)
      as [(err & E & Hne)|(_ & _ & _ & [[Hs _]|[_ ->]])]; [| |done].
    + exfalso. revert E. unfold verify. rewrite Vs, Vt, Vk. unfold e. rewrite verify_sign. fold e.
      change (timestamp_secs e) with ts. unfold saturating_add_u64.
      destruct (N.ltb_spec ts (now - skew)); [lia|].
      destruct (N.ltb_spec (N.min (now + skew) U64_MAX) ts); [lia|]. cbn [orb].
      rewrite Hnonce. intros [= _ <-].
    + rewrite Hnonce in Hs. by destruct Hs.
  - apply parse_built_announcement; try done; [by eapply normalize_idem|by eapply normalize_wf].
  - cbn [ann_participant_id]. match goal with H : line_safe pid |- _ => destruct H as [_ ->]; done end.
Qed.

(** ** Properties *)

(** From one member's startup announcement to another member's table.  The
    announcement built by an engine of the group, read at a time inside the
    window by an engine of the same group that has not seen its nonce, makes
    the table hold exactly the announced record, with the key in normal form;
    the event says whether it was new, changed or known; a new or changed
    record asks for a synchronisation. *)
Theorem announcement_reaches_table {C : Crypto} {CO : CryptoOk C}
    (sender receiver : DiscoveryEngine) (sid token pid addr key nkey n : str)
    (p ts now skew ttl skew' ttl' : N) (e : SignedEnvelope) :
  engine_ok sid token skew' ttl' sender → engine_ok sid token skew ttl receiver →
  line_safe sid → wf_str sid → sid ≠ [] → line_safe pid → wf_str pid → pid ≠ [] →
  line_safe addr → wf_str addr → addr ≠ [] → p ≤ U16_MAX →
  wf_str key → normalize_public_key key = Ok nkey →
  ts ≤ U64_MAX → now - skew ≤ ts ≤ now + skew →
  build_startup_announcement sender pid addr p key ts n = Ok e →
  v_seen_nonces (prune_nonces (de_verifier receiver) now) !! nonce_key e = None →
  let r := {| participant_id := pid; address := addr; port := p; public_key := nkey |} in
  let '(receiver', result) := process_announcement receiver e now in
  result = Ok (table_event (de_peers receiver) r)
  ∧ de_peers receiver' = <[pid := r]> (de_peers receiver)
  ∧ (result ≠ Ok Ignored → de_sync_trigger_pending receiver' = true).
Proof.
  intros. assert (accepted receiver e now {| ann_sid := sid; ann_participant_id := pid;
    ann_address := addr; ann_port := p; ann_public_key := nkey |}) as Ha
    by (eapply (built_announcement_accepted sender receiver); eassumption).
  rewrite (process_accepted _ _ _ _ Ha). cbn zeta.
  change (announced _) with r. change (ann_participant_id _) with pid.
  split; [done|]. unfold is_ignored. case_bool_decide as Hev; [|done].
  cbn [de_peers with_verifier]. split; [|by rewrite Hev].
  unfold table_event in Hev. change (participant_id r) with pid in Hev.
  destruct (de_peers receiver !! pid) eqn:El; [|done]. case_bool_decide; [|done]. subst.
  by rewrite insert_id.
Qed.

(** C24: what an announcement does, whatever the datagram says.  It changes the
    table only when it is a signed announcement of this group, inside the
    window, not a replay, well-formed and with a participant; then the table
    holds its record, every other record is untouched and the event compares
    the new record with the old one.  In every other case the table and the
    trigger stay as they were and no change is reported. *)
Theorem process_announcement_exact {C : Crypto} (d : DiscoveryEngine) (e : SignedEnvelope) (now : N) :
  let '(d', result) := process_announcement d e now in
  (∀ a, accepted d e now a →
     result = Ok (table_event (de_peers d) (announced a))
     ∧ de_peers d' = <[ann_participant_id a := announced a]> (de_peers d)
     ∧ de_sync_trigger_pending d' =
         de_sync_trigger_pending d || negb (bool_decide (result = Ok Ignored)))
  ∧ ((¬ ∃ a, accepted d e now a) →
     de_peers d' = de_peers d ∧ de_sync_trigger_pending d' = de_sync_trigger_pending d
     ∧ ∀ ev, result = Ok ev → ev = Ignored).
Proof.
  destruct (process_announcement d e now) as [d' res] eqn:E. split.
  - intros a Ha. rewrite (process_accepted _ _ _ _ Ha) in E. cbn zeta in E.
    injection E as <- <-. split; [done|]. unfold is_ignored.
    case_bool_decide as Hev.
    + rewrite Hev, bool_decide_true by done. cbn [negb de_peers with_verifier].
      rewrite orb_false_r. split; [|done]. symmetry. apply insert_id.
      unfold table_event in Hev. change (participant_id (announced a)) with (ann_participant_id a) in Hev.
      destruct (de_peers d !! ann_participant_id a) eqn:El; [|done]. case_bool_decide; [by subst|done].
    + rewrite bool_decide_false by (by intros [= ?]). by rewrite orb_true_r.
  - intros Hn. destruct (process_rejected _ _ _ Hn) as (r & Er & Hr). rewrite Er in E.
    injection E as <- <-. split_and!; [by case_match..|done].
Qed.

(** Every engine reached from [new] keeps its group, token and windows, and
    every record of its table is stored under its own trimmed identifier, with
    a non-empty trimmed address, a 16-bit port and a key that is empty or in
    normal form. *)
Theorem reachable_engine_ok {C : Crypto} (sid token : str) (skew ttl : N) (d : DiscoveryEngine) :
  reachable sid token skew ttl d → engine_ok sid token skew ttl d.
Proof. apply reachable_engine. Qed.

(** C25: an announcement takes effect at most once.  When the nonce lifetime is
    at least twice the window (the runtime uses 120 and 60), an announcement
    that changed the table is ignored whenever it is delivered again, after any
    operations with clock readings up to the second delivery: the table and
    the trigger are then left alone. *)
Theorem announcement_effective_once {C : Crypto} (d : DiscoveryEngine) (e : SignedEnvelope)
    (t1 t2 : N) (ops : list op) :
  2 * v_timestamp_skew_secs (de_verifier d) ≤ v_nonce_ttl_secs (de_verifier d) →
  (process_announcement d e t1).2 ≠ Ok Ignored →
  Forall (before_op t2) ops →
  let d' := foldl apply_op (process_announcement d e t1).1 ops in
  let '(d'', result) := process_announcement d' e t2 in
  result = Ok Ignored ∧ de_peers d'' = de_peers d'
  ∧ de_sync_trigger_pending d'' = de_sync_trigger_pending d'.
Proof.
  intros Httl Hev Hops d'. unfold process_announcement in Hev.
  case_bool_decide as Hc; [|done]. cbn [negb] in Hev.
  destruct (verify (de_verifier d) e t1) as [v1 r1] eqn:Ev1.
  destruct r1 as [[]|]; [|done]. apply verify_Ok_inv in Ev1 as Hv. clear Hev.
  destruct Hv as (Hseen & ? & ? & El & Ek).
  assert (de_verifier (process_announcement d e t1).1 = v1) as Hd1.
  { unfold process_announcement. rewrite bool_decide_true by done. rewrite Ev1. cbn [negb is_ok].
    by repeat case_match. }
  destruct (run_windows ops (process_announcement d e t1).1) as [Wk Wl].
  fold d' in Wk, Wl. rewrite Hd1 in Wk, Wl.
  assert ((verify (de_verifier d') e t2).2 ≠ Ok tt) as Hrej.
  { destruct (decide (t2 - t1 ≤ v_nonce_ttl_secs v1)) as [Hin|Hout].
    - eapply verify_seen_rejected with (t := t1); [|by rewrite Wl].
      eapply run_keeps; [by rewrite Hd1|done|by rewrite Hd1].
    - destruct (verify (de_verifier d') e t2) as [v2 r2] eqn:Ev2. cbn. intros ->.
      apply verify_Ok_inv in Ev2 as (_ & ? & _). lia. }
  unfold process_announcement. rewrite bool_decide_true by done. cbn [negb].
  destruct (verify (de_verifier d') e t2) as [v2 r2]. cbn in Hrej.
  by destruct r2 as [[]|].
Qed.

(** What a configured bootstrap entry means.  [participant@host:port] and
    [host:port], with any blanks around them, name the participant, the host
    and the port, where the host is everything before the last colon (so an
    IPv6 literal needs no escaping); without a participant the whole entry
    is the identifier.  Conversely whatever is accepted has a trimmed
    identifier, a non-empty trimmed host and a 16-bit port. *)
Theorem parse_bootstrap_peer_exact (pid host l r : str) (p : N) :
  line_safe host → host ≠ [] → p ≤ U16_MAX →
  Forall (λ c, is_whitespace c = true) l → Forall (λ c, is_whitespace c = true) r →
  let host_port := host ++ lit ":" ++ to_string p in
  (line_safe pid → 64 ∉ pid →
   parse_bootstrap_peer (l ++ (pid ++ lit "@" ++ host_port) ++ r) = Some (pid, host, p))
  ∧ (64 ∉ host → parse_bootstrap_peer (l ++ host_port ++ r) = Some (host_port, host, p))
  ∧ (∀ value pid' host' p', parse_bootstrap_peer value = Some (pid', host', p') →
     trim pid' = pid' ∧ trim host' = host' ∧ host' ≠ [] ∧ p' ≤ U16_MAX).
Proof.
  intros [_ Hh] Hne Hp Hl Hr host_port.
  assert (trim host_port = host_port) as Hhp by (by apply host_port_trim).
  assert (host_port ≠ []) as Hhn by (subst host_port; by destruct host).
  split_and!.
  - intros [_ Ht] Hat. unfold parse_bootstrap_peer.
    rewrite trim_pad by (done || by apply entry_trim).
    rewrite (proj2 (is_empty_false _)) by (by destruct pid).
    change (pid ++ lit "@" ++ host_port) with (pid ++ 64 :: host_port).
    rewrite split_once_app by done. rewrite Ht, Hhp. subst host_port.
    rewrite host_port_parts. cbn [mbind option_bind]. rewrite to_string_trim, parse_to_string by done.
    cbn [mbind option_bind]. by rewrite Hh, (proj2 (is_empty_false _)).
  - intros Hat. unfold parse_bootstrap_peer. rewrite trim_pad by done.
    rewrite (proj2 (is_empty_false _)) by done. rewrite split_once_None.
    2: { subst host_port. rewrite !not_elem_of_app. split_and!; [done|by_compute|].
         by apply to_string_no. }
    subst host_port. rewrite host_port_parts. cbn [mbind option_bind].
    rewrite to_string_trim, parse_to_string by done.
    cbn [mbind option_bind]. by rewrite Hh, (proj2 (is_empty_false _)).
  - intros value pid' host' p'. apply parse_bootstrap_sound.
Qed.

(** C37: no discovered peer is forgotten and none fails to ask for a
    synchronisation.  Over any operations between two takes of the trigger no
    participant leaves the table, and if one entered it (or the trigger was
    already set) the next take reports it, once. *)
Theorem new_peer_wakes_sync {C : Crypto} (d : DiscoveryEngine) (ops : list op) :
  Forall (λ o, o ≠ TakeTrigger) ops →
  let d' := foldl apply_op d ops in
  dom (de_peers d) ⊆ dom (de_peers d')
  ∧ (de_sync_trigger_pending d = true ∨ ¬ dom (de_peers d') ⊆ dom (de_peers d) →
     (take_sync_trigger d').2 = true)
  ∧ (take_sync_trigger (take_sync_trigger d').1).2 = false.
Proof.
  intros Hops d'.
  assert (dom (de_peers d) ⊆ dom (de_peers d')
    ∧ (de_sync_trigger_pending d = true ∨ ¬ dom (de_peers d') ⊆ dom (de_peers d) →
       de_sync_trigger_pending d' = true)) as [H1 H2].
  { subst d'. revert d. induction Hops as [|o ops Ho _ IH]; intros d; cbn [foldl].
    { split; [done|]. intros [|[]]; done. }
    destruct (apply_op_grows d o Ho) as [G1 G2], (IH (apply_op d o)) as [I1 I2].
    split; [by etrans|]. intros H. apply I2.
    destruct (decide (dom (de_peers (apply_op d o)) ⊆ dom (de_peers d))) as [Hs|Hs].
    - destruct H as [?|Hn]; [left; by apply G2; left|]. right. contradict Hn. by etrans.
    - left. apply G2. by right. }
  split; [done|]. unfold take_sync_trigger. split.
  - intros H%H2. by rewrite H.
  - destruct (de_sync_trigger_pending d') eqn:E; cbn; [done|]. by rewrite E.
Qed.

(** ** Concrete behaviours and witnesses *)

Definition engine_a : DiscoveryEngine :=
  DiscoveryEngine_new (lit "group-a") (lit "secret-token") 60 120.
Definition sample_key : str := lit "ssh-ed25519 AAAAC3NzaC1lZDI1NTE5 owner@host".
Definition sample_announcement : SignedEnvelope :=
  @sign_envelope toy_crypto (lit "group-a") (lit "secret-token") (lit "node-1") 1000
    (lit "nonce-1") UdpAnnouncement
    (serialize_payload
      [(lit "sid", lit "group-a"); (lit "participant_id", lit "node-1");
       (lit "address", lit "10.0.0.1"); (lit "port", to_string 8080);
       (lit "public_key", sample_key)]).

Lemma engine_a_ok : engine_ok (lit "group-a") (lit "secret-token") 60 120 engine_a.
Proof. unfold engine_ok. by split_and!. Qed.

(** A configured entry for a known participant replaces its record, key
    included, without asking for a synchronisation. *)
Example bootstrap_overwrites :
  let d := (take_sync_trigger (@process_announcement toy_crypto engine_a
              sample_announcement 1010).1).1 in
  public_key <$> de_peers d !! lit "node-1" = Some sample_key
  ∧ let d' := add_bootstrap_peers d [lit "node-1@10.0.0.9:22"] in
    de_peers d' !! lit "node-1" =
      Some {| participant_id := lit "node-1"; address := lit "10.0.0.9"; port := 22;
              public_key := [] |}
    ∧ de_sync_trigger_pending d' = false.
Proof. cbn zeta. split_and!; by vm_compute. Qed.

(** An entry may leave the participant out in front of the [@]. *)
Example bootstrap_empty_participant :
  parse_bootstrap_peer (lit "@10.0.0.9:22") = Some ([], lit "10.0.0.9", 22).
Proof. by vm_compute. Qed.

(** The participant of the record is the one of the payload; the sender of the
    envelope need not be the same. *)
Example announcement_for_another :
  let e := @sign_envelope toy_crypto (lit "group-a") (lit "secret-token") (lit "node-2") 1000
    (lit "nonce-1") UdpAnnouncement (body sample_announcement) in
  (@process_announcement toy_crypto engine_a e 1010).2 = Ok (PeerAdded (lit "node-1")).
Proof. by vm_compute. Qed.

Lemma announcement_reaches_table_witness :
  let '(d, result) := @process_announcement toy_crypto engine_a sample_announcement 1010 in
  result = Ok (PeerAdded (lit "node-1"))
  ∧ de_peers d = {[ lit "node-1" := {| participant_id := lit "node-1";
      address := lit "10.0.0.1"; port := 8080; public_key := sample_key |} ]}
  ∧ (result ≠ Ok Ignored → de_sync_trigger_pending d = true).
Proof.
  apply (@announcement_reaches_table toy_crypto toy_crypto_ok engine_a engine_a (lit "group-a")
    (lit "secret-token") (lit "node-1") (lit "10.0.0.1") (lit "  ssh-ed25519   AAAAC3NzaC1lZDI1NTE5 owner@host")
    sample_key (lit "nonce-1") 8080 1000 1010 60 120 60 120 sample_announcement
    engine_a_ok engine_a_ok); try by_compute; by vm_compute.
Defined.

Lemma reachable_engine_ok_witness :
  engine_ok (lit "group-a") (lit "secret-token") 60 120
    (@apply_op toy_crypto engine_a (Announce sample_announcement 1010)).
Proof.
  apply (@reachable_engine_ok toy_crypto). apply reachable_op. apply reachable_new.
Defined.

Lemma announcement_effective_once_witness :
  let d := foldl (@apply_op toy_crypto)
    (@process_announcement toy_crypto engine_a sample_announcement 1010).1
    [TakeTrigger; Bootstrap [lit "node-1@10.0.0.9:22"]] in
  (@process_announcement toy_crypto d sample_announcement 1055).2 = Ok Ignored.
Proof.
  pose proof (@announcement_effective_once toy_crypto engine_a sample_announcement 1010 1055
    [TakeTrigger; Bootstrap [lit "node-1@10.0.0.9:22"]]) as H.
  cbn zeta in H |- *. destruct (process_announcement _ sample_announcement 1055) as [d2 r2].
  apply H; [by_compute|by vm_compute|]. repeat constructor.
Defined.

Lemma parse_bootstrap_peer_exact_witness :
  parse_bootstrap_peer (lit "  node-1@[::1]:8080 ") = Some (lit "node-1", lit "[::1]", 8080).
Proof.
  apply (proj1 (parse_bootstrap_peer_exact (lit "node-1") (lit "[::1]") (lit "  ") (lit " ") 8080
    ltac:(by_compute) ltac:(by_compute) ltac:(by_compute) ltac:(by_compute) ltac:(by_compute)));
    by_compute.
Defined.

Lemma new_peer_wakes_sync_witness :
  (take_sync_trigger (foldl (@apply_op toy_crypto) engine_a
    [Announce sample_announcement 1010])).2 = true.
Proof.
  apply (@new_peer_wakes_sync toy_crypto engine_a [Announce sample_announcement 1010]).
  - by repeat constructor.
  - right. by_compute.
Defined.
