(* ===== verification/Config.v ===== *)
(** * Configuration (src/src/config.rs)

    The configuration is assembled from three sources: command-line options,
    environment variables and a file of KEY=value lines.  The operating
    system appears as two arguments: the environment, a partial function from
    names to values, and the file system, a partial function from paths to
    contents.  The theorems: the three sources amount to one environment in
    which options shadow variables and variables that can be read shadow the
    file; what a loaded
    configuration satisfies and when loading fails; the file format and the
    list format; the token does not show in the debug output. *)

From S2P Require Import Prelude Str Utf8 KeyValue.

Local Open Scope N_scope.

(** ** Data *)

Definition DEFAULT_HTTP_LISTEN_ADDR : str := lit "0.0.0.0:9922".
Definition DEFAULT_UDP_ANNOUNCE_ADDR : str := lit "0.0.0.0:9923".
Definition DEFAULT_SYNC_INTERVAL_SECS : N := 30.
Definition DEFAULT_PUBLIC_KEY_PATH : str := lit "~/.ssh/id_ed25519.pub".
Definition DEFAULT_AUTHORIZED_KEYS_PATH : str := lit "~/.ssh/authorized_keys".

Record AppConfig := {
  sid : str;
  sid_token : str;
  participant_id : str;
  http_listen_addr : str;
  udp_announce_addr : str;
  bootstrap_peers : list str;
  sync_interval_secs : N;
  public_key_path : str;
  authorized_keys_path : str;
  tls_cert_path : option str;
  tls_key_path : option str;
  tls_ca_path : option str;
  tls_server_name : option str;
  insecure_no_tls : bool;
  dry_run : bool
}.

Inductive ConfigMode :=
| RequireSyncConfig
| AllowMissing.

Record ConfigInput := {
  in_sid : option str;
  in_sid_token : option str;
  in_participant_id : option str;
  in_http_listen_addr : option str;
  in_udp_announce_addr : option str;
  in_bootstrap_peers : option str;
  in_sync_interval_secs : option N;
  in_public_key_path : option str;
  in_authorized_keys_path : option str;
  in_tls_cert_path : option str;
  in_tls_key_path : option str;
  in_tls_ca_path : option str;
  in_tls_server_name : option str;
  in_insecure_no_tls : bool;
  in_dry_run : bool;
  in_config_path : option str
}.

Inductive ConfigError :=
| MissingSid
| MissingSidToken
| InvalidSid
| InvalidSidToken
| InvalidSyncInterval
| ConfigFileReadFailed (path : str).

#[export] Instance ConfigMode_eq_dec : EqDecision ConfigMode.
Proof. solve_decision. Defined.
#[export] Instance ConfigError_eq_dec : EqDecision ConfigError.
Proof. solve_decision. Defined.
#[export] Instance AppConfig_eq_dec : EqDecision AppConfig.
Proof. solve_decision. Defined.

(** [Display for ConfigError]. *)
Definition ConfigError_display (e : ConfigError) : str :=
  match e with
  | MissingSid => lit "Missing SID: set --sid or SSH_KEY_SYNC_SID"
  | MissingSidToken => lit "Missing SID_TOKEN: set --sid-token or SSH_KEY_SYNC_SID_TOKEN"
  | InvalidSid => lit "SID must not be empty"
  | InvalidSidToken => lit "SID_TOKEN must not be empty"
  | InvalidSyncInterval => lit "sync-interval-secs must be greater than 0"
  | ConfigFileReadFailed path => lit "Cannot read config file: " ++ path
  end.

(** [Debug for AppConfig]: the fields handed to the [debug_struct] builder. *)
Inductive debug_value :=
| DStr (s : str)
| DList (l : list str)
| DNum (n : N)
| DOpt (o : option str)
| DBool (b : bool).

Definition AppConfig_debug (c : AppConfig) : list (str * debug_value) :=
  [(lit "sid", DStr (sid c));
   (lit "sid_token", DStr (lit "***"));
   (lit "participant_id", DStr (participant_id c));
   (lit "http_listen_addr", DStr (http_listen_addr c));
   (lit "udp_announce_addr", DStr (udp_announce_addr c));
   (lit "bootstrap_peers", DList (bootstrap_peers c));
   (lit "sync_interval_secs", DNum (sync_interval_secs c));
   (lit "public_key_path", DStr (public_key_path c));
   (lit "authorized_keys_path", DStr (authorized_keys_path c));
   (lit "tls_cert_path", DOpt (tls_cert_path c));
   (lit "tls_key_path", DOpt (tls_key_path c));
   (lit "tls_ca_path", DOpt (tls_ca_path c));
   (lit "tls_server_name", DOpt (tls_server_name c));
   (lit "insecure_no_tls", DBool (insecure_no_tls c));
   (lit "dry_run", DBool (dry_run c))].

(** ** Parsing *)

Definition parse_bool (value : str) : option bool :=
  let v := to_ascii_lowercase (trim value) in
  if bool_decide (v ∈ [lit "1"; lit "true"; lit "yes"; lit "on"]) then Some true
  else if bool_decide (v ∈ [lit "0"; lit "false"; lit "no"; lit "off"]) then Some false
  else None.

(** The iterator of [parse_csv]: [seen] is the [HashSet] of its closure. *)
Fixpoint parse_csv_items (seen : gset str) (items : list str) : list str :=
  match items with
  | [] => []
  | item :: rest =>
      let item := trim item in
      if is_empty item then parse_csv_items seen rest
      else if decide (item ∈ seen) then parse_csv_items seen rest
      else item :: parse_csv_items ({[item]} ∪ seen) rest
  end.

Definition parse_csv (value : str) : list str := parse_csv_items ∅ (split_char 44 value).

Definition normalize_non_empty (value : str) : option str :=
  let trimmed := trim value in
  if is_empty trimmed then None else Some trimmed.

Fixpoint parse_config_lines (map : gmap str str) (ls : list str) : gmap str str :=
  match ls with
  | [] => map
  | line :: rest =>
      let trimmed := trim line in
      if is_empty trimmed || bool_decide (head trimmed = Some 35)
      then parse_config_lines map rest
      else match split_once 61 trimmed with
           | None => parse_config_lines map rest
           | Some (key, value) => parse_config_lines (<[trim key := trim value]> map) rest
           end
  end.

Definition parse_config_key_values (content : str) : gmap str str :=
  parse_config_lines ∅ (lines content).

(** ** Resolving one option *)

Definition resolve_string (arg : option str) (env_key : str) (env_data file_data : gmap str str)
    (file_key : str) : option str :=
  or_else (or_else arg (env_data !! env_key)) (file_data !! file_key).

Definition resolve_u64 (arg : option N) (env_key : str) (env_data file_data : gmap str str)
    (file_key : str) : option N :=
  or_else (or_else arg (v ← env_data !! env_key; parse_uint U64_MAX v))
    (v ← file_data !! file_key; parse_uint U64_MAX v).

Definition resolve_bool (arg : bool) (env_key : str) (env_data file_data : gmap str str)
    (file_key : str) : bool :=
  if arg then true
  else default false
         (or_else (v ← env_data !! env_key; parse_bool v)
                  (v ← file_data !! file_key; parse_bool v)).

(** ** Loading *)

(** [load_config_with_sources], after the configuration file is read. *)
Definition assemble (input : ConfigInput) (mode : ConfigMode)
    (env_data file_data : gmap str str) : result ConfigError (option AppConfig) :=
  let sid := resolve_string (in_sid input) (lit "SSH_KEY_SYNC_SID") env_data file_data (lit "SID") in
  let sid_token := resolve_string (in_sid_token input) (lit "SSH_KEY_SYNC_SID_TOKEN")
    env_data file_data (lit "SID_TOKEN") in
  if bool_decide (mode = AllowMissing ∧ sid = None ∧ sid_token = None) then Ok None
  else
    sid ← ok_or MissingSid sid;
    sid ← ok_or InvalidSid (normalize_non_empty sid);
    sid_token ← ok_or MissingSidToken sid_token;
    sid_token ← ok_or InvalidSidToken (normalize_non_empty sid_token);
    let sync_interval_secs :=
      default DEFAULT_SYNC_INTERVAL_SECS
        (resolve_u64 (in_sync_interval_secs input) (lit "SSH_KEY_SYNC_SYNC_INTERVAL_SECS")
           env_data file_data (lit "SYNC_INTERVAL_SECS")) in
    if sync_interval_secs =? 0 then Err InvalidSyncInterval
    else
      let participant_id :=
        default (lit "unknown-participant")
          (or_else (resolve_string (in_participant_id input) (lit "SSH_KEY_SYNC_PARTICIPANT_ID")
                      env_data file_data (lit "PARTICIPANT_ID"))
                   (env_data !! lit "HOSTNAME")) in
      let http_listen_addr :=
        default DEFAULT_HTTP_LISTEN_ADDR
          (resolve_string (in_http_listen_addr input) (lit "SSH_KEY_SYNC_HTTP_LISTEN_ADDR")
             env_data file_data (lit "HTTP_LISTEN_ADDR")) in
      let udp_announce_addr :=
        default DEFAULT_UDP_ANNOUNCE_ADDR
          (resolve_string (in_udp_announce_addr input) (lit "SSH_KEY_SYNC_UDP_ANNOUNCE_ADDR")
             env_data file_data (lit "UDP_ANNOUNCE_ADDR")) in
      let bootstrap_peers :=
        default []
          (parse_csv <$> resolve_string (in_bootstrap_peers input)
             (lit "SSH_KEY_SYNC_BOOTSTRAP_PEERS") env_data file_data (lit "BOOTSTRAP_PEERS")) in
      let public_key_path :=
        default DEFAULT_PUBLIC_KEY_PATH
          (resolve_string (in_public_key_path input) (lit "SSH_KEY_SYNC_PUBLIC_KEY_PATH")
             env_data file_data (lit "PUBLIC_KEY_PATH")) in
      let authorized_keys_path :=
        default DEFAULT_AUTHORIZED_KEYS_PATH
          (resolve_string (in_authorized_keys_path input)
             (lit "SSH_KEY_SYNC_AUTHORIZED_KEYS_PATH") env_data file_data
             (lit "AUTHORIZED_KEYS_PATH")) in
      let dry_run := resolve_bool (in_dry_run input) (lit "SSH_KEY_SYNC_DRY_RUN")
        env_data file_data (lit "DRY_RUN") in
      let tls_cert_path := resolve_string (in_tls_cert_path input)
        (lit "SSH_KEY_SYNC_TLS_CERT_PATH") env_data file_data (lit "TLS_CERT_PATH") in
      let tls_key_path := resolve_string (in_tls_key_path input)
        (lit "SSH_KEY_SYNC_TLS_KEY_PATH") env_data file_data (lit "TLS_KEY_PATH") in
      let tls_ca_path := resolve_string (in_tls_ca_path input)
        (lit "SSH_KEY_SYNC_TLS_CA_PATH") env_data file_data (lit "TLS_CA_PATH") in
      let tls_server_name := resolve_string (in_tls_server_name input)
        (lit "SSH_KEY_SYNC_TLS_SERVER_NAME") env_data file_data (lit "TLS_SERVER_NAME") in
      let insecure_no_tls := resolve_bool (in_insecure_no_tls input)
        (lit "SSH_KEY_SYNC_INSECURE_NO_TLS") env_data file_data (lit "INSECURE_NO_TLS") in
      Ok (Some
        {| sid := sid; sid_token := sid_token; participant_id := participant_id;
           http_listen_addr := http_listen_addr; udp_announce_addr := udp_announce_addr;
           bootstrap_peers := bootstrap_peers; sync_interval_secs := sync_interval_secs;
           public_key_path := public_key_path; authorized_keys_path := authorized_keys_path;
           tls_cert_path := tls_cert_path; tls_key_path := tls_key_path;
           tls_ca_path := tls_ca_path; tls_server_name := tls_server_name;
           insecure_no_tls := insecure_no_tls; dry_run := dry_run |}).

Definition env_keys : list str :=
  [lit "SSH_KEY_SYNC_SID"; lit "SSH_KEY_SYNC_SID_TOKEN"; lit "SSH_KEY_SYNC_PARTICIPANT_ID";
   lit "SSH_KEY_SYNC_HTTP_LISTEN_ADDR"; lit "SSH_KEY_SYNC_UDP_ANNOUNCE_ADDR";
   lit "SSH_KEY_SYNC_BOOTSTRAP_PEERS"; lit "SSH_KEY_SYNC_SYNC_INTERVAL_SECS";
   lit "SSH_KEY_SYNC_PUBLIC_KEY_PATH"; lit "SSH_KEY_SYNC_AUTHORIZED_KEYS_PATH";
   lit "SSH_KEY_SYNC_TLS_CERT_PATH"; lit "SSH_KEY_SYNC_TLS_KEY_PATH";
   lit "SSH_KEY_SYNC_TLS_CA_PATH"; lit "SSH_KEY_SYNC_TLS_SERVER_NAME";
   lit "SSH_KEY_SYNC_INSECURE_NO_TLS"; lit "SSH_KEY_SYNC_DRY_RUN"; lit "HOSTNAME"].

Section operating_system.
(** [std::env::var(key).ok()] and the contents of the readable files. *)
Context (env_var : str → option str) (files : str → option bytes).

Definition collect_env : gmap str str :=
  foldl (λ values key,
    match env_var key with Some value => <[key := value]> values | None => values end)
    ∅ env_keys.

(** [fs::read_to_string] fails on a missing file and on invalid UTF-8. *)
Definition read_config_file (path : option str) : result ConfigError (gmap str str) :=
  match path with
  | None => Ok ∅
  | Some path =>
      content ← ok_or (ConfigFileReadFailed path) (b ← files path; from_utf8 b);
      Ok (parse_config_key_values content)
  end.

Definition load_config_with_sources (input : ConfigInput) (mode : ConfigMode)
    (env_data : gmap str str) : result ConfigError (option AppConfig) :=
  file_data ← read_config_file (in_config_path input);
  assemble input mode env_data file_data.

Definition load_config (input : ConfigInput) (mode : ConfigMode) :
    result ConfigError (option AppConfig) :=
  load_config_with_sources input mode collect_env.
End operating_system.

Arguments assemble : simpl never.

(** ** The three sources as one environment *)

Definition ENV_PREFIX : str := lit "SSH_KEY_SYNC_".

(** The options of the command line written over an environment. *)
Definition set_opt (k : str) (o : option str) (m : gmap str str) : gmap str str :=
  match o with Some v => <[k := v]> m | None => m end.
Definition set_flag (k : str) (b : bool) (m : gmap str str) : gmap str str :=
  set_opt k (if b then Some (lit "true") else None) m.

Definition overrides (i : ConfigInput) (m : gmap str str) : gmap str str :=
  set_opt (lit "SSH_KEY_SYNC_SID") (in_sid i)
  (set_opt (lit "SSH_KEY_SYNC_SID_TOKEN") (in_sid_token i)
  (set_opt (lit "SSH_KEY_SYNC_PARTICIPANT_ID") (in_participant_id i)
  (set_opt (lit "SSH_KEY_SYNC_HTTP_LISTEN_ADDR") (in_http_listen_addr i)
  (set_opt (lit "SSH_KEY_SYNC_UDP_ANNOUNCE_ADDR") (in_udp_announce_addr i)
  (set_opt (lit "SSH_KEY_SYNC_BOOTSTRAP_PEERS") (in_bootstrap_peers i)
  (set_opt (lit "SSH_KEY_SYNC_SYNC_INTERVAL_SECS") (to_string <$> in_sync_interval_secs i)
  (set_opt (lit "SSH_KEY_SYNC_PUBLIC_KEY_PATH") (in_public_key_path i)
  (set_opt (lit "SSH_KEY_SYNC_AUTHORIZED_KEYS_PATH") (in_authorized_keys_path i)
  (set_opt (lit "SSH_KEY_SYNC_TLS_CERT_PATH") (in_tls_cert_path i)
  (set_opt (lit "SSH_KEY_SYNC_TLS_KEY_PATH") (in_tls_key_path i)
  (set_opt (lit "SSH_KEY_SYNC_TLS_CA_PATH") (in_tls_ca_path i)
  (set_opt (lit "SSH_KEY_SYNC_TLS_SERVER_NAME") (in_tls_server_name i)
  (set_flag (lit "SSH_KEY_SYNC_INSECURE_NO_TLS") (in_insecure_no_tls i)
  (set_flag (lit "SSH_KEY_SYNC_DRY_RUN") (in_dry_run i) m)))))))))))))).

(** The file's entries under the names of the environment variables. *)
Definition file_env (file_data : gmap str str) : gmap str str :=
  kmap (λ k, ENV_PREFIX ++ k) file_data.

Definition no_input : ConfigInput :=
  {| in_sid := None; in_sid_token := None; in_participant_id := None;
     in_http_listen_addr := None; in_udp_announce_addr := None; in_bootstrap_peers := None;
     in_sync_interval_secs := None; in_public_key_path := None;
     in_authorized_keys_path := None; in_tls_cert_path := None; in_tls_key_path := None;
     in_tls_ca_path := None; in_tls_server_name := None; in_insecure_no_tls := false;
     in_dry_run := false; in_config_path := None |}.

(** The variables that can be read: one that is not text and cannot be parsed
    is as good as not set. *)
Definition INTERVAL_KEY : str := lit "SSH_KEY_SYNC_SYNC_INTERVAL_SECS".
Definition DRY_RUN_KEY : str := lit "SSH_KEY_SYNC_DRY_RUN".
Definition NO_TLS_KEY : str := lit "SSH_KEY_SYNC_INSECURE_NO_TLS".

Definition can_be_read (kv : str * str) : Prop :=
  (kv.1 = INTERVAL_KEY → is_Some (parse_uint U64_MAX kv.2))
  ∧ (kv.1 = DRY_RUN_KEY ∨ kv.1 = NO_TLS_KEY → is_Some (parse_bool kv.2)).

#[export] Instance can_be_read_dec kv : Decision (can_be_read kv).
Proof. unfold can_be_read. apply _. Defined.

Definition readable (m : gmap str str) : gmap str str := filter can_be_read m.

(** ** Lemmas *)

Lemma or_else_None_r {A} (o : option A) : or_else o None = o.
Proof. by destruct o. Qed.

Lemma or_else_assoc {A} (a b c : option A) : or_else (or_else a b) c = or_else a (or_else b c).
Proof. by destruct a. Qed.

Lemma lookup_set_opt_eq k o m : set_opt k o m !! k = or_else o (m !! k).
Proof. destruct o; cbn; [apply lookup_insert_eq|done]. Qed.

Lemma lookup_set_opt_ne k k' o m : k ≠ k' → set_opt k o m !! k' = m !! k'.
Proof. intros H. destruct o; cbn; [by apply lookup_insert_ne|done]. Qed.

#[local] Instance env_prefix_inj : Inj (=) (=) (λ k : str, ENV_PREFIX ++ k).
Proof. intros ? ?. apply app_inv_head. Qed.

Lemma lookup_file_env m k : file_env m !! (ENV_PREFIX ++ k) = m !! k.
Proof. unfold file_env. by rewrite (lookup_kmap (λ k, ENV_PREFIX ++ k)). Qed.

Lemma lookup_file_env_hostname m : file_env m !! lit "HOSTNAME" = None.
Proof.
  unfold file_env. apply (lookup_kmap_None (λ k, ENV_PREFIX ++ k)). intros k E. by vm_compute in E.
Qed.

Lemma lookup_layers env file k :
  (env ∪ file_env file) !! (ENV_PREFIX ++ k) = or_else (env !! (ENV_PREFIX ++ k)) (file !! k).
Proof. rewrite lookup_union, lookup_file_env. by destruct (env !! _), (file !! k). Qed.

(** Look a literal key up through the overrides. *)
Ltac through_overrides :=
  unfold overrides, set_flag;
  repeat first [ rewrite lookup_set_opt_eq | rewrite lookup_set_opt_ne by by_compute ].

Section layers.
Context (i : ConfigInput) (env file : gmap str str).
Let layered : gmap str str := overrides i (env ∪ file_env file).

Lemma layer_string arg env_key file_key :
  env_key = ENV_PREFIX ++ file_key →
  layered !! env_key = or_else arg ((env ∪ file_env file) !! env_key) →
  resolve_string arg env_key env file file_key = resolve_string None env_key layered ∅ file_key.
Proof.
  intros -> E. unfold resolve_string. rewrite E, lookup_layers, lookup_empty, or_else_None_r.
  by destruct arg.
Qed.

Lemma layer_u64 arg env_key file_key :
  env_key = ENV_PREFIX ++ file_key →
  layered !! env_key = or_else (to_string <$> arg) ((env ∪ file_env file) !! env_key) →
  (∀ n, arg = Some n → n ≤ U64_MAX) →
  (∀ v, env !! env_key = Some v → is_Some (parse_uint U64_MAX v)) →
  resolve_u64 arg env_key env file file_key = resolve_u64 None env_key layered ∅ file_key.
Proof.
  intros -> E Harg Henv. unfold resolve_u64. rewrite E, lookup_layers, lookup_empty.
  cbn [mbind option_bind or_else]. rewrite or_else_None_r. destruct arg as [n|]; cbn.
  - symmetry. apply parse_to_string. eauto.
  - destruct (env !! _) as [v|] eqn:Ev; cbn; [|done].
    destruct (Henv v eq_refl) as [n ->]. done.
Qed.

Lemma layer_bool (arg : bool) env_key file_key :
  env_key = ENV_PREFIX ++ file_key →
  layered !! env_key = or_else (if arg then Some (lit "true") else None)
                         ((env ∪ file_env file) !! env_key) →
  (∀ v, env !! env_key = Some v → is_Some (parse_bool v)) →
  resolve_bool arg env_key env file file_key = resolve_bool false env_key layered ∅ file_key.
Proof.
  intros -> E Henv. unfold resolve_bool. rewrite E, lookup_layers, lookup_empty.
  cbn [mbind option_bind]. rewrite or_else_None_r. destruct arg; [done|]. cbn [or_else].
  destruct (env !! _) as [v|] eqn:Ev; cbn [or_else mbind option_bind]; [|done].
  destruct (Henv v eq_refl) as [b ->]. done.
Qed.

Lemma assemble_layers mode :
  (∀ n, in_sync_interval_secs i = Some n → n ≤ U64_MAX) → map_Forall (λ k v, can_be_read (k, v)) env →
  assemble i mode env file = assemble no_input mode layered ∅.
Proof.
  intros Hi Henv.
  assert (∀ v, env !! INTERVAL_KEY = Some v → is_Some (parse_uint U64_MAX v)) as H1
    by (intros v Hv; by apply (proj1 (Henv _ _ Hv))).
  assert (∀ v, env !! DRY_RUN_KEY = Some v → is_Some (parse_bool v)) as H2
    by (intros v Hv; apply (proj2 (Henv _ _ Hv)); by left).
  assert (∀ v, env !! NO_TLS_KEY = Some v → is_Some (parse_bool v)) as H3
    by (intros v Hv; apply (proj2 (Henv _ _ Hv)); by right).
  unfold assemble. cbn [in_sid in_sid_token no_input].
  cbn [in_participant_id in_http_listen_addr in_udp_announce_addr in_bootstrap_peers
    in_sync_interval_secs in_public_key_path in_authorized_keys_path in_tls_cert_path
    in_tls_key_path in_tls_ca_path in_tls_server_name in_insecure_no_tls in_dry_run].
  assert (layered !! lit "HOSTNAME" = env !! lit "HOSTNAME") as ->.
  { unfold layered. through_overrides. rewrite lookup_union, lookup_file_env_hostname.
    by destruct (env !! lit "HOSTNAME"). }
  repeat match goal with
  | |- context [resolve_string (?f i) ?ek env file ?fk] =>
      rewrite (layer_string (f i) ek fk eq_refl) by (unfold layered; by through_overrides)
  | |- context [resolve_u64 (?f i) ?ek env file ?fk] =>
      rewrite (layer_u64 (f i) ek fk eq_refl) by (done || (unfold layered; by through_overrides))
  | |- context [resolve_bool (?f i) ?ek env file ?fk] =>
      rewrite (layer_bool (f i) ek fk eq_refl) by (done || (unfold layered; by through_overrides))
  end.
  done.
Qed.
End layers.

(** Variables that cannot be read make no difference. *)
Lemma lookup_readable m k :
  readable m !! k = v ← m !! k; if decide (can_be_read (k, v)) then Some v else None.
Proof.
  unfold readable. destruct (m !! k) as [v|] eqn:E; cbn [mbind option_bind].
  - case_decide as H; [by apply map_lookup_filter_Some|].
    apply map_lookup_filter_None. right. intros v' E'. by replace v' with v by congruence.
  - apply map_lookup_filter_None. by left.
Qed.

Lemma readable_text m k :
  k ≠ INTERVAL_KEY → k ≠ DRY_RUN_KEY → k ≠ NO_TLS_KEY → readable m !! k = m !! k.
Proof.
  intros H1 H2 H3. rewrite lookup_readable. destruct (m !! k) as [v|]; [|done].
  cbn [mbind option_bind]. rewrite decide_True; [done|]. split; [intros E; by destruct (H1 E)|].
  intros [E|E]; [by destruct (H2 E)|by destruct (H3 E)].
Qed.

Lemma readable_interval m :
  (v ← readable m !! INTERVAL_KEY; parse_uint U64_MAX v) = v ← m !! INTERVAL_KEY; parse_uint U64_MAX v.
Proof.
  rewrite lookup_readable. destruct (m !! INTERVAL_KEY) as [v|]; [|done].
  cbn [mbind option_bind]. case_decide as H; [done|]. destruct (parse_uint U64_MAX v) eqn:E; [|done].
  destruct H. split; [intros _; cbn [snd]; rewrite E; by eexists|]. intros [H|H]; by vm_compute in H.
Qed.

Lemma readable_bool m k :
  k = DRY_RUN_KEY ∨ k = NO_TLS_KEY →
  (v ← readable m !! k; parse_bool v) = v ← m !! k; parse_bool v.
Proof.
  intros Hk. rewrite lookup_readable. destruct (m !! k) as [v|]; [|done].
  cbn [mbind option_bind]. case_decide as H; [done|]. destruct (parse_bool v) eqn:E; [|done].
  destruct H. split; [|intros _; cbn [snd]; rewrite E; by eexists]. cbn [fst].
  intros ->. destruct Hk as [H|H]; by vm_compute in H.
Qed.

Lemma assemble_readable i mode env file :
  assemble i mode env file = assemble i mode (readable env) file.
Proof.
  unfold assemble, resolve_string.
  repeat match goal with
  | |- context [readable env !! ?k] => rewrite (readable_text env k) by by_compute
  end.
  assert (∀ a fk, resolve_u64 a INTERVAL_KEY env file fk
    = resolve_u64 a INTERVAL_KEY (readable env) file fk) as Hu.
  { intros a fk. unfold resolve_u64. by rewrite readable_interval. }
  assert (∀ a k fk, k = DRY_RUN_KEY ∨ k = NO_TLS_KEY →
    resolve_bool a k env file fk = resolve_bool a k (readable env) file fk) as Hb.
  { intros a k fk Hk. unfold resolve_bool. by rewrite readable_bool. }
  rewrite Hu, (Hb _ DRY_RUN_KEY), (Hb _ NO_TLS_KEY) by auto. done.
Qed.

(** *** Lists and lines *)

Lemma parse_csv_items_spec seen items :
  parse_csv_items seen items =
  filter (λ x, x ∉ seen) (nub (filter (λ x, x ≠ []) (trim <$> items))).
Proof.
  revert seen. induction items as [|x items IH]; intros seen; [done|].
  cbn [parse_csv_items fmap list_fmap]. unfold is_empty. case_bool_decide as He.
  { rewrite filter_cons_False by tauto. apply IH. }
  rewrite filter_cons_True by done. rewrite nub_cons.
  case_decide as Hs; rewrite IH.
  - rewrite filter_cons_False by tauto. rewrite list_filter_filter.
    apply list_filter_iff. intros y. set_solver.
  - rewrite filter_cons_True by done. f_equal. rewrite list_filter_filter.
    apply list_filter_iff. intros y. set_solver.
Qed.

Lemma parse_csv_spec v :
  parse_csv v = nub (filter (λ x, x ≠ []) (trim <$> split_char 44 v)).
Proof.
  unfold parse_csv. rewrite parse_csv_items_spec.
  generalize (nub (filter (λ x : str, x ≠ []) (trim <$> split_char 44 v))). intros l.
  induction l as [|x l IH]; [done|]. rewrite filter_cons_True by set_solver. by rewrite IH.
Qed.

(** What the peer list of a configuration looks like. *)
Definition peer_list (l : list str) : Prop :=
  NoDup l ∧ Forall (λ x, x ≠ [] ∧ trim x = x ∧ 44 ∉ x) l.

Lemma parse_csv_peer_list v : peer_list (parse_csv v).
Proof.
  rewrite parse_csv_spec. split; [apply NoDup_nub|]. apply Forall_nub, Forall_forall.
  intros x (Hne & Hx)%list_elem_of_filter. apply list_elem_of_fmap in Hx as (y & -> & Hy).
  split_and!; [done|apply trim_idem|]. intros H%trim_elem.
  pose proof (split_char_pieces 44 v) as HF. rewrite Forall_forall in HF. by apply (HF y).
Qed.

(** What a loaded configuration satisfies. *)
Record valid_config (c : AppConfig) : Prop := {
  vc_sid : trim (sid c) = sid c ∧ sid c ≠ [];
  vc_token : trim (sid_token c) = sid_token c ∧ sid_token c ≠ [];
  vc_interval : 0 < sync_interval_secs c;
  vc_peers : peer_list (bootstrap_peers c)
}.

Definition blank (o : option str) : Prop := ∃ x, o = Some x ∧ trim x = [].
Definition filled (o : option str) : Prop := ∃ x, o = Some x ∧ trim x ≠ [].

Section outcomes.
Context (i : ConfigInput) (mode : ConfigMode) (env file : gmap str str).
Let s : option str := resolve_string (in_sid i) (lit "SSH_KEY_SYNC_SID") env file (lit "SID").
Let t : option str :=
  resolve_string (in_sid_token i) (lit "SSH_KEY_SYNC_SID_TOKEN") env file (lit "SID_TOKEN").
Let n : N := default DEFAULT_SYNC_INTERVAL_SECS
  (resolve_u64 (in_sync_interval_secs i) (lit "SSH_KEY_SYNC_SYNC_INTERVAL_SECS")
     env file (lit "SYNC_INTERVAL_SECS")).

(** The outcome of [assemble] as a decision tree. *)
Lemma assemble_tree :
  ∃ c, assemble i mode env file =
    (if bool_decide (mode = AllowMissing ∧ s = None ∧ t = None) then Ok None
     else match s, t with
          | None, _ => Err MissingSid
          | Some x, o =>
              if is_empty (trim x) then Err InvalidSid
              else match o with
                   | None => Err MissingSidToken
                   | Some y =>
                       if is_empty (trim y) then Err InvalidSidToken
                       else if n =? 0 then Err InvalidSyncInterval else Ok (Some c)
                   end
          end)
    ∧ (filled s → filled t → n ≠ 0 → valid_config c ∧ sync_interval_secs c = n
         ∧ (∀ x, s = Some x → sid c = trim x) ∧ (∀ y, t = Some y → sid_token c = trim y)).
Proof.
  unfold assemble. fold s t n. unfold normalize_non_empty, filled.
  destruct (bool_decide _) eqn:E.
  { apply bool_decide_eq_true in E as (_ & -> & ->).
    unshelve eexists; [by repeat constructor; exact []|]. split; [done|]. naive_solver. }
  destruct s as [x|]; cbn [ok_or mbind result_bind].
  2: { unshelve eexists; [by repeat constructor; exact []|]. split; [done|]. naive_solver. }
  destruct (is_empty (trim x)) eqn:Ex; cbn [ok_or mbind result_bind].
  { unshelve eexists; [by repeat constructor; exact []|]. split; [done|].
    apply is_empty_true in Ex. naive_solver. }
  destruct t as [y|]; cbn [ok_or mbind result_bind].
  2: { unshelve eexists; [by repeat constructor; exact []|]. split; [done|]. naive_solver. }
  destruct (is_empty (trim y)) eqn:Ey; cbn [ok_or mbind result_bind].
  { unshelve eexists; [by repeat constructor; exact []|]. split; [done|].
    apply is_empty_true in Ey. naive_solver. }
  eexists. split; [reflexivity|]. intros _ _ Hn.
  apply is_empty_false in Ex, Ey. split_and!; [|done|naive_solver|naive_solver].
  split; cbn [sid sid_token sync_interval_secs bootstrap_peers].
  - split; [apply trim_idem|done].
  - split; [apply trim_idem|done].
  - lia.
  - destruct (resolve_string (in_bootstrap_peers i) _ _ _ _); cbn; [apply parse_csv_peer_list|].
    split; constructor.
Qed.
End outcomes.

Lemma blank_filled o : o = None ∨ blank o ∨ filled o.
Proof.
  destruct o as [x|]; [right|by left]. unfold blank, filled.
  destruct (decide (trim x = [])); [left|right]; eauto.
Qed.

#[local] Ltac outcome_row :=
  cbn; split_and!; try split; intros;
  repeat match goal with
  | H : _ ∧ _ |- _ => destruct H
  | H : ∃ _, _ |- _ => destruct H
  end; simplify_eq; split_and?; eauto; try done; try tauto; try congruence.

(** The decision tree, read off outcome by outcome. *)
Lemma outcome_table (mode : ConfigMode) (s t : option str) (n : N) (c : AppConfig) :
  let r :=
    if bool_decide (mode = AllowMissing ∧ s = None ∧ t = None) then Ok None
    else match s, t with
         | None, _ => Err MissingSid
         | Some x, o =>
             if is_empty (trim x) then Err InvalidSid
             else match o with
                  | None => Err MissingSidToken
                  | Some y =>
                      if is_empty (trim y) then Err InvalidSidToken
                      else if n =? 0 then Err InvalidSyncInterval else Ok (Some c)
                  end
         end in
  (filled s → filled t → n ≠ 0 → valid_config c ∧ sync_interval_secs c = n
     ∧ (∀ x, s = Some x → sid c = trim x) ∧ (∀ y, t = Some y → sid_token c = trim y)) →
  (r = Ok None ↔ mode = AllowMissing ∧ s = None ∧ t = None)
  ∧ (r = Err MissingSid ↔ s = None ∧ ¬ (mode = AllowMissing ∧ t = None))
  ∧ (r = Err InvalidSid ↔ blank s)
  ∧ (r = Err MissingSidToken ↔ filled s ∧ t = None)
  ∧ (r = Err InvalidSidToken ↔ filled s ∧ blank t)
  ∧ (r = Err InvalidSyncInterval ↔ filled s ∧ filled t ∧ n = 0)
  ∧ ((∃ c, r = Ok (Some c)) ↔ filled s ∧ filled t ∧ n ≠ 0)
  ∧ (∀ c, r = Ok (Some c) → valid_config c ∧ sync_interval_secs c = n
       ∧ s ≫= normalize_non_empty = Some (sid c)
       ∧ t ≫= normalize_non_empty = Some (sid_token c)).
Proof.
  intros r. subst r. unfold blank, filled, normalize_non_empty.
  case_bool_decide as Hm.
  { destruct Hm as (-> & -> & ->). intros _. outcome_row. }
  destruct s as [x|]; [|intros _; outcome_row]. cbn [mbind option_bind].
  destruct (is_empty (trim x)) eqn:Ex;
    [apply is_empty_true in Ex|apply is_empty_false in Ex]; [intros _; outcome_row|].
  destruct t as [y|]; [|intros _; outcome_row]. cbn [mbind option_bind].
  destruct (is_empty (trim y)) eqn:Ey;
    [apply is_empty_true in Ey|apply is_empty_false in Ey]; [intros _; outcome_row|].
  destruct (N.eqb_spec n 0) as [Hn|Hn]; [intros _; outcome_row|].
  intros Hc. destruct Hc as (Hv & Hi & Hs & Ht); [eauto..|done|].
  specialize (Hs x eq_refl). specialize (Ht y eq_refl). outcome_row.
Qed.

Lemma read_config_file_Err files path e :
  read_config_file files path = Err e ↔
  ∃ p, path = Some p ∧ e = ConfigFileReadFailed p ∧ (files p ≫= from_utf8) = None.
Proof.
  destruct path as [p|]; cbn [read_config_file]; [|split; [done|by intros (? & ? & _)]].
  destruct (files p ≫= from_utf8) eqn:E; cbn [ok_or mbind result_bind]; split.
  - done.
  - intros (p' & [= <-] & _ & E'). congruence.
  - intros [= <-]. eauto.
  - by intros (p' & [= <-] & -> & _).
Qed.

(** *** The file format *)

(** A line of a configuration file: a comment, or an entry. *)
Inductive config_line :=
| Comment (text : str)
| Entry (kv : str * str).

Definition render_line (l : config_line) : str :=
  match l with Comment text => lit "#" ++ text | Entry kv => kv_line kv end.

Definition line_ok (l : config_line) : Prop :=
  match l with
  | Comment text => LF ∉ text
  | Entry kv => kv_safe kv ∧ head kv.1 ≠ Some 35
  end.

Definition entries_of (ls : list config_line) : list (str * str) :=
  omap (λ l, match l with Entry kv => Some kv | Comment _ => None end) ls.

Lemma trim_head_comment text :
  head (trim (35 :: text)) = Some 35.
Proof.
  destruct (trim_split (35 :: text)) as (p & q & E & Hp & Hq & _).
  destruct p as [|x p].
  - destruct (trim (35 :: text)) as [|y r]; cbn in E |- *; [|by injection E as <- _].
    exfalso. destruct q as [|y q]; [done|]. injection E as <- _.
    by apply Forall_cons_1 in Hq as [? _].
  - injection E as <- _. by apply Forall_cons_1 in Hp as [? _].
Qed.

Lemma trim_entry k v :
  key_safe k → line_safe v → trim (k ++ 61 :: v) = k ++ 61 :: v.
Proof.
  intros ([_ [Hk _]%trim_id_edges] & _ & Hne) [_ [_ Hv]%trim_id_edges]. apply trim_ok.
  - by destruct k.
  - rewrite last_app, last_cons. by destruct (last v).
Qed.

Lemma parse_config_lines_render m ls :
  Forall line_ok ls →
  parse_config_lines m (render_line <$> ls) = insert_all m (entries_of ls).
Proof.
  intros H. revert m. induction H as [|l ls Hl _ IH]; intros m; [done|].
  cbn [fmap list_fmap parse_config_lines]. destruct l as [text|[k v]]; cbn [render_line].
  - change (lit "#" ++ text) with (35 :: text). rewrite trim_head_comment.
    rewrite bool_decide_true, orb_true_r by done. by rewrite IH.
  - destruct Hl as [[Hk Hv] Hh]. cbn [fst snd] in *.
    assert (trim (kv_line (k, v)) = kv_line (k, v)) as ->.
    { rewrite kv_line_parts. by apply trim_entry. }
    pose proof Hk as ([_ Ek] & _ & Hne). pose proof Hv as [_ Ev].
    rewrite bool_decide_false by (rewrite kv_line_parts; by destruct k).
    rewrite (proj2 (is_empty_false _)) by (rewrite kv_line_parts; by destruct k). cbn [orb].
    rewrite split_once_kv by done. rewrite Ek, Ev, IH. done.
Qed.

Lemma render_line_ok l :
  line_ok l → no_cr_end (render_line l) → (LF ∉ render_line l) ∧ no_cr_end (render_line l).
Proof.
  intros H Hc. split; [|done]. destruct l as [text|[k v]]; cbn [render_line line_ok] in *.
  - change (lit "#" ++ text) with (35 :: text). by apply not_elem_of_cons.
  - destruct H as [[[[? _] _] [? _]] _]. by apply kv_line_no_LF.
Qed.

Lemma lines_render ls :
  Forall line_ok ls → Forall (λ l, no_cr_end (render_line l)) ls →
  lines (concat (map (λ l, l ++ [LF]) (render_line <$> ls))) = render_line <$> ls.
Proof.
  intros H Hc. apply lines_concat. apply Forall_fmap.
  eapply Forall_impl; [by apply Forall_and; split; [apply H|apply Hc]|].
  intros l [? ?]. by apply render_line_ok.
Qed.

(** The settings without the token: what the debug output may depend on. *)
Definition without_token (c : AppConfig) : AppConfig :=
  {| sid := sid c; sid_token := []; participant_id := participant_id c;
     http_listen_addr := http_listen_addr c; udp_announce_addr := udp_announce_addr c;
     bootstrap_peers := bootstrap_peers c; sync_interval_secs := sync_interval_secs c;
     public_key_path := public_key_path c; authorized_keys_path := authorized_keys_path c;
     tls_cert_path := tls_cert_path c; tls_key_path := tls_key_path c;
     tls_ca_path := tls_ca_path c; tls_server_name := tls_server_name c;
     insecure_no_tls := insecure_no_tls c; dry_run := dry_run c |}.

(** The debug output shows everything but the token. *)
Lemma debug_hides_token (c c' : AppConfig) :
  AppConfig_debug c = AppConfig_debug c' ↔ without_token c = without_token c'.
Proof.
  destruct c, c'. unfold AppConfig_debug, without_token. cbn -[lit].
  split; intros H; injection H; intros; by subst.
Qed.

(** ** Properties *)

(** C30: precedence.  Loading from options, environment and file is loading
    from one environment alone: the file's entries under their environment
    names, overridden by the variables that can be read, overridden by the
    options.  So for every setting an option wins over a variable and a variable
    over the file (CLI > ENV > config file), except that a numeric or boolean
    variable that cannot be parsed does not count.  The file, if one is given,
    must be readable. *)
Theorem load_config_layers (files : str → option bytes) (input : ConfigInput)
    (mode : ConfigMode) (env file : gmap str str) :
  read_config_file files (in_config_path input) = Ok file →
  (∀ n, in_sync_interval_secs input = Some n → n ≤ U64_MAX) →
  load_config_with_sources files input mode env
  = load_config_with_sources files no_input mode (overrides input (readable env ∪ file_env file)).
Proof.
  intros Hf Hn. unfold load_config_with_sources. rewrite Hf. cbn [mbind result_bind].
  rewrite assemble_readable, (assemble_layers input (readable env) file mode Hn); [done|].
  apply map_Forall_lookup_2. intros k v [_ H]%map_lookup_filter_Some. exact H.
Qed.

(** C31: every outcome of loading and when it occurs, in the order of the
    checks: unreadable file, nothing configured where that is allowed, missing
    or blank group, missing or blank token, zero interval; in all other cases
    a configuration, and it is valid: trimmed non-empty group and token, a
    positive interval, and bootstrap peers without blanks, commas or
    repetitions. *)
Theorem load_config_outcomes (files : str → option bytes) (input : ConfigInput)
    (mode : ConfigMode) (env : gmap str str) :
  let r := load_config_with_sources files input mode env in
  (∀ p, r = Err (ConfigFileReadFailed p) ↔
     in_config_path input = Some p ∧ (files p ≫= from_utf8) = None)
  ∧ (∀ file, read_config_file files (in_config_path input) = Ok file →
     let s := resolve_string (in_sid input) (lit "SSH_KEY_SYNC_SID") env file (lit "SID") in
     let t := resolve_string (in_sid_token input) (lit "SSH_KEY_SYNC_SID_TOKEN") env file
                (lit "SID_TOKEN") in
     let n := default DEFAULT_SYNC_INTERVAL_SECS
                (resolve_u64 (in_sync_interval_secs input)
                   (lit "SSH_KEY_SYNC_SYNC_INTERVAL_SECS") env file (lit "SYNC_INTERVAL_SECS")) in
     (r = Ok None ↔ mode = AllowMissing ∧ s = None ∧ t = None)
     ∧ (r = Err MissingSid ↔ s = None ∧ ¬ (mode = AllowMissing ∧ t = None))
     ∧ (r = Err InvalidSid ↔ blank s)
     ∧ (r = Err MissingSidToken ↔ filled s ∧ t = None)
     ∧ (r = Err InvalidSidToken ↔ filled s ∧ blank t)
     ∧ (r = Err InvalidSyncInterval ↔ filled s ∧ filled t ∧ n = 0)
     ∧ ((∃ c, r = Ok (Some c)) ↔ filled s ∧ filled t ∧ n ≠ 0)
     ∧ (∀ c, r = Ok (Some c) → valid_config c ∧ sync_interval_secs c = n
          ∧ s ≫= normalize_non_empty = Some (sid c)
          ∧ t ≫= normalize_non_empty = Some (sid_token c))).
Proof.
  intros r. unfold load_config_with_sources in r.
  destruct (read_config_file files (in_config_path input)) as [file|e] eqn:Ef; cbn in r; subst r.
  2: { split; [|done]. intros p. rewrite read_config_file_Err in Ef.
       destruct Ef as (p' & -> & -> & E). outcome_row. }
  split.
  - intros p. destruct (assemble_tree input mode env file) as (c & -> & _). split.
    + repeat case_match; done.
    + intros (E1 & E2). rewrite (proj2 (read_config_file_Err files _ (ConfigFileReadFailed p))) in Ef
        by eauto. done.
  - intros file' [= <-]. cbn zeta.
    destruct (assemble_tree input mode env file) as (c & -> & Hc). revert Hc.
    generalize (resolve_string (in_sid input) (lit "SSH_KEY_SYNC_SID") env file (lit "SID")).
    generalize (resolve_string (in_sid_token input) (lit "SSH_KEY_SYNC_SID_TOKEN") env file
      (lit "SID_TOKEN")).
    generalize (default DEFAULT_SYNC_INTERVAL_SECS
      (resolve_u64 (in_sync_interval_secs input) (lit "SSH_KEY_SYNC_SYNC_INTERVAL_SECS") env file
         (lit "SYNC_INTERVAL_SECS"))).
    intros n t s Hc. by apply outcome_table.
Qed.

(** The file format.  A file of entries KEY=value and comment lines, each
    ended by a line feed, is read as the map of its entries, a later entry
    overriding an earlier one; comments contribute nothing wherever they are. *)
Theorem parse_config_round_trip (ls : list config_line) :
  Forall line_ok ls → Forall (λ l, no_cr_end (render_line l)) ls →
  parse_config_key_values (concat (map (λ l, l ++ [LF]) (render_line <$> ls)))
  = insert_all ∅ (entries_of ls).
Proof.
  intros H Hc. unfold parse_config_key_values. rewrite lines_render by done.
  by apply parse_config_lines_render.
Qed.

(** ** Witnesses *)

Definition sample_file : gmap str str :=
  parse_config_key_values (encode (lit "# group" ++ [LF] ++ lit "SID=file-group" ++ [LF]
    ++ lit "SID_TOKEN=file-token" ++ [LF] ++ lit "SYNC_INTERVAL_SECS=45")).
Definition sample_files (path : str) : option bytes :=
  if bool_decide (path = lit "c.env")
  then Some (lit "# group" ++ [LF] ++ lit "SID=file-group" ++ [LF]
    ++ lit "SID_TOKEN=file-token" ++ [LF] ++ lit "SYNC_INTERVAL_SECS=45")
  else None.
Definition sample_env : gmap str str :=
  {[ lit "SSH_KEY_SYNC_SID" := lit "env-group"; lit "SSH_KEY_SYNC_DRY_RUN" := lit "on" ]}.
Definition sample_input : ConfigInput :=
  {| in_sid := None; in_sid_token := Some (lit "cli-token"); in_participant_id := None;
     in_http_listen_addr := None; in_udp_announce_addr := None; in_bootstrap_peers := None;
     in_sync_interval_secs := None; in_public_key_path := None;
     in_authorized_keys_path := None; in_tls_cert_path := None; in_tls_key_path := None;
     in_tls_ca_path := None; in_tls_server_name := None; in_insecure_no_tls := false;
     in_dry_run := false; in_config_path := Some (lit "c.env") |}.

(** The group comes from the environment, the token from the options and the
    interval from the file. *)
Example three_sources :
  fmap (M := result ConfigError)
    (fmap (M := option) (λ c, (sid c, sid_token c, sync_interval_secs c, dry_run c)))
    (load_config_with_sources sample_files sample_input RequireSyncConfig sample_env)
  = Ok (Some (lit "env-group", lit "cli-token", 45, true)).
Proof. by vm_compute. Qed.

(** A numeric variable that cannot be parsed does not shadow the file. *)
Example unreadable_variable_falls_through :
  fmap (M := result ConfigError) (fmap (M := option) sync_interval_secs)
    (load_config_with_sources sample_files sample_input RequireSyncConfig
          (<[lit "SSH_KEY_SYNC_SYNC_INTERVAL_SECS" := lit "10s"]> sample_env))
  = Ok (Some 45).
Proof. by vm_compute. Qed.

Lemma load_config_layers_witness :
  load_config_with_sources sample_files sample_input RequireSyncConfig sample_env
  = load_config_with_sources sample_files no_input RequireSyncConfig
      (overrides sample_input (readable sample_env ∪ file_env sample_file)).
Proof. apply load_config_layers; [by_compute|done]. Defined.

Lemma parse_config_round_trip_witness :
  parse_config_key_values (concat (map (λ l, l ++ [LF])
    (render_line <$> [Comment (lit " group"); Entry (lit "SID", lit "a=b")])))
  = {[ lit "SID" := lit "a=b" ]}.
Proof.
  apply (parse_config_round_trip [Comment (lit " group"); Entry (lit "SID", lit "a=b")]).
  - repeat constructor; by_compute.
  - repeat constructor; by_compute.
Defined.
