(* ===== verification/Daemon.v ===== *)
(** * The daemon state machine (src/src/daemon.rs)

    [DaemonLoop]: when a synchronisation may start, what its end does to the
    state, and how a shutdown is carried out.  The machine keeps a mode, two
    flags and a deadline; the specification has four phases.  The theorems: the
    machine driven by its protocol refines the phases; a synchronisation
    starts exactly when one is due or asked for; a shutdown is final and waits
    for the synchronisation that is running; what happens outside the
    protocol. *)

From S2P Require Import Prelude Str.

Local Open Scope N_scope.

(** ** Data *)

Inductive DaemonMode :=
| Running
| Stopping
| Stopped.

Inductive PeerSyncErrorKind :=
| AuthFailed
| Unreachable
| InvalidPayload.

Record PeerSyncError := {
  pse_participant_id : str;
  pse_kind : PeerSyncErrorKind;
  pse_message : str
}.

Record SyncCycleResult := {
  completed_at_secs : N;
  peer_errors : list PeerSyncError
}.

Inductive SyncExecution :=
| Success (result : SyncCycleResult)
| CriticalFailure (message : str).

Record DaemonState := {
  mode : DaemonMode;
  known_peers_count : N;
  sync_trigger_pending : bool;
  next_sync_due_secs : N;
  in_flight_sync : bool;
  last_successful_sync_at_secs : option N;
  last_peer_errors : list PeerSyncError;
  last_critical_error : option str
}.

Record DaemonLoop := {
  sync_interval_secs : N;
  jitter_secs : N;
  shutdown_requested : bool;
  state : DaemonState
}.

#[export] Instance DaemonMode_eq_dec : EqDecision DaemonMode.
Proof. solve_decision. Defined.

(** Assignments to one field. *)
Definition with_state (d : DaemonLoop) (s : DaemonState) : DaemonLoop :=
  {| sync_interval_secs := sync_interval_secs d; jitter_secs := jitter_secs d;
     shutdown_requested := shutdown_requested d; state := s |}.
Definition with_shutdown (d : DaemonLoop) (b : bool) : DaemonLoop :=
  {| sync_interval_secs := sync_interval_secs d; jitter_secs := jitter_secs d;
     shutdown_requested := b; state := state d |}.
Definition with_mode (s : DaemonState) (m : DaemonMode) : DaemonState :=
  {| mode := m; known_peers_count := known_peers_count s;
     sync_trigger_pending := sync_trigger_pending s;
     next_sync_due_secs := next_sync_due_secs s; in_flight_sync := in_flight_sync s;
     last_successful_sync_at_secs := last_successful_sync_at_secs s;
     last_peer_errors := last_peer_errors s; last_critical_error := last_critical_error s |}.
Definition with_known_peers (s : DaemonState) (count : N) : DaemonState :=
  {| mode := mode s; known_peers_count := count;
     sync_trigger_pending := sync_trigger_pending s;
     next_sync_due_secs := next_sync_due_secs s; in_flight_sync := in_flight_sync s;
     last_successful_sync_at_secs := last_successful_sync_at_secs s;
     last_peer_errors := last_peer_errors s; last_critical_error := last_critical_error s |}.
Definition with_trigger (s : DaemonState) (b : bool) : DaemonState :=
  {| mode := mode s; known_peers_count := known_peers_count s; sync_trigger_pending := b;
     next_sync_due_secs := next_sync_due_secs s; in_flight_sync := in_flight_sync s;
     last_successful_sync_at_secs := last_successful_sync_at_secs s;
     last_peer_errors := last_peer_errors s; last_critical_error := last_critical_error s |}.
Definition with_in_flight (s : DaemonState) (b : bool) : DaemonState :=
  {| mode := mode s; known_peers_count := known_peers_count s;
     sync_trigger_pending := sync_trigger_pending s;
     next_sync_due_secs := next_sync_due_secs s; in_flight_sync := b;
     last_successful_sync_at_secs := last_successful_sync_at_secs s;
     last_peer_errors := last_peer_errors s; last_critical_error := last_critical_error s |}.
Definition with_success (s : DaemonState) (result : SyncCycleResult) (due : N) : DaemonState :=
  {| mode := mode s; known_peers_count := known_peers_count s;
     sync_trigger_pending := sync_trigger_pending s;
     next_sync_due_secs := due; in_flight_sync := in_flight_sync s;
     last_successful_sync_at_secs := Some (completed_at_secs result);
     last_peer_errors := peer_errors result; last_critical_error := None |}.
Definition with_critical_error (s : DaemonState) (message : str) : DaemonState :=
  {| mode := mode s; known_peers_count := known_peers_count s;
     sync_trigger_pending := sync_trigger_pending s;
     next_sync_due_secs := next_sync_due_secs s; in_flight_sync := in_flight_sync s;
     last_successful_sync_at_secs := last_successful_sync_at_secs s;
     last_peer_errors := last_peer_errors s; last_critical_error := Some message |}.

(** ** Operations

    The deadline is a [u64] sum: it is computed in [outcome]. *)

Section daemon.
Context {B : Build}.

Definition DaemonLoop_new (started_at interval jitter : N) : outcome DaemonLoop :=
  let interval := N.max interval 1 in
  t ← add_u64 started_at interval;
  due ← add_u64 t jitter;
  Val {| sync_interval_secs := interval; jitter_secs := jitter; shutdown_requested := false;
         state := {| mode := Running; known_peers_count := 0; sync_trigger_pending := false;
                     next_sync_due_secs := due; in_flight_sync := false;
                     last_successful_sync_at_secs := None; last_peer_errors := [];
                     last_critical_error := None |} |}.

Definition set_known_peers_count (d : DaemonLoop) (count : N) : DaemonLoop :=
  with_state d (with_known_peers (state d) count).

Definition trigger_sync_from_discovery (d : DaemonLoop) : DaemonLoop :=
  if decide (mode (state d) = Running) then with_state d (with_trigger (state d) true) else d.

Definition request_shutdown (d : DaemonLoop) : DaemonLoop :=
  let d := with_shutdown d true in
  if decide (mode (state d) = Stopped) then d
  else if in_flight_sync (state d) then with_state d (with_mode (state d) Stopping)
  else with_state d (with_mode (state d) Stopped).

Definition should_start_sync (d : DaemonLoop) (now : N) : bool :=
  if bool_decide (mode (state d) = Stopped) || shutdown_requested d || in_flight_sync (state d)
  then false
  else sync_trigger_pending (state d) || (next_sync_due_secs (state d) <=? now).

Definition start_sync (d : DaemonLoop) (now : N) : DaemonLoop * bool :=
  if should_start_sync d now then (with_state d (with_in_flight (state d) true), true)
  else (d, false).

Definition finish_sync (d : DaemonLoop) (execution : SyncExecution) (now : N) :
    outcome DaemonLoop :=
  let s := with_trigger (with_in_flight (state d) false) false in
  match execution with
  | Success result =>
      t ← add_u64 now (sync_interval_secs d);
      due ← add_u64 t (jitter_secs d);
      let s := with_success s result due in
      Val (with_state d (with_mode s (if shutdown_requested d then Stopped else Running)))
  | CriticalFailure message =>
      Val (with_state d (with_mode (with_critical_error s message) Stopped))
  end.

Definition run_startup_sync (d : DaemonLoop) (execution : SyncExecution) (now : N) :
    outcome DaemonLoop :=
  let '(d, started) := start_sync d now in
  let d := if started then d else with_state d (with_in_flight (state d) true) in
  finish_sync d execution now.

(** ** Calls and runs *)

Inductive call :=
| SetPeers (count : N)
| Trigger
| Shutdown
| Start (now : N)
| Finish (execution : SyncExecution) (now : N)
| Startup (execution : SyncExecution) (now : N).

Definition run_call (d : DaemonLoop) (c : call) : outcome DaemonLoop :=
  match c with
  | SetPeers count => Val (set_known_peers_count d count)
  | Trigger => Val (trigger_sync_from_discovery d)
  | Shutdown => Val (request_shutdown d)
  | Start now => Val (start_sync d now).1
  | Finish execution now => finish_sync d execution now
  | Startup execution now => run_startup_sync d execution now
  end.

(** The protocol of the caller: a synchronisation is finished only when one is
    running, and the startup synchronisation runs on a daemon that has not
    stopped. *)
Definition allowed (d : DaemonLoop) (c : call) : Prop :=
  match c with
  | Finish _ _ => in_flight_sync (state d) = true
  | Startup _ _ => mode (state d) ≠ Stopped
  | _ => True
  end.

Inductive run : DaemonLoop → list call → DaemonLoop → Prop :=
| run_nil d : run d [] d
| run_cons d c d' cs d'' :
    allowed d c → run_call d c = Val d' → run d' cs d'' → run d (c :: cs) d''.

Definition reachable (d : DaemonLoop) : Prop :=
  ∃ t interval jitter d0 cs, DaemonLoop_new t interval jitter = Val d0 ∧ run d0 cs d.

End daemon.

(** ** Specification: four phases *)

Inductive phase :=
| Idle
| Syncing
| Draining
| Halted.

Inductive phase_step : phase → phase → Prop :=
| ps_start : phase_step Idle Syncing
| ps_done : phase_step Syncing Idle
| ps_fail : phase_step Syncing Halted
| ps_drain : phase_step Syncing Draining
| ps_drained : phase_step Draining Halted
| ps_halt : phase_step Idle Halted.

Definition phase_of (d : DaemonLoop) : phase :=
  match mode (state d), in_flight_sync (state d) with
  | Running, false => Idle
  | Running, true => Syncing
  | Stopping, _ => Draining
  | Stopped, _ => Halted
  end.

(** The invariant of the protocol. *)
Definition daemon_ok (d : DaemonLoop) : Prop :=
  1 ≤ sync_interval_secs d
  ∧ match mode (state d) with
    | Running => shutdown_requested d = false
    | Stopping => shutdown_requested d = true ∧ in_flight_sync (state d) = true
    | Stopped => in_flight_sync (state d) = false
                 ∧ (shutdown_requested d = true ∨ last_critical_error (state d) ≠ None)
    end.

(** ** Lemmas *)

Section daemon_lemmas.
Context {B : Build}.
Implicit Types d : DaemonLoop.

#[local] Ltac open_daemon d :=
  destruct d as [iv jt sh [md kp tr due fl ls le ce]]; cbn in *.

Lemma new_ok t interval jitter d :
  DaemonLoop_new t interval jitter = Val d → daemon_ok d ∧ phase_of d = Idle.
Proof.
  unfold DaemonLoop_new. destruct (add_u64 t _) as [x|]; cbn; [|done].
  destruct (add_u64 x jitter) as [y|]; cbn; [|done]. intros [= <-].
  unfold daemon_ok. cbn. split_and!; [lia|done|done].
Qed.

(** The end of a synchronisation, in one equation. *)
Lemma finish_Val d execution now d' :
  finish_sync d execution now = Val d' →
  in_flight_sync (state d') = false ∧ sync_trigger_pending (state d') = false
  ∧ shutdown_requested d' = shutdown_requested d
  ∧ sync_interval_secs d' = sync_interval_secs d ∧ jitter_secs d' = jitter_secs d
  ∧ match execution with
    | Success _ => mode (state d') = (if shutdown_requested d then Stopped else Running)
        ∧ (t ← add_u64 now (sync_interval_secs d); add_u64 t (jitter_secs d))
          = Val (next_sync_due_secs (state d'))
    | CriticalFailure message => mode (state d') = Stopped
        ∧ last_critical_error (state d') = Some message
    end.
Proof.
  unfold finish_sync. destruct execution as [r|m].
  - destruct (add_u64 now _) as [x|]; cbn; [|done].
    destruct (add_u64 x _) as [y|]; cbn; [|done]. intros [= <-]. done.
  - intros [= <-]. done.
Qed.

Lemma should_start_spec d now :
  daemon_ok d →
  should_start_sync d now = true ↔
  phase_of d = Idle ∧ shutdown_requested d = false
  ∧ (sync_trigger_pending (state d) = true ∨ next_sync_due_secs (state d) ≤ now).
Proof.
  unfold daemon_ok, should_start_sync, phase_of. open_daemon d. intros [_ Hok].
  destruct md.
  - subst sh. rewrite bool_decide_false by done. cbn [orb]. destruct fl.
    + split; [done|by intros [? _]].
    + rewrite orb_true_iff, N.leb_le. split; [done|by intros (_ & _ & ?)].
  - destruct Hok as [-> ->]. rewrite orb_true_r. split; [done|by intros [? _]].
  - rewrite bool_decide_true by done. split; [done|by intros [? _]].
Qed.

Lemma finish_phase d execution now d' :
  daemon_ok d → in_flight_sync (state d) = true → mode (state d) ≠ Stopped →
  finish_sync d execution now = Val d' →
  daemon_ok d' ∧ phase_step (phase_of d) (phase_of d').
Proof.
  unfold daemon_ok, phase_of.
  intros [Hi Hok] Hf Hm (Hf' & _ & Hs & Hi' & _ & He)%finish_Val.
  rewrite Hf, Hf', Hs, Hi'. destruct execution as [r|m], He as [-> He'].
  - destruct (mode (state d)) eqn:E; [| |done].
    + rewrite Hok. split; [by split|constructor].
    + destruct Hok as [-> _]. split; [split; auto|constructor].
  - rewrite He'. destruct (mode (state d)) eqn:E; [| |done];
      (split; [split; [done|split; [done|by right]]|constructor]).
Qed.

(** Every call of the protocol keeps the invariant and moves the phase along
    the specification. *)
Lemma call_ok d c d' :
  daemon_ok d → allowed d c → run_call d c = Val d' →
  daemon_ok d' ∧ rtc phase_step (phase_of d) (phase_of d').
Proof.
  intros Hok Ha Hc. destruct c as [count| | |now|execution now|execution now];
    cbn [run_call allowed] in *.
  - injection Hc as <-. split; [exact Hok|done].
  - injection Hc as <-. unfold trigger_sync_from_discovery. case_decide; [|done].
    split; [exact Hok|done].
  - injection Hc as <-. unfold request_shutdown, daemon_ok, phase_of in *. open_daemon d.
    destruct Hok as [Hi Hok].
    destruct md; [subst sh; destruct fl|destruct Hok; subst|destruct Hok; subst]; case_decide; try done;
      cbn in *; (split; [by auto 8|]); try reflexivity; apply rtc_once; constructor.
  - injection Hc as <-. unfold start_sync.
    destruct (should_start_sync d now) eqn:E; [|done].
    apply should_start_spec in E as (Hp & Hs & _); [|done].
    unfold daemon_ok, phase_of in *. open_daemon d. destruct md, fl; try done.
    split; [done|]. apply rtc_once. constructor.
  - eapply finish_phase in Hc as [? ?]; [|done|done|].
    + split; [done|]. by apply rtc_once.
    + intros Em. unfold daemon_ok in Hok. rewrite Em in Hok. destruct Hok as (_ & Hf & _). congruence.
  - unfold run_startup_sync, start_sync in Hc. destruct (should_start_sync d now) eqn:E.
    + apply should_start_spec in E as (Hp & Hs & _); [|done].
      assert (daemon_ok (with_state d (with_in_flight (state d) true))
        ∧ phase_step (phase_of d) (phase_of (with_state d (with_in_flight (state d) true))))
        as [Hok' Hst].
      { unfold daemon_ok, phase_of in *. open_daemon d. destruct md, fl; try done.
        split; [done|constructor]. }
      eapply finish_phase in Hc as [? ?]; [|done|done|done].
      split; [done|]. eapply rtc_l; [done|]. by apply rtc_once.
    + assert (daemon_ok (with_state d (with_in_flight (state d) true))) as Hok'.
      { unfold daemon_ok in *. open_daemon d. destruct md; [tauto|tauto|done]. }
      eapply finish_phase in Hc as [? Hst]; [|done|done|done].
      split; [done|].
      assert (phase_of d = phase_of (with_state d (with_in_flight (state d) true))
        ∨ phase_step (phase_of d) (phase_of (with_state d (with_in_flight (state d) true)))) as Hp.
      { unfold phase_of. open_daemon d. destruct md, fl; auto. right. constructor. }
      destruct Hp as [-> | Hp]; [by apply rtc_once|]. eapply rtc_l; [done|]. by apply rtc_once.
Qed.

Lemma run_ok d cs d' :
  run d cs d' → daemon_ok d → daemon_ok d' ∧ rtc phase_step (phase_of d) (phase_of d').
Proof.
  induction 1 as [d|d c d' cs d'' Ha Hc _ IH]; intros Hok; [done|].
  destruct (call_ok _ _ _ Hok Ha Hc) as [Hok' H]. destruct (IH Hok') as [? ?].
  split; [done|]. by etrans.
Qed.

Lemma reachable_ok d : reachable d → daemon_ok d ∧ rtc phase_step Idle (phase_of d).
Proof.
  intros (t & iv & jt & d0 & cs & H0 & Hr). apply new_ok in H0 as [H0 E].
  rewrite <- E. by eapply run_ok.
Qed.

(** *** After a shutdown *)

Definition closing (d : DaemonLoop) : Prop :=
  daemon_ok d ∧ shutdown_requested d = true ∧ (phase_of d = Draining ∨ phase_of d = Halted).

Lemma closing_never_starts d now : closing d → should_start_sync d now = false.
Proof.
  intros (Hok & Hs & _). apply not_true_iff_false. rewrite should_start_spec by done.
  rewrite Hs. by intros (_ & ? & _).
Qed.

Lemma shutdown_closing d : daemon_ok d → closing (request_shutdown d).
Proof.
  unfold closing, daemon_ok, request_shutdown, phase_of. open_daemon d. intros [? Hok].
  destruct md; [subst sh; destruct fl|destruct Hok; subst|destruct Hok; subst]; case_decide; try done;
    cbn; auto 10.
Qed.

Lemma call_shutdown_flag d c d' :
  run_call d c = Val d' → shutdown_requested d = true → shutdown_requested d' = true.
Proof.
  destruct c as [count| | |now|execution now|execution now]; cbn [run_call].
  - by intros [= <-].
  - intros [= <-]. unfold trigger_sync_from_discovery. by case_decide.
  - intros [= <-] _. unfold request_shutdown. case_decide; [done|]. by case_match.
  - intros [= <-]. unfold start_sync. by case_match.
  - by intros (_ & _ & -> & _)%finish_Val.
  - unfold run_startup_sync, start_sync.
    destruct (should_start_sync d now); intros (_ & _ & E & _)%finish_Val; by rewrite E.
Qed.

Lemma rtc_closing p q :
  rtc phase_step p q → p = Draining ∨ p = Halted → q = Draining ∨ q = Halted.
Proof.
  induction 1 as [p|p p' q H _ IH]; [done|]. intros [-> | ->]; inversion H; subst; auto.
Qed.

Lemma closing_step d c d' :
  closing d → allowed d c → run_call d c = Val d' → closing d'.
Proof.
  intros (Hok & Hs & Hp) Ha Hc. destruct (call_ok _ _ _ Hok Ha Hc) as [Hok' Hst].
  split_and!; [done|by eapply call_shutdown_flag|by eapply rtc_closing].
Qed.

Lemma closing_run d cs d' : run d cs d' → closing d → closing d'.
Proof. induction 1; eauto using closing_step. Qed.

End daemon_lemmas.

(** ** Properties *)

(** C38: refinement.  Every state reached from [new] by calls of the protocol
    satisfies the invariant of the machine, and every call of the protocol
    moves the machine along the four-phase specification: idle, syncing,
    draining, halted; a halted daemon stays halted. *)
Theorem daemon_refines_phases {B : Build} (d d' : DaemonLoop) (cs : list call) :
  reachable d → run d cs d' →
  daemon_ok d' ∧ rtc phase_step Idle (phase_of d) ∧ rtc phase_step (phase_of d) (phase_of d')
  ∧ (phase_of d = Halted → phase_of d' = Halted).
Proof.
  intros [Hok Hp]%reachable_ok Hr. destruct (run_ok _ _ _ Hr Hok) as [Hok' Hst].
  split_and!; try done. intros E. rewrite E in Hst.
  apply rtc_inv in Hst as [Hst|(q & Hq & _)]; [done|by inversion Hq].
Qed.

(** When a synchronisation starts.  In every reachable state a start
    succeeds exactly when the daemon is idle, no shutdown was requested and
    either a trigger is pending or the deadline has passed; it then makes the
    daemon busy, so a second start fails whatever the time.  After a successful
    end at [now] the next deadline is [now + interval + jitter], and without a
    new trigger no start succeeds before it. *)
Theorem sync_starts_exactly {B : Build} (d : DaemonLoop) (now : N) :
  reachable d →
  ((start_sync d now).2 = true ↔
     phase_of d = Idle ∧ shutdown_requested d = false
     ∧ (sync_trigger_pending (state d) = true ∨ next_sync_due_secs (state d) ≤ now))
  ∧ ((start_sync d now).2 = true → ∀ now', (start_sync (start_sync d now).1 now').2 = false)
  ∧ (∀ result d', allowed d (Finish (Success result) now) → shutdown_requested d = false →
       now + sync_interval_secs d + jitter_secs d ≤ U64_MAX →
       finish_sync d (Success result) now = Val d' →
       phase_of d' = Idle
       ∧ ∀ now', (start_sync d' now').2 = (now + sync_interval_secs d + jitter_secs d <=? now')).
Proof.
  intros [Hok _]%reachable_ok. split_and!.
  - rewrite <- should_start_spec by done. unfold start_sync. by destruct (should_start_sync d now).
  - unfold start_sync. destruct (should_start_sync d now); [|done]. intros _ now'. cbn [fst].
    unfold should_start_sync. cbn [in_flight_sync state with_state with_in_flight].
    by rewrite orb_true_r.
  - intros result d' Ha Hs Hb (Hf & Ht & Hs' & _ & _ & Hm & Hdue)%finish_Val.
    rewrite Hs in Hm, Hs'. rewrite add_u64_Val in Hdue by lia. cbn [mbind outcome_bind] in Hdue.
    rewrite add_u64_Val in Hdue by lia. injection Hdue as Hdue.
    unfold phase_of, start_sync, should_start_sync. rewrite Hm, Hf, Hs', Ht, <- Hdue.
    split; [done|]. intros now'. rewrite bool_decide_false by done. cbn [orb].
    by destruct (_ <=? now').
Qed.

(** Graceful shutdown.  After a shutdown request, whatever calls follow, no
    synchronisation ever starts; the daemon is halted, or it is draining the
    synchronisation that was running when the request came, whose end halts
    it. *)
Theorem shutdown_is_final {B : Build} (d d' : DaemonLoop) (cs : list call) :
  reachable d → run (request_shutdown d) cs d' →
  (∀ now, (start_sync d' now).2 = false)
  ∧ (phase_of d' = Draining ∨ phase_of d' = Halted)
  ∧ (phase_of d ≠ Syncing → phase_of d ≠ Draining → phase_of d' = Halted)
  ∧ (∀ execution now d'', allowed d' (Finish execution now) →
       finish_sync d' execution now = Val d'' → phase_of d'' = Halted).
Proof.
  intros [Hok _]%reachable_ok Hr. pose proof (shutdown_closing d Hok) as Hc.
  destruct (run_ok _ _ _ Hr (proj1 Hc)) as [Hok' Hst].
  apply closing_run in Hr as Hc'; [|done]. destruct Hc' as (_ & Hs' & Hp'). split_and!; [|done| |].
  - intros now. unfold start_sync. by rewrite closing_never_starts.
  - intros H1 H2. assert (phase_of (request_shutdown d) = Halted) as E.
    { unfold phase_of, request_shutdown in *. destruct d as [? ? ? []]; cbn in *.
      repeat case_decide; repeat case_match; try done. }
    rewrite E in Hst. apply rtc_inv in Hst as [<-|(q & Hq & _)]; [done|by inversion Hq].
  - intros execution now d'' Ha (_ & _ & _ & _ & _ & He)%finish_Val. cbn in Ha.
    unfold phase_of. rewrite Hs' in He. by destruct execution, He as [-> _].
Qed.

(** ** Concrete behaviours *)

#[local] Instance checked : Build := true.

Definition idle_daemon : DaemonLoop :=
  {| sync_interval_secs := 30; jitter_secs := 2; shutdown_requested := false;
     state := {| mode := Running; known_peers_count := 0; sync_trigger_pending := false;
                 next_sync_due_secs := 132; in_flight_sync := false;
                 last_successful_sync_at_secs := None; last_peer_errors := [];
                 last_critical_error := None |} |}.

Lemma idle_reachable : reachable idle_daemon.
Proof. exists 100, 30, 2, idle_daemon, []. split; [by vm_compute|constructor]. Qed.

(** A trigger that arrives while a synchronisation runs is dropped at its end:
    the peer that caused it waits for the periodic deadline. *)
Lemma trigger_during_sync_lost (d d' : DaemonLoop) (result : SyncCycleResult) (now : N) :
  finish_sync (trigger_sync_from_discovery (with_state d (with_in_flight (state d) true)))
    (Success result) now = Val d' →
  sync_trigger_pending (state d') = false.
Proof. by intros (_ & ? & _)%finish_Val. Qed.

(** Outside the protocol: a startup synchronisation on a daemon that stopped on
    a critical failure puts it back into service. *)
Example startup_revives :
  (d ← run_startup_sync idle_daemon (CriticalFailure (lit "lost")) 100;
   d' ← run_startup_sync d (Success {| completed_at_secs := 101; peer_errors := [] |}) 101;
   Val (mode (state d), mode (state d')))
  = Val (Stopped, Running).
Proof. by vm_compute. Qed.

(** The configuration accepts any positive interval; the sum of the deadline
    does not. *)
Example huge_interval_panics : DaemonLoop_new 1 U64_MAX 0 = Panic.
Proof. by vm_compute. Qed.

Lemma daemon_refines_phases_witness :
  daemon_ok (with_state idle_daemon (with_in_flight (state idle_daemon) true)).
Proof.
  apply (daemon_refines_phases idle_daemon
    (with_state idle_daemon (with_in_flight (state idle_daemon) true)) [Start 132]).
  - apply idle_reachable.
  - eapply run_cons; [done|by vm_compute|constructor].
Defined.

Lemma sync_starts_exactly_witness : (start_sync idle_daemon 132).2 = true.
Proof.
  apply (sync_starts_exactly idle_daemon 132 idle_reachable). split_and!; [done|done|by right].
Defined.

Lemma shutdown_is_final_witness : phase_of (request_shutdown idle_daemon) = Halted.
Proof.
  apply (shutdown_is_final idle_daemon (request_shutdown idle_daemon) []);
    [apply idle_reachable|constructor|done|done].
Defined.
