(* ===== verification/Http.v ===== *)
(** * The HTTP exchange (src/src/runtime.rs, lines 541-673 and 907-911)

    Reading a request from a stream, the bytes of a request and of a response,
    and the body of a response.  A stream is the list of the results of its
    [read] calls: a chunk of bytes, or an error; an empty chunk or the end of
    the list is the end of the stream.  The index arithmetic is the machine's:
    it may overflow, and a slice out of range panics.  The theorems: how the
    bytes are cut into chunks does not matter, what one side writes the other
    side reads, which requests make the reader panic, and how much it can be
    made to hold. *)

From S2P Require Import Prelude Str Utf8.

Local Open Scope N_scope.

(** ** Data *)

Inductive io_error :=
| ConnectionClosed
| RequestTooLarge
| MissingRequestLine
| MissingMethod
| MissingPath
| ShortBody
| InvalidResponse
| InvalidServerName
| NoAddress
| OtherError (message : str)
| IoFailure (code : N).

#[export] Instance io_error_eq_dec : EqDecision io_error.
Proof. solve_decision. Defined.

Abbreviation reads := (list (result io_error bytes)) (only parsing).

Definition CRLF : bytes := [13; 10].
Definition CRLFCRLF : bytes := [13; 10; 13; 10].

(** The length of a buffer as a [usize]. *)
Definition len (b : bytes) : N := N.of_nat (length b).

(** ** Searching and slicing *)

(** [slice::windows(n)]. *)
Fixpoint windows (n : nat) (l : bytes) : list bytes :=
  match l with
  | [] => []
  | _ :: r => if (length l <? n)%nat then [] else take n l :: windows n r
  end.

Definition find_subslice (haystack needle : bytes) : option nat :=
  position (λ window, window = needle) (windows (length needle) haystack).

(** [&data[from..to]]. *)
Definition slice (data : bytes) (from to : N) : outcome bytes :=
  if (from <=? to) && (to <=? len data)
  then Val (take (N.to_nat (to - from)) (drop (N.to_nat from) data))
  else Panic.

(** ** Reading a request *)

(** The first loop: read until the blank line is in the buffer.  The result is
    the buffer, the end of the header and the rest of the stream. *)
Fixpoint read_head (data : bytes) (stream : reads) : result io_error (bytes * N * reads) :=
  match stream with
  | [] => Err ConnectionClosed
  | Err e :: _ => Err e
  | Ok chunk :: rest =>
      if bool_decide (chunk = []) then Err ConnectionClosed
      else
        let data := data ++ chunk in
        match find_subslice data CRLFCRLF with
        | Some index => Ok (data, N.of_nat index + 4, rest)
        | None => if 64 * 1024 <? len data then Err RequestTooLarge else read_head data rest
        end
  end.

(** The header fields: the last readable Content-Length counts. *)
Definition header_field (content_length : N) (line : str) : N :=
  match split_once 58 line with
  | Some (name, value) =>
      if eq_ignore_ascii_case name (lit "Content-Length")
      then default content_length (parse_uint U64_MAX (trim value))
      else content_length
  | None => content_length
  end.

(** The path of the request line and the length of the body. *)
Definition request_head (header : bytes) : result io_error (str * N) :=
  match lines (from_utf8_lossy header) with
  | [] => Err MissingRequestLine
  | request_line :: fields =>
      match split_whitespace request_line with
      | [] => Err MissingMethod
      | [_] => Err MissingPath
      | _ :: path :: _ => Ok (path, foldl header_field 0 fields)
      end
  end.

(** The second loop: read until the buffer holds [needed] bytes. *)
Fixpoint read_body (needed : N) (data : bytes) (stream : reads) : result io_error bytes :=
  if len data <? needed then
    match stream with
    | [] => Ok data
    | Err e :: _ => Err e
    | Ok chunk :: rest =>
        if bool_decide (chunk = []) then Ok data else read_body needed (data ++ chunk) rest
    end
  else Ok data.

Section http.
Context {B : Build}.

(** After the header: the body and its slice.  [header_end + content_length]
    is evaluated as machine arithmetic each time the code writes it. *)
Definition finish_request (data : bytes) (header_end : N) (path : str) (content_length : N)
    (rest : reads) : outcome (result io_error (str * str)) :=
  needed ← add_u64 header_end content_length;
  match read_body needed data rest with
  | Err e => Val (Err e)
  | Ok data =>
      if len data <? needed then Val (Err ShortBody)
      else
        b ← slice data header_end needed;
        Val (Ok (path, from_utf8_lossy b))
  end.

Definition read_http_request (stream : reads) : outcome (result io_error (str * str)) :=
  match read_head [] stream with
  | Err e => Val (Err e)
  | Ok (data, header_end, rest) =>
      header ← slice data 0 header_end;
      match request_head header with
      | Err e => Val (Err e)
      | Ok (path, content_length) => finish_request data header_end path content_length rest
      end
  end.

End http.

(** ** Writing *)

Definition reason_phrase (status_code : N) : str :=
  match status_code with
  | 200 => lit "OK"
  | 400 => lit "Bad Request"
  | 401 => lit "Unauthorized"
  | 404 => lit "Not Found"
  | _ => lit "Error"
  end.

(** Header lines, each ended by CR LF, and the blank line. *)
Definition header_text (ls : list str) : str := concat (map (λ l, l ++ CRLF) ls) ++ CRLF.

Definition response_lines (status_code body_len : N) : list str :=
  [lit "HTTP/1.1 " ++ to_string status_code ++ lit " " ++ reason_phrase status_code;
   lit "Content-Type: text/plain";
   lit "Content-Length: " ++ to_string body_len;
   lit "Connection: close"].

(** The bytes written by [write_http_response]. *)
Definition write_http_response (status_code : N) (body : bytes) : bytes :=
  encode (header_text (response_lines status_code (len body))) ++ body.

Definition request_lines (address : str) (port : N) (path : str) (body_len : N) : list str :=
  [lit "POST " ++ path ++ lit " HTTP/1.1";
   lit "Host: " ++ address ++ lit ":" ++ to_string port;
   lit "Content-Type: text/plain";
   lit "Content-Length: " ++ to_string body_len;
   lit "Connection: close"].

(** The bytes written by [send_http_post]. *)
Definition post_request (address : str) (port : N) (path body : str) : bytes :=
  encode (header_text (request_lines address port path (byte_len body)) ++ body).

(** What [send_http_post] returns for the bytes of the response: everything
    after the blank line; the status code is not looked at. *)
Definition response_body (response : bytes) : result io_error str :=
  index ← ok_or InvalidResponse (find_subslice response CRLFCRLF);
  Ok (from_utf8_lossy (drop (index + 4) response)).

Arguments find_subslice : simpl never.

(** ** Lemmas: searching *)

Lemma windows_nil n l : (length l < n)%nat → windows n l = [].
Proof.
  destruct l; cbn [windows]; [done|]. intros H. by rewrite (proj2 (Nat.ltb_lt _ _) H).
Qed.

Lemma find_cons needle x l :
  find_subslice (x :: l) needle =
  if bool_decide ((length needle ≤ S (length l))%nat ∧ take (length needle) (x :: l) = needle)
  then Some 0%nat else S <$> find_subslice l needle.
Proof.
  unfold find_subslice. cbn [windows]. destruct (Nat.ltb_spec (length (x :: l)) (length needle)) as [H|H].
  - rewrite bool_decide_false by (cbn in H; lia). rewrite windows_nil; [done|cbn in H; lia].
  - unfold position. cbn [list_find]. case_decide as Hd.
    + rewrite bool_decide_true by (cbn in H; split; [lia|done]). done.
    + rewrite bool_decide_false by tauto. by destruct (list_find _ _) as [[]|].
Qed.

Lemma find_nil : find_subslice [] CRLFCRLF = None.
Proof. done. Qed.

(** [find_subslice] finds the first occurrence. *)
Lemma find_Some h i :
  find_subslice h CRLFCRLF = Some i → ∃ a b, h = a ++ CRLFCRLF ++ b ∧ length a = i.
Proof.
  revert i. induction h as [|x h IH]; intros i; [done|]. rewrite find_cons.
  case_bool_decide as H.
  - intros [= <-]. destruct H as [_ H]. exists [], (drop 4 (x :: h)).
    split; [|done]. cbn [app]. rewrite <- H at 1. by rewrite take_drop.
  - destruct (find_subslice h CRLFCRLF) as [j|]; [|done]. intros [= <-].
    destruct (IH j eq_refl) as (a & b & -> & <-). by exists (x :: a), b.
Qed.

Lemma find_bound h i : find_subslice h CRLFCRLF = Some i → (i + 4 ≤ length h)%nat.
Proof. intros (a & b & -> & <-)%find_Some. rewrite !length_app. cbn. lia. Qed.

(** The first occurrence does not move when bytes are appended. *)
Lemma find_app h t i :
  find_subslice h CRLFCRLF = Some i → find_subslice (h ++ t) CRLFCRLF = Some i.
Proof.
  revert i. induction h as [|x h IH]; intros i; [done|]. cbn [app]. rewrite !find_cons.
  case_bool_decide as H.
  - intros [= <-]. destruct H as [Hl H]. rewrite bool_decide_true; [done|].
    rewrite length_app. split; [cbn in *; lia|]. rewrite app_comm_cons.
    rewrite take_app_le by (cbn in *; lia). done.
  - destruct (find_subslice h CRLFCRLF) as [j|] eqn:E; [|done]. intros [= <-].
    rewrite (IH j) by done. rewrite bool_decide_false; [done|]. contradict H.
    apply find_bound in E. destruct H as [_ H]. split; [cbn; lia|].
    rewrite app_comm_cons, take_app_le in H by (cbn; lia). done.
Qed.

Lemma find_prefix h t i :
  find_subslice (h ++ t) CRLFCRLF = Some i → (i + 4 ≤ length h)%nat →
  find_subslice h CRLFCRLF = Some i.
Proof.
  intros H Hl. destruct (find_subslice h CRLFCRLF) as [j|] eqn:E.
  - apply (find_app _ t) in E. congruence.
  - exfalso. revert i H Hl E. induction h as [|x h IH]; intros i; [cbn; lia|].
    cbn [app]. rewrite !find_cons. intros H Hl.
    destruct (bool_decide (_ ∧ take _ (x :: h) = _)) eqn:Eb; [done|]. apply bool_decide_eq_false in Eb.
    case_bool_decide as Hd.
    + exfalso. injection H as <-. apply Eb. destruct Hd as [_ Hd]. cbn in Hl.
      split; [cbn; lia|]. rewrite app_comm_cons, take_app_le in Hd by (cbn; lia). done.
    + destruct (find_subslice (h ++ t) CRLFCRLF) as [j|] eqn:Ej; [|done]. injection H as <-.
      cbn in Hl. intros Hn. eapply IH; [done|lia|]. by destruct (find_subslice h CRLFCRLF).
Qed.

(** ** Lemmas: reading *)

Lemma slice_prefix data t from to :
  to ≤ len data → slice (data ++ t) from to = slice data from to.
Proof.
  intros H. unfold slice, len in *. rewrite length_app.
  destruct (N.leb_spec from to); cbn [andb]; [|done].
  rewrite (proj2 (N.leb_le to (N.of_nat (length data + length t)))) by lia.
  rewrite (proj2 (N.leb_le to (N.of_nat (length data)))) by lia.
  f_equal. rewrite drop_app_le by lia. apply take_app_le. rewrite length_drop. lia.
Qed.

Lemma slice_backwards data from to : to < from → slice data from to = Panic.
Proof. intros H. unfold slice. by rewrite (proj2 (N.leb_gt _ _) H). Qed.

Lemma slice_Val data from to :
  from ≤ to → to ≤ len data →
  slice data from to = Val (take (N.to_nat (to - from)) (drop (N.to_nat from) data)).
Proof. intros H1 H2. unfold slice. by rewrite (proj2 (N.leb_le _ _) H1), (proj2 (N.leb_le _ _) H2). Qed.

Lemma slice_start data to : to ≤ len data → slice data 0 to = Val (take (N.to_nat to) data).
Proof. intros H. rewrite slice_Val by lia. by rewrite N.sub_0_r. Qed.

Lemma len_app a b : len (a ++ b) = len a + len b.
Proof. unfold len. rewrite length_app. lia. Qed.

(** Chunks that are not empty, followed by anything. *)
Lemma read_head_chunks data chunks (tail : reads) b i :
  Forall (λ c, c ≠ []) chunks → data ++ concat chunks = b →
  find_subslice b CRLFCRLF = Some i → N.of_nat i + 4 ≤ 65536 → find_subslice data CRLFCRLF = None →
  ∃ data' chunks', Forall (λ c, c ≠ []) chunks' ∧ data' ++ concat chunks' = b
    ∧ (i + 4 ≤ length data')%nat
    ∧ read_head data (map Ok chunks ++ tail) =
        Ok (data', N.of_nat i + 4, map Ok chunks' ++ tail).
Proof.
  intros H. revert data. induction H as [|c cs Hc Hcs IH]; intros data Hb Hi Hlim Hn.
  { cbn in Hb. rewrite app_nil_r in Hb. congruence. }
  cbn [map app read_head concat] in *. rewrite bool_decide_false by done.
  rewrite app_assoc in Hb. destruct (find_subslice (data ++ c) CRLFCRLF) as [j|] eqn:Ej.
  - exists (data ++ c), cs. pose proof (find_app _ (concat cs) _ Ej) as E. rewrite Hb, Hi in E.
    injection E as <-. apply find_bound in Ej. by split_and!.
  - destruct (N.ltb_spec (64 * 1024) (len (data ++ c))) as [Hl|Hl]; [|by apply IH].
    exfalso. subst b. unfold len in Hl. apply find_prefix in Hi; [congruence|lia].
Qed.

Lemma read_body_enough needed data stream : needed ≤ len data → read_body needed data stream = Ok data.
Proof. intros H. destruct stream; cbn; by rewrite (proj2 (N.ltb_ge _ _) H). Qed.

Lemma read_body_chunks needed data chunks (tail : reads) b :
  Forall (λ c, c ≠ []) chunks → data ++ concat chunks = b → needed ≤ len b ∨ tail = [] →
  ∃ data' t, data' ++ t = b ∧ N.min needed (len b) ≤ len data'
    ∧ read_body needed data (map Ok chunks ++ tail) = Ok data'.
Proof.
  intros H. revert data. induction H as [|c cs Hc _ IH]; intros data Hb Ht.
  - cbn in Hb. rewrite app_nil_r in Hb. subst b. exists data, []. rewrite app_nil_r.
    split_and!; [done|lia|]. cbn [map app]. destruct Ht as [Ht|Ht].
    + by apply read_body_enough.
    + rewrite Ht. cbn [read_body]. by case_match.
  - cbn [map app concat] in *. destruct (N.ltb_spec (len data) needed) as [Hl|Hl].
    + cbn [read_body]. rewrite (proj2 (N.ltb_lt _ _) Hl), bool_decide_false by done.
      apply IH; [by rewrite <- app_assoc|done].
    + exists data, (c ++ concat cs). split_and!; [done|lia|by apply read_body_enough].
Qed.

Section reading.
Context {B : Build}.

Lemma add_u64_cases a b :
  add_u64 a b = Panic ∨ (add_u64 a b = Val (a + b) ∧ a + b ≤ U64_MAX)
  ∨ (∃ w, add_u64 a b = Val w ∧ U64_MAX < a + b ∧ (b ≤ U64_MAX → w < a) ∧ w ≤ a + b).
Proof.
  unfold add_u64. destruct (N.leb_spec (a + b) U64_MAX) as [H|H]; [by right; left|].
  destruct overflow_checks; [by left|]. right; right. eexists. split; [done|]. split; [done|].
  unfold U64_MAX in *.
  pose proof (N.div_mod (a + b) 18446744073709551616 ltac:(done)) as Hd.
  pose proof (N.mod_lt (a + b) 18446744073709551616 ltac:(done)) as Hm.
  assert (1 ≤ (a + b) / 18446744073709551616) by (apply N.div_le_lower_bound; lia).
  split; [intros Hb|]; nia.
Qed.

(** A length that does not fit: both builds panic, the checked one in the
    addition, the other in the slice. *)
Lemma finish_request_overflow data header_end path cl stream :
  cl ≤ U64_MAX → U64_MAX < header_end + cl → header_end ≤ len data →
  finish_request data header_end path cl stream = Panic.
Proof.
  intros Hcl Ho Hl. unfold finish_request.
  destruct (add_u64_cases header_end cl) as [-> |[[_ ?]|(w & -> & _ & Hw & _)]]; [done|lia|].
  cbn [mbind outcome_bind]. specialize (Hw Hcl). rewrite read_body_enough by lia.
  rewrite (proj2 (N.ltb_ge (len data) w)) by lia. by rewrite slice_backwards.
Qed.

Lemma finish_request_chunks data header_end path cl chunks (tail : reads) b :
  Forall (λ c, c ≠ []) chunks → data ++ concat chunks = b →
  header_end + cl ≤ len b ∨ tail = [] →
  finish_request data header_end path cl (map Ok chunks ++ tail)
  = finish_request b header_end path cl [].
Proof.
  intros Hc Hb Ht. unfold finish_request.
  assert (∀ needed, needed ≤ header_end + cl →
    (match read_body needed data (map Ok chunks ++ tail) with
     | Err e => Val (Err e)
     | Ok data => if len data <? needed then Val (Err ShortBody)
         else b ← slice data header_end needed; Val (Ok (path, from_utf8_lossy b)) end)
    = (match read_body needed b [] with
     | Err e => Val (Err e)
     | Ok data => if len data <? needed then Val (Err ShortBody)
         else b ← slice data header_end needed; Val (Ok (path, from_utf8_lossy b)) end)) as Hgen.
  { intros needed Hle.
    destruct (read_body_chunks needed data chunks tail b Hc Hb) as (d & t & Hd & Hl & ->).
    { destruct Ht; [left; lia|by right]. }
    assert (read_body needed b [] = Ok b) as -> by (cbn; by case_match).
    assert (len d ≤ len b) by (rewrite <- Hd, len_app; lia).
    destruct (N.ltb_spec (len b) needed); [by rewrite (proj2 (N.ltb_lt (len d) needed)) by lia|].
    rewrite (proj2 (N.ltb_ge (len d) needed)) by lia. rewrite <- Hd.
    by rewrite slice_prefix by lia. }
  destruct (add_u64_cases header_end cl) as [-> |[[-> _]|(w & -> & _ & _ & Hw)]];
    cbn [mbind outcome_bind]; [done| |]; by apply Hgen.
Qed.

(** The result as a function of all the bytes. *)
Definition parse_bytes (b : bytes) (i : nat) : outcome (result io_error (str * str)) :=
  match request_head (take (i + 4) b) with
  | Err e => Val (Err e)
  | Ok (path, cl) => finish_request b (N.of_nat i + 4) path cl []
  end.

Lemma read_request_spec b chunks (tail : reads) i :
  Forall (λ c, c ≠ []) chunks → concat chunks = b →
  find_subslice b CRLFCRLF = Some i → N.of_nat i + 4 ≤ 65536 →
  tail = [] ∨ (∀ path cl, request_head (take (i + 4) b) = Ok (path, cl) →
                 N.of_nat i + 4 + cl ≤ len b) →
  read_http_request (map Ok chunks ++ tail) = parse_bytes b i.
Proof.
  intros Hc Hb Hi Hlim Ht. unfold read_http_request, parse_bytes.
  destruct (read_head_chunks [] chunks tail b i Hc Hb Hi Hlim eq_refl)
    as (d & cs & Hcs & Hd & Hl & ->).
  rewrite slice_Val by (unfold len; lia). cbn [mbind outcome_bind]. rewrite drop_0.
  replace (N.to_nat (N.of_nat i + 4 - 0)) with (i + 4)%nat by lia.
  assert (take (i + 4) d = take (i + 4) b) as -> by (rewrite <- Hd; by rewrite take_app_le).
  destruct (request_head _) as [[path cl]|e]; [|done].
  apply finish_request_chunks; [done|done|].
  destruct Ht as [Ht|Ht]; [by right|left]. by apply (Ht path).
Qed.

End reading.

(** ** Lemmas: what is written *)

Lemma encode_char_LF c : LF ∈ encode_char c → c = LF.
Proof.
  unfold encode_char, LF. intros Hin.
  repeat case_match; repeat (apply elem_of_cons in Hin as [Hin|Hin]);
    lazymatch type of Hin with
    | 10 = c => done
    | 10 = ?k + ?x => revert Hin; generalize x; intros; lia
    | _ => by apply elem_of_nil in Hin
    end.
Qed.

Lemma encode_LF s : LF ∉ s → LF ∉ encode s.
Proof.
  intros H Hin. unfold encode in Hin. apply list_elem_of_In, in_concat in Hin as (w & Hw & Hc).
  apply in_map_iff in Hw as (c & <- & Hcs). apply list_elem_of_In in Hc.
  apply encode_char_LF in Hc as ->. by apply H, list_elem_of_In.
Qed.

Lemma encode_not_nil s : s ≠ [] → encode s ≠ [].
Proof.
  destruct s as [|c s]; [done|]. intros _. unfold encode. cbn [map concat]. unfold encode_char.
  by repeat case_match.
Qed.

Lemma encode_ascii_lit s : bool_decide (Forall (λ c, c < 128) (lit s)) = true → encode (lit s) = lit s.
Proof. intros H%bool_decide_eq_true. by apply encode_ascii. Qed.

(** Searching through lines. *)
Lemma find_line l rest :
  LF ∉ l → take 2 rest ≠ CRLF →
  find_subslice (l ++ CRLF ++ rest) CRLFCRLF =
  fmap (M := option) (λ i, (length l + 2 + i)%nat) (find_subslice rest CRLFCRLF).
Proof.
  intros Hl Hr. induction l as [|c l IH].
  - cbn [app length]. unfold CRLF. cbn [app]. rewrite !find_cons.
    rewrite bool_decide_false.
    2: { intros [_ E]. apply Hr. destruct rest as [|a [|b r]]; try done. by injection E as -> ->. }
    rewrite bool_decide_false by (by intros [_ [=]]).
    by destruct (find_subslice rest CRLFCRLF).
  - apply not_elem_of_cons in Hl as [Hc Hl]. cbn [app]. rewrite find_cons, IH by done.
    rewrite bool_decide_false.
    + destruct (find_subslice rest CRLFCRLF); [|done]. done.
    + intros [_ E]. cbn in E. destruct l as [|x l]; [done|].
      injection E as _ -> _. apply Hl. by left.
Qed.

Lemma find_last_line l rest :
  LF ∉ l → find_subslice (l ++ CRLF ++ CRLF ++ rest) CRLFCRLF = Some (length l).
Proof.
  induction l as [|c l IH].
  - intros _. unfold CRLF. cbn [app]. rewrite find_cons. rewrite bool_decide_true; [done|].
    split; [cbn; lia|done].
  - intros [Hc Hl]%not_elem_of_cons. cbn [app]. rewrite find_cons, IH by done.
    rewrite bool_decide_false; [done|]. intros [_ E]. cbn in E.
    destruct l as [|x l]; [done|]. injection E as _ -> _. apply Hl. by left.
Qed.

(** The lines of a header: not empty and without line feed. *)
Definition header_line (l : bytes) : Prop := (LF ∉ l) ∧ l ≠ [].

Lemma find_header ls rest :
  Forall header_line ls → ls ≠ [] →
  ∃ i, find_subslice ((concat (map (λ l, l ++ CRLF) ls) ++ CRLF) ++ rest) CRLFCRLF = Some i
       ∧ (i + 4)%nat = length (concat (map (λ l, l ++ CRLF) ls) ++ CRLF).
Proof.
  intros H. induction H as [|l ls [Hl Hne] H IH]; [done|]. intros _.
  cbn [map concat]. rewrite <- !app_assoc.
  destruct ls as [|l' ls].
  - cbn [map concat app]. exists (length l). split; [by apply find_last_line|].
    rewrite !length_app. cbn. lia.
  - destruct IH as (i & Hi & Ei); [done|]. rewrite <- app_assoc in Hi.
    exists (length l + 2 + i)%nat. rewrite find_line; [|done|].
    + rewrite Hi. split; [done|]. rewrite !length_app in *. cbn [length CRLF] in *. lia.
    + apply Forall_cons_1 in H as [[Hl' Hne'] _]. cbn [map concat]. rewrite <- !app_assoc.
      destruct l' as [|a [|b r]]; [done|done|]. cbn. intros [= -> ->]. apply Hl'. by right; left.
Qed.

Lemma encode_header ls :
  encode (header_text ls) = concat (map (λ l, l ++ CRLF) (map encode ls)) ++ CRLF.
Proof.
  unfold header_text. rewrite encode_app. f_equal.
  induction ls as [|l ls IH]; [done|]. cbn [map concat]. by rewrite !encode_app, IH.
Qed.

Lemma strip_cr_snoc l : strip_cr (l ++ [CR]) = l.
Proof. induction l as [|c [|d l] IH]; [done|done|]. cbn in *. by rewrite IH. Qed.

Lemma crlf_split l x : l ++ CRLF ++ x = (l ++ [CR]) ++ LF :: x.
Proof. by rewrite <- app_assoc. Qed.

Lemma lines_header ls :
  Forall (λ l, LF ∉ l) ls → lines (header_text ls) = ls ++ [[]].
Proof.
  unfold header_text. induction 1 as [|l ls Hl _ IH]; [done|].
  cbn [map concat app]. rewrite <- !app_assoc, crlf_split.
  rewrite lines_cons, strip_cr_snoc, IH; [done|].
  rewrite not_elem_of_app. split; [done|by_compute].
Qed.

(** *** The lines of a request and of a response *)

Lemma lit_LF s : bool_decide (LF ∈ lit s) = false → LF ∉ lit s.
Proof. by intros ?%bool_decide_eq_false. Qed.

(** Close [LF ∉ _] on texts built from literals, numbers and variables. *)
Ltac no_LF :=
  repeat (rewrite not_elem_of_app; split);
  first [ done | by apply to_string_line_safe | by_compute ].

Lemma request_lines_LF address port path n :
  LF ∉ address → LF ∉ path → Forall (λ l, LF ∉ l) (request_lines address port path n).
Proof. intros. unfold request_lines. repeat apply Forall_cons_2; try apply Forall_nil_2; no_LF. Qed.

Lemma reason_LF n : LF ∉ reason_phrase n.
Proof.
  unfold reason_phrase. repeat case_match; by_compute.
Qed.

Lemma response_lines_LF st n : Forall (λ l, LF ∉ l) (response_lines st n).
Proof.
  unfold response_lines. repeat apply Forall_cons_2; try apply Forall_nil_2;
    repeat (rewrite not_elem_of_app; split);
    first [ by apply to_string_line_safe | by apply reason_LF | by_compute ].
Qed.

Lemma encoded_lines ls :
  Forall (λ l, LF ∉ l) ls → Forall (λ l, l ≠ []) ls → Forall header_line (map encode ls).
Proof.
  intros H Hne. apply Forall_map. apply Forall_forall. intros l Hl.
  rewrite Forall_forall in H. rewrite Forall_forall in Hne.
  split; [by apply encode_LF, H|by apply encode_not_nil, Hne].
Qed.

(** The blank line that ends a header is the first one. *)
Lemma find_header_text ls rest :
  Forall (λ l, LF ∉ l) ls → Forall (λ l, l ≠ []) ls → ls ≠ [] →
  ∃ i, find_subslice (encode (header_text ls) ++ rest) CRLFCRLF = Some i
       ∧ (i + 4)%nat = length (encode (header_text ls)).
Proof.
  intros H Hne Hls. rewrite encode_header. apply find_header; [by apply encoded_lines|].
  by destruct ls.
Qed.

Lemma header_text_wf ls : Forall wf_str ls → wf_str (header_text ls).
Proof.
  unfold header_text. intros H. apply app_wf; [|by_compute].
  induction H as [|l ls Hl _ IH]; [constructor|]. cbn [map concat].
  apply app_wf; [|done]. apply app_wf; [done|by_compute].
Qed.

Lemma reason_wf n : wf_str (reason_phrase n).
Proof. unfold reason_phrase. repeat case_match; apply lit_wf. Qed.

Lemma request_lines_wf address port path n :
  wf_str address → wf_str path → Forall wf_str (request_lines address port path n).
Proof.
  intros. unfold request_lines.
  do 5 (apply Forall_cons_2; [auto 8 with text|]). apply Forall_nil_2.
Qed.

Lemma content_length_field cl n :
  n ≤ U64_MAX → header_field cl (lit "Content-Length: " ++ to_string n) = n.
Proof.
  intros Hn. unfold header_field.
  replace (lit "Content-Length: " ++ to_string n)
    with (lit "Content-Length" ++ 58 :: ([32] ++ to_string n ++ [])) by (by rewrite app_nil_r).
  rewrite split_once_app by by_compute.
  rewrite (trim_pad [32] (to_string n) []) by (by_compute || apply to_string_line_safe).
  by rewrite parse_to_string.
Qed.

Lemma other_field cl name value :
  58 ∉ name → eq_ignore_ascii_case name (lit "Content-Length") = false →
  header_field cl (name ++ 58 :: value) = cl.
Proof. intros H E. unfold header_field. by rewrite split_once_app, E. Qed.

Lemma request_line_path path :
  word path → split_whitespace (lit "POST " ++ path ++ lit " HTTP/1.1")
              = [lit "POST"; path; lit "HTTP/1.1"].
Proof.
  intros H. change (lit "POST " ++ path ++ lit " HTTP/1.1")
    with (join (lit " ") [lit "POST"; path; lit "HTTP/1.1"]).
  apply split_whitespace_join.
  do 3 (apply Forall_cons_2; [first [done|split; by_compute]|]). apply Forall_nil_2.
Qed.

Lemma request_head_built address port path n :
  word path → wf_str path → LF ∉ address → wf_str address → n ≤ U64_MAX →
  request_head (encode (header_text (request_lines address port path n))) = Ok (path, n).
Proof.
  intros Hp Hpw Ha Haw Hn. unfold request_head.
  rewrite from_utf8_lossy_encode by (by apply header_text_wf, request_lines_wf).
  rewrite lines_header.
  2: { apply request_lines_LF; [done|]. destruct Hp as [_ Hp]. rewrite Forall_forall in Hp.
       intros Hin%Hp. done. }
  unfold request_lines. cbn [app]. rewrite request_line_path by done. f_equal. f_equal.
  cbn [foldl]. rewrite content_length_field by done.
  change (lit "Connection: close") with (lit "Connection" ++ 58 :: lit " close").
  by rewrite other_field by by_compute.
Qed.

(** *** When the reader panics *)

Lemma header_field_bound cl line : cl ≤ U64_MAX → header_field cl line ≤ U64_MAX.
Proof.
  intros H. unfold header_field. destruct (split_once 58 line) as [[name value]|]; [|done].
  case_match; [|done]. destruct (parse_uint U64_MAX (trim value)) as [n|] eqn:E; [|done].
  by apply parse_uint_bound in E.
Qed.

Lemma request_head_bound header path cl : request_head header = Ok (path, cl) → cl ≤ U64_MAX.
Proof.
  unfold request_head. destruct (lines _) as [|l fields]; [done|].
  destruct (split_whitespace l) as [|m [|p r]]; [done..|]. intros [= _ <-].
  assert (∀ n, n ≤ U64_MAX → foldl header_field n fields ≤ U64_MAX) as H; [|by apply H].
  induction fields as [|f fields IH]; intros n Hn; [done|]. cbn [foldl].
  by apply IH, header_field_bound.
Qed.

Lemma read_head_end data stream data' header_end rest :
  read_head data stream = Ok (data', header_end, rest) → header_end ≤ len data' ∧ 4 ≤ header_end.
Proof.
  revert data. induction stream as [|[c|e] stream IH]; intros data; cbn [read_head]; [done| |done].
  case_bool_decide; [done|]. destruct (find_subslice (data ++ c) CRLFCRLF) as [i|] eqn:E.
  - intros [= <- <- <-]. apply find_bound in E. unfold len. lia.
  - case_match; [done|]. apply IH.
Qed.

Lemma read_body_length needed data stream data' :
  read_body needed data stream = Ok data' → len data ≤ len data'.
Proof.
  revert data. induction stream as [|[c|e] stream IH]; intros data; cbn [read_body].
  - case_match; by intros [= <-].
  - case_match; [|by intros [= <-]]. case_bool_decide; [by intros [= <-]|].
    intros H1%IH. rewrite len_app in H1. lia.
  - case_match; [done|by intros [= <-]].
Qed.

Lemma finish_request_no_panic `{Build} data header_end path cl rest :
  header_end + cl ≤ U64_MAX → finish_request data header_end path cl rest ≠ Panic.
Proof.
  intros Hb. unfold finish_request. rewrite add_u64_Val by done. cbn [mbind outcome_bind].
  destruct (read_body _ data rest) as [d|e]; [|done].
  destruct (N.ltb_spec (len d) (header_end + cl)); [done|]. rewrite slice_Val by lia. done.
Qed.

Lemma finish_request_complete `{Build} h path body :
  len h + byte_len body ≤ U64_MAX → wf_str body →
  finish_request (h ++ encode body) (len h) path (byte_len body) [] = Val (Ok (path, body)).
Proof.
  intros Hb Hw. unfold finish_request. rewrite add_u64_Val by done. cbn [mbind outcome_bind].
  assert (len (h ++ encode body) = len h + byte_len body) as El by (by rewrite len_app).
  rewrite read_body_enough, El, N.ltb_irrefl by lia.
  rewrite slice_Val by lia. cbn [mbind outcome_bind].
  replace (N.to_nat (len h)) with (length h) by (unfold len; lia).
  replace (N.to_nat (len h + byte_len body - len h)) with (length (encode body))
    by (unfold byte_len; lia).
  by rewrite drop_app_length, firstn_all, from_utf8_lossy_encode.
Qed.

Lemma post_read `{Build} (address path body : str) (port : N) (chunks : list bytes) (tail : reads) :
  word path → wf_str path → LF ∉ address → wf_str address → wf_str body →
  len (encode (header_text (request_lines address port path (byte_len body)))) ≤ 65536 →
  len (post_request address port path body) ≤ U64_MAX →
  Forall (λ c, c ≠ []) chunks → concat chunks = post_request address port path body →
  read_http_request (map Ok chunks ++ tail) = Val (Ok (path, body)).
Proof.
  intros Hp Hpw Ha Haw Hbw Hh Hall Hc Hb.
  unfold post_request in *. rewrite encode_app in Hb, Hall.
  assert (LF ∉ path) as HpL.
  { destruct Hp as [_ Hp]. rewrite Forall_forall in Hp. by intros Hin%Hp. }
  destruct (find_header_text (request_lines address port path (byte_len body)) (encode body))
    as (i & Hi & Ei); [by apply request_lines_LF|by repeat constructor|done|].
  rewrite len_app in Hall. change (len (encode body)) with (byte_len body) in Hall.
  pose proof (request_head_built address port path (byte_len body) Hp Hpw Ha Haw ltac:(lia)) as Hr.
  set (h := encode (header_text (request_lines address port path (byte_len body)))) in *.
  assert (N.of_nat i + 4 = len h) as En by (unfold len; lia).
  assert (take (i + 4) (h ++ encode body) = h) as Et by (rewrite Ei; apply take_app_length).
  rewrite (read_request_spec _ chunks tail i Hc Hb Hi); [|lia|].
  + unfold parse_bytes. rewrite Et, Hr, En. by apply finish_request_complete.
  + right. intros p cl. rewrite Et, Hr, En. intros [= _ <-]. by rewrite len_app.
Qed.

Lemma response_read (status : N) (body : str) :
  wf_str body → response_body (write_http_response status (encode body)) = Ok body.
Proof.
  intros Hbw.
  unfold response_body, write_http_response.
  destruct (find_header_text (response_lines status (len (encode body))) (encode body))
    as (i & -> & Ei); [by apply response_lines_LF|by repeat constructor|done|].
  cbn [ok_or mbind result_bind]. by rewrite Ei, drop_app_length, from_utf8_lossy_encode.
Qed.

(** *** How much is read *)

(** The bytes of the chunks of a stream. *)
Definition received (stream : reads) : bytes := concat (omap ok stream).

Lemma received_app a b : received (a ++ b) = received a ++ received b.
Proof. unfold received. by rewrite omap_app, concat_app. Qed.

Definition chunk_size : N := 1024.

(** The reads fill at most a chunk. *)
Definition in_chunks (stream : reads) : Prop := Forall (λ r, ∀ c, r = Ok c → len c ≤ chunk_size) stream.

(** [pre] is all that is looked at: what follows it does not matter, unless it
    is the end of the stream. *)
Definition decides {A} (f : reads → A) (pre suf : reads) : Prop :=
  suf = [] ∨ ∀ suf', f (pre ++ suf') = f (pre ++ suf).

Lemma read_head_consumes data stream :
  in_chunks stream → len data ≤ 65536 →
  match read_head data stream with
  | Ok (data', header_end, rest) => ∃ pre,
      stream = pre ++ rest ∧ data' = data ++ received pre ∧ len data' ≤ 65536 + chunk_size
      ∧ ∀ suf, read_head data (pre ++ suf) = Ok (data', header_end, suf)
  | Err e => ∃ pre suf,
      stream = pre ++ suf ∧ len (data ++ received pre) ≤ 65536 + chunk_size
      ∧ decides (read_head data) pre suf
  end.
Proof.
  intros Hs. revert data. induction Hs as [|[c|e] stream Hc _ IH]; intros data Hd; cbn [read_head].
  - exists [], []. split_and!; [done|rewrite app_nil_r; unfold chunk_size; lia|by left].
  - specialize (Hc c eq_refl). case_bool_decide as He.
    { exists [Ok c], stream. subst c. split_and!; [done|cbn; rewrite !app_nil_r; unfold chunk_size; lia|].
      right. by intros suf. }
    assert (len (data ++ c) ≤ 65536 + chunk_size) as Hl by (rewrite len_app; lia).
    destruct (find_subslice (data ++ c) CRLFCRLF) as [i|] eqn:Ef.
    { exists [Ok c]. split_and!; [done|cbn; by rewrite app_nil_r|done|].
      intros suf. cbn [app read_head]. by rewrite bool_decide_false, Ef. }
    destruct (N.ltb_spec (64 * 1024) (len (data ++ c))) as [Hbig|Hbig].
    { exists [Ok c], stream. split_and!; [done|cbn; by rewrite app_nil_r|].
      right. intros suf. cbn [app read_head]. rewrite bool_decide_false, Ef by done.
      by rewrite (proj2 (N.ltb_lt _ _) Hbig). }
    specialize (IH (data ++ c) ltac:(lia)).
    assert (∀ suf, read_head data (Ok c :: suf) = read_head (data ++ c) suf) as Hstep.
    { intros suf. cbn [read_head]. rewrite bool_decide_false, Ef by done.
      by rewrite (proj2 (N.ltb_ge _ _) Hbig). }
    destruct (read_head (data ++ c) stream) as [[[data' header_end] rest]|e] eqn:Er.
    + destruct IH as (pre & -> & -> & Hl' & Hp). exists (Ok c :: pre).
      split_and!; [done|cbn; by rewrite app_assoc|done|].
      intros suf. cbn [app]. by rewrite Hstep.
    + destruct IH as (pre & suf & -> & Hl' & Hp). exists (Ok c :: pre), suf.
      split_and!; [done|cbn; by rewrite app_assoc|].
      destruct Hp as [Hp|Hp]; [by left|right]. intros suf'. cbn [app]. by rewrite !Hstep.
  - exists [Err e], stream. split_and!; [done|cbn; rewrite app_nil_r; unfold chunk_size; lia|by right].
Qed.

Lemma read_body_consumes needed data stream :
  in_chunks stream →
  ∃ pre suf, stream = pre ++ suf
    ∧ len (data ++ received pre) ≤ N.max (len data) (needed + (chunk_size - 1))
    ∧ decides (read_body needed data) pre suf.
Proof.
  intros Hs. revert data. induction Hs as [|[c|e] stream Hc _ IH]; intros data.
  - exists [], []. split_and!; [done|cbn; rewrite app_nil_r; lia|by left].
  - destruct (N.ltb_spec (len data) needed) as [Hn|Hn].
    2: { exists [], (Ok c :: stream). split_and!; [done|cbn; rewrite app_nil_r; lia|].
         right. intros suf. by rewrite !read_body_enough. }
    specialize (Hc c eq_refl). destruct (decide (c = [])) as [->|He].
    { exists [Ok []], stream. split_and!; [done|cbn; rewrite !app_nil_r; lia|]. right. intros suf.
      cbn [app read_body]. by rewrite (proj2 (N.ltb_lt _ _) Hn). }
    destruct (IH (data ++ c)) as (pre & suf & -> & Hl & Hp). exists (Ok c :: pre), suf.
    split_and!; [done| |].
    { change (received (Ok c :: pre)) with (c ++ received pre). rewrite app_assoc.
      rewrite (len_app data c) in Hl. unfold chunk_size in *. lia. }
    destruct Hp as [Hp|Hp]; [by left|right]. intros suf'. cbn [app read_body].
    rewrite (proj2 (N.ltb_lt _ _) Hn), bool_decide_false by done. apply Hp.
  - destruct (N.ltb_spec (len data) needed) as [Hn|Hn].
    + exists [Err e], stream. split_and!; [done|cbn; rewrite !app_nil_r; lia|]. right. intros suf.
      cbn [app read_body]. by rewrite (proj2 (N.ltb_lt _ _) Hn).
    + exists [], (Err e :: stream). split_and!; [done|cbn; rewrite app_nil_r; lia|].
      right. intros suf. by rewrite !read_body_enough.
Qed.

(** The length of the request that its header announces; 0 if there is none. *)
Definition request_size `{Build} (stream : reads) : N :=
  match read_head [] stream with
  | Ok (data, header_end, _) =>
      match request_head (take (N.to_nat header_end) data) with
      | Ok (_, content_length) =>
          match add_u64 header_end content_length with Val needed => needed | Panic => 0 end
      | Err _ => 0
      end
  | Err _ => 0
  end.

(** ** Properties *)

(** The reader does not depend on how the network cuts the request.  Any
    division of the bytes into chunks, with anything arriving behind them,
    gives what reading all the bytes at once gives, if the header ends within
    64 KiB and either the stream ends there or the announced body is complete. *)
Theorem read_request_chunking {B : Build} (b : bytes) (chunks : list bytes) (tail : reads) (i : nat) :
  Forall (λ c, c ≠ []) chunks → concat chunks = b →
  find_subslice b CRLFCRLF = Some i → N.of_nat i + 4 ≤ 65536 →
  tail = [] ∨ (∀ path cl, request_head (take (i + 4) b) = Ok (path, cl) →
                 N.of_nat i + 4 + cl ≤ len b) →
  read_http_request (map Ok chunks ++ tail) = read_http_request [Ok b].
Proof.
  intros Hc Hb Hi Hlim Ht. rewrite (read_request_spec b chunks tail i) by done.
  symmetry. apply (read_request_spec b [b] [] i); [|by rewrite <- (app_nil_r b) at 2|done|done|by left].
  apply Forall_singleton. intros ->. done.
Qed.

(** C26: client and server understand each other.  The bytes of a POST, however
    they are cut and whatever follows them, are read back as its path and its
    body; the bytes of a response are read back as its body. *)
Theorem http_round_trip {B : Build} (address path body : str) (port : N)
    (chunks : list bytes) (tail : reads) (status : N) :
  word path → wf_str path → LF ∉ address → wf_str address → wf_str body →
  len (encode (header_text (request_lines address port path (byte_len body)))) ≤ 65536 →
  len (post_request address port path body) ≤ U64_MAX →
  Forall (λ c, c ≠ []) chunks → concat chunks = post_request address port path body →
  read_http_request (map Ok chunks ++ tail) = Val (Ok (path, body))
  ∧ response_body (write_http_response status (encode body)) = Ok body.
Proof. intros. split; [by eapply post_read|by apply response_read]. Qed.

(** C27: exactly the requests whose announced length does not fit in a machine
    word behind their header make the reader panic, in a checked build and in
    an unchecked one alike, whatever follows the header; every other
    stream gives a request or an error. *)
Theorem read_request_panics_iff {B : Build} (stream : reads) :
  read_http_request stream = Panic ↔
  ∃ data header_end rest path cl,
    read_head [] stream = Ok (data, header_end, rest)
    ∧ request_head (take (N.to_nat header_end) data) = Ok (path, cl)
    ∧ U64_MAX < header_end + cl.
Proof.
  unfold read_http_request.
  destruct (read_head [] stream) as [[[data he] rest]|e] eqn:Eh.
  2: { split; [done|]. by intros (? & ? & ? & ? & ? & ? & _). }
  apply read_head_end in Eh as [Hl _]. rewrite slice_Val by lia. cbn [mbind outcome_bind].
  rewrite drop_0, N.sub_0_r. split.
  - destruct (request_head _) as [[path cl]|e] eqn:Er; [|done]. intros Hp.
    exists data, he, rest, path, cl. split_and!; [done|done|].
    destruct (N.leb_spec (he + cl) U64_MAX); [|done]. by apply finish_request_no_panic in Hp.
  - intros (? & ? & ? & path & cl & [= <- <- <-] & Er & Ho). rewrite Er.
    apply finish_request_overflow; [by eapply request_head_bound|done|done].
Qed.

(** C28: how much a request can make the reader hold.  Reading chunk by chunk,
    it only looks at a prefix of the stream, whose bytes are at most 64 KiB and a
    chunk, or less than a chunk more than the request its header announces;
    what follows is not looked at. *)
Theorem read_request_bounded {B : Build} (stream : reads) :
  in_chunks stream →
  ∃ pre suf, stream = pre ++ suf
    ∧ len (received pre) ≤ N.max (65536 + chunk_size) (request_size stream + (chunk_size - 1))
    ∧ (suf = [] ∨ ∀ suf', read_http_request (pre ++ suf') = read_http_request stream).
Proof.
  intros Hs. pose proof (read_head_consumes [] stream Hs ltac:(by_compute)) as Hh.
  unfold read_http_request, request_size.
  destruct (read_head [] stream) as [[[data header_end] rest]|e] eqn:Eh.
  2: { destruct Hh as (pre & suf & -> & Hl & Hp). exists pre, suf. split_and!; [done|cbn [app] in Hl; lia|].
       destruct Hp as [Hp|Hp]; [by left|right]. intros suf'. by rewrite Hp, Eh. }
  destruct Hh as (pre & -> & -> & Hl & Hp). cbn [app] in *.
  assert (in_chunks rest) as Hrest by by apply Forall_app in Hs as [_ ?].
  apply read_head_end in Eh as [He _].
  rewrite slice_start by done. cbn [mbind outcome_bind].
  destruct (request_head (take (N.to_nat header_end) (received pre))) as [[path cl]|e] eqn:Er.
  2: { exists pre, rest. split_and!; [done|lia|]. right. intros suf'. rewrite Hp.
       rewrite slice_start by done. cbn [mbind outcome_bind]. by rewrite Er. }
  destruct (read_body_consumes (match add_u64 header_end cl with Val n => n | Panic => 0 end)
    (received pre) rest Hrest) as (pre2 & suf & -> & Hl2 & Hp2).
  exists (pre ++ pre2), suf. rewrite received_app. split_and!; [by rewrite app_assoc|lia|].
  destruct Hp2 as [Hp2|Hp2]; [by left|right]. intros suf'. rewrite <- app_assoc, Hp.
  rewrite slice_start by done. cbn [mbind outcome_bind]. rewrite Er.
  unfold finish_request. destruct (add_u64 header_end cl) as [needed|]; [|done].
  cbn [mbind outcome_bind]. by rewrite Hp2.
Qed.

(** ** Concrete behaviours and witnesses *)

Definition sample_post : bytes := post_request (lit "10.0.0.1") 8080 (lit "/v1/keys/get") (lit "hello").

(** A request of one header line, from anyone, stops the reader's thread. *)
Definition attack : bytes :=
  encode (lit "POST /v1/keys/get HTTP/1.1" ++ CRLF
          ++ lit "Content-Length: 18446744073709551615" ++ CRLF ++ CRLF).

Example attack_panics :
  @read_http_request true [Ok attack] = Panic ∧ @read_http_request false [Ok attack] = Panic.
Proof. split; by vm_compute. Qed.

(** The body is optional, the last Content-Length counts, and fields that
    cannot be read are ignored. *)
Example fields :
  @read_http_request true [Ok (encode (lit "GET /x HTTP/1.1" ++ CRLF ++ lit "content-length: 9" ++ CRLF
    ++ lit "Content-Length: 2" ++ CRLF ++ lit "Content-Length: two" ++ CRLF ++ CRLF ++ lit "abc"))]
  = Val (Ok (lit "/x", lit "ab")).
Proof. by vm_compute. Qed.

Lemma read_request_chunking_witness :
  @read_http_request true (map Ok [take 5 sample_post; drop 5 sample_post] ++ [Err (IoFailure 11)])
  = @read_http_request true [Ok sample_post].
Proof.
  apply (@read_request_chunking true sample_post [take 5 sample_post; drop 5 sample_post]
    [Err (IoFailure 11)] 111%nat).
  - repeat apply Forall_cons_2; try apply Forall_nil_2; by_compute.
  - by vm_compute.
  - by vm_compute.
  - by_compute.
  - right. intros path cl H. vm_compute in H. injection H as <- <-. by_compute.
Defined.

Lemma http_round_trip_witness :
  @read_http_request true (map Ok [take 5 sample_post; drop 5 sample_post] ++ [])
    = Val (Ok (lit "/v1/keys/get", lit "hello"))
  ∧ response_body (write_http_response 200 (encode (lit "hello"))) = Ok (lit "hello").
Proof.
  apply (@http_round_trip true (lit "10.0.0.1") (lit "/v1/keys/get") (lit "hello") 8080
    [take 5 sample_post; drop 5 sample_post] [] 200); 
    first [by_compute | by vm_compute | split; by_compute].
Defined.

(** A request followed by more: the rest is not read. *)
Lemma read_request_bounded_witness :
  let stream := [Ok sample_post; Ok (replicate 1000 65)] in
  is_ok (match @read_http_request true stream with Val r => r | Panic => Err ConnectionClosed end) = true
  ∧ ∃ pre suf, stream = pre ++ suf
    ∧ len (received pre) ≤ 66560
    ∧ (suf = [] ∨ ∀ suf', @read_http_request true (pre ++ suf') = @read_http_request true stream).
Proof.
  intros stream. split; [by vm_compute|].
  destruct (@read_request_bounded true stream
    ltac:(repeat apply Forall_cons_2; try apply Forall_nil_2; intros c [= <-]; by_compute))
    as (pre & suf & E & Hl & Hp).
  exists pre, suf. split; [exact E|]. split; [|exact Hp].
  etransitivity; [exact Hl|]. by_compute.
Defined.
