(* ===== verification/Ip.v ===== *)
(** * IP addresses (the [FromStr] of [std::net::IpAddr])

    The standard library's parser of addresses, which [resolve_tls_server_name]
    in src/src/runtime.rs uses to tell an IP address from a DNS name: dotted
    decimals without leading zeros, and hexadecimal groups with one "::" and
    possibly a dotted end. *)

From S2P Require Import Prelude Str.

Local Open Scope N_scope.

Inductive IpAddr :=
| V4 (a b c d : N)
| V6 (groups : list N).

#[export] Instance IpAddr_eq_dec : EqDecision IpAddr.
Proof. solve_decision. Defined.

(** ** The parser: a reader takes the text and gives what it read and the rest. *)

(** [char::to_digit]. *)
Definition to_digit (radix : N) (c : char) : option N :=
  d ← (if is_ascii_digit c then Some (c - 48)
       else if is_ascii_lowercase c then Some (c - 87)
       else if is_ascii_uppercase c then Some (c - 55)
       else None);
  if d <? radix then Some d else None.

Fixpoint read_digits (radix max_digits n count : N) (s : str) : option (N * N * str) :=
  match s with
  | [] => Some (n, count, [])
  | c :: r =>
      match to_digit radix c with
      | Some d =>
          if max_digits <? count + 1 then None
          else read_digits radix max_digits (n * radix + d) (count + 1) r
      | None => Some (n, count, s)
      end
  end.

Definition read_number (radix max_digits : N) (allow_zero_prefix : bool) (max : N) (s : str) :
    option (N * str) :=
  '(n, count, r) ← read_digits radix max_digits 0 0 s;
  if count =? 0 then None
  else if negb allow_zero_prefix && bool_decide (head s = Some 48) && (1 <? count) then None
  else if n <=? max then Some (n, r) else None.

Definition read_given_char (c : char) (s : str) : option str :=
  match s with x :: r => if x =? c then Some r else None | [] => None end.

Definition read_separator {A} (sep : char) (index : nat) (inner : str → option (A * str)) (s : str) :
    option (A * str) :=
  match index with O => inner s | S _ => r ← read_given_char sep s; inner r end.

Definition read_octet : str → option (N * str) := read_number 10 3 false 255.
Definition read_group : str → option (N * str) := read_number 16 4 true 65535.

Definition read_ipv4_addr (s : str) : option (N * N * N * N * str) :=
  '(a, s) ← read_separator 46 0 read_octet s;
  '(b, s) ← read_separator 46 1 read_octet s;
  '(c, s) ← read_separator 46 2 read_octet s;
  '(d, s) ← read_separator 46 3 read_octet s;
  Some (a, b, c, d, s).

(** [read_groups] from the group [index], with [left] groups to go: the groups,
    whether they end with a dotted address, and the rest. *)
Fixpoint read_groups (index left : nat) (s : str) : list N * bool * str :=
  match left with
  | O => ([], false, s)
  | S left' =>
      match (if (2 <=? left)%nat then read_separator 58 index read_ipv4_addr s else None) with
      | Some (a, b, c, d, r) => ([a * 256 + b; c * 256 + d], true, r)
      | None =>
          match read_separator 58 index read_group s with
          | Some (g, r) =>
              let '(gs, ipv4, r) := read_groups (S index) left' r in (g :: gs, ipv4, r)
          | None => ([], false, s)
          end
      end
  end.

Definition read_ipv6_addr (s : str) : option (list N * str) :=
  let '(head, head_ipv4, r) := read_groups 0 8 s in
  if (length head =? 8)%nat then Some (head, r)
  else if head_ipv4 then None
  else
    r ← read_given_char 58 r;
    r ← read_given_char 58 r;
    let '(tail, _, r) := read_groups 0 (7 - length head) r in
    Some (head ++ replicate (8 - length head - length tail) 0 ++ tail, r).

(** [value.parse::<IpAddr>()]. *)
Definition parse_ip (s : str) : option IpAddr :=
  match read_ipv4_addr s with
  | Some (a, b, c, d, r) => if is_empty r then Some (V4 a b c d) else None
  | None => '(gs, r) ← read_ipv6_addr s; if is_empty r then Some (V6 gs) else None
  end.

Definition dotted (a b c d : N) : str :=
  to_string a ++ 46 :: to_string b ++ 46 :: to_string c ++ 46 :: to_string d.

(** ** The dotted notation is read back *)

Lemma octet_read n r :
  n ≤ 255 → (r = [] ∨ head r = Some 46) → read_octet (to_string n ++ r) = Some (n, r).
Proof.
  intros Hn Hr. rewrite <- (N2Nat.id n).
  assert (N.to_nat n < 256)%nat as Hk by lia. generalize dependent (N.to_nat n). clear n Hn.
  intros k Hk. destruct Hr as [->|Hr].
  - do 256 (destruct k as [|k]; [reflexivity|]). lia.
  - destruct r as [|c r]; [done|]. injection Hr as ->.
    do 256 (destruct k as [|k]; [reflexivity|]). lia.
Qed.

Lemma parse_dotted a b c d :
  a ≤ 255 → b ≤ 255 → c ≤ 255 → d ≤ 255 → parse_ip (dotted a b c d) = Some (V4 a b c d).
Proof.
  intros. unfold parse_ip, read_ipv4_addr, dotted. cbn [read_separator].
  rewrite octet_read by (done || by right). cbn [mbind option_bind read_given_char].
  rewrite N.eqb_refl. cbn [mbind option_bind].
  rewrite octet_read by (done || by right). cbn [mbind option_bind read_given_char].
  rewrite N.eqb_refl. cbn [mbind option_bind].
  rewrite octet_read by (done || by right). cbn [mbind option_bind read_given_char].
  rewrite N.eqb_refl. cbn [mbind option_bind].
  rewrite <- (app_nil_r (to_string d)), octet_read by (done || by left). done.
Qed.

Example ipv6_short : parse_ip (lit "fe80::1:2") = Some (V6 [65152; 0; 0; 0; 0; 0; 1; 2]).
Proof. by vm_compute. Qed.
Example ipv6_mapped : parse_ip (lit "::ffff:10.0.0.1") = Some (V6 [0; 0; 0; 0; 0; 65535; 2560; 1]).
Proof. by vm_compute. Qed.
Example ip_octal : parse_ip (lit "010.0.0.1") = None.
Proof. by vm_compute. Qed.
Example ip_name : parse_ip (lit "node-1.example") = None.
Proof. by vm_compute. Qed.
Example ipv6_two_gaps : parse_ip (lit "1::2::3") = None.
Proof. by vm_compute. Qed.
