(* ===== verification/Paths.v ===== *)
(** * Addresses, paths and control files (src/src/runtime.rs)

    The small functions on addresses and paths: ports, the advertised address,
    home expansion, and the directory and names of the control files.  Paths are
    text; [Path::join] is modelled on the separator character. *)

From S2P Require Import Prelude Str Envelope.

Local Open Scope N_scope.

(** ** Addresses *)

Definition parse_port (address : str) : result RuntimeError N :=
  ok_or (ParseListenAddress address)
    ('(_, p) ← rsplit_once 58 address; parse_uint U16_MAX p).

Definition advertised_address (http_listen_addr participant_id : str) : str :=
  let host := match split_once 58 http_listen_addr with
              | Some (h, _) => h
              | None => http_listen_addr
              end in
  if bool_decide (host = lit "0.0.0.0") || bool_decide (host = lit "::")
  then participant_id else host.

(** ** Paths *)

(** [PathBuf::join] on Unix. *)
Definition path_join (p x : str) : str :=
  if bool_decide (head x = Some 47) then x
  else if bool_decide (p = [] ∨ last p = Some 47) then p ++ x
  else p ++ lit "/" ++ x.

Definition expand_home_path (home : option str) (path : str) : str :=
  if bool_decide (path = lit "~") then default path home
  else match strip_prefix (lit "~/") path, home with
       | Some stripped, Some home => home ++ lit "/" ++ stripped
       | _, _ => path
       end.

Definition sanitize_char (ch : char) : char :=
  if is_ascii_alphanumeric ch || (ch =? 45) || (ch =? 95) || (ch =? 46) then ch else 95.

Definition sanitize_for_file (value : str) : str := map sanitize_char value.

Definition CONTROL_ROOT_DIR : str := lit "ssh-key-sync".
Definition PID_FILE_NAME : str := lit "daemon.pid".
Definition STOP_FILE_NAME : str := lit "daemon.stop".
Definition LOG_FILE_NAME : str := lit "daemon.log".
Definition CURRENT_SID_FILE_NAME : str := lit "current_sid".

(** The first guard of [control_runtime_root_with_env] and its fall-back. *)
Definition usable (path : option str) : option str :=
  path ← path; if is_empty (trim path) then None else Some path.

Definition control_runtime_root_with_env (xdg_runtime_dir home : option str) :
    result RuntimeError str :=
  match usable xdg_runtime_dir with
  | Some path => Ok (path_join path CONTROL_ROOT_DIR)
  | None =>
      match usable home with
      | Some path =>
          Ok (path_join (path_join (path_join path (lit ".local")) (lit "run")) CONTROL_ROOT_DIR)
      | None => Err MissingHomeDir
      end
  end.

(** The control files of a group, in an environment [xdg], [home]. *)
Section control.
Context (xdg home : option str).

Definition control_runtime_root_path : result RuntimeError str :=
  control_runtime_root_with_env xdg home.

Definition control_runtime_dir_path_for_sid (sid : str) : result RuntimeError str :=
  root ← control_runtime_root_path;
  Ok (path_join root (sanitize_for_file sid)).

Definition pid_file_path (sid : str) : result RuntimeError str :=
  dir ← control_runtime_dir_path_for_sid sid; Ok (path_join dir PID_FILE_NAME).
Definition stop_file_path (sid : str) : result RuntimeError str :=
  dir ← control_runtime_dir_path_for_sid sid; Ok (path_join dir STOP_FILE_NAME).
Definition log_file_path (sid : str) : result RuntimeError str :=
  dir ← control_runtime_dir_path_for_sid sid; Ok (path_join dir LOG_FILE_NAME).
Definition current_sid_marker_path : result RuntimeError str :=
  root ← control_runtime_root_path; Ok (path_join root CURRENT_SID_FILE_NAME).

End control.

(** ** Lemmas *)

Lemma sanitize_char_idem c : sanitize_char (sanitize_char c) = sanitize_char c.
Proof. unfold sanitize_char. repeat case_match; try done; congruence. Qed.

Lemma sanitize_idem s : sanitize_for_file (sanitize_for_file s) = sanitize_for_file s.
Proof. unfold sanitize_for_file. rewrite map_map. apply map_ext, sanitize_char_idem. Qed.

Lemma sanitize_no_slash s : 47 ∉ sanitize_for_file s.
Proof.
  unfold sanitize_for_file. intros H. apply list_elem_of_In, in_map_iff in H as (c & Hc & _).
  unfold sanitize_char in Hc. case_match eqn:E; [|done]. by subst c.
Qed.

Lemma sanitize_nil s : sanitize_for_file s = [] ↔ s = [].
Proof. by destruct s. Qed.

Lemma path_join_child p x :
  p ≠ [] → last p ≠ Some 47 → head x ≠ Some 47 → path_join p x = p ++ lit "/" ++ x.
Proof.
  intros Hp Hl Hx. unfold path_join. rewrite bool_decide_false by done.
  rewrite bool_decide_false; [done|]. by intros [?|?].
Qed.

Lemma path_join_last p x : x ≠ [] → last (path_join p x) = last x.
Proof.
  intros Hx. unfold path_join. destruct (last x) as [c|] eqn:E; [|by apply last_None in E].
  repeat case_match; rewrite ?last_app, E; done.
Qed.

Lemma root_shape xdg home root :
  control_runtime_root_path xdg home = Ok root → root ≠ [] ∧ last root ≠ Some 47.
Proof.
  unfold control_runtime_root_path, control_runtime_root_with_env. intros H.
  assert (last root = last CONTROL_ROOT_DIR) as E.
  { repeat case_match; simplify_eq; by rewrite path_join_last. }
  change (last CONTROL_ROOT_DIR) with (Some 99) in E. split; [by intros ->|]. by rewrite E.
Qed.

#[local] Instance Ok_inj {E A} : Inj (=) (=) (@Ok E A).
Proof. by intros ? ? [=]. Qed.

(** ** Properties *)

(** The control directory of a group is a direct child of the control root:
    its name has no separator, is the group's identifier with every character
    outside [A-Za-z0-9._-] replaced, and sanitising is idempotent.  So two
    groups share their control files exactly when their sanitised names agree,
    and no identifier other than "." and ".." leads out of the root. *)
Theorem control_dir_is_child (xdg home : option str) (sid sid' root : str) :
  control_runtime_root_path xdg home = Ok root → sid ≠ [] → sid' ≠ [] →
  (∃ name, control_runtime_dir_path_for_sid xdg home sid = Ok (root ++ lit "/" ++ name)
     ∧ name = sanitize_for_file sid ∧ (47 ∉ name) ∧ name ≠ [] ∧ sanitize_for_file name = name)
  ∧ (control_runtime_dir_path_for_sid xdg home sid = control_runtime_dir_path_for_sid xdg home sid'
     ↔ sanitize_for_file sid = sanitize_for_file sid').
Proof.
  intros Hr Hs Hs'. destruct (root_shape _ _ _ Hr) as [Hne Hl].
  unfold control_runtime_dir_path_for_sid. rewrite Hr. cbn [mbind result_bind].
  assert (∀ s, s ≠ [] → path_join root (sanitize_for_file s) = root ++ lit "/" ++ sanitize_for_file s)
    as Hj.
  { intros s _. apply path_join_child; [done|done|].
    intros Hh. apply (sanitize_no_slash s). by apply head_Some_elem_of. }
  rewrite !Hj by done. split.
  - eexists. split; [done|]. split_and!; [done|apply sanitize_no_slash| |apply sanitize_idem].
    by rewrite sanitize_nil.
  - split; [|by intros ->]. intros E%(inj Ok). by do 2 apply app_inv_head in E.
Qed.

(** ** Concrete behaviours and witnesses *)

Lemma control_dir_is_child_witness :
  control_runtime_dir_path_for_sid (Some (lit "/run/user/1000")) None (lit "team a")
  = Ok (lit "/run/user/1000/ssh-key-sync/team_a").
Proof.
  destruct (control_dir_is_child (Some (lit "/run/user/1000")) None (lit "team a") (lit "x")
    (lit "/run/user/1000/ssh-key-sync")) as [(name & -> & -> & _) _]; [by vm_compute|done|done|].
  by vm_compute.
Defined.

(** Two groups can share their control files, and one identifier names the
    parent of the root. *)
Example colliding_groups :
  sanitize_for_file (lit "team a") = sanitize_for_file (lit "team/a").
Proof. by vm_compute. Qed.
Example parent_of_the_root :
  control_runtime_dir_path_for_sid (Some (lit "/run/user/1000")) None (lit "..")
  = Ok (lit "/run/user/1000/ssh-key-sync/..").
Proof. by vm_compute. Qed.

(** The host of a bracketed IPv6 listen address is cut at its first colon, so
    the wildcard test never sees it. *)
Example advertised_ipv6 : advertised_address (lit "[::]:9922") (lit "node-1") = lit "[".
Proof. by vm_compute. Qed.
Example advertised_wildcard : advertised_address (lit "0.0.0.0:9922") (lit "node-1") = lit "node-1".
Proof. by vm_compute. Qed.
