(* ===== verification/System.v ===== *)
(** * System calls

    The effects of the program: a program is a tree of system calls, which may
    fail, over a file system.  A failed or interrupted write leaves any prefix
    of its bytes.  Since every call may fail and a run may stop between any two
    calls, the states of the runs cover those of a crash at any point.  What is
    kept of a file system is what the calls observe: the contents and modes of
    files and the modes of directories; durability after a power loss is not.
    Other processes act while the program sleeps ([Environment]); sockets and
    processes only answer.

    A logic of programs ([safe]) proves what holds in every state of every run,
    [run] is the run in which every call succeeds that can, and [replay] plays a
    program against any given answers. *)

From S2P Require Import Prelude Str Utf8 Paths.

Local Open Scope N_scope.

(** ** The file system *)

Record file := {
  content : bytes;
  file_mode : N
}.

Record fs := {
  files : gmap str file;
  dirs : gmap str N
}.

Inductive syscall :=
| CreateDirAll (p : str)
| SetPermissions (p : str) (m : N)
| Exists (p : str)
| IsDir (p : str)
| OpenTruncate (p : str) (create_mode : N)
| OpenAppend (p : str) (create_mode : N)
| WriteAll (p : str) (b : bytes)
| SyncAll (p : str)
| Rename (p q : str)
| OpenDir (p : str)
| OpenFile (p : str)
| RemoveFile (p : str)
| TcpBind (addr : str)
| UdpBind (addr : str)
| SetNonblocking (addr : str)
| SetBroadcast (addr : str)
| Respond (secure : bool) (b : bytes)
| SendTo (addr : str) (b : bytes)
| ProcessExists (pid : N)
| KillTerm (pid : N)
| Sleep (millis : N)
| Print (line : str)
| Eprint (line : str)
| CurrentExe
| CloneHandle (p : str)
| Spawn (log_path : str).

#[export] Instance syscall_eq_dec : EqDecision syscall.
Proof. solve_decision. Defined.

Definition put_file (s : fs) (p : str) (f : file) : fs :=
  {| files := <[p := f]> (files s); dirs := dirs s |}.

Definition remove (s : fs) (p : str) : fs :=
  {| files := delete p (files s); dirs := dirs s |}.

Definition chmod (s : fs) (p : str) (m : N) : fs :=
  match files s !! p with
  | Some f => put_file s p {| content := content f; file_mode := m |}
  | None => {| files := files s; dirs := <[p := m]> (dirs s) |}
  end.

Definition append_to (s : fs) (p : str) (b : bytes) : fs :=
  match files s !! p with
  | Some f => put_file s p {| content := content f ++ b; file_mode := file_mode f |}
  | None => s
  end.

Definition present (s : fs) (p : str) : Prop := is_Some (files s !! p) ∨ is_Some (dirs s !! p).

#[export] Instance present_dec s p : Decision (present s p).
Proof. unfold present. apply _. Defined.

(** The machine a program runs on: the steps of its other processes, and the
    paths whose metadata can always be read.  [Path::exists] and [is_dir] answer
    false when the metadata cannot be read: only where [stat_works] does that
    mean that there is nothing. *)
Class Environment := {
  other_processes : fs → fs → Prop;
  stat_works : str → Prop
}.

(** A machine on which no other process changes files and metadata can be read. *)
Definition no_environment : Environment :=
  {| other_processes := λ _ _, False; stat_works := λ _, True |}.

(** One on which it may fail anywhere. *)
Definition faulty_environment : Environment :=
  {| other_processes := λ _ _, False; stat_works := λ _, False |}.

Section calls.
Context {I : Environment}.

(** [effect c s ok s']: the call [c] made in state [s] may return [ok] (whether
    it succeeded; for [Exists], [IsDir] and [ProcessExists], the answer, which
    is also false when a metadata call fails) and leave the state [s'].  A call
    that fails has changed nothing, apart from directories already created and
    bytes already written. *)
Definition effect (c : syscall) (s : fs) (ok : bool) (s' : fs) : Prop :=
  match c with
  | CreateDirAll p =>
      files s' = files s ∧ dirs s ⊆ dirs s'
      ∧ (ok = true → files s !! p = None ∧ is_Some (dirs s' !! p))
  | SetPermissions p m => (ok = true → present s p) ∧ s' = (if ok then chmod s p m else s)
  | Exists p => s' = s ∧ if ok then present s p else stat_works p → ¬ present s p
  | IsDir p => s' = s ∧ if ok then is_Some (dirs s !! p)
                        else stat_works p → dirs s !! p = None
  | OpenTruncate p m =>
      (ok = true → dirs s !! p = None) ∧
      s' = (if ok then put_file s p
              {| content := []; file_mode := default m (file_mode <$> files s !! p) |} else s)
  | OpenAppend p m =>
      (ok = true → dirs s !! p = None) ∧
      s' = (if ok then put_file s p
              (default {| content := []; file_mode := m |} (files s !! p)) else s)
  | WriteAll p b => ∃ written, written `prefix_of` b ∧ (ok = true → written = b)
      ∧ s' = append_to s p written
  | Rename p q =>
      if ok then dirs s !! q = None ∧ ∃ f, files s !! p = Some f
              ∧ s' = {| files := <[q := f]> (delete p (files s)); dirs := dirs s |}
      else s' = s
  | RemoveFile p => if ok then is_Some (files s !! p) ∧ s' = remove s p else s' = s
  | Sleep _ => ok = true ∧ rtc other_processes s s'
  | OpenFile p => s' = s ∧ (ok = true → present s p)
  | SyncAll _ | OpenDir _ | TcpBind _ | UdpBind _ | SetNonblocking _ | SetBroadcast _
  | Respond _ _ | SendTo _ _ | ProcessExists _ | KillTerm _
  | Print _ | Eprint _ | CurrentExe | CloneHandle _ | Spawn _ => s' = s
  end.

(** [fs::read_to_string] gives the text of a file that is UTF-8, or fails. *)
Definition read_effect (p : str) (s : fs) (o : option str) : Prop :=
  ∀ t, o = Some t → ∃ f, files s !! p = Some f ∧ from_utf8 (content f) = Some t.

(** Reading an open file to its end gives its bytes, or fails with a message. *)
Definition load_effect (p : str) (s : fs) (r : result str bytes) : Prop :=
  ∀ b, r = Ok b → ∃ f, files s !! p = Some f ∧ content f = b.

(** [fs::read_dir] lists the entries of a directory, each once and in any
    order, or fails, as a whole or for an entry. *)
Definition list_effect (p : str) (s : fs) (o : option (list (option str))) : Prop :=
  ∀ l, o = Some l → NoDup (omap id l)
    ∧ ∀ name, (Some name ∈ l → name ≠ [] ∧ (47 ∉ name) ∧ present s (path_join p name))
      ∧ (None ∉ l → name ≠ [] → (47 ∉ name) → present s (path_join p name) → Some name ∈ l).
End calls.

(** ** Programs *)

Inductive io (E A : Type) : Type :=
| Ret (r : result E A)
| Do (c : syscall) (k : bool → io E A)
| ReadToString (p : str) (k : option str → io E A)
| ReadFile (p : str) (k : result str bytes → io E A)
| ReadDir (p : str) (k : option (list (option str)) → io E A).
Arguments Ret {E A} r.
Arguments Do {E A} c k.
Arguments ReadToString {E A} p k.
Arguments ReadFile {E A} p k.
Arguments ReadDir {E A} p k.

#[export] Instance io_ret E : MRet (io E) := λ A a, Ret (Ok a).
#[export] Instance io_bind E : MBind (io E) := λ A B f,
  fix bind m :=
    match m with
    | Ret (Ok a) => f a
    | Ret (Err e) => Ret (Err e)
    | Do c k => Do c (λ ok, bind (k ok))
    | ReadToString p k => ReadToString p (λ o, bind (k o))
    | ReadFile p k => ReadFile p (λ o, bind (k o))
    | ReadDir p k => ReadDir p (λ o, bind (k o))
    end.

(** [call().map_err(|_| e)?]. *)
Definition attempt {E} (c : syscall) (e : E) : io E unit :=
  Do c (λ ok, if ok then Ret (Ok tt) else Ret (Err e)).

(** [let _ = call();]. *)
Definition ignore {E} (c : syscall) : io E unit := Do c (λ _, Ret (Ok tt)).

(** [program().map_err(f)]. *)
Fixpoint io_map_err {E F A} (f : E → F) (m : io E A) : io F A :=
  match m with
  | Ret r => Ret (map_err f r)
  | Do c k => Do c (λ ok, io_map_err f (k ok))
  | ReadToString p k => ReadToString p (λ o, io_map_err f (k o))
  | ReadFile p k => ReadFile p (λ o, io_map_err f (k o))
  | ReadDir p k => ReadDir p (λ o, io_map_err f (k o))
  end.

(** [match program() { ... }]: both outcomes go on. *)
Fixpoint io_match {E F A B} (m : io E A) (f : result E A → io F B) : io F B :=
  match m with
  | Ret r => f r
  | Do c k => Do c (λ ok, io_match (k ok) f)
  | ReadToString p k => ReadToString p (λ o, io_match (k o) f)
  | ReadFile p k => ReadFile p (λ o, io_match (k o) f)
  | ReadDir p k => ReadDir p (λ o, io_match (k o) f)
  end.

(** ** Panics *)

(** How a program ends that may also panic. *)
Inductive abort (E : Type) : Type :=
| Error (e : E)
| Panicked.
Arguments Error {E} e.
Arguments Panicked {E}.

#[export] Instance abort_eq_dec E `{EqDecision E} : EqDecision (abort E).
Proof. solve_decision. Defined.

Definition lift {E A} (m : io E A) : io (abort E) A := io_map_err Error m.

Definition of_outcome {E A} (o : outcome A) : io (abort E) A :=
  match o with Val a => Ret (Ok a) | Panic => Ret (Err Panicked) end.

(** [println!] panics when the line cannot be written. *)
Definition println {E} (line : str) : io (abort E) unit := attempt (Print line) Panicked.

(** ** Worlds

    What calls do and answer.  Programs are run in the file system, and also in
    the world of all answers, whose state is the history of the calls. *)

Class World (W : Type) := {
  w_call : syscall → W → bool → W → Prop;
  w_read : str → W → option str → W → Prop;
  w_load : str → W → result str bytes → W → Prop;
  w_list : str → W → option (list (option str)) → W → Prop
}.

#[export] Instance fs_world {I : Environment} : World fs := {|
  w_call := effect;
  w_read p s o s' := s' = s ∧ read_effect p s o;
  w_load p s r s' := s' = s ∧ load_effect p s r;
  w_list p s o s' := s' = s ∧ list_effect p s o
|}.

Inductive event :=
| Called (c : syscall) (ok : bool)
| WasRead (p : str) (o : option str)
| WasLoaded (p : str) (r : result str bytes)
| WasListed (p : str) (o : option (list (option str))).

#[export] Instance event_eq_dec : EqDecision event.
Proof. solve_decision. Defined.

#[export] Instance history_world : World (list event) := {|
  w_call c h ok h' := h' = h ++ [Called c ok];
  w_read p h o h' := h' = h ++ [WasRead p o];
  w_load p h r h' := h' = h ++ [WasLoaded p r];
  w_list p h o h' := h' = h ++ [WasListed p o]
|}.

(** The file system together with the history. *)
#[export] Instance recorded_world {I : Environment} : World (fs * list event) := {|
  w_call c w ok w' := effect c w.1 ok w'.1 ∧ w'.2 = w.2 ++ [Called c ok];
  w_read p w o w' := (w'.1 = w.1 ∧ read_effect p w.1 o) ∧ w'.2 = w.2 ++ [WasRead p o];
  w_load p w r w' := (w'.1 = w.1 ∧ load_effect p w.1 r) ∧ w'.2 = w.2 ++ [WasLoaded p r];
  w_list p w o w' := (w'.1 = w.1 ∧ list_effect p w.1 o) ∧ w'.2 = w.2 ++ [WasListed p o]
|}.

(** One step of a program, and the states its runs go through. *)
Inductive io_step {W} {WW : World W} {E A} : io E A * W → io E A * W → Prop :=
| io_call c k s ok s' : w_call c s ok s' → io_step (Do c k, s) (k ok, s')
| io_read p k s o s' : w_read p s o s' → io_step (ReadToString p k, s) (k o, s')
| io_load p k s r s' : w_load p s r s' → io_step (ReadFile p k, s) (k r, s')
| io_list p k s o s' : w_list p s o s' → io_step (ReadDir p k, s) (k o, s').

Definition reaches {W} {WW : World W} {E A} (m : io E A) (s : W) (m' : io E A) (s' : W) : Prop :=
  rtc io_step (m, s) (m', s').

(** ** A logic of programs

    [safe Q post m s]: every state of every run of [m] from [s] satisfies [Q],
    and a run that ends does so with [post]. *)

Section safe.
Context {W : Type} {WW : World W} {E : Type} (Q : W → Prop).

Fixpoint safe {A} (post : result E A → W → Prop) (m : io E A) (s : W) : Prop :=
  Q s ∧
  match m with
  | Ret r => post r s
  | Do c k => ∀ ok s', w_call c s ok s' → safe post (k ok) s'
  | ReadToString p k => ∀ o s', w_read p s o s' → safe post (k o) s'
  | ReadFile p k => ∀ r s', w_load p s r s' → safe post (k r) s'
  | ReadDir p k => ∀ o s', w_list p s o s' → safe post (k o) s'
  end.

Lemma safe_now {A} (post : result E A → W → Prop) m s : safe post m s → Q s.
Proof. destruct m; by intros [? _]. Qed.

Lemma safe_reaches {A} (post : result E A → W → Prop) m s m' s' :
  safe post m s → reaches m s m' s' → Q s' ∧ ∀ r, m' = Ret r → post r s'.
Proof.
  intros Hs H. unfold reaches in H. remember (m, s) as c eqn:Ec. remember (m', s') as c' eqn:Ec'.
  revert m s Hs Ec Ec'. induction H as [c|c c1 c2 Hstep _ IH]; intros m s Hs -> Ec'.
  - injection Ec' as -> ->. split; [by eapply safe_now|]. intros r ->. apply Hs.
  - inversion Hstep; subst; destruct Hs as [_ Hs]; by eapply IH; [apply Hs|..].
Qed.

Lemma safe_bind {A B} (post : result E B → W → Prop) (m : io E A) (f : A → io E B) s :
  safe (λ r s, match r with Ok a => safe post (f a) s | Err e => post (Err e) s end) m s →
  safe post (m ≫= f) s.
Proof.
  revert s. induction m as [[a|e]|c k IH|p k IH|p k IH|p k IH]; intros s [Hq H]; cbn in *.
  - exact H.
  - by split.
  - split; [done|]. intros ok s' He. apply IH, H, He.
  - split; [done|]. intros o s' Ho. apply IH, H, Ho.
  - split; [done|]. intros o s' Ho. apply IH, H, Ho.
  - split; [done|]. intros o s' Ho. apply IH, H, Ho.
Qed.

Lemma safe_attempt (post : result E unit → W → Prop) c e s :
  Q s → (∀ s', w_call c s true s' → Q s' ∧ post (Ok tt) s') →
  (∀ s', w_call c s false s' → Q s' ∧ post (Err e) s') →
  safe post (attempt c e) s.
Proof. intros Hq Ht Hf. split; [done|]. intros [] s' He; cbn; auto. Qed.

Lemma safe_weaken {A} (post post' : result E A → W → Prop) m s :
  (∀ r s, post r s → post' r s) → safe post m s → safe post' m s.
Proof.
  intros H. revert s. induction m as [r|c k IH|p k IH|p k IH|p k IH]; intros s [Hq Hs]; cbn in *;
    (split; [done|]); eauto.
Qed.

End safe.

(** Weakening of the invariant, which also holds at the end. *)
Lemma safe_mono {W} {WW : World W} {E A} (Q Q' : W → Prop) (post post' : result E A → W → Prop)
    (m : io E A) s :
  (∀ s, Q s → Q' s) → (∀ r s, Q s → post r s → post' r s) →
  safe Q post m s → safe Q' post' m s.
Proof.
  intros HQ Hp. revert s. induction m as [r|c k IH|p k IH|p k IH|p k IH]; intros s [Hq Hs]; cbn in *;
    (split; [by apply HQ|]); auto.
Qed.

Lemma safe_any {W} {WW : World W} {E A} (m : io E A) s : safe (λ _, True) (λ _ _, True) m s.
Proof. revert s. induction m as [r|c k IH|p k IH|p k IH|p k IH]; intros s; cbn; auto. Qed.

(** A program followed by one whose runs all end well. *)
Lemma safe_then {W} {WW : World W} {E A B} (post : result E B → W → Prop) (m : io E A)
    (f : A → io E B) s :
  (∀ e s, post (Err e) s) → (∀ a s, safe (λ _, True) post (f a) s) →
  safe (λ _, True) post (m ≫= f) s.
Proof.
  intros He Hf. apply safe_bind. eapply safe_weaken; [|apply safe_any]. intros [a|e] s' _; auto.
Qed.

Lemma safe_ret_bind {W} {WW : World W} {E A B} (Q : W → Prop) (post : result E B → W → Prop)
    (r : result E A) (f : A → io E B) s :
  Q s → (∀ a, r = Ok a → safe Q post (f a) s) → (∀ e, r = Err e → post (Err e) s) →
  safe Q post (Ret r ≫= f) s.
Proof. intros Hq Ha He. apply safe_bind. split; [done|]. destruct r; auto. Qed.

Lemma safe_and {W} {WW : World W} {E A} (Q Q' : W → Prop) (post post' : result E A → W → Prop)
    (m : io E A) s :
  safe Q post m s → safe Q' post' m s → safe (λ s, Q s ∧ Q' s) (λ r s, post r s ∧ post' r s) m s.
Proof.
  revert s. induction m as [r|c k IH|p k IH|p k IH|p k IH]; intros s [Hq H] [Hq' H']; cbn in *;
    (split; [done|]); auto.
Qed.

Lemma safe_map_err {W} {WW : World W} {E F A} (Q : W → Prop) (f : E → F) (post : result F A → W → Prop)
    (m : io E A) s :
  safe Q (λ r s, post (map_err f r) s) m s → safe Q post (io_map_err f m) s.
Proof.
  revert s. induction m as [r|c k IH|p k IH|p k IH|p k IH]; intros s [Hq H]; cbn in *; (split; [done|]); auto.
Qed.

Lemma safe_match {W} {WW : World W} {E F A B} (Q : W → Prop) (post : result F B → W → Prop)
    (m : io E A) (f : result E A → io F B) s :
  safe Q (λ r s, safe Q post (f r) s) m s → safe Q post (io_match m f) s.
Proof.
  revert s. induction m as [r|c k IH|p k IH|p k IH|p k IH]; intros s [Hq H]; cbn in *; [done|..];
    (split; [done|]); auto.
Qed.

(** ** The results of a program *)

(** Whatever is answered, a result that is not an error satisfies [P]. *)
Definition yields {E A} (P : A → Prop) (m : io E A) : Prop :=
  ∀ h : list event, safe (λ _, True) (λ r _, ∀ a, r = Ok a → P a) m h.

Lemma yields_bind {E A B} (P : A → Prop) (Q : B → Prop) (m : io E A) (f : A → io E B) :
  yields P m → (∀ a, P a → yields Q (f a)) → yields Q (m ≫= f).
Proof.
  intros Hm Hf h. apply safe_bind. eapply safe_weaken; [|apply Hm].
  intros [a|e] h' H; [by apply Hf, H|done].
Qed.

Lemma yields_then {E A B} (Q : B → Prop) (m : io E A) (f : A → io E B) :
  (∀ a, yields Q (f a)) → yields Q (m ≫= f).
Proof. intros Hf h. apply safe_then; [done|]. intros a h'. apply Hf. Qed.

Lemma yields_ret {E A} (P : A → Prop) (r : result E A) :
  (∀ a, r = Ok a → P a) → yields P (Ret r).
Proof. by intros H h. Qed.

Lemma yields_map_err {E F A} (P : A → Prop) (f : E → F) (m : io E A) :
  yields P m → yields P (io_map_err f m).
Proof.
  intros Hm h. apply safe_map_err. eapply safe_weaken; [|apply Hm]. intros [a|e] h' H; [|done].
  intros a' [= <-]. by apply H.
Qed.

Lemma yields_do {E A} (P : A → Prop) c (k : bool → io E A) :
  (∀ ok, yields P (k ok)) → yields P (Do c k).
Proof. intros H h. split; [done|]. intros ok h' _. apply H. Qed.

Lemma yields_read {E A} (P : A → Prop) p (k : option str → io E A) :
  (∀ o, yields P (k o)) → yields P (ReadToString p k).
Proof. intros H h. split; [done|]. intros o h' _. apply H. Qed.

Lemma yields_reaches {E A} (P : A → Prop) (m : io E A) a h h' :
  yields P m → reaches m h (Ret (Ok a)) h' → P a.
Proof. intros Hm Hr. by apply (proj2 (safe_reaches _ _ _ _ _ _ (Hm h) Hr) _ eq_refl). Qed.

(** ** The calls of a program *)

(** Whatever is answered, the program only makes calls that satisfy [P]. *)
Fixpoint calls_only {E A} (P : syscall → Prop) (m : io E A) : Prop :=
  match m with
  | Ret _ => True
  | Do c k => P c ∧ ∀ ok, calls_only P (k ok)
  | ReadToString p k => ∀ o, calls_only P (k o)
  | ReadFile p k => ∀ o, calls_only P (k o)
  | ReadDir p k => ∀ o, calls_only P (k o)
  end.

Lemma calls_only_bind {E A B} P (m : io E A) (f : A → io E B) :
  calls_only P m → (∀ a, calls_only P (f a)) → calls_only P (m ≫= f).
Proof.
  intros Hm Hf. revert Hm. induction m as [[a|e]|c k IH|p k IH|p k IH|p k IH]; cbn.
  - intros _. apply Hf.
  - done.
  - intros [Hc Hk]. split; [done|]. intros ok. by apply IH.
  - intros Hk o. by apply IH.
  - intros Hk o. by apply IH.
  - intros Hk o. by apply IH.
Qed.

(** What follows a program may rely on what it yields. *)
Lemma calls_only_yields {E A B} P (Q : A → Prop) (m : io E A) (f : A → io E B) :
  calls_only P m → yields Q m → (∀ a, Q a → calls_only P (f a)) → calls_only P (m ≫= f).
Proof.
  intros Hm Hy Hf. specialize (Hy []). revert Hm Hy. generalize (@nil event).
  induction m as [[a|e]|c k IH|p k IH|p k IH|p k IH]; intros h Hm [_ Hy]; cbn in *; [by apply Hf, Hy|done|..].
  - destruct Hm as [Hc Hm]. split; [done|]. intros ok. by eapply IH; [|apply Hy].
  - intros o. by eapply IH; [|apply Hy].
  - intros o. by eapply IH; [|apply Hy].
  - intros o. by eapply IH; [|apply Hy].
Qed.

Lemma calls_only_match {E F A B} P (m : io E A) (f : result E A → io F B) :
  calls_only P m → (∀ r, calls_only P (f r)) → calls_only P (io_match m f).
Proof.
  intros Hm Hf. induction m as [r|c k IH|p k IH|p k IH|p k IH]; cbn in *; [done| |auto..].
  destruct Hm. split; [done|]. auto.
Qed.

Lemma calls_only_map_err {E F A} P (f : E → F) (m : io E A) :
  calls_only P m → calls_only P (io_map_err f m).
Proof.
  induction m as [r|c k IH|p k IH|p k IH|p k IH]; cbn; [done| |auto..].
  intros [Hc Hk]. split; [done|]. auto.
Qed.

Lemma calls_only_attempt {E} P c (e : E) : P c → calls_only P (attempt c e).
Proof. intros Hc. split; [done|]. by intros []. Qed.

Lemma calls_only_mono {E A} (P P' : syscall → Prop) (m : io E A) :
  (∀ c, P c → P' c) → calls_only P m → calls_only P' m.
Proof.
  intros H. induction m as [r|c k IH|p k IH|p k IH|p k IH]; cbn; [done| |auto..].
  intros [Hc Hk]. auto.
Qed.

Lemma calls_only_any {E A} (m : io E A) : calls_only (λ _, True) m.
Proof. by induction m; cbn; auto. Qed.

(** Walk through a program whose calls satisfy the predicate on sight. *)
Ltac calls :=
  repeat first
    [ progress intros
    | done
    | assumption
    | apply calls_only_bind
    | apply calls_only_attempt
    | apply calls_only_map_err
    | match goal with |- calls_only _ (Do _ _) => split; [done|intros []] end
    | match goal with |- calls_only _ (Ret _) => exact Logic.I end
    | match goal with |- calls_only _ (if ?b then _ else _) => destruct b end
    | match goal with |- calls_only _ (match ?o with Some _ => _ | None => _ end) => destruct o end
    | match goal with |- calls_only _ (of_outcome ?o) => destruct o end
    | match goal with |- calls_only _ (ReadToString _ _) => intros ? end
    | match goal with |- calls_only _ (ReadFile _ _) => intros ? end ].

Definition event_call (P : syscall → Prop) (e : event) : Prop :=
  match e with Called c _ => P c | _ => True end.

(** The history grows by events of such calls. *)
Lemma calls_only_history {E A} P (m : io E A) (h : list event) :
  calls_only P m →
  safe (λ h', ∃ t, h' = h ++ t ∧ Forall (event_call P) t)
    (λ _ h', ∃ t, h' = h ++ t ∧ Forall (event_call P) t) m h.
Proof.
  intros Hm.
  assert (∀ h0, (∃ t, h0 = h ++ t ∧ Forall (event_call P) t) →
    safe (λ h', ∃ t, h' = h ++ t ∧ Forall (event_call P) t)
      (λ _ h', ∃ t, h' = h ++ t ∧ Forall (event_call P) t) m h0) as Hgen.
  2: { apply Hgen. exists []. by rewrite app_nil_r. }
  assert (∀ h0 e, (∃ t, h0 = h ++ t ∧ Forall (event_call P) t) → event_call P e →
    ∃ t, h0 ++ [e] = h ++ t ∧ Forall (event_call P) t) as Hsnoc.
  { intros h0 e (t & -> & Ht) He. exists (t ++ [e]). split; [by rewrite app_assoc|].
    apply Forall_app_2; [done|by constructor]. }
  induction m as [r|c k IH|p k IH|p k IH|p k IH]; intros h0 Hh; (split; [done|]); cbn in *.
  - done.
  - intros ok h1 ->. destruct Hm as [Hc Hk]. apply IH; [done|]. by apply Hsnoc.
  - intros o h1 ->. apply IH; [done|]. by apply Hsnoc.
  - intros o h1 ->. apply IH; [done|]. by apply Hsnoc.
  - intros o h1 ->. apply IH; [done|]. by apply Hsnoc.
Qed.

Lemma calls_only_events {E A} P (m : io E A) (h : list event) :
  calls_only P m → Forall (event_call P) h →
  safe (Forall (event_call P)) (λ _, Forall (event_call P)) m h.
Proof.
  intros Hm Hh. eapply safe_mono; [..|by apply calls_only_history].
  - intros h' (t & -> & Ht). by apply Forall_app_2.
  - intros _ h' (t & -> & Ht) _. by apply Forall_app_2.
Qed.

(** ** Runs of a composed program *)

Lemma safe_reached {W} {WW : World W} {E A} (m : io E A) s :
  safe (λ _, True) (λ r s', reaches m s (Ret r) s') m s.
Proof.
  assert (∀ m' s', reaches m s m' s' → safe (λ _, True) (λ r s', reaches m s (Ret r) s') m' s') as H.
  2: { apply H. constructor. }
  intros m'. induction m' as [r|c k IH|p k IH|p k IH|p k IH]; intros s' Hr; (split; [done|]); [done|..];
    intros o s'' Ho; apply IH; (eapply rtc_r; [exact Hr|]); by constructor.
Qed.

Lemma reaches_match {W} {WW : World W} {E F A A'} (m : io E A) (f : result E A → io F A') s r s' :
  reaches (io_match m f) s (Ret r) s' →
  ∃ x sx, reaches m s (Ret x) sx ∧ reaches (f x) sx (Ret r) s'.
Proof.
  intros Hr. refine (proj2 (safe_reaches (λ _, True)
    (λ r s', ∃ x sx, reaches m s (Ret x) sx ∧ reaches (f x) sx (Ret r) s') _ _ _ _ _ Hr) _ eq_refl).
  apply safe_match. eapply safe_weaken; [|apply safe_reached]. intros x sx Hx.
  eapply safe_weaken; [|apply safe_reached]. intros r' s1 H1. by exists x, sx.
Qed.

Lemma reaches_ret {W} {WW : World W} {E A} (r : result E A) s m s' :
  reaches (Ret r) s m s' → m = Ret r ∧ s' = s.
Proof. intros H. unfold reaches in H. inversion H as [|x y z Hs]; subst; [done|]. by inversion Hs. Qed.

(** ** Programs that stop at a failure *)

(** Calls whose failure programs may ignore: questions, waiting, what is sent
    to others and removing a file. *)
Definition may_fail (c : syscall) : Prop :=
  match c with
  | Exists _ | IsDir _ | ProcessExists _ | Sleep _ | Respond _ _ | SendTo _ _ | RemoveFile _ => True
  | _ => False
  end.

(** The event of a call that may not fail, or a read, that failed. *)
Definition failed_event (e : event) : Prop :=
  match e with
  | Called c ok => ok = false ∧ ¬ may_fail c
  | WasRead _ o => o = None
  | WasLoaded _ r => ∃ m, r = Err m
  | WasListed _ o => o = None
  end.

(** At every other failure the program ends, with an error for that failure. *)
Fixpoint strict {E A} (P : event → E → Prop) (m : io E A) : Prop :=
  match m with
  | Ret _ => True
  | Do c k => (may_fail c ∨ ∃ e, k false = Ret (Err e) ∧ P (Called c false) e) ∧ ∀ ok, strict P (k ok)
  | ReadToString p k => (∃ e, k None = Ret (Err e) ∧ P (WasRead p None) e) ∧ ∀ o, strict P (k o)
  | ReadFile p k =>
      (∀ msg, ∃ e, k (Err msg) = Ret (Err e) ∧ P (WasLoaded p (Err msg)) e) ∧ ∀ r, strict P (k r)
  | ReadDir p k => (∃ e, k None = Ret (Err e) ∧ P (WasListed p None) e) ∧ ∀ o, strict P (k o)
  end.

Lemma strict_bind {E A B} P (m : io E A) (f : A → io E B) :
  strict P m → (∀ a, strict P (f a)) → strict P (m ≫= f).
Proof.
  intros Hm Hf. induction m as [[a|e]|c k IH|p k IH|p k IH|p k IH]; cbn in *; [done|done|..];
    destruct Hm as [He Hk]; (split; [|by auto]).
  - destruct He as [?|(e & -> & ?)]; [by left|right; by exists e].
  - destruct He as (e & -> & ?). by exists e.
  - intros msg. destruct (He msg) as (e & -> & ?). by exists e.
  - destruct He as (e & -> & ?). by exists e.
Qed.

Lemma strict_map_err {E F A} (P : event → E → Prop) (Q : event → F → Prop) (f : E → F) (m : io E A) :
  (∀ ev e, P ev e → Q ev (f e)) → strict P m → strict Q (io_map_err f m).
Proof.
  intros HP Hm. induction m as [r|c k IH|p k IH|p k IH|p k IH]; cbn in *; [done|..];
    destruct Hm as [He Hk]; (split; [|by auto]).
  - destruct He as [?|(e & -> & ?)]; [by left|right; exists (f e); auto].
  - destruct He as (e & -> & ?). exists (f e). auto.
  - intros msg. destruct (He msg) as (e & -> & ?). exists (f e). auto.
  - destruct He as (e & -> & ?). exists (f e). auto.
Qed.

Lemma strict_attempt {E} (P : event → E → Prop) c e : P (Called c false) e → strict P (attempt c e).
Proof. intros He. split; [right; by exists e|by intros []]. Qed.

Lemma strict_ret_bind {E A B} P (r : result E A) (f : A → io E B) :
  (∀ a, strict P (f a)) → strict P (Ret r ≫= f).
Proof. intros Hf. by apply strict_bind. Qed.

(** Such a failure is the last event of a run that has ended with its error. *)
Lemma strict_reaches {E A} P (m m' : io E A) (h0 h : list event) :
  strict P m → Forall (λ ev, ¬ failed_event ev) h0 → reaches m h0 m' h →
  ∀ ev, ev ∈ h → failed_event ev → last h = Some ev ∧ ∃ e, m' = Ret (Err e) ∧ P ev e.
Proof.
  intros Hm Hh Hr. unfold reaches in Hr.
  remember (m, h0) as c eqn:Ec. remember (m', h) as c' eqn:Ec'.
  revert m h0 Hm Hh Ec Ec'. induction Hr as [c|c c1 c2 Hstep Hrest IH]; intros m h0 Hm Hh -> Ec'.
  { injection Ec' as -> ->. intros ev Hin Hf. rewrite Forall_forall in Hh. by destruct (Hh ev Hin). }
  assert (∃ ev, c1.2 = h0 ++ [ev] ∧ strict P c1.1
    ∧ (¬ failed_event ev ∨ ∃ e, c1.1 = Ret (Err e) ∧ P ev e)) as (ev & Eh & Hs & Hf).
  { inversion Hstep as [call k w ok w' Hw|p k w o w' Hw|p k w o w' Hw|p k w o w' Hw]; subst;
      cbn in Hw, Hm |- *; subst; destruct Hm as [He Hk]; eexists; (split; [done|]); (split; [apply Hk|]).
    - destruct ok; [left; by intros []|]. destruct He as [?|(e & ? & ?)]; [left; by intros []|right; by exists e].
    - destruct o; [by left|right; exact He].
    - destruct o; [left; by intros []|right; apply He].
    - destruct o; [by left|right; exact He]. }
  destruct c1 as [m1 h1]. cbn in *. subst h1. destruct Hf as [Hf|(e & -> & He)].
  { apply (IH m1 (h0 ++ [ev])); [done| |done..].
    apply Forall_app_2; [done|by apply Forall_singleton]. }
  subst. inversion Hrest as [x Ex|x y z Hst]; subst; [|by inversion Hst].
  intros ev' Hin Hf'. apply elem_of_app in Hin as [Hin| ->%list_elem_of_singleton].
  - rewrite Forall_forall in Hh. by destruct (Hh ev' Hin).
  - split; [apply last_snoc|by exists e].
Qed.

(** ** How long a program runs *)

(** Whatever is answered, the program ends after at most [n] calls. *)
Fixpoint bounded {E A} (n : nat) (m : io E A) : Prop :=
  match m, n with
  | Ret _, _ => True
  | _, O => False
  | Do c k, S n => ∀ ok, bounded n (k ok)
  | ReadToString p k, S n => ∀ o, bounded n (k o)
  | ReadFile p k, S n => ∀ r, bounded n (k r)
  | ReadDir p k, S n => ∀ o, bounded n (k o)
  end.

Lemma bounded_mono {E A} n n' (m : io E A) : (n ≤ n')%nat → bounded n m → bounded n' m.
Proof.
  revert n n'. induction m as [r|c k IH|p k IH|p k IH|p k IH]; intros [|n] [|n'] Hn; cbn;
    try done; try lia; intros Hk o; (eapply IH; [|apply Hk]); lia.
Qed.

Lemma bounded_bind {E A B} n n' (m : io E A) (f : A → io E B) :
  bounded n m → (∀ a, bounded n' (f a)) → bounded (n + n') (m ≫= f).
Proof.
  intros Hm Hf. revert n Hm. induction m as [[a|e]|c k IH|p k IH|p k IH|p k IH]; intros n Hm.
  - eapply bounded_mono; [|apply Hf]. lia.
  - by destruct (n + n')%nat.
  - destruct n as [|n]; [done|]. intros ok. apply IH, Hm.
  - destruct n as [|n]; [done|]. intros o. apply IH, Hm.
  - destruct n as [|n]; [done|]. intros r. apply IH, Hm.
  - destruct n as [|n]; [done|]. intros o. apply IH, Hm.
Qed.

Lemma bounded_attempt {E} c (e : E) : bounded 1 (attempt c e).
Proof. by intros []. Qed.

(** The calls made and those to come stay within the bound. *)
Lemma bounded_reaches {E A} n (m m' : io E A) h h' :
  bounded n m → reaches m h m' h' → ∃ n', bounded n' m' ∧ (length h' + n' ≤ length h + n)%nat.
Proof.
  intros Hm Hr. unfold reaches in Hr. remember (m, h) as c eqn:Ec. remember (m', h') as c' eqn:Ec'.
  revert n m h Hm Ec Ec'. induction Hr as [c|c c1 c2 Hstep _ IH]; intros n m h Hm -> Ec'.
  { injection Ec' as -> ->. by exists n. }
  assert (∃ n1 e, n = S n1 ∧ c1.2 = h ++ [e] ∧ bounded n1 c1.1) as (n1 & e & -> & Eh & Hb).
  { inversion Hstep as [a b c h0 d Hw|a b h0 c d Hw|a b h0 c d Hw|a b h0 c d Hw]; subst;
      cbn in Hw; destruct n as [|n]; try done; subst; exists n; eexists; (split; [done|]);
      (split; [done|apply Hm]). }
  destruct c1 as [m1 h1]. cbn in *. subst.
  destruct (IH n1 m1 (h ++ [e]) Hb eq_refl eq_refl) as (n' & ? & Hle). exists n'. split; [done|].
  rewrite length_app in Hle. cbn in Hle. lia.
Qed.

(** A program that has not ended goes on, whatever the answer. *)
Lemma io_progress {E A} (m : io E A) (h : list event) :
  (∃ r, m = Ret r) ∨ ∃ m' e, io_step (m, h) (m', h ++ [e]).
Proof.
  destruct m as [r|c k|p k|p k|p k]; [left; by eexists|right..].
  - exists (k true), (Called c true). by constructor.
  - exists (k None), (WasRead p None). by constructor.
  - exists (k (Err [])), (WasLoaded p (Err [])). by constructor.
  - exists (k None), (WasListed p None). by constructor.
Qed.

(** ** The run in which no call fails that can succeed *)

Definition exec (c : syscall) (s : fs) : bool * fs :=
  match c with
  | CreateDirAll p =>
      match files s !! p with
      | Some _ => (false, s)
      | None => (true, {| files := files s; dirs := <[p := default 493 (dirs s !! p)]> (dirs s) |})
      end
  | SetPermissions p m =>
      if decide (present s p) then (true, chmod s p m)
      else (false, s)
  | Exists p => (bool_decide (present s p), s)
  | IsDir p => (bool_decide (is_Some (dirs s !! p)), s)
  | OpenTruncate p m =>
      match dirs s !! p with
      | Some _ => (false, s)
      | None => (true, put_file s p
                  {| content := []; file_mode := default m (file_mode <$> files s !! p) |})
      end
  | OpenAppend p m =>
      match dirs s !! p with
      | Some _ => (false, s)
      | None => (true, put_file s p (default {| content := []; file_mode := m |} (files s !! p)))
      end
  | WriteAll p b => (true, append_to s p b)
  | OpenFile p => (bool_decide (present s p), s)
  | Print _ | Eprint _ | CurrentExe | CloneHandle _ | Spawn _
  | Respond _ _ | SendTo _ _ | Sleep _ | SyncAll _ | OpenDir _ | TcpBind _ | UdpBind _
  | SetNonblocking _ | SetBroadcast _ | ProcessExists _ | KillTerm _ => (true, s)
  | Rename p q =>
      match dirs s !! q, files s !! p with
      | None, Some f => (true, {| files := <[q := f]> (delete p (files s)); dirs := dirs s |})
      | _, _ => (false, s)
      end
  | RemoveFile p =>
      match files s !! p with
      | Some _ => (true, remove s p)
      | None => (false, s)
      end
  end.

(** The names of the entries of a directory. *)
Definition child_name (p k : str) : option str :=
  let name := match rsplit_once 47 k with Some (_, f) => f | None => k end in
  if bool_decide (name ≠ [] ∧ path_join p name = k) then Some name else None.

Definition children (s : fs) (p : str) : list str :=
  elements (list_to_set (omap (child_name p)
    ((map_to_list (files s)).*1 ++ (map_to_list (dirs s)).*1)) : gset str).


Fixpoint run {E A} (m : io E A) (s : fs) : result E A * fs :=
  match m with
  | Ret r => (r, s)
  | Do c k => let '(ok, s') := exec c s in run (k ok) s'
  | ReadToString p k => run (k (f ← files s !! p; from_utf8 (content f))) s
  | ReadFile p k => run (k (ok_or (lit "unreadable") (content <$> files s !! p))) s
  | ReadDir p k => run (k (_ ← dirs s !! p; Some (Some <$> children s p))) s
  end.

Lemma exec_effect {I : Environment} c s : effect c s (exec c s).1 (exec c s).2.
Proof.
  destruct c as [p|p m|p|p|p m|p m|p b|p|p q|p|p|p|p|p|p|p|b' b|p b|pid|pid|n|l|l| |p|p];
    cbn [exec effect];
    try done.
  - destruct (files s !! p) eqn:E; cbn; [by split_and!|]. split_and!; [done| |].
    + destruct (dirs s !! p) eqn:Ed; cbn; [by rewrite insert_id|by apply insert_subseteq].
    + intros _. rewrite lookup_insert_eq. by split.
  - case_decide; by split.
  - cbn [fst snd]. by case_bool_decide.
  - cbn [fst snd]. case_bool_decide; [done|]. split; [done|]. intros _. by apply eq_None_not_Some.
  - destruct (dirs s !! p) eqn:E; by split.
  - destruct (dirs s !! p) eqn:E; by split.
  - exists b. by split_and!.
  - destruct (dirs s !! q) eqn:Ed; [done|]. destruct (files s !! p) eqn:E; [|done]. cbn. eauto.
  - split; [done|]. apply bool_decide_eq_true.
  - destruct (files s !! p) eqn:E; [|done]. split; [by eexists|done].
Qed.

Lemma last_component k name :
  match rsplit_once 47 k with Some (_, f) => f | None => k end = name ↔
  (47 ∉ name) ∧ (k = name ∨ ∃ d, k = d ++ 47 :: name).
Proof.
  split.
  - intros <-. destruct (decide (47 ∈ k)) as [Hk|Hk].
    + destruct (rsplit_once_is_Some _ _ Hk) as [[d f] E]. rewrite E.
      apply rsplit_once_Some in E as [-> Hf]. split; [done|right]. by eexists.
    + rewrite rsplit_once_None by done. split; [done|by left].
  - intros [Hn [->|[d ->]]]; [by rewrite rsplit_once_None|by rewrite rsplit_once_app].
Qed.

Lemma path_join_component p name :
  name ≠ [] → (47 ∉ name) → path_join p name = name ∨ ∃ d, path_join p name = d ++ 47 :: name.
Proof.
  intros Hne Hn. unfold path_join. rewrite bool_decide_false.
  2: { destruct name; [done|]. intros [= ->]. apply Hn, elem_of_cons. by left. }
  case_bool_decide as Hp; [|right; by exists p].
  destruct Hp as [->|[p' ->]%last_Some]; [by left|right]. exists p'. by rewrite <- app_assoc.
Qed.

Lemma child_name_Some p k name :
  child_name p k = Some name ↔ name ≠ [] ∧ (47 ∉ name) ∧ path_join p name = k.
Proof.
  unfold child_name. set (f := match rsplit_once 47 k with Some (_, f) => f | None => k end).
  pose proof (proj1 (last_component k f) eq_refl) as [Hf _].
  assert (name ≠ [] → (47 ∉ name) → path_join p name = k → f = name) as Hname.
  { intros Hne Hn <-. apply last_component. split; [done|]. by apply path_join_component. }
  case_bool_decide as Hd; split.
  - intros [= <-]. by destruct Hd.
  - intros (? & ? & ?). f_equal. by apply Hname.
  - done.
  - intros (? & ? & ?). exfalso. apply Hd. by rewrite Hname.
Qed.

Lemma elem_of_children s p name :
  name ∈ children s p ↔ name ≠ [] ∧ (47 ∉ name) ∧ present s (path_join p name).
Proof.
  unfold children. rewrite elem_of_elements, elem_of_list_to_set, list_elem_of_omap.
  unfold present. setoid_rewrite elem_of_app. setoid_rewrite child_name_Some. split.
  - intros (k & Hk & ? & ? & <-). split_and!; [done..|].
    destruct Hk as [Hk|Hk]; apply list_elem_of_fmap in Hk as ([k' f] & -> & Hk%elem_of_map_to_list);
      [left|right]; by eexists.
  - intros (? & ? & Hp). exists (path_join p name). split_and!; try done.
    destruct Hp as [[f Hf]|[f Hf]]; [left|right]; apply list_elem_of_fmap;
      exists (path_join p name, f); (split; [done|]); by apply elem_of_map_to_list.
Qed.

Lemma children_listed s p : list_effect p s (_ ← dirs s !! p; Some (Some <$> children s p)).
Proof.
  intros l Hl. destruct (dirs s !! p); [|done]. injection Hl as <-.
  assert (omap id (Some <$> children s p) = children s p) as E.
  { induction (children s p) as [|x xs IH]; [done|]. cbn. by f_equal. }
  split; [rewrite E; apply NoDup_elements|]. intros name. split.
  - intros (x & [= <-] & Hx)%list_elem_of_fmap. by apply elem_of_children.
  - intros _ ???. apply list_elem_of_fmap. exists name. split; [done|]. by apply elem_of_children.
Qed.

Lemma run_reaches {I : Environment} {E A} (m : io E A) s : reaches m s (Ret (run m s).1) (run m s).2.
Proof.
  revert s. induction m as [r|c k IH|p k IH|p k IH|p k IH]; intros s; cbn [run].
  - constructor.
  - pose proof (exec_effect c s) as He. destruct (exec c s) as [ok s']. cbn [fst snd] in *.
    eapply rtc_l; [by econstructor|]. apply IH.
  - eapply rtc_l; [|apply IH]. constructor. split; [done|]. intros t Ht.
    destruct (files s !! p) as [f|]; [|done]. by exists f.
  - eapply rtc_l; [|apply IH]. constructor. split; [done|]. intros b Hb.
    destruct (files s !! p) as [f|]; [|done]. exists f. split; [done|]. by injection Hb.
  - eapply rtc_l; [|apply IH]. constructor. split; [done|apply children_listed].
Qed.

Lemma run_bind {E A B} (m : io E A) (f : A → io E B) s :
  run (m ≫= f) s =
  match run m s with (Ok a, s') => run (f a) s' | (Err e, s') => (Err e, s') end.
Proof.
  revert s. induction m as [[a|e]|c k IH|p k IH|p k IH|p k IH]; intros s; cbn [mbind io_bind run];
    [done|done| |by apply IH..].
  destruct (exec c s) as [ok s']. apply IH.
Qed.

Lemma run_ret_bind {E A B} (a : A) (f : A → io E B) s : run (Ret (Ok a) ≫= f) s = run (f a) s.
Proof. done. Qed.

Lemma run_match {E F A B} (m : io E A) (f : result E A → io F B) s :
  run (io_match m f) s = run (f (run m s).1) (run m s).2.
Proof.
  revert s. induction m as [r|c k IH|p k IH|p k IH|p k IH]; intros s; cbn [io_match run];
    [done| |by apply IH..].
  destruct (exec c s) as [ok s']. apply IH.
Qed.

Lemma run_map_err {E F A} (f : E → F) (m : io E A) s :
  run (io_map_err f m) s = (map_err f (run m s).1, (run m s).2).
Proof.
  revert s. induction m as [r|c k IH|p k IH|p k IH|p k IH]; intros s; cbn [io_map_err run];
    [done| |by apply IH..].
  destruct (exec c s) as [ok s']. apply IH.
Qed.

Lemma run_attempt {E} c (e : E) s :
  run (attempt c e) s = (if (exec c s).1 then Ok tt else Err e, (exec c s).2).
Proof. cbn [attempt run]. destruct (exec c s) as [[] s']; done. Qed.

(** ** Playing a program against answers *)

Inductive answer :=
| Done (ok : bool)
| Text (o : option str)
| Loaded (r : result str bytes)
| Entries (o : option (list (option str))).

(** The calls a program makes when it is given these answers, and what is left
    of it; it stops at an answer of the wrong kind. *)
Fixpoint replay {E A} (m : io E A) (answers : list answer) (h : list event) : io E A * list event :=
  match answers, m with
  | Done ok :: l, Do c k => replay (k ok) l (h ++ [Called c ok])
  | Text o :: l, ReadToString p k => replay (k o) l (h ++ [WasRead p o])
  | Loaded r :: l, ReadFile p k => replay (k r) l (h ++ [WasLoaded p r])
  | Entries o :: l, ReadDir p k => replay (k o) l (h ++ [WasListed p o])
  | _, _ => (m, h)
  end.

Lemma replay_reaches {E A} (m : io E A) answers h :
  reaches m h (replay m answers h).1 (replay m answers h).2.
Proof.
  revert m h. induction answers as [|[] l IH]; intros [] h; cbn [replay]; try constructor;
    (eapply rtc_l; [by constructor|apply IH]).
Qed.
