(* ===== verification/Files.v ===== *)
(** * Writing authorized_keys (src/src/authorized_keys.rs, file operations)

    [apply_managed_block_to_file] and what it calls, as programs of system
    calls (System.v).  The theorem: whatever fails and whenever the program
    stops, authorized_keys holds its old text or a complete new one, which is
    the update of the old text where the metadata of the file can be read. *)

From S2P Require Import Prelude Str Utf8 SshKeys AuthorizedKeys Paths System.

Local Open Scope N_scope.

(** ** Path operations on normalised paths

    [Path::parent], [file_name] and [with_file_name] for paths without empty
    or "." components and without a trailing separator. *)
Definition parent (p : str) : option str :=
  match rsplit_once 47 p with
  | Some ([], []) => None
  | Some ([], _) => Some (lit "/")
  | Some (d, _) => Some d
  | None => if is_empty p then None else Some []
  end.

Definition file_name (p : str) : option str :=
  let name := match rsplit_once 47 p with Some (_, f) => f | None => p end in
  if is_empty name || bool_decide (name = lit "..") then None else Some name.

Definition with_file_name (p name : str) : str :=
  match rsplit_once 47 p with
  | Some (d, _) => d ++ lit "/" ++ name
  | None => name
  end.

(** ** The operations *)

(** The modes [0o700] and [0o600]. *)
Definition MODE_700 : N := 448.
Definition MODE_600 : N := 384.

Section operations.
Context (default_mode : N).

Definition temp_path_near (path : str) : str :=
  let filename := default (lit "authorized_keys") (file_name path) in
  with_file_name path (filename ++ lit ".tmp").

Definition sync_parent_directory (path : str) : io AuthorizedKeysError unit :=
  match parent path with
  | None => Ret (Err (SyncFailed path))
  | Some dir =>
      _ ← attempt (OpenDir dir) (SyncFailed dir);
      attempt (SyncAll dir) (SyncFailed dir)
  end.

Definition atomic_write (path text : str) : io AuthorizedKeysError unit :=
  let tmp_path := temp_path_near path in
  _ ← attempt (OpenTruncate tmp_path default_mode) (WriteFailed tmp_path);
  _ ← attempt (WriteAll tmp_path (encode text)) (WriteFailed tmp_path);
  _ ← attempt (SyncAll tmp_path) (SyncFailed tmp_path);
  _ ← attempt (Rename tmp_path path) (RenameFailed path);
  _ ← sync_parent_directory path;
  Ret (Ok tt).

Definition read_existing_authorized_keys (path : str) : io AuthorizedKeysError str :=
  Do (Exists path) (λ found : bool,
    if found then
      ReadToString path (λ o, Ret (ok_or (ReadFailed path) o))
    else Ret (Ok [])).

Definition set_ssh_dir_permissions (path : str) : io AuthorizedKeysError unit :=
  attempt (SetPermissions path MODE_700) (SetPermissionsFailed path).

Definition ensure_ssh_directory_permissions (path : str) : io AuthorizedKeysError unit :=
  match parent path with
  | None => Ret (Ok tt)
  | Some dir =>
      _ ← attempt (CreateDirAll dir) (WriteFailed dir);
      set_ssh_dir_permissions dir
  end.

Definition set_authorized_keys_permissions (path : str) : io AuthorizedKeysError unit :=
  attempt (SetPermissions path MODE_600) (SetPermissionsFailed path).

Definition apply_managed_block_to_file (authorized_keys_path : str) (managed_keys : list str) :
    io AuthorizedKeysError str :=
  let path := authorized_keys_path in
  _ ← ensure_ssh_directory_permissions path;
  existing ← read_existing_authorized_keys path;
  updated ← Ret (upsert_managed_block existing managed_keys);
  _ ← atomic_write path updated;
  _ ← set_authorized_keys_permissions path;
  Ret (Ok updated).
End operations.

(** ** What the update keeps *)

(** The text that the update starts from. *)
Definition old_text (s : fs) (path existing : str) : Prop :=
  match files s !! path with
  | Some f => from_utf8 (content f) = Some existing
  | None => existing = []
  end.

Lemma old_text_unique s path a b : old_text s path a → old_text s path b → a = b.
Proof. unfold old_text. destruct (files s !! path); [congruence|by intros -> ->]. Qed.

(** The text that the update really starts from: the old text, or nothing where
    the question whether the file exists may be answered wrongly. *)
Definition base_text {I : Environment} (s : fs) (path existing : str) : Prop :=
  old_text s path existing ∨ existing = [] ∧ ¬ stat_works path.

Lemma base_text_old {I : Environment} s path existing :
  stat_works path → base_text s path existing → old_text s path existing.
Proof. by intros ? [?|[_ []]]. Qed.

Section update.
Context {I : Environment} (default_mode : N) (path : str) (keys : list str) (s0 : fs).
Let tmp : str := temp_path_near path.
Hypothesis tmp_path : tmp ≠ path.

(** Every file but the target and the temporary file is untouched, and the
    target has its old text or the whole new one. *)
Definition atomic (s : fs) : Prop :=
  (∀ q, q ≠ path → q ≠ tmp → files s !! q = files s0 !! q)
  ∧ (content <$> files s !! path = content <$> files s0 !! path
     ∨ ∃ existing t, base_text s0 path existing ∧ upsert_managed_block existing keys = Ok t
         ∧ content <$> files s !! path = Some (encode t)).

(** The files but the temporary one are those of the start. *)
Definition untouched (s : fs) : Prop := ∀ q, q ≠ tmp → files s !! q = files s0 !! q.

Lemma untouched_atomic s : untouched s → atomic s.
Proof. intros H. split; [auto|]. left. by rewrite H. Qed.

Lemma untouched_tmp s f : untouched s → untouched (put_file s tmp f).
Proof. intros H q Hq. cbn. rewrite lookup_insert_ne by done. by apply H. Qed.

Lemma ensure_safe s :
  files s = files s0 →
  safe atomic (λ r s', files s' = files s0
      ∧ (r = Ok tt → ∀ dir, parent path = Some dir → dirs s' !! dir = Some MODE_700))
    (ensure_ssh_directory_permissions path) s.
Proof.
  intros Hs. assert (∀ s', files s' = files s0 → atomic s') as Ha.
  { intros s' E. apply untouched_atomic. intros q _. by rewrite E. }
  unfold ensure_ssh_directory_permissions. destruct (parent path) as [dir|].
  2: { split; [by apply Ha|]. split; [done|]. intros _ ? [=]. }
  apply safe_bind, safe_attempt; [by apply Ha| |].
  - intros s1 (E1 & _ & Hok). destruct (Hok eq_refl) as [Hf _]. rewrite Hs in E1.
    split; [by apply Ha|]. unfold set_ssh_dir_permissions.
    assert (files (chmod s1 dir MODE_700) = files s0 ∧ dirs (chmod s1 dir MODE_700) !! dir = Some MODE_700)
      as [E2 D2].
    { unfold chmod. rewrite E1, <- Hs, Hf. cbn. split; [congruence|apply lookup_insert_eq]. }
    apply safe_attempt; [by apply Ha| |].
    + intros s2 [_ ->]. split; [by apply Ha|]. split; [done|]. by intros _ ? [= <-].
    + intros s2 [_ ->]. split; [by apply Ha|]. by split.
  - intros s1 (E1 & _ & _). rewrite Hs in E1. split; [by apply Ha|]. by split.
Qed.

Lemma read_safe s :
  files s = files s0 →
  safe atomic (λ r s', s' = s ∧ ∀ existing, r = Ok existing → base_text s0 path existing)
    (read_existing_authorized_keys path) s.
Proof.
  intros Hs. assert (atomic s) as Ha.
  { apply untouched_atomic. intros q _. by rewrite Hs. }
  split; [done|]. intros found s' [-> Hf]. destruct found; cbn.
  - split; [done|]. intros o s' [-> Ho]. split; [done|]. split; [done|]. intros existing E.
    apply ok_or_Ok in E. destruct (Ho _ E) as (f & Hl & Hd). left. unfold old_text.
    by rewrite <- Hs, Hl.
  - split; [done|]. split; [done|]. intros existing [= <-].
    destruct (files s !! path) eqn:El.
    + right. split; [done|]. intros Hw. apply (Hf Hw). left. by eexists.
    + left. unfold old_text. by rewrite <- Hs, El.
Qed.

(** The state after the rename: the target has the new text. *)
Definition written (t : str) (d : gmap str N) (s : fs) : Prop :=
  content <$> files s !! path = Some (encode t) ∧ files s !! tmp = None ∧ dirs s = d
  ∧ ∀ q, q ≠ path → q ≠ tmp → files s !! q = files s0 !! q.

Lemma written_atomic existing t d s :
  base_text s0 path existing → upsert_managed_block existing keys = Ok t →
  written t d s → atomic s.
Proof. intros Ho Hu (Hc & _ & _ & Hf). split; [done|]. right. by exists existing, t. Qed.

Lemma sync_parent_safe (s : fs) :
  atomic s → safe atomic (λ _ s', s' = s) (sync_parent_directory path) s.
Proof.
  intros Ha. unfold sync_parent_directory. destruct (parent path) as [dir|]; [|by split].
  apply safe_bind, safe_attempt; [done| |by intros s' ->].
  intros s' ->. split; [done|]. apply safe_attempt; [done| |]; by intros s' ->.
Qed.

Lemma rename_written t s f :
  untouched s → files s !! tmp = Some f → content f = encode t →
  written t (dirs s) {| files := <[path := f]> (delete tmp (files s)); dirs := dirs s |}.
Proof.
  intros Hu Ht Hc. unfold written. cbn. rewrite lookup_insert_eq. cbn. rewrite Hc.
  split_and!; [done| |done|].
  - rewrite lookup_insert_ne by done. apply lookup_delete_eq.
  - intros q Hp Hq. rewrite lookup_insert_ne by done. rewrite lookup_delete_ne by done. by apply Hu.
Qed.

Lemma write_safe existing t s :
  files s = files s0 → base_text s0 path existing → upsert_managed_block existing keys = Ok t →
  safe atomic (λ r s', r = Ok tt → written t (dirs s) s') (atomic_write default_mode path t) s.
Proof.
  intros Hs Ho Hu. assert (untouched s) as H0 by (intros q _; by rewrite Hs).
  unfold atomic_write. fold tmp.
  apply safe_bind, safe_attempt; [by apply untouched_atomic| |].
  2: { intros s' [_ ->]. split; [by apply untouched_atomic|done]. }
  intros s1 [_ E1]. assert (untouched s1) as H1 by (subst s1; by apply untouched_tmp).
  split; [by apply untouched_atomic|].
  apply safe_bind, safe_attempt; [by apply untouched_atomic| |].
  2: { intros s2 (w & _ & _ & ->). split; [|done]. apply untouched_atomic.
       unfold append_to. destruct (files s1 !! tmp); [by apply untouched_tmp|done]. }
  intros s2 (w & _ & Hw & E2). rewrite Hw in E2 by done.
  unfold append_to in E2. subst s1. cbn in E2. rewrite lookup_insert_eq in E2. cbn in E2.
  assert (untouched s2) as H2 by (subst s2; by repeat apply untouched_tmp).
  split; [by apply untouched_atomic|].
  apply safe_bind, safe_attempt; [by apply untouched_atomic| |].
  2: { intros s3 ->. split; [by apply untouched_atomic|done]. }
  intros s3 ->. split; [by apply untouched_atomic|].
  apply safe_bind, safe_attempt; [by apply untouched_atomic| |].
  2: { intros s4 ->. split; [by apply untouched_atomic|done]. }
  intros s4 (_ & f & Hf & E4).
  assert (written t (dirs s) s4) as Hw4.
  { subst s4. replace (dirs s) with (dirs s2) by by subst s2.
    apply rename_written; [done|done|]. subst s2. cbn in Hf.
    rewrite lookup_insert_eq in Hf. by injection Hf as <-. }
  pose proof (written_atomic _ _ _ _ Ho Hu Hw4) as Ha4. split; [done|].
  apply safe_bind. eapply safe_weaken; [|by apply sync_parent_safe].
  intros r s' ->. destruct r; [|done]. by split.
Qed.

Lemma apply_safe :
  safe atomic (λ r s', ∀ t, r = Ok t →
      (∃ existing, base_text s0 path existing ∧ upsert_managed_block existing keys = Ok t)
      ∧ files s' !! path = Some {| content := encode t; file_mode := MODE_600 |}
      ∧ files s' !! tmp = None
      ∧ ∀ dir, parent path = Some dir → dirs s' !! dir = Some MODE_700)
    (apply_managed_block_to_file default_mode path keys) s0.
Proof.
  unfold apply_managed_block_to_file.
  apply safe_bind. eapply safe_weaken; [|by apply ensure_safe].
  intros [[]|e] s1 [Hs1 Hd]; [|done]. specialize (Hd eq_refl).
  apply safe_bind. eapply safe_weaken; [|by apply read_safe].
  intros [existing|e] s2 [-> Ho]; [|done]. specialize (Ho _ eq_refl).
  apply safe_bind. split; [apply untouched_atomic; intros q _; by rewrite Hs1|].
  destruct (upsert_managed_block existing keys) as [t|e] eqn:Hu; [|done].
  apply safe_bind. eapply safe_weaken; [|by eapply write_safe].
  intros [[]|e] s3 Hw; [|done]. specialize (Hw eq_refl).
  pose proof (written_atomic _ _ _ _ Ho Hu Hw) as Ha. pose proof Hw as (Hc & Ht & Hd3 & Hf).
  apply fmap_Some in Hc as (f & Hl & Hcf).
  apply safe_bind, safe_attempt; [done| |].
  - intros s4 [_ ->]. unfold chmod. rewrite Hl. rewrite <- Hcf.
    assert (atomic (put_file s3 path {| content := encode t; file_mode := MODE_600 |})) as Ha'.
    { split; [|right].
      - intros q Hp Hq. cbn. rewrite lookup_insert_ne by done. by apply Hf.
      - exists existing, t. split_and!; [done|done|]. cbn. by rewrite lookup_insert_eq. }
    split; [done|]. split; [done|].
    intros t' [= <-]. split_and!; [by exists existing|cbn; by rewrite lookup_insert_eq| |].
    + cbn. by rewrite lookup_insert_ne.
    + intros dir Hdir. cbn. rewrite Hd3. by apply Hd.
  - intros s4 [_ ->]. split; [done|]. done.
Qed.
End update.

(** ** The temporary path *)

Lemma rsplit_once_parts c p a b : rsplit_once c p = Some (a, b) → p = a ++ c :: b.
Proof. intros H. by apply rsplit_once_Some in H as [-> _]. Qed.

(** The temporary file is never the target itself. *)
Lemma temp_path_ne path : temp_path_near path ≠ path.
Proof.
  assert (∀ d name, d ++ name ++ lit ".tmp" ≠ d ++ name) as Hlong.
  { intros d name E. apply (f_equal length) in E. rewrite !length_app in E.
    change (length (lit ".tmp")) with 4%nat in E. lia. }
  assert (∀ d f, last (d ++ f ++ lit ".tmp") = Some 112) as Hlast.
  { intros d f. by rewrite app_assoc, last_app. }
  unfold temp_path_near, file_name, with_file_name.
  destruct (rsplit_once 47 path) as [[d name]|] eqn:Er.
  - apply rsplit_once_parts in Er as ->. unfold is_empty. case_bool_decide as He; cbn [orb].
    { subst name. cbn [default]. intros E. apply (f_equal last) in E.
      rewrite (app_assoc d), Hlast, last_app in E. done. }
    case_bool_decide as Hd; cbn [default].
    { subst name. intros E. apply (f_equal last) in E.
      rewrite (app_assoc d), Hlast, last_app in E. done. }
    change (d ++ 47 :: name) with (d ++ [47] ++ name). rewrite !(app_assoc d). apply Hlong.
  - unfold is_empty. case_bool_decide as He; cbn [orb]; [by subst|].
    case_bool_decide as Hd; cbn [default]; [by subst|]. apply (Hlong []).
Qed.

(** *** The update when nothing is in the way *)

#[local] Ltac lengths :=
  rewrite ?length_app; change (length (lit "/")) with 1%nat;
  change (length (lit ".tmp")) with 4%nat; cbn [length]; lia.

Lemma parent_other path dir :
  parent path = Some dir → dir ≠ path ∧ temp_path_near path ≠ dir.
Proof.
  unfold parent, temp_path_near, with_file_name.
  generalize (default (lit "authorized_keys") (file_name path)). intros name.
  assert (∀ a b : str, (length a < length b)%nat → a ≠ b) as Hlt by (intros a b Hl ->; lia).
  assert (∀ a b : str, (length b < length a)%nat → a ≠ b) as Hgt by (intros a b Hl ->; lia).
  destruct (rsplit_once 47 path) as [[d f]|] eqn:Er.
  - apply rsplit_once_parts in Er as ->. destruct d as [|x d].
    + destruct f as [|y f]; [done|]. intros [= <-]. split; [by destruct f|]. apply Hgt. lengths.
    + intros [= <-]. split; [apply Hlt|apply Hgt]; lengths.
  - unfold is_empty. case_bool_decide as He; [done|]. intros [= <-]. split; [done|].
    apply Hgt. lengths.
Qed.

Lemma run_ensure s path dir :
  parent path = Some dir → files s !! dir = None →
  ∃ m, run (ensure_ssh_directory_permissions path) s
       = (Ok tt, {| files := files s; dirs := <[dir := m]> (dirs s) |}).
Proof.
  intros Hp Hf. unfold ensure_ssh_directory_permissions. rewrite Hp, run_bind, run_attempt.
  cbn [exec]. rewrite Hf. cbn [fst snd]. unfold set_ssh_dir_permissions. rewrite run_attempt.
  cbn [exec files dirs]. rewrite decide_True by (right; cbn; rewrite lookup_insert_eq; by eexists).
  cbn [fst snd]. unfold chmod. cbn [files]. rewrite Hf. cbn [dirs]. rewrite insert_insert_eq.
  by eexists.
Qed.

Lemma run_read s path existing :
  dirs s !! path = None → old_text s path existing →
  run (read_existing_authorized_keys path) s = (Ok existing, s).
Proof.
  intros Hd Ho. unfold read_existing_authorized_keys, old_text in *. cbn [run exec].
  destruct (files s !! path) as [f|] eqn:Ef.
  - rewrite bool_decide_true by (left; by eexists). cbn [run]. rewrite Ef.
    cbn [mbind option_bind]. by rewrite Ho.
  - rewrite bool_decide_false by (by intros [[??]|[??]]; congruence). cbn [run]. by rewrite Ho.
Qed.

Lemma run_write default_mode s path dir t :
  parent path = Some dir → dirs s !! path = None → dirs s !! temp_path_near path = None →
  ∃ f, run (atomic_write default_mode path t) s =
       (Ok tt, {| files := <[path := f]> (delete (temp_path_near path) (files s)); dirs := dirs s |}).
Proof.
  intros Hp Hd Ht. unfold atomic_write. set (tmp := temp_path_near path) in *.
  rewrite run_bind, run_attempt. cbn [exec]. rewrite Ht. cbn [fst snd].
  rewrite run_bind, run_attempt. cbn [exec fst snd].
  unfold append_to. cbn [files put_file]. rewrite lookup_insert_eq.
  rewrite run_bind, run_attempt. cbn [exec fst snd].
  rewrite run_bind, run_attempt. cbn [exec dirs put_file files].
  rewrite Hd, lookup_insert_eq. cbn [fst snd]. rewrite insert_insert_eq, delete_insert_eq.
  rewrite run_bind. unfold sync_parent_directory. rewrite Hp, run_bind, run_attempt.
  cbn [exec fst snd]. rewrite run_attempt. cbn [exec fst snd run]. by eexists.
Qed.

Lemma run_update default_mode s path keys dir existing t :
  parent path = Some dir → files s !! dir = None → dirs s !! path = None →
  dirs s !! temp_path_near path = None → old_text s path existing →
  upsert_managed_block existing keys = Ok t →
  (run (apply_managed_block_to_file default_mode path keys) s).1 = Ok t.
Proof.
  intros Hp Hf Hd Ht Ho Hu. destruct (parent_other _ _ Hp) as [Hne Hnt].
  unfold apply_managed_block_to_file. rewrite run_bind.
  destruct (run_ensure s path dir Hp Hf) as [m ->]. rewrite run_bind.
  rewrite (run_read _ path existing); [|cbn; by rewrite lookup_insert_ne|exact Ho].
  rewrite run_bind, Hu. cbn [run]. rewrite run_bind.
  destruct (run_write default_mode {| files := files s; dirs := <[dir := m]> (dirs s) |} path dir t)
    as [f ->]; [done|cbn; by rewrite lookup_insert_ne..|].
  rewrite run_bind. unfold set_authorized_keys_permissions. rewrite run_attempt. cbn [exec files].
  rewrite decide_True by (left; cbn; rewrite lookup_insert_eq; by eexists). done.
Qed.

(** ** Properties *)

(** C13: the update of authorized_keys is atomic.  In every state of every run,
    whatever calls fail and wherever it stops, every file but the target and
    its temporary file is untouched and the target holds its old contents or
    all of a new text.  The new text is the update of the text the target held,
    except where reading the metadata of the target may fail: there it may be
    the update of the empty text.  An update that reports success has written
    its text with mode 0600 in a directory of mode 0700 and left no temporary
    file. *)
Theorem update_is_atomic {I : Environment} (default_mode : N) (path : str) (keys : list str) (s s' : fs)
    (m' : io AuthorizedKeysError str) :
  reaches (apply_managed_block_to_file default_mode path keys) s m' s' →
  let tmp := temp_path_near path in
  let new t := ∃ existing, base_text s path existing ∧ upsert_managed_block existing keys = Ok t in
  (∀ q, q ≠ path → q ≠ tmp → files s' !! q = files s !! q)
  ∧ (content <$> files s' !! path = content <$> files s !! path
     ∨ ∃ t, new t ∧ content <$> files s' !! path = Some (encode t))
  ∧ (∀ t, m' = Ret (Ok t) →
       new t ∧ files s' !! path = Some {| content := encode t; file_mode := MODE_600 |}
       ∧ files s' !! tmp = None
       ∧ ∀ dir, parent path = Some dir → dirs s' !! dir = Some MODE_700).
Proof.
  intros H tmp new.
  destruct (safe_reaches _ _ _ _ _ _
    (apply_safe default_mode path keys s (temp_path_ne path)) H) as [[Hf Hc] Hpost].
  split; [done|]. split.
  - destruct Hc as [Hc|(existing & t & ? & ? & ?)]; [by left|right]. exists t. split; [|done].
    by exists existing.
  - intros t ->. by apply (Hpost (Ok t)).
Qed.

(** The update is not stopped by its own calls.  When the parent of the
    target is not a file, neither the target nor its temporary path is a
    directory, and the text of the target can be updated, the run in which
    every call succeeds that can ends with the new text; it is one of the runs
    of the program. *)
Theorem update_succeeds {I : Environment} (default_mode : N) (path dir existing t : str) (keys : list str) (s : fs) :
  parent path = Some dir → files s !! dir = None → dirs s !! path = None →
  dirs s !! temp_path_near path = None →
  old_text s path existing → upsert_managed_block existing keys = Ok t →
  ∃ s', reaches (apply_managed_block_to_file default_mode path keys) s (Ret (Ok t)) s'.
Proof.
  intros. eexists. erewrite <- run_update by done. apply run_reaches.
Qed.

(** ** Witnesses *)

Definition sample_fs : fs :=
  {| files := {[lit "/home/u/.ssh/authorized_keys" :=
         {| content := encode (lit "ssh-rsa AAAA mine"); file_mode := 420 |}]};
     dirs := {[lit "/home/u/.ssh" := 493]} |}.

Definition sample_update : io AuthorizedKeysError str :=
  apply_managed_block_to_file 420 (lit "/home/u/.ssh/authorized_keys") [lit "ssh-rsa AAAAB3NzaC1yc2E"].

Lemma update_is_atomic_witness :
  ∃ t, run sample_update sample_fs = (Ok t, (run sample_update sample_fs).2)
  ∧ files (run sample_update sample_fs).2 !! lit "/home/u/.ssh/authorized_keys"
    = Some {| content := encode t; file_mode := MODE_600 |}
  ∧ files (run sample_update sample_fs).2 !! lit "/home/u/.ssh/authorized_keys.tmp" = None.
Proof.
  pose proof (@update_is_atomic no_environment 420 (lit "/home/u/.ssh/authorized_keys")
    [lit "ssh-rsa AAAAB3NzaC1yc2E"] sample_fs _ _ (@run_reaches no_environment _ _ sample_update sample_fs)) as (_ & _ & H).
  assert (match (run sample_update sample_fs).1 with Ok _ => true | _ => false end = true) as Hr
    by (by vm_compute).
  destruct (run sample_update sample_fs) as [[t|] s]; [|done].
  destruct (H t eq_refl) as (_ & Hf & Ht & _). exists t. split; [done|]. split; [exact Hf|].
  rewrite <- Ht. f_equal.
Defined.

Lemma update_succeeds_witness :
  ∃ t s', reaches (WW := @fs_world no_environment) sample_update sample_fs (Ret (Ok t)) s' ∧ lit "ssh-rsa AAAA mine" ∈ lines t.
Proof.
  destruct (upsert_managed_block (lit "ssh-rsa AAAA mine") [lit "ssh-rsa AAAAB3NzaC1yc2E"])
    as [t|] eqn:E; [|by vm_compute in E].
  exists t.
  destruct (@update_succeeds no_environment 420 (lit "/home/u/.ssh/authorized_keys") (lit "/home/u/.ssh")
    (lit "ssh-rsa AAAA mine") t [lit "ssh-rsa AAAAB3NzaC1yc2E"] sample_fs) as [s' H];
    [by vm_compute..|exact E|].
  exists s'. split; [exact H|]. vm_compute in E. injection E as <-. by_compute.
Defined.

(** The question whether the file exists answered wrongly once: the run goes on
    with the empty text, reports success, and the line of the user is lost. *)
Example failed_stat_loses_lines :
  ∃ t s', reaches (WW := @fs_world faulty_environment) sample_update sample_fs (Ret (Ok t)) s'
  ∧ content <$> files s' !! lit "/home/u/.ssh/authorized_keys" = Some (encode t)
  ∧ lit "ssh-rsa AAAA mine" ∉ lines t.
Proof.
  set (s1 := {| files := files sample_fs; dirs := {[lit "/home/u/.ssh" := 448]} |}).
  set (after := existing ← Ret (Ok []);
    updated ← Ret (upsert_managed_block existing [lit "ssh-rsa AAAAB3NzaC1yc2E"]);
    _ ← atomic_write 420 (lit "/home/u/.ssh/authorized_keys") updated;
    _ ← set_authorized_keys_permissions (lit "/home/u/.ssh/authorized_keys"); Ret (Ok updated)).
  assert (reaches (WW := @fs_world faulty_environment) sample_update sample_fs after s1) as H1.
  { eapply rtc_l; [eapply (@io_call _ (@fs_world faulty_environment)) with (ok := true); by apply (@exec_effect faulty_environment (CreateDirAll (lit "/home/u/.ssh")))|].
    eapply rtc_l; [eapply (@io_call _ (@fs_world faulty_environment)) with (ok := true) (s' := s1); by apply (@exec_effect faulty_environment (SetPermissions (lit "/home/u/.ssh") 448))|].
    eapply rtc_l; [eapply (@io_call _ (@fs_world faulty_environment)) with (ok := false) (s' := s1); by split|].
    apply rtc_refl. }
  exists match (run after s1).1 with Ok t => t | Err _ => [] end, (run after s1).2.
  split; [|split; [by vm_compute|by_compute]].
  unfold reaches in *. etrans; [exact H1|].
  assert ((run after s1).1 = Ok match (run after s1).1 with Ok t => t | Err _ => [] end) as E by (by vm_compute).
  rewrite <- E. apply (@run_reaches faulty_environment).
Qed.
