(* ===== verification/Tls.v ===== *)
(** * Transport security (src/src/runtime.rs, TLS)

    [build_transport_security] and the loaders of certificates and keys, as
    programs that read files, and the two ways a connection is used: the
    exchange of [send_http_post] with a peer, and what an accepted connection
    delivers.  The rustls and rustls-pemfile crates and the sockets are
    parameters ([Rustls], [Network]).  The theorems: what the configuration
    builds, with which error it fails, and that with TLS nothing is exchanged in
    the clear. *)

From S2P Require Import Prelude Str Utf8 Envelope Config Http Ip Paths System.

Local Open Scope N_scope.

(** ** The libraries *)

(** The crates rustls and rustls-pemfile: their types, and the functions the
    code calls; texts are the messages of their errors. *)
Class Rustls := {
  CertificateDer : Type;
  PrivateKeyDer : Type;
  ServerConfig : Type;
  RootCertStore : Type;
  ClientConfig : Type;
  ServerName : Type;
  ServerConnection : Type;
  ClientConnection : Type;
  certs : bytes → result str (list CertificateDer);
  private_key : bytes → result str (option PrivateKeyDer);
  with_single_cert : list CertificateDer → PrivateKeyDer → result str ServerConfig;
  empty_roots : RootCertStore;
  add_parsable_certificates : RootCertStore → list CertificateDer → RootCertStore * N;
  with_root_certificates : RootCertStore → ClientConfig;
  ip_server_name : IpAddr → ServerName;
  server_name_try_from : str → option ServerName;
  new_server_connection : ServerConfig → result str ServerConnection;
  new_client_connection : ClientConfig → ServerName → result str ClientConnection;
  (** What a server session delivers of the raw bytes of its connection. *)
  server_session : ServerConnection → reads → reads
}.

(** Names, sockets and sessions, during one exchange with a peer: sending all
    bytes and reading to the end, in the clear or through a session. *)
Class Network {R : Rustls} := {
  SocketAddr : Type;
  TcpStream : Type;
  to_socket_addrs : str → N → result io_error (list SocketAddr);
  connect_timeout : SocketAddr → N → result io_error TcpStream;
  set_read_timeout : TcpStream → N → result io_error unit;
  set_write_timeout : TcpStream → N → result io_error unit;
  plain_exchange : TcpStream → bytes → result io_error bytes;
  tls_exchange : ClientConnection → TcpStream → bytes → result io_error bytes
}.
Arguments Network R : clear implicits.

(** ** Data *)

Definition IO_TIMEOUT_SECS : N := 3.

Inductive TransportSecurity {R : Rustls} :=
| Tls (server : ServerConfig) (client : ClientConfig) (server_name_override : option str)
| InsecureNoTls.
Arguments TransportSecurity R : clear implicits.

Definition is_tls {R : Rustls} (security : TransportSecurity R) : bool :=
  match security with Tls _ _ _ => true | InsecureNoTls => false end.

(** ** Loading the configuration *)

Section build.
Context {R : Rustls} (home : option str).

Definition load_cert_chain (path : str) : io RuntimeError (list CertificateDer) :=
  _ ← attempt (OpenFile path) (InvalidTlsConfig path);
  ReadFile path (λ pem,
    chain ← Ret (map_err InvalidTlsConfig (pem ← pem; certs pem));
    match chain with
    | [] => Ret (Err (InvalidTlsConfig (lit "no certificates in " ++ path)))
    | _ :: _ => Ret (Ok chain)
    end).

Definition load_private_key (path : str) : io RuntimeError PrivateKeyDer :=
  _ ← attempt (OpenFile path) (InvalidTlsConfig path);
  ReadFile path (λ pem,
    key ← Ret (map_err InvalidTlsConfig (pem ← pem; private_key pem));
    Ret (ok_or (InvalidTlsConfig (lit "no private key in " ++ path)) key)).

Definition build_transport_security (config : AppConfig) : io RuntimeError (TransportSecurity R) :=
  if insecure_no_tls config then Ret (Ok InsecureNoTls)
  else
    cert_path ← Ret (ok_or (MissingTlsConfig (lit "--tls-cert-path")) (tls_cert_path config));
    key_path ← Ret (ok_or (MissingTlsConfig (lit "--tls-key-path")) (tls_key_path config));
    ca_path ← Ret (ok_or (MissingTlsConfig (lit "--tls-ca-path")) (tls_ca_path config));
    let cert_path := expand_home_path home cert_path in
    let key_path := expand_home_path home key_path in
    let ca_path := expand_home_path home ca_path in
    chain ← load_cert_chain cert_path;
    key ← load_private_key key_path;
    server ← Ret (map_err InvalidTlsConfig (with_single_cert chain key));
    ca_certs ← load_cert_chain ca_path;
    let '(roots, added) := add_parsable_certificates empty_roots ca_certs in
    if added =? 0 then
      Ret (Err (InvalidTlsConfig (lit "no valid CA certificates in " ++ ca_path)))
    else Ret (Ok (Tls server (with_root_certificates roots) (tls_server_name config))).
End build.

(** ** Using it *)

Section exchange.
Context {R : Rustls}.

Definition resolve_tls_server_name (address : str) (override_name : option str) :
    result io_error ServerName :=
  let value := trim (default address override_name) in
  match parse_ip value with
  | Some ip => Ok (ip_server_name ip)
  | None => ok_or InvalidServerName (server_name_try_from value)
  end.

Definition resolve_socket_addr {Net : Network R} (address : str) (p : N) : result io_error SocketAddr :=
  addrs ← to_socket_addrs address p;
  ok_or NoAddress (head addrs).

(** The connection and the exchange of [send_http_post]. *)
Definition exchange {Net : Network R} (security : TransportSecurity R) (address : str) (p : N)
    (request : bytes) : result io_error bytes :=
  socket ← resolve_socket_addr address p;
  stream ← connect_timeout socket IO_TIMEOUT_SECS;
  _ ← set_read_timeout stream IO_TIMEOUT_SECS;
  _ ← set_write_timeout stream IO_TIMEOUT_SECS;
  match security with
  | InsecureNoTls => plain_exchange stream request
  | Tls _ client server_name_override =>
      server_name ← resolve_tls_server_name address server_name_override;
      connection ← map_err OtherError (new_client_connection client server_name);
      tls_exchange connection stream request
  end.

(** What an accepted connection delivers to the reader of requests, from its
    raw bytes; nothing if the session cannot be made. *)
Definition accepted_reads (security : TransportSecurity R) (raw : reads) : option reads :=
  match security with
  | InsecureNoTls => Some raw
  | Tls server _ _ =>
      match new_server_connection server with
      | Ok connection => Some (server_session connection raw)
      | Err _ => None
      end
  end.
End exchange.

(** ** What the configuration stands for *)

Section material.
Context {R : Rustls} (home : option str) (config : AppConfig).

Definition missing_tls_value : option str :=
  match tls_cert_path config, tls_key_path config, tls_ca_path config with
  | None, _, _ => Some (lit "--tls-cert-path")
  | _, None, _ => Some (lit "--tls-key-path")
  | _, _, None => Some (lit "--tls-ca-path")
  | Some _, Some _, Some _ => None
  end.

Definition good_chain (s : fs) (path : str) : option (list CertificateDer) :=
  pem ← content <$> files s !! path;
  chain ← ok (certs pem);
  match chain with [] => None | _ :: _ => Some chain end.

Definition good_key (s : fs) (path : str) : option PrivateKeyDer :=
  pem ← content <$> files s !! path;
  key ← ok (private_key pem);
  key.

(** The security that the files of a machine give. *)
Definition tls_material (s : fs) : option (TransportSecurity R) :=
  if insecure_no_tls config then Some InsecureNoTls
  else
    cert_path ← tls_cert_path config;
    key_path ← tls_key_path config;
    ca_path ← tls_ca_path config;
    chain ← good_chain s (expand_home_path home cert_path);
    key ← good_key s (expand_home_path home key_path);
    server ← ok (with_single_cert chain key);
    cas ← good_chain s (expand_home_path home ca_path);
    let '(roots, added) := add_parsable_certificates empty_roots cas in
    if added =? 0 then None
    else Some (Tls server (with_root_certificates roots) (tls_server_name config)).

(** A result that is what the machine gives, or an error about the files. *)
Definition loads {A} (a : option A) (s : fs) (r : result RuntimeError A) (s' : fs) : Prop :=
  s' = s ∧ match r with Ok x => a = Some x | Err e => ∃ m, e = InvalidTlsConfig m end.

Context {I : Environment}.

Lemma load_cert_chain_safe path (s : fs) :
  safe (λ s', s' = s) (loads (good_chain s path) s) (load_cert_chain path) s.
Proof.
  unfold load_cert_chain. apply safe_bind, safe_attempt; [done| |].
  2: { intros s1 [-> _]. split; [done|]. split; [done|by eexists]. }
  intros s1 [-> _]. split; [done|]. split; [done|]. intros r s2 [-> Hr].
  apply safe_ret_bind; [done| |].
  - intros chain Hc%map_err_Ok. apply bind_Ok in Hc as (pem & -> & Hc).
    destruct (Hr _ eq_refl) as (f & Hf & E).
    assert (good_chain s path = match chain with [] => None | _ :: _ => Some chain end) as Hg.
    { unfold good_chain. rewrite Hf. cbn. by rewrite E, Hc. }
    destruct chain; (split; [done|]); split; [done|by eexists|done|done].
  - intros e He. destruct (_ ≫= _) as [|m]; [done|]. injection He as <-. split; [done|by eexists].
Qed.

Lemma load_private_key_safe path (s : fs) :
  safe (λ s', s' = s) (loads (good_key s path) s) (load_private_key path) s.
Proof.
  unfold load_private_key. apply safe_bind, safe_attempt; [done| |].
  2: { intros s1 [-> _]. split; [done|]. split; [done|by eexists]. }
  intros s1 [-> _]. split; [done|]. split; [done|]. intros r s2 [-> Hr].
  apply safe_ret_bind; [done| |].
  - intros key Hk%map_err_Ok. apply bind_Ok in Hk as (pem & -> & Hk).
    destruct (Hr _ eq_refl) as (f & Hf & E).
    assert (good_key s path = key) as Hg.
    { unfold good_key. rewrite Hf. cbn. by rewrite E, Hk. }
    split; [done|]. split; [done|]. destruct key; [done|by eexists].
  - intros e He. destruct (_ ≫= _) as [|m]; [done|]. injection He as <-. split; [done|by eexists].
Qed.

Lemma loads_bind {A B} (a : option A) (b : A → option B) (m : io RuntimeError A)
    (f : A → io RuntimeError B) (s : fs) :
  safe (λ s', s' = s) (loads a s) m s →
  (∀ x, a = Some x → safe (λ s', s' = s) (loads (b x) s) (f x) s) →
  safe (λ s', s' = s) (loads (x ← a; b x) s) (m ≫= f) s.
Proof.
  intros Hm Hf. apply safe_bind. eapply safe_weaken; [|exact Hm].
  intros [x|e] s' [-> H]; [|by split]. eapply safe_weaken; [|by apply Hf].
  intros r s2. by rewrite H.
Qed.

Lemma build_safe (s : fs) :
  insecure_no_tls config = false → missing_tls_value = None →
  safe (λ s', s' = s) (loads (tls_material s) s) (build_transport_security home config) s.
Proof.
  unfold missing_tls_value, tls_material, build_transport_security. intros -> Hm.
  destruct (tls_cert_path config) as [c|], (tls_key_path config) as [k|],
    (tls_ca_path config) as [a|]; try done. clear Hm. cbn [ok_or].
  do 3 (apply loads_bind; [by repeat split|intros ? [= <-]]).
  apply loads_bind; [apply load_cert_chain_safe|]. intros chain _.
  apply loads_bind; [apply load_private_key_safe|]. intros key _.
  apply loads_bind.
  { split; [done|]. split; [done|]. destruct (with_single_cert chain key); [done|by eexists]. }
  intros server _. apply loads_bind; [apply load_cert_chain_safe|]. intros cas _.
  destruct (add_parsable_certificates empty_roots cas) as [roots added].
  destruct (added =? 0); (split; [done|]); (split; [done|]); [by eexists|done].
Qed.

Lemma build_result (s : fs) :
  safe (λ s', s' = s) (λ r s', s' = s ∧
      (insecure_no_tls config = true → r = Ok InsecureNoTls)
      ∧ (insecure_no_tls config = false →
          (∀ name, missing_tls_value = Some name → r = Err (MissingTlsConfig name))
          ∧ (missing_tls_value = None → loads (tls_material s) s r s')))
    (build_transport_security home config) s.
Proof.
  destruct (insecure_no_tls config) eqn:Hi.
  { unfold build_transport_security. rewrite Hi. by split_and!. }
  destruct missing_tls_value as [name|] eqn:Hm.
  - unfold build_transport_security. rewrite Hi. unfold missing_tls_value in Hm.
    destruct (tls_cert_path config) as [c|], (tls_key_path config) as [k|],
      (tls_ca_path config) as [a|]; try done; injection Hm as <-; cbn [ok_or mbind io_bind];
      (split; [done|]); split_and!; try done; intros _; (split; [|done]); by intros n [= <-].
  - eapply safe_weaken; [|by apply build_safe]. intros r s' H. pose proof H as [-> _]. by split_and!.
Qed.

(** Whatever the calls answer: the kind of the result, and of the errors. *)
Definition tls_failure (e : RuntimeError) : Prop :=
  insecure_no_tls config = false ∧
  match e with
  | MissingTlsConfig name => missing_tls_value = Some name
  | InvalidTlsConfig _ => missing_tls_value = None
  | _ => False
  end.

Definition of_kind (r : result RuntimeError (TransportSecurity R)) : Prop :=
  match r with
  | Ok security => is_tls security = negb (insecure_no_tls config)
  | Err e => tls_failure e
  end.

Definition invalid {A} (r : result RuntimeError A) : Prop :=
  match r with Ok _ => True | Err e => ∃ m, e = InvalidTlsConfig m end.

Section any_world.
Context {W : Type} {WW : World W}.

Lemma load_chain_invalid path (w : W) : safe (λ _, True) (λ r _, invalid r) (load_cert_chain path) w.
Proof.
  unfold load_cert_chain. apply safe_bind, safe_attempt; [done| |]; intros w1 _; split; try done.
  2: { by eexists. }
  split; [done|]. intros r w2 _. apply safe_ret_bind; [done| |].
  - intros [|c chain] _; (split; [done|]); [by eexists|done].
  - intros e He. destruct (_ ≫= _); [done|]. injection He as <-. by eexists.
Qed.

Lemma load_key_invalid path (w : W) : safe (λ _, True) (λ r _, invalid r) (load_private_key path) w.
Proof.
  unfold load_private_key. apply safe_bind, safe_attempt; [done| |]; intros w1 _; split; try done.
  2: { by eexists. }
  split; [done|]. intros r w2 _. apply safe_ret_bind; [done| |].
  - intros [key|] _; (split; [done|]); [done|by eexists].
  - intros e He. destruct (_ ≫= _); [done|]. injection He as <-. by eexists.
Qed.

Lemma build_kind (w : W) :
  safe (λ _, True) (λ r _, of_kind r) (build_transport_security home config) w.
Proof.
  unfold build_transport_security, of_kind, tls_failure, missing_tls_value.
  destruct (insecure_no_tls config); [done|].
  destruct (tls_cert_path config) as [c|]; [|by split].
  destruct (tls_key_path config) as [k|]; [|by split].
  destruct (tls_ca_path config) as [a|]; [|by split].
  cbn [ok_or]. do 3 (apply safe_ret_bind; [done| |done]; intros ? [= <-]).
  apply safe_bind. eapply safe_weaken; [|apply load_chain_invalid].
  intros [chain|e] w1 He; [|by destruct He as [m ->]].
  apply safe_bind. eapply safe_weaken; [|apply load_key_invalid].
  intros [key|e] w2 He'; [|by destruct He' as [m ->]].
  apply safe_ret_bind; [done| |].
  2: { intros e Hs. destruct (with_single_cert chain key); [done|]. by injection Hs as <-. }
  intros server _. apply safe_bind. eapply safe_weaken; [|apply load_chain_invalid].
  intros [cas|e] w3 He''; [|by destruct He'' as [m ->]].
  destruct (add_parsable_certificates _ _) as [roots added]. by destruct (added =? 0).
Qed.
End any_world.

(** A run in which nothing fails finds it. *)
Lemma run_load_chain s path chain :
  good_chain s path = Some chain → run (load_cert_chain path) s = (Ok chain, s).
Proof.
  unfold good_chain, load_cert_chain. intros H. inv_bind H.
  destruct (files s !! path) as [f|] eqn:Ef; [|done]. injection E as <-.
  rewrite run_bind, run_attempt. cbn [exec fst snd].
  rewrite bool_decide_true by (left; by eexists). cbn [run]. rewrite Ef. cbn [fmap option_fmap option_map ok_or].
  cbn [mbind result_bind]. destruct (certs (content f)) as [c|]; [|done]. cbn in *. by destruct c; inv_result.
Qed.

Lemma run_load_key s path key :
  good_key s path = Some key → run (load_private_key path) s = (Ok key, s).
Proof.
  unfold good_key, load_private_key. intros H. inv_bind H.
  destruct (files s !! path) as [f|] eqn:Ef; [|done]. injection E as <-.
  rewrite run_bind, run_attempt. cbn [exec fst snd].
  rewrite bool_decide_true by (left; by eexists). cbn [run]. rewrite Ef. cbn [fmap option_fmap option_map ok_or].
  cbn [mbind result_bind]. destruct (private_key (content f)) as [c|]; [|done]. cbn in *. by subst.
Qed.

Lemma run_build s security :
  tls_material s = Some security → run (build_transport_security home config) s = (Ok security, s).
Proof.
  unfold tls_material, build_transport_security. destruct (insecure_no_tls config).
  { by intros [= <-]. }
  intros H. repeat inv_bind H. cbn [ok_or]. do 3 rewrite run_ret_bind.
  rewrite run_bind. erewrite run_load_chain by eassumption.
  rewrite run_bind. erewrite run_load_key by eassumption.
  match goal with E : ok ?w = Some _ |- _ => destruct w; [|done]; injection E as -> end.
  cbn [map_err]. rewrite run_ret_bind, run_bind. erewrite run_load_chain by eassumption.
  destruct (add_parsable_certificates _ _) as [roots added].
  destruct (added =? 0); [done|]. by injection H as <-.
Qed.
End material.

(** ** Properties *)

(** C15: which transport security the configuration gives.  Building it reads
    files and changes nothing.  With insecure_no_tls nothing is loaded; otherwise
    the first missing option is reported, and with all three the result is the
    one the three files stand for (certificate chain and key of the server, at
    least one usable certificate authority for the client, the name override)
    or an error about them; it is that result when no call fails. *)
Theorem build_transport_security_exact {R : Rustls} {I : Environment} (home : option str)
    (config : AppConfig) (r : result RuntimeError (TransportSecurity R)) (s s' : fs) :
  reaches (build_transport_security home config) s (Ret r) s' →
  s' = s
  ∧ (insecure_no_tls config = true → r = Ok InsecureNoTls)
  ∧ (insecure_no_tls config = false →
      (∀ name, missing_tls_value config = Some name → r = Err (MissingTlsConfig name))
      ∧ (missing_tls_value config = None →
          match r with
          | Ok security => tls_material home config s = Some security
          | Err e => ∃ m, e = InvalidTlsConfig m
          end))
  ∧ (∀ security, tls_material home config s = Some security →
      run (build_transport_security home config) s = (Ok security, s)).
Proof.
  intros Hr. destruct (safe_reaches _ _ _ _ _ _ (build_result home config s) Hr) as [_ Hp].
  destruct (Hp _ eq_refl) as (-> & Hi & Hm). split_and!; [done|done| |apply run_build].
  intros E. destruct (Hm E) as [? Hl]. split; [done|]. intros E'. by destruct (Hl E').
Qed.

(** The network with another way of exchanging in the clear. *)
Definition with_plain {R : Rustls} (Net : Network R) (plain : TcpStream → bytes → result io_error bytes) :
    Network R := {|
  SocketAddr := SocketAddr; TcpStream := TcpStream; to_socket_addrs := to_socket_addrs;
  connect_timeout := connect_timeout; set_read_timeout := set_read_timeout;
  set_write_timeout := set_write_timeout; plain_exchange := plain; tls_exchange := tls_exchange
|}.

(** C16: with TLS a request is only exchanged in a session.  What comes back does
    not depend on what an exchange in the clear would give; an answer came
    through a session made for the name that must be validated, which is the
    override or else the address, as an IP address when it is one (every
    dotted notation is) and as a DNS name otherwise. *)
Theorem exchange_in_session {R : Rustls} (Net : Network R) (server : ServerConfig)
    (client : ClientConfig) (override_name : option str) (address : str) (p : N) (request : bytes) :
  (∀ plain, exchange (Net := with_plain Net plain) (Tls server client override_name) address p request
     = exchange (Tls server client override_name) address p request)
  ∧ ∀ response, exchange (Tls server client override_name) address p request = Ok response →
     ∃ socket stream name connection,
       resolve_socket_addr address p = Ok socket
       ∧ connect_timeout socket IO_TIMEOUT_SECS = Ok stream
       ∧ new_client_connection client name = Ok connection
       ∧ tls_exchange connection stream request = Ok response
       ∧ (∀ a b c d, a ≤ 255 → b ≤ 255 → c ≤ 255 → d ≤ 255 →
            trim (default address override_name) = dotted a b c d → name = ip_server_name (V4 a b c d))
       ∧ (parse_ip (trim (default address override_name)) = None →
            server_name_try_from (trim (default address override_name)) = Some name).
Proof.
  split; [done|]. intros response H. unfold exchange in H. repeat inv_bind H. inv_result.
  unfold resolve_tls_server_name in *. eexists _, _, _, _. split_and!; [done|done|done|done| |].
  - intros a' b c d Ha Hb Hc Hd E'. rewrite E', parse_dotted in * by done. by inv_result.
  - intros E'. rewrite E' in *. by inv_result.
Qed.

(** ** Concrete behaviours and witnesses *)

(** A library in which a PEM file holds one certificate and one key, and a
    session passes the bytes on. *)
Definition toy_rustls : Rustls := {|
  CertificateDer := bytes; PrivateKeyDer := bytes; ServerConfig := bytes * bytes;
  RootCertStore := list bytes; ClientConfig := list bytes; ServerName := str + IpAddr;
  ServerConnection := unit; ClientConnection := list bytes * (str + IpAddr);
  certs pem := Ok (if is_empty pem then [] else [pem]);
  private_key pem := Ok (if is_empty pem then None else Some pem);
  with_single_cert chain key := Ok (concat chain, key);
  empty_roots := [];
  add_parsable_certificates roots chain := (roots ++ chain, N.of_nat (length chain));
  with_root_certificates roots := roots;
  ip_server_name ip := inr ip;
  server_name_try_from name := if is_empty name then None else Some (inl name);
  new_server_connection _ := Ok tt;
  new_client_connection config name := Ok (config, name);
  server_session _ raw := raw
|}.

(** A network that answers as the function says, with or without a session. *)
Definition toy_network (answer : str → N → bytes → result io_error bytes) : Network toy_rustls := {|
  SocketAddr := str * N; TcpStream := str * N;
  to_socket_addrs address p := Ok [(address, p)];
  connect_timeout socket _ := Ok socket;
  set_read_timeout _ _ := Ok tt; set_write_timeout _ _ := Ok tt;
  plain_exchange stream request := answer stream.1 stream.2 request;
  tls_exchange _ stream request := answer stream.1 stream.2 request
|}.

Definition tls_config : AppConfig :=
  {| sid := lit "group-a"; sid_token := lit "secret-token"; Config.participant_id := lit "node-2";
     http_listen_addr := lit "0.0.0.0:9922"; udp_announce_addr := lit "0.0.0.0:9923";
     bootstrap_peers := []; sync_interval_secs := 30; public_key_path := lit "~/.ssh/id_ed25519.pub";
     authorized_keys_path := lit "~/.ssh/authorized_keys";
     tls_cert_path := Some (lit "~/tls/cert.pem"); tls_key_path := Some (lit "~/tls/key.pem");
     tls_ca_path := Some (lit "/etc/ca.pem"); tls_server_name := Some (lit " 10.0.0.1 ");
     insecure_no_tls := false; dry_run := false |}.

Definition tls_fs : fs :=
  let pem t := {| content := lit t; file_mode := 384 |} in
  {| files := <[lit "/home/u/tls/cert.pem" := pem "certificate"%string]>
       (<[lit "/home/u/tls/key.pem" := pem "key"%string]> {[lit "/etc/ca.pem" := pem "authority"%string]});
     dirs := ∅ |}.

Definition tls_program : io RuntimeError (TransportSecurity toy_rustls) :=
  build_transport_security (R := toy_rustls) (Some (lit "/home/u")) tls_config.

Lemma build_transport_security_exact_witness :
  (run tls_program tls_fs).1
  = Ok (@Tls toy_rustls (lit "certificate", lit "key") [lit "authority"] (Some (lit " 10.0.0.1 "))).
Proof.
  pose proof (@run_reaches no_environment _ _ tls_program tls_fs) as Hr.
  destruct (@build_transport_security_exact toy_rustls no_environment (Some (lit "/home/u")) tls_config
    _ _ _ Hr) as (_ & _ & _ & H).
  exact (f_equal fst (H (@Tls toy_rustls (lit "certificate", lit "key") [lit "authority"]
    (Some (lit " 10.0.0.1 "))) ltac:(by vm_compute))).
Defined.

(** Without the option for the key, nothing is opened. *)
Example key_path_missing :
  replay (build_transport_security (R := toy_rustls) None
    {| sid := []; sid_token := []; Config.participant_id := []; http_listen_addr := [];
       udp_announce_addr := []; bootstrap_peers := []; sync_interval_secs := 1; public_key_path := [];
       authorized_keys_path := []; tls_cert_path := Some []; tls_key_path := None; tls_ca_path := None;
       tls_server_name := None; insecure_no_tls := false; dry_run := false |}) [] []
  = (Ret (Err (MissingTlsConfig (lit "--tls-key-path"))), []).
Proof. done. Qed.

Definition echo_network : Network toy_rustls := toy_network (λ _ _ request, Ok request).

Lemma exchange_in_session_witness :
  ∃ name, name = inr (V4 10 0 0 1) ∧
    @exchange toy_rustls echo_network
      (@Tls toy_rustls ([], []) [] (Some (lit " 10.0.0.1 "))) (lit "node-1") 8080 (lit "hello")
    = @tls_exchange toy_rustls echo_network ([], name) (lit "node-1", 8080) (lit "hello").
Proof.
  destruct (proj2 (exchange_in_session echo_network ([], []) [] (Some (lit " 10.0.0.1 "))
    (lit "node-1") 8080 (lit "hello")) (lit "hello") ltac:(by vm_compute))
    as (socket & stream & name & connection & Hs & Hc & Hn & He & Hip & _).
  exists name. split; [apply (Hip 10 0 0 1); by vm_compute|].
  injection Hs as <-. injection Hc as <-. injection Hn as <-. rewrite He. by vm_compute.
Defined.
