(* ===== verification/Control.v ===== *)
(** * Daemon control (src/src/runtime.rs, control files)

    The pid, stop and log files of a group and the marker of the current group,
    as programs of system calls (System.v): [status_daemon], [stop_daemon] with
    its bounded wait, [resolve_current_sid] with the search for pid files, and
    the functions that write the files.  Whether a process exists is answered
    by the system; any answers are possible, and whether a file exists is answered
    rightly where its metadata can be read.  The theorems: what stopping does
    and that it ends, what the status says, and which group is the current one. *)

From Equations Require Import Equations.
From S2P Require Import Prelude Str Utf8 Envelope Paths System.

Local Open Scope N_scope.

(** ** Data *)

Inductive DaemonStatus :=
| Running (pid : N)
| Stopped
| StalePidFile (pid : N).

Definition STOP_WAIT_MILLIS : N := 3000.
Definition STOP_POLL_MILLIS : N := 50.

(** The modes [0o700] and [0o600]. *)
Definition PRIVATE_DIR : N := 448.
Definition PRIVATE_FILE : N := 384.

(** ** Operations on a path *)

Definition ensure_private_dir (path : str) : io RuntimeError unit :=
  _ ← attempt (CreateDirAll path) (RuntimeDirectory path);
  attempt (SetPermissions path PRIVATE_DIR) (RuntimeDirectory path).

Definition open_control_file_append (path : str) : io RuntimeError unit :=
  _ ← attempt (OpenAppend path PRIVATE_FILE) (ControlFile path);
  attempt (SetPermissions path PRIVATE_FILE) (ControlFile path).

Definition write_control_file (path text : str) : io RuntimeError unit :=
  _ ← attempt (OpenTruncate path PRIVATE_FILE) (ControlFile path);
  _ ← attempt (WriteAll path (encode text)) (ControlFile path);
  _ ← attempt (SyncAll path) (ControlFile path);
  attempt (SetPermissions path PRIVATE_FILE) (ControlFile path).

(** [if path.exists() { fs::remove_file(&path)? }]. *)
Definition remove_if_present (path : str) : io RuntimeError unit :=
  Do (Exists path) (λ found : bool,
    if found then attempt (RemoveFile path) (ControlFile path) else Ret (Ok tt)).

(** The loop of [stop_daemon]: it asks for the process before it looks at the
    time waited. *)
Equations? wait_for_exit (pid waited : N) : io RuntimeError unit
  by wf (N.to_nat (STOP_WAIT_MILLIS - waited)) lt :=
  wait_for_exit pid waited := Do (ProcessExists pid) (λ alive : bool,
    if alive then
      match decide (waited < STOP_WAIT_MILLIS) with
      | left _ =>
          Do (Sleep STOP_POLL_MILLIS) (λ _, wait_for_exit pid (waited + STOP_POLL_MILLIS))
      | right _ => Ret (Ok tt)
      end
    else Ret (Ok tt)).
Proof. unfold STOP_WAIT_MILLIS, STOP_POLL_MILLIS in *. lia. Qed.

(** ** Operations on a group *)

Section control.
Context (xdg home : option str).

Definition ensure_control_runtime_root : io RuntimeError str :=
  root ← Ret (control_runtime_root_path xdg home);
  _ ← ensure_private_dir root;
  Ret (Ok root).

Definition ensure_control_runtime_dir_for_sid (sid : str) : io RuntimeError str :=
  sid_dir ← Ret (control_runtime_dir_path_for_sid xdg home sid);
  _ ← ensure_control_runtime_root;
  _ ← ensure_private_dir sid_dir;
  Ret (Ok sid_dir).

Definition open_daemon_log_file (sid : str) : io RuntimeError str :=
  _ ← ensure_control_runtime_dir_for_sid sid;
  path ← Ret (log_file_path xdg home sid);
  _ ← open_control_file_append path;
  Ret (Ok path).

Definition daemon_log_file_path (sid : str) : result RuntimeError str :=
  log_file_path xdg home sid.

Definition set_current_sid (sid : str) : io RuntimeError unit :=
  _ ← ensure_control_runtime_root;
  marker_path ← Ret (current_sid_marker_path xdg home);
  write_control_file marker_path sid.

Definition status_daemon (sid : str) : io RuntimeError DaemonStatus :=
  pid_path ← Ret (pid_file_path xdg home sid);
  Do (Exists pid_path) (λ found : bool,
    if negb found then Ret (Ok Stopped)
    else
      ReadToString pid_path (λ o,
        text ← Ret (ok_or (ControlFile pid_path) o);
        pid ← Ret (ok_or (ControlFile pid_path) (parse_uint U32_MAX (trim text)));
        Do (ProcessExists pid) (λ alive : bool,
          Ret (Ok (if alive then Running pid else StalePidFile pid))))).

Definition stop_daemon (sid : str) : io RuntimeError bool :=
  status ← status_daemon sid;
  match status with
  | Running pid =>
      _ ← ensure_control_runtime_dir_for_sid sid;
      path ← Ret (stop_file_path xdg home sid);
      _ ← write_control_file path (lit "stop");
      _ ← wait_for_exit pid 0;
      Do (ProcessExists pid) (λ alive : bool,
        if alive then
          _ ← attempt (KillTerm pid) (KillProcess pid);
          Ret (Ok true)
        else Ret (Ok true))
  | StalePidFile _ =>
      pid_path ← Ret (pid_file_path xdg home sid);
      _ ← remove_if_present pid_path;
      stop_path ← Ret (stop_file_path xdg home sid);
      _ ← remove_if_present stop_path;
      Ret (Ok false)
  | Stopped => Ret (Ok false)
  end.

(** The loop over the entries of the control root; the groups found so far. *)
Fixpoint discover_entries (root : str) (found_sid : option str) (entries : list (option str)) :
    io RuntimeError (option str) :=
  match entries with
  | [] => Ret (Ok found_sid)
  | None :: _ => Ret (Err (ControlFile root))
  | Some name :: entries =>
      let path := path_join root name in
      Do (IsDir path) (λ is_dir : bool,
        if negb is_dir then discover_entries root found_sid entries
        else
          Do (Exists (path_join path PID_FILE_NAME)) (λ found : bool,
            if negb found then discover_entries root found_sid entries
            else
              match found_sid with
              | Some _ => Ret (Ok None)
              | None => discover_entries root (Some name) entries
              end))
  end.

Definition discover_sid_from_pid_files : io RuntimeError (option str) :=
  root ← Ret (control_runtime_root_path xdg home);
  Do (Exists root) (λ found : bool,
    if negb found then Ret (Ok None)
    else
      ReadDir root (λ entries,
        entries ← Ret (ok_or (ControlFile root) entries);
        discover_entries root None entries)).

Definition resolve_current_sid : io RuntimeError (option str) :=
  marker_path ← Ret (current_sid_marker_path xdg home);
  Do (Exists marker_path) (λ found : bool,
    if found then
      ReadToString marker_path (λ o,
        value ← Ret (ok_or (ControlFile marker_path) o);
        let sid := trim value in
        if negb (is_empty sid) then Ret (Ok (Some sid))
        else discover_sid_from_pid_files)
    else discover_sid_from_pid_files).
End control.

(** ** The wait of [stop_daemon] *)

(** The time slept in a history, in milliseconds. *)
Definition slept_by (e : event) : N := match e with Called (Sleep n) _ => n | _ => 0 end.
Definition slept (h : list event) : N := foldr (λ e n, slept_by e + n) 0 h.

Lemma slept_cons e h : slept (e :: h) = slept_by e + slept h.
Proof. done. Qed.

Lemma slept_app h h' : slept (h ++ h') = slept h + slept h'.
Proof.
  induction h as [|e h IH]; [done|].
  rewrite <- app_comm_cons, !slept_cons, IH. lia.
Qed.

(** Calls that neither wait nor kill. *)
Definition prompt (c : syscall) : Prop :=
  match c with Sleep _ | KillTerm _ => False | _ => True end.

Lemma prompt_slept t : Forall (event_call prompt) t → slept t = 0.
Proof.
  induction 1 as [|e t He _ IH]; [done|]. rewrite slept_cons, IH. by destruct e as [[]| | |].
Qed.

(** What the wait adds to the history: polls that find the process and sleeps,
    up to the bound, or a poll that does not find it. *)
Definition waiting (pid : N) (e : event) : Prop :=
  e = Called (ProcessExists pid) true ∨ ∃ ok, e = Called (Sleep STOP_POLL_MILLIS) ok.

Definition waited_for (pid waited : N) (t : list event) : Prop :=
  ∃ t0, Forall (waiting pid) t0 ∧ waited + slept t0 ≤ STOP_WAIT_MILLIS
    ∧ (t = t0 ∨ t = t0 ++ [Called (ProcessExists pid) false]).

Lemma waited_nil pid waited : waited ≤ STOP_WAIT_MILLIS → waited_for pid waited [].
Proof. intros H. exists []. split_and!; [constructor|cbn; lia|by left]. Qed.

Lemma waited_cons pid waited t e :
  waited_for pid (waited + slept_by e) t → waiting pid e → waited_for pid waited (e :: t).
Proof.
  intros (t0 & H0 & Hs & Ht) He. exists (e :: t0).
  split_and!; [by constructor|rewrite slept_cons; lia|].
  destruct Ht as [->| ->]; [by left|by right].
Qed.

Lemma wait_unfold pid waited :
  wait_for_exit pid waited = Do (ProcessExists pid) (λ alive : bool,
    if alive then
      if decide (waited < STOP_WAIT_MILLIS) then
        Do (Sleep STOP_POLL_MILLIS) (λ _, wait_for_exit pid (waited + STOP_POLL_MILLIS))
      else Ret (Ok tt)
    else Ret (Ok tt)).
Proof. apply wait_for_exit_equation_1. Qed.

(** The wait ends after at most [STOP_WAIT_MILLIS], or when the process is gone. *)
Lemma wait_safe pid polls h waited :
  waited + STOP_POLL_MILLIS * polls = STOP_WAIT_MILLIS →
  safe (λ h', ∃ t, h' = h ++ t ∧ waited_for pid waited t)
    (λ r h', r = Ok tt ∧ ∃ t, h' = h ++ t ∧ waited_for pid waited t
       ∧ (waited + slept t = STOP_WAIT_MILLIS ∨ Called (ProcessExists pid) false ∈ t))
    (wait_for_exit pid waited) h.
Proof.
  revert h waited. induction polls as [|polls IH] using N.peano_ind; intros h waited Hw;
    rewrite wait_unfold.
  all: pose proof (waited_nil pid waited ltac:(unfold STOP_POLL_MILLIS in *; lia)) as H0.
  all: split; [exists []; by rewrite app_nil_r|]; intros alive h1 ->; destruct alive.
  - rewrite decide_False by lia.
    assert (waited_for pid waited [Called (ProcessExists pid) true]) as H1.
    { apply waited_cons; [by rewrite N.add_0_r|by left]. }
    split; [by eexists|]. split; [done|]. eexists. split_and!; [done|done|left; cbn; lia].
  - assert (waited_for pid waited [Called (ProcessExists pid) false]) as H1.
    { exists []. split_and!; [constructor|cbn; lia|by right]. }
    split; [by eexists|]. split; [done|]. eexists. split_and!; [done|done|right; by left].
  - rewrite decide_True by (unfold STOP_POLL_MILLIS in *; lia).
    assert (waited_for pid waited [Called (ProcessExists pid) true]) as H1.
    { apply waited_cons; [by rewrite N.add_0_r|by left]. }
    split; [by eexists|]. intros ok h2 ->.
    assert (∀ t, waited_for pid (waited + STOP_POLL_MILLIS) t →
      waited_for pid waited (Called (ProcessExists pid) true :: Called (Sleep STOP_POLL_MILLIS) ok :: t)) as Hc.
    { intros t Ht. apply waited_cons; [rewrite N.add_0_r|by left].
      apply waited_cons; [done|right; by eexists]. }
    eapply safe_mono; [..|apply (IH _ (waited + STOP_POLL_MILLIS))].
    + intros h' (t & -> & Ht). eexists. split; [by rewrite <- !app_assoc|]. by apply Hc.
    + intros r h' _ (-> & t & -> & Ht & Hend). split; [done|].
      eexists. split_and!; [by rewrite <- !app_assoc|by apply Hc|].
      cbn [app]. rewrite !slept_cons. destruct Hend as [Hs|Hf]; [left; cbn [slept_by]; lia|right].
      by do 2 right.
    + lia.
  - assert (waited_for pid waited [Called (ProcessExists pid) false]) as H1.
    { exists []. split_and!; [constructor|cbn; lia|by right]. }
    split; [by eexists|]. split; [done|]. eexists. split_and!; [done|done|right; by left].
Qed.

(** ** Histories of the other operations *)

Lemma waited_no_kill pid pid' waited t ok :
  waited_for pid waited t → Called (KillTerm pid') ok ∉ t.
Proof.
  intros (t0 & H0 & _ & Ht) Hin. rewrite Forall_forall in H0.
  assert (Called (KillTerm pid') ok ∈ t0) as [?|[? ?]]%H0; [|done..].
  destruct Ht as [->| ->]; [done|]. apply elem_of_app in Hin as [?|Hin]; [done|].
  by apply list_elem_of_singleton in Hin.
Qed.

Lemma waited_slept pid waited t : waited_for pid waited t → waited + slept t ≤ STOP_WAIT_MILLIS.
Proof.
  intros (t0 & _ & Hs & [->| ->]); [done|]. by rewrite slept_app, N.add_0_r.
Qed.

Lemma prompt_no_kill t pid ok : Forall (event_call prompt) t → Called (KillTerm pid) ok ∉ t.
Proof. rewrite Forall_forall. intros H Hin. by apply H in Hin. Qed.

(** Calls that only look, or remove a file. *)
Definition modest (c : syscall) : Prop :=
  match c with Exists _ | ProcessExists _ | RemoveFile _ => True | _ => False end.

Definition looks (c : syscall) : Prop :=
  match c with Exists _ | ProcessExists _ => True | _ => False end.

Lemma modest_prompt t : Forall (event_call modest) t → Forall (event_call prompt) t.
Proof. intros H. eapply Forall_impl; [exact H|]. by intros [[]| | |]. Qed.

Lemma write_prompt path text : calls_only prompt (write_control_file path text).
Proof. unfold write_control_file. calls. Qed.

(** A write that reports success made the call. *)
Lemma write_done path text h :
  safe (λ _, True) (λ r h', r = Ok tt → Called (WriteAll path (encode text)) true ∈ h')
    (write_control_file path text) h.
Proof.
  unfold write_control_file.
  apply safe_bind, safe_attempt; [done| |done]. intros h1 ->. split; [done|].
  apply safe_bind, safe_attempt; [done| |done]. intros h2 ->. split; [done|].
  apply safe_bind, safe_attempt; [done| |done]. intros h3 ->. split; [done|].
  apply safe_attempt; [done| |done]. intros h4 ->. split; [done|]. intros _. set_solver.
Qed.

Section histories.
Context (xdg home : option str) (sid : str).

Lemma ensure_prompt : calls_only prompt (ensure_control_runtime_dir_for_sid xdg home sid).
Proof.
  unfold ensure_control_runtime_dir_for_sid, ensure_control_runtime_root, ensure_private_dir.
  calls.
Qed.

Lemma status_looks : calls_only looks (status_daemon xdg home sid).
Proof. unfold status_daemon. calls. Qed.

Lemma status_modest : calls_only modest (status_daemon xdg home sid).
Proof. eapply calls_only_mono; [|apply status_looks]. by intros []. Qed.

Lemma remove_modest path : calls_only modest (remove_if_present path).
Proof. unfold remove_if_present. calls. Qed.

(** [pid] is the number that was read from the pid file. *)
Definition pid_was_read (pid : N) (h : list event) : Prop :=
  ∃ p text, pid_file_path xdg home sid = Ok p ∧ WasRead p (Some text) ∈ h
    ∧ parse_uint U32_MAX (trim text) = Some pid.

Lemma status_reads h :
  safe (λ _, True) (λ r h', ∀ pid, r = Ok (Running pid) → pid_was_read pid h')
    (status_daemon xdg home sid) h.
Proof.
  unfold status_daemon. apply safe_bind. split; [done|].
  destruct (pid_file_path xdg home sid) as [p|] eqn:Ep; [|done].
  split; [done|]. intros found h1 ->. destruct found; [|by split]. cbn [negb].
  split; [done|]. intros o h2 ->. apply safe_bind. split; [done|].
  destruct o as [text|]; [|done]. cbn [ok_or]. apply safe_bind. split; [done|].
  destruct (parse_uint U32_MAX (trim text)) as [pid|] eqn:Et; [|done]. cbn [ok_or].
  split; [done|]. intros alive h3 ->. split; [done|]. intros pid' H.
  exists p, text. split_and!; [done|set_solver|]. destruct alive; [|done]. by injection H as <-.
Qed.

(** The stop file was written. *)
Definition stop_was_requested (h : list event) : Prop :=
  ∃ p, stop_file_path xdg home sid = Ok p
    ∧ Called (WriteAll p (encode (lit "stop"))) true ∈ h.

(** When a process may be killed. *)
Definition justified (pid : N) (h : list event) : Prop :=
  pid_was_read pid h ∧ stop_was_requested h
  ∧ (slept h = STOP_WAIT_MILLIS ∨ Called (ProcessExists pid) false ∈ h).

Definition kills_last (h : list event) : Prop :=
  ∀ pid ok, Called (KillTerm pid) ok ∈ h →
    ∃ h0, h = h0 ++ [Called (ProcessExists pid) true; Called (KillTerm pid) ok] ∧ justified pid h0.

Definition stop_inv (h : list event) : Prop := slept h ≤ STOP_WAIT_MILLIS ∧ kills_last h.

Definition stop_post (r : result RuntimeError bool) (h : list event) : Prop :=
  match r with
  | Ok true => stop_was_requested h ∧ ∃ pid, pid_was_read pid h
      ∧ (last h = Some (Called (ProcessExists pid) false) ∨ last h = Some (Called (KillTerm pid) true))
  | Ok false => Forall (event_call modest) h
  | Err _ => True
  end.

Lemma prompt_inv h : Forall (event_call prompt) h → stop_inv h.
Proof.
  intros H. split; [by rewrite prompt_slept|]. intros pid ok Hin. by apply prompt_no_kill in Hin.
Qed.

Lemma waited_inv h pid t :
  Forall (event_call prompt) h → waited_for pid 0 t → stop_inv (h ++ t).
Proof.
  intros H Ht. split.
  - rewrite slept_app, prompt_slept by done. by apply waited_slept in Ht.
  - intros pid' ok [Hin|Hin]%elem_of_app.
    + by apply prompt_no_kill in Hin.
    + by eapply waited_no_kill in Hin.
Qed.

(** A program whose calls are prompt, run after prompt calls. *)
Lemma prompt_safe {A} (m : io RuntimeError A) h (post : result RuntimeError A → list event → Prop) :
  calls_only prompt m → Forall (event_call prompt) h →
  safe (λ _, True) post m h →
  safe stop_inv (λ r h', Forall (event_call prompt) h' ∧ post r h' ∧ h `prefix_of` h') m h.
Proof.
  intros Hm Hh Hp. eapply safe_mono; [..|exact (safe_and _ _ _ _ _ _ (calls_only_history _ m h Hm) Hp)].
  - intros h' [(t & -> & Ht) _]. by apply prompt_inv, Forall_app_2.
  - intros r h' _ [(t & -> & Ht) Hpost]. split_and!; [by apply Forall_app_2|done|by apply prefix_app_r].
Qed.

Lemma pid_was_read_mono pid h h' : h `prefix_of` h' → pid_was_read pid h → pid_was_read pid h'.
Proof.
  intros [t ->] (p & text & ? & ? & ?). exists p, text. split_and!; [done| |done].
  apply elem_of_app. by left.
Qed.

Lemma stop_was_requested_mono h h' :
  h `prefix_of` h' → stop_was_requested h → stop_was_requested h'.
Proof.
  intros [t ->] (p & ? & ?). exists p. split; [done|]. apply elem_of_app. by left.
Qed.

(** The end of [stop_daemon], from the wait on. *)
Lemma stop_end h pid :
  Forall (event_call prompt) h → pid_was_read pid h → stop_was_requested h →
  safe stop_inv stop_post
    (_ ← wait_for_exit pid 0;
     Do (ProcessExists pid) (λ alive : bool,
       if alive then
         _ ← attempt (KillTerm pid) (KillProcess pid);
         Ret (Ok true)
       else Ret (Ok true))) h.
Proof.
  intros Hh Hr Hs. apply safe_bind.
  eapply safe_mono; [..|by apply (wait_safe pid 60 h 0)].
  { intros h' (t & -> & Ht). by eapply waited_inv. }
  intros r h1 _ (-> & t & -> & Ht & Hend).
  assert (stop_inv (h ++ t)) as Hinv by by eapply waited_inv.
  assert (∀ t', pid_was_read pid ((h ++ t) ++ t')) as Hr'.
  { intros t'. eapply pid_was_read_mono; [|exact Hr]. by rewrite <- app_assoc; apply prefix_app_r. }
  assert (∀ t', stop_was_requested ((h ++ t) ++ t')) as Hs'.
  { intros t'. eapply stop_was_requested_mono; [|exact Hs]. by rewrite <- app_assoc; apply prefix_app_r. }
  assert (∀ b, stop_inv ((h ++ t) ++ [Called (ProcessExists pid) b])) as Hinv'.
  { intros b. destruct Hinv as [Hsl Hk]. split; [by rewrite slept_app, N.add_0_r|].
    intros pid' ok [Hin|?%list_elem_of_singleton]%elem_of_app; [|done].
    apply elem_of_app in Hin as [Hin|Hin]; [by apply prompt_no_kill in Hin|].
    by eapply waited_no_kill in Hin. }
  split; [done|]. intros alive h2 ->. destruct alive.
  2: { split; [done|]. split; [done|]. exists pid. split; [done|left]. by rewrite last_snoc. }
  assert (∀ ok, stop_inv (((h ++ t) ++ [Called (ProcessExists pid) true]) ++ [Called (KillTerm pid) ok]))
    as Hkill.
  { intros ok. destruct (Hinv' true) as [Hsl Hk].
    split; [by rewrite slept_app, N.add_0_r|]. intros pid' ok' Hin.
    assert (pid' = pid ∧ ok' = ok) as [-> ->].
    { apply elem_of_app in Hin as [Hin|Hin%list_elem_of_singleton].
      - apply elem_of_app in Hin as [Hin|Hin%list_elem_of_singleton]; [|done].
        apply elem_of_app in Hin as [Hin|Hin]; [by apply prompt_no_kill in Hin|].
        by eapply waited_no_kill in Hin.
      - by simplify_eq. }
    exists (h ++ t). split; [by rewrite <- app_assoc|]. split_and!.
    - specialize (Hr' []). by rewrite app_nil_r in Hr'.
    - specialize (Hs' []). by rewrite app_nil_r in Hs'.
    - destruct Hend as [He|He]; [left|right].
      + by rewrite slept_app, prompt_slept.
      + apply elem_of_app. by right. }
  apply safe_bind, safe_attempt; [done| |]; intros h3 ->.
  - split; [done|]. split; [done|]. rewrite <- app_assoc. split; [done|].
    exists pid. split; [done|right]. rewrite app_assoc. by rewrite last_snoc.
  - by split.
Qed.

Lemma stop_safe : safe stop_inv stop_post (stop_daemon xdg home sid) [].
Proof.
  unfold stop_daemon. apply safe_bind.
  eapply safe_mono; [..|exact (safe_and _ _ _ _ _ _
    (calls_only_history _ _ [] status_modest) (status_reads []))].
  { intros h [(t & -> & Ht) _]. by apply prompt_inv, modest_prompt. }
  intros [[pid| |pid]|e] h1 _ [(t1 & -> & Ht1) Hpid]; cbn [app] in *.
  - specialize (Hpid pid eq_refl). apply modest_prompt in Ht1 as Hp1. apply safe_bind.
    eapply safe_weaken;
      [|exact (prompt_safe _ t1 (λ _ _, True) ensure_prompt Hp1 (safe_any _ _))].
    intros [dir|e] h2 (Hp2 & _ & Hpre2); [|done]. apply safe_bind. split; [by apply prompt_inv|].
    destruct (stop_file_path xdg home sid) as [path|] eqn:Es; [|done]. apply safe_bind.
    eapply safe_weaken;
      [|exact (prompt_safe _ h2 _ (write_prompt _ _) Hp2 (write_done path (lit "stop") h2))].
    intros [[]|e] h3 (Hp3 & Hw & Hpre3); [|done]. apply stop_end; [done| |].
    + eapply pid_was_read_mono; [|done]. by etrans.
    + exists path. split; [done|]. by apply Hw.
  - split; [by apply prompt_inv, modest_prompt|]. done.
  - assert (calls_only modest (
      pid_path ← Ret (pid_file_path xdg home sid);
      _ ← remove_if_present pid_path;
      stop_path ← Ret (stop_file_path xdg home sid);
      _ ← remove_if_present stop_path; Ret (Ok false))) as Hm.
    { apply calls_only_bind; [done|]. intros p. apply calls_only_bind; [apply remove_modest|].
      intros _. apply calls_only_bind; [done|]. intros q.
      apply calls_only_bind; [apply remove_modest|done]. }
    eapply safe_mono; [..|exact (safe_and _ _ _ (λ r _, r ≠ Ok true) _ _
      (calls_only_history _ _ t1 Hm) ltac:(do 4 (apply safe_then; [done|intros ??]); by split))].
    + intros h [(t & -> & Ht) _]. by apply prompt_inv, modest_prompt, Forall_app_2.
    + intros [[]|] h _ [(t & -> & Ht) Hr]; [done|by apply Forall_app_2|done].
  - done.
Qed.
End histories.

(** *** The files [stop_daemon] works on *)

Section stop_calls.
Context (xdg home : option str) (sid : str).

(** The calls that [stop_daemon] may make: it only creates the directories of
    the group and the stop file, and removes the pid and the stop file. *)
Definition stop_call (c : syscall) : Prop :=
  match c with
  | Exists _ | ProcessExists _ | KillTerm _ | Sleep _ => True
  | CreateDirAll p =>
      control_runtime_root_path xdg home = Ok p ∨ control_runtime_dir_path_for_sid xdg home sid = Ok p
  | SetPermissions p m =>
      m = PRIVATE_DIR ∧ (control_runtime_root_path xdg home = Ok p
                         ∨ control_runtime_dir_path_for_sid xdg home sid = Ok p)
      ∨ m = PRIVATE_FILE ∧ stop_file_path xdg home sid = Ok p
  | OpenTruncate p m => m = PRIVATE_FILE ∧ stop_file_path xdg home sid = Ok p
  | WriteAll p b => b = encode (lit "stop") ∧ stop_file_path xdg home sid = Ok p
  | SyncAll p => stop_file_path xdg home sid = Ok p
  | RemoveFile p => pid_file_path xdg home sid = Ok p ∨ stop_file_path xdg home sid = Ok p
  | _ => False
  end.

Lemma calls_only_ret_bind {A B} (P : syscall → Prop) (r : result RuntimeError A)
    (f : A → io RuntimeError B) :
  (∀ a, r = Ok a → calls_only P (f a)) → calls_only P (Ret r ≫= f).
Proof. destruct r; cbn; auto. Qed.

Lemma wait_calls pid polls waited :
  waited + STOP_POLL_MILLIS * polls = STOP_WAIT_MILLIS → calls_only stop_call (wait_for_exit pid waited).
Proof.
  revert waited. induction polls as [|polls IH] using N.peano_ind; intros waited Hw;
    rewrite wait_unfold; (split; [done|]); intros []; try done.
  - by rewrite decide_False by lia.
  - rewrite decide_True by (unfold STOP_POLL_MILLIS in *; lia). split; [done|]. intros _.
    apply IH. lia.
Qed.

Lemma remove_calls path :
  stop_call (RemoveFile path) → calls_only stop_call (remove_if_present path).
Proof. intros H. split; [done|]. intros []; [by apply calls_only_attempt|done]. Qed.

Lemma write_calls path text :
  stop_call (OpenTruncate path PRIVATE_FILE) → stop_call (WriteAll path (encode text)) →
  stop_call (SyncAll path) → stop_call (SetPermissions path PRIVATE_FILE) →
  calls_only stop_call (write_control_file path text).
Proof.
  intros. unfold write_control_file.
  do 3 (apply calls_only_bind; [by apply calls_only_attempt|intros _]). by apply calls_only_attempt.
Qed.

Lemma private_dir_calls path :
  stop_call (CreateDirAll path) → calls_only stop_call (ensure_private_dir path).
Proof.
  intros H. apply calls_only_bind; [by apply calls_only_attempt|intros _].
  apply calls_only_attempt. by left.
Qed.

Lemma stop_calls : calls_only stop_call (stop_daemon xdg home sid).
Proof.
  unfold stop_daemon. apply calls_only_bind.
  { eapply calls_only_mono; [|apply status_looks]. by intros []. }
  intros [pid| |pid]; [|done|].
  - apply calls_only_bind.
    { apply calls_only_ret_bind. intros dir Hd. apply calls_only_bind.
      - apply calls_only_ret_bind. intros root Hr.
        apply calls_only_bind; [apply private_dir_calls; by left|done].
      - intros _. apply calls_only_bind; [apply private_dir_calls; by right|done]. }
    intros _. apply calls_only_ret_bind. intros path Hp.
    apply calls_only_bind; [apply write_calls; [by split..|done|by right]|intros _].
    apply calls_only_bind; [by apply (wait_calls pid 60)|intros _].
    split; [done|]. intros []; [|done]. by apply calls_only_bind; [apply calls_only_attempt|].
  - apply calls_only_ret_bind. intros p Hp.
    apply calls_only_bind; [apply remove_calls; by left|intros _].
    apply calls_only_ret_bind. intros q Hq.
    by apply calls_only_bind; [apply remove_calls; right|].
Qed.
End stop_calls.

(** ** What the operations do to the file system *)

Section effects.
Context {I : Environment}.

(** The mode of a control file being written: that of a new file, the old one,
    or that of the file when it is complete. *)
Definition mode_while (text : str) (before : option file) (f : file) : Prop :=
  (before = None ∧ file_mode f = PRIVATE_FILE) ∨ file_mode <$> before = Some (file_mode f)
  ∨ (file_mode f = PRIVATE_FILE ∧ content f = encode text).

(** While a control file is written no other file changes. *)
Definition writing (path text : str) (s0 s : fs) : Prop :=
  dirs s = dirs s0 ∧ (∀ q, q ≠ path → files s !! q = files s0 !! q)
  ∧ ∀ f, files s !! path = Some f → mode_while text (files s0 !! path) f.

Lemma writing_refl path text s : writing path text s s.
Proof. split_and!; [done..|]. intros f ->. by right; left. Qed.

Lemma writing_put path text s0 s f :
  writing path text s0 s → mode_while text (files s0 !! path) f →
  writing path text s0 (put_file s path f).
Proof.
  intros (Hd & Hq & _) Hf. split_and!; cbn.
  - done.
  - intros q Hne. rewrite lookup_insert_ne by done. by apply Hq.
  - rewrite lookup_insert_eq. by intros ? [= <-].
Qed.

Lemma write_control_safe path text s0 :
  safe (writing path text s0)
    (λ r s', r = Ok tt → dirs s0 !! path = None
       ∧ files s' !! path = Some {| content := encode text; file_mode := PRIVATE_FILE |})
    (write_control_file path text) s0.
Proof.
  pose proof (writing_refl path text s0) as H0. unfold write_control_file.
  apply safe_bind, safe_attempt; [done| |]; intros s1 [Hd ->]; [|done].
  specialize (Hd eq_refl).
  set (m := default PRIVATE_FILE (file_mode <$> files s0 !! path)).
  assert (∀ b s, writing path text s0 s →
    writing path text s0 (put_file s path {| content := b; file_mode := m |})) as Hput.
  { intros b s Hs. apply writing_put; [done|]. subst m. unfold mode_while.
    destruct (files s0 !! path); [by right; left|by left]. }
  split; [by apply Hput|].
  apply safe_bind, safe_attempt; [by apply Hput| |]; intros s2 (w & _ & Hw & ->);
    unfold append_to; cbn [files put_file]; rewrite lookup_insert_eq; cbn [app].
  2: { split; [by apply Hput, Hput|done]. }
  rewrite Hw by done. cbn [app content file_mode]. split; [by apply Hput, Hput|].
  apply safe_bind, safe_attempt; [by apply Hput, Hput| |]; intros s3 ->; [|by split; [apply Hput, Hput|]].
  split; [by apply Hput, Hput|].
  apply safe_attempt; [by apply Hput, Hput| |]; intros s4 [_ ->]; [|by split; [apply Hput, Hput|]].
  unfold chmod. cbn [files put_file]. rewrite lookup_insert_eq.
  split; [apply writing_put; [by apply Hput, Hput|by right; right]|]. intros _. split; [done|].
  cbn. by rewrite lookup_insert_eq.
Qed.

(** The number recorded in a pid file. *)
Definition recorded_pid (s : fs) (p : str) : option N :=
  f ← files s !! p; text ← from_utf8 (content f); parse_uint U32_MAX (trim text).

Lemma status_safe xdg home sid s :
  safe (λ s', s' = s) (λ r s', ∀ p, pid_file_path xdg home sid = Ok p →
      (r = Ok Stopped ∧ (stat_works p → ¬ present s p)) ∨
      present s p ∧ (r = Err (ControlFile p) ∨
        ∃ pid, recorded_pid s p = Some pid ∧ (r = Ok (Running pid) ∨ r = Ok (StalePidFile pid))))
    (status_daemon xdg home sid) s.
Proof.
  unfold status_daemon. apply safe_bind. split; [done|].
  destruct (pid_file_path xdg home sid) as [p|] eqn:Ep; [|done]. split; [done|].
  intros found s1 [-> Hf]. destruct found; cbn [negb].
  2: { split; [done|]. intros p' [= <-]. by left. }
  rename Hf into Hp.
  split; [done|]. intros o s2 [-> Ho]. apply safe_bind. split; [done|].
  destruct o as [text|]; cbn [ok_or].
  2: { intros p' [= <-]. right. split; [done|by left]. }
  destruct (Ho _ eq_refl) as (f & Hl & Hd). apply safe_bind. split; [done|].
  assert (recorded_pid s p = parse_uint U32_MAX (trim text)) as Hr.
  { unfold recorded_pid. rewrite Hl. cbn [mbind option_bind]. by rewrite Hd. }
  destruct (parse_uint U32_MAX (trim text)) as [pid|] eqn:Et; cbn [ok_or].
  2: { intros p' [= <-]. right. split; [done|by left]. }
  split; [done|]. intros alive s3 ->. split; [done|]. intros p' [= <-].
  right. split; [done|]. right. exists pid. split; [done|]. destruct alive; [by left|by right].
Qed.

(** The directories with a pid file. *)
Definition daemon_dir (s : fs) (root name : str) : Prop :=
  is_Some (dirs s !! path_join root name)
  ∧ present s (path_join (path_join root name) PID_FILE_NAME).

#[local] Instance daemon_dir_dec s root name : Decision (daemon_dir s root name).
Proof. unfold daemon_dir. apply _. Defined.

Definition single {A} (l : list A) : option A := match l with [a] => Some a | _ => None end.


Lemma discover_safe s root found l :
  safe (λ s', s' = s) (λ r s', ∀ o, r = Ok o → (∀ p, stat_works p) →
      let found_dirs := option_list found ++ filter (daemon_dir s root) (omap id l) in
      o = single found_dirs ∧ (None ∉ l ∨ (2 ≤ length found_dirs)%nat))
    (discover_entries root found l) s.
Proof.
  revert found. induction l as [|[name|] l IH]; intros found; cbn [discover_entries].
  - split; [done|]. intros o [= <-] _. destruct found; (split; [done|left; apply not_elem_of_nil]).
  - assert (∀ found', found' = found ∧ ((∀ p, stat_works p) → ¬ daemon_dir s root name)
        ∨ found = None ∧ found' = Some name ∧ daemon_dir s root name →
      safe (λ s', s' = s) (λ r s', ∀ o, r = Ok o → (∀ p, stat_works p) →
      let found_dirs := option_list found ++ filter (daemon_dir s root) (omap id (Some name :: l)) in
      o = single found_dirs ∧ (None ∉ Some name :: l ∨ (2 ≤ length found_dirs)%nat))
      (discover_entries root found' l) s) as Hgo.
    { intros found' Hf. eapply safe_weaken; [|apply IH]. intros r s' H o Ho Hstat.
      destruct (H o Ho Hstat) as [-> Hl]. clear H Ho.
      assert (option_list found ++ filter (daemon_dir s root) (omap id (Some name :: l))
        = option_list found' ++ filter (daemon_dir s root) (omap id l)) as ->.
      { cbn [omap list_omap id]. rewrite filter_cons.
        destruct Hf as [[-> Hn]|(-> & -> & Hd)]; [rewrite decide_False by auto; done|by rewrite decide_True]. }
      split; [done|]. destruct Hl as [Hl|Hl]; [left|by right].
      intros Hin. apply Hl. by apply elem_of_cons in Hin as [|]. }
    split; [done|]. intros is_dir s1 [-> Hd]. destruct is_dir; cbn [negb].
    2: { apply Hgo. left. split; [done|]. intros Hstat [Hs _]. rewrite Hd in Hs by done. by destruct Hs. }
    split; [done|]. intros has s2 [-> Hp]. destruct has; cbn [negb].
    2: { apply Hgo. left. split; [done|]. intros Hstat [_ Hs]. by apply Hp. }
    assert (daemon_dir s root name) as Hdd by by split.
    destruct found as [a|]; [|by apply Hgo; right].
    split; [done|]. intros o [= <-] _. cbn [omap list_omap id option_list].
    rewrite filter_cons, decide_True by done. split; [done|right; cbn; lia].
  - by split.
Qed.

Lemma single_Some (A : Type) (l : list A) a : single l = Some a ↔ l = [a].
Proof. destruct l as [|x [|y l]]; cbn; (split; [|congruence]); congruence. Qed.

(** The only directory with a pid file. *)
Definition only_daemon (s : fs) (root name : str) : Prop :=
  ∀ n, n ≠ [] ∧ (47 ∉ n) ∧ daemon_dir s root n ↔ n = name.

Lemma listed_daemon s root l n :
  list_effect root s (Some l) → n ∈ filter (daemon_dir s root) (omap id l) →
  n ≠ [] ∧ (47 ∉ n) ∧ daemon_dir s root n.
Proof.
  intros Hl [Hd (x & Hx & E)%list_elem_of_omap]%list_elem_of_filter. cbn in E. subst x.
  destruct (Hl l eq_refl) as [_ Hin]. destruct (Hin n) as [H1 _]. by destruct (H1 Hx) as (? & ? & _).
Qed.

Lemma listed_single s root l name :
  list_effect root s (Some l) → None ∉ l →
  filter (daemon_dir s root) (omap id l) = [name] ↔ only_daemon s root name.
Proof.
  intros Hl Hn. destruct (Hl l eq_refl) as [Hnd Hin].
  assert (∀ n, n ∈ filter (daemon_dir s root) (omap id l) ↔
    n ≠ [] ∧ (47 ∉ n) ∧ daemon_dir s root n) as Hm.
  { intros n. split; [by apply listed_daemon|]. intros (Hne & Hc & Hd).
    apply list_elem_of_filter. split; [done|]. apply list_elem_of_omap. exists (Some n). split; [|done].
    apply Hin; [done..|]. right. apply Hd. }
  unfold only_daemon. split.
  - intros E n. rewrite <- Hm, E. apply list_elem_of_singleton.
  - intros E. assert (NoDup (filter (daemon_dir s root) (omap id l))) as Hf by by apply NoDup_filter.
    apply Permutation_singleton_r, NoDup_Permutation; [done|apply NoDup_singleton|].
    intros n. rewrite Hm, E. by rewrite list_elem_of_singleton.
Qed.

Lemma listed_two s root l name :
  list_effect root s (Some l) → (2 ≤ length (filter (daemon_dir s root) (omap id l)))%nat →
  ¬ only_daemon s root name.
Proof.
  intros Hl Hlen Hone. destruct (Hl l eq_refl) as [Hnd _].
  apply (NoDup_filter (daemon_dir s root)) in Hnd.
  pose proof (λ n, listed_daemon s root l n Hl) as Hd.
  destruct (filter _ _) as [|a [|b r]]; cbn in Hlen; [lia|lia|].
  assert (a = name) as -> by (apply Hone, Hd; by left).
  assert (b = name) as -> by (apply Hone, Hd; right; by left).
  apply NoDup_cons in Hnd as [Hn _]. apply Hn. by left.
Qed.


Lemma discover_sid_safe xdg home root s :
  control_runtime_root_path xdg home = Ok root →
  safe (λ s', s' = s)
    (λ r s', ∀ o, r = Ok o → (∀ p, stat_works p) → ∀ name, o = Some name ↔ present s root ∧ only_daemon s root name)
    (discover_sid_from_pid_files xdg home) s.
Proof.
  intros Hroot. unfold discover_sid_from_pid_files. rewrite Hroot. apply safe_bind.
  split; [done|]. split; [done|]. intros found s1 [-> Hf]. destruct found; cbn [negb].
  2: { split; [done|]. intros o [= <-] Hstat name. split; [done|]. intros [Hp _]. by apply Hf in Hp. }
  rename Hf into Hp.
  split; [done|]. intros o s2 [-> Ho]. apply safe_bind. split; [done|].
  destruct o as [l|]; [|done]. cbn [ok_or].
  eapply safe_weaken; [|apply discover_safe]. intros r s' H o Hr Hstat. destruct (H o Hr Hstat) as [-> Hl].
  cbn [option_list app] in *. intros name. rewrite single_Some.
  destruct (decide (None ∈ l)) as [Hn|Hn].
  - destruct Hl as [|Hl]; [done|]. split; [intros E; rewrite E in Hl; cbn in Hl; lia|].
    intros [_ Hone]. by apply (listed_two _ _ _ name Ho) in Hl.
  - rewrite (listed_single _ _ _ name Ho Hn). by split; [|intros []].
Qed.

(** The group named in the marker file. *)
Definition marked_sid (s : fs) (p : str) : option str :=
  f ← files s !! p; text ← from_utf8 (content f);
  if is_empty (trim text) then None else Some (trim text).


Lemma resolve_safe xdg home root marker s :
  stat_works marker → control_runtime_root_path xdg home = Ok root → current_sid_marker_path xdg home = Ok marker →
  safe (λ s', s' = s)
    (λ r s', ∀ o, r = Ok o →
       match marked_sid s marker with
       | Some sid => o = Some sid
       | None => (∀ p, stat_works p) → ∀ name, o = Some name ↔ present s root ∧ only_daemon s root name
       end)
    (resolve_current_sid xdg home) s.
Proof.
  intros Hstat Hroot Hm. unfold resolve_current_sid. rewrite Hm. apply safe_bind. split; [done|].
  assert (safe (λ s', s' = s) (λ r s', ∀ o, r = Ok o → (∀ p, stat_works p) →
    ∀ name, o = Some name ↔ present s root ∧ only_daemon s root name)
    (discover_sid_from_pid_files xdg home) s) as Hdisc by by apply discover_sid_safe.
  split; [done|]. intros found s1 [-> Hf]. destruct found.
  2: { assert (marked_sid s marker = None) as ->; [|exact Hdisc].
       unfold marked_sid. destruct (files s !! marker) as [f|] eqn:E; [|done].
       exfalso. apply Hf; [done|]. left. by eexists. }
  split; [done|]. intros o s2 [-> Ho]. apply safe_bind. split; [done|].
  destruct o as [text|]; [|done]. cbn [ok_or]. destruct (Ho _ eq_refl) as (f & Hl & Hd).
  assert (marked_sid s marker = if is_empty (trim text) then None else Some (trim text)) as ->.
  { unfold marked_sid. rewrite Hl. cbn [mbind option_bind]. by rewrite Hd. }
  destruct (is_empty (trim text)); cbn [negb]; [exact Hdisc|].
  split; [done|]. by intros o [= <-].
Qed.
End effects.

Lemma set_marker_safe {I : Environment} xdg home sid marker (s : fs) :
  current_sid_marker_path xdg home = Ok marker →
  safe (λ _, True) (λ r s', r = Ok tt →
      files s' !! marker = Some {| content := encode sid; file_mode := PRIVATE_FILE |})
    (set_current_sid xdg home sid) s.
Proof.
  intros Hm. unfold set_current_sid. apply safe_then; [done|]. intros root s1.
  rewrite Hm. apply safe_bind. split; [done|].
  eapply safe_mono; [..|apply (write_control_safe marker sid s1)]; [done|].
  intros r s2 _ H Hr. by apply H.
Qed.

(** A pid file and a marker with their text are found. *)
Lemma status_of_pid {I : Environment} xdg home sid path pid (s : fs) :
  pid_file_path xdg home sid = Ok path → pid ≤ U32_MAX → stat_works path →
  files s !! path = Some {| content := encode (to_string pid); file_mode := PRIVATE_FILE |} →
  safe (λ _, True) (λ r _, ∀ st, r = Ok st → st = Running pid ∨ st = StalePidFile pid)
    (status_daemon xdg home sid) s.
Proof.
  intros Hp Hpid Hst0 Hf. eapply safe_mono; [done| |apply (status_safe xdg home sid s)].
  intros r s2 _ Hst st ->. destruct (Hst path Hp) as [[_ Hn]|[_ [|(pid' & Hrec & Hc)]]]; [|done|].
  { exfalso. apply Hn; [done|]. left. by eexists. }
  unfold recorded_pid in Hrec. rewrite Hf in Hrec. cbn [mbind option_bind content] in Hrec.
  rewrite from_utf8_encode in Hrec by apply to_string_wf. cbn [mbind option_bind] in Hrec.
  rewrite (proj2 (to_string_line_safe pid)), parse_to_string in Hrec by done.
  injection Hrec as <-. by destruct Hc as [[= ->]|[= ->]]; [left|right].
Qed.

Lemma marked_is_found {I : Environment} xdg home sid marker (s : fs) :
  stat_works marker →
  current_sid_marker_path xdg home = Ok marker → wf_str sid → trim sid ≠ [] →
  files s !! marker = Some {| content := encode sid; file_mode := PRIVATE_FILE |} →
  safe (λ _, True) (λ r _, ∀ o, r = Ok o → o = Some (trim sid)) (resolve_current_sid xdg home) s.
Proof.
  intros Hstat Hm Hw Ht Hf. destruct (control_runtime_root_path xdg home) as [root|] eqn:Hroot.
  2: { unfold current_sid_marker_path in Hm. by rewrite Hroot in Hm. }
  eapply safe_mono; [done| |by apply (resolve_safe xdg home root marker s)].
  intros r s2 _ Hr o ->. specialize (Hr o eq_refl).
  unfold marked_sid in Hr. rewrite Hf in Hr by done. cbn [mbind option_bind content] in Hr.
  rewrite from_utf8_encode in Hr by done. cbn [mbind option_bind] in Hr.
  unfold is_empty in Hr. by rewrite bool_decide_false in Hr by done.
Qed.

Lemma pid_read_back {I : Environment} xdg home sid path pid (s : fs) :
  pid_file_path xdg home sid = Ok path → pid ≤ U32_MAX → stat_works path →
  safe (λ _, True) (λ r _, ∀ st, r = Ok st → st = Running pid ∨ st = StalePidFile pid)
    (_ ← write_control_file path (to_string pid); status_daemon xdg home sid) s.
Proof.
  intros Hp Hpid Hstat. apply safe_bind. eapply safe_mono; [done| |apply (write_control_safe path (to_string pid) s)].
  intros [[]|] s1 _ Hw; [|done]. eapply status_of_pid; [done..|]. by apply Hw.
Qed.

Lemma marker_read_back {I : Environment} xdg home sid path (s : fs) :
  stat_works path →
  current_sid_marker_path xdg home = Ok path → wf_str sid → trim sid ≠ [] →
  safe (λ _, True) (λ r _, ∀ o, r = Ok o → o = Some (trim sid))
    (_ ← set_current_sid xdg home sid; resolve_current_sid xdg home) s.
Proof.
  intros Hstat Hm Hw Ht. apply safe_bind. eapply safe_weaken; [|by apply (set_marker_safe xdg home sid path s)].
  intros [[]|] s1 Hf; [|done]. eapply marked_is_found; [done..|]. by apply Hf.
Qed.

(** ** Termination *)

Lemma wait_bounded pid polls waited :
  waited + STOP_POLL_MILLIS * N.of_nat polls = STOP_WAIT_MILLIS →
  bounded (2 * polls + 1) (wait_for_exit pid waited).
Proof.
  revert waited. induction polls as [|polls IH]; intros waited Hw; rewrite wait_unfold.
  - intros []; [|done]. by rewrite decide_False by lia.
  - replace (2 * S polls + 1)%nat with (S (S (2 * polls + 1))) by lia.
    intros []; [|done]. unfold STOP_POLL_MILLIS in *. rewrite decide_True by lia.
    intros ok. apply IH. lia.
Qed.

Section termination.
Context (xdg home : option str) (sid : str).

Lemma ensure_private_bounded path : bounded 2 (ensure_private_dir path).
Proof. by apply (bounded_bind 1 1); [|intros _]; apply bounded_attempt. Qed.

Lemma ensure_dir_bounded : bounded 4 (ensure_control_runtime_dir_for_sid xdg home sid).
Proof.
  apply (bounded_bind 0 4); [done|]. intros dir. apply (bounded_bind 2 2).
  - apply (bounded_bind 0 2); [done|]. intros root.
    by apply (bounded_bind 2 0); [apply ensure_private_bounded|].
  - intros _. by apply (bounded_bind 2 0); [apply ensure_private_bounded|].
Qed.

Lemma write_bounded path text : bounded 4 (write_control_file path text).
Proof.
  unfold write_control_file.
  apply (bounded_bind 1 3); [apply bounded_attempt|intros _].
  apply (bounded_bind 1 2); [apply bounded_attempt|intros _].
  by apply (bounded_bind 1 1); [|intros _]; apply bounded_attempt.
Qed.

Lemma remove_bounded path : bounded 2 (remove_if_present path).
Proof. intros []; [apply bounded_attempt|done]. Qed.

Lemma status_bounded : bounded 3 (status_daemon xdg home sid).
Proof.
  apply (bounded_bind 0 3); [done|]. intros path []; cbn [negb]; [|done]. intros o.
  apply (bounded_bind 0 1); [done|]. intros text.
  by apply (bounded_bind 0 1); [|intros pid alive].
Qed.

Lemma stop_bounded : bounded 134 (stop_daemon xdg home sid).
Proof.
  apply (bounded_bind 3 131); [apply status_bounded|]. intros [pid| |pid]; [|done|].
  - apply (bounded_bind 4 127); [apply ensure_dir_bounded|intros _].
    apply (bounded_bind 0 127); [done|intros path].
    apply (bounded_bind 4 123); [apply write_bounded|intros _].
    apply (bounded_bind 121 2); [by apply (wait_bounded pid 60)|intros _].
    intros []; [|done]. by apply (bounded_bind 1 0); [apply bounded_attempt|].
  - eapply (bounded_mono 4); [lia|]. apply (bounded_bind 0 4); [done|intros path].
    apply (bounded_bind 2 2); [apply remove_bounded|intros _].
    apply (bounded_bind 0 2); [done|intros stop].
    by apply (bounded_bind 2 0); [apply remove_bounded|].
Qed.
End termination.

(** ** Properties *)

(** C18: stopping a daemon is bounded and careful.  Whatever the system answers,
    [stop_daemon] sleeps at most three seconds, and the only calls it makes
    create the directories of the group and its stop file, remove its pid and
    stop files, and look at or kill processes.  The kill, if any, is the last
    call; it is sent to the number read from the pid file, after the stop file
    was written, right after the process was seen, and only if the whole wait
    has passed or the process had been gone in between (its number was used
    again).  It answers [true] only if in the end the process was gone or the
    kill succeeded, and [false] only if it did nothing but look and remove. *)
Theorem stop_daemon_bounded (xdg home : option str) (sid : str)
    (m' : io RuntimeError bool) (h : list event) :
  reaches (stop_daemon xdg home sid) [] m' h →
  slept h ≤ STOP_WAIT_MILLIS
  ∧ Forall (event_call (stop_call xdg home sid)) h
  ∧ (∀ pid ok, Called (KillTerm pid) ok ∈ h →
      ∃ h0, h = h0 ++ [Called (ProcessExists pid) true; Called (KillTerm pid) ok]
      ∧ pid_was_read xdg home sid pid h0 ∧ stop_was_requested xdg home sid h0
      ∧ (slept h0 = STOP_WAIT_MILLIS ∨ Called (ProcessExists pid) false ∈ h0))
  ∧ (m' = Ret (Ok true) → stop_was_requested xdg home sid h
      ∧ ∃ pid, pid_was_read xdg home sid pid h
        ∧ (last h = Some (Called (ProcessExists pid) false)
           ∨ last h = Some (Called (KillTerm pid) true)))
  ∧ (m' = Ret (Ok false) → Forall (event_call modest) h).
Proof.
  intros Hr.
  destruct (safe_reaches _ _ _ _ _ _ (stop_safe xdg home sid) Hr) as [[Hs Hk] Hp].
  destruct (safe_reaches _ _ _ _ _ _
    (calls_only_history _ _ [] (stop_calls xdg home sid)) Hr) as [(t & -> & Ht) _].
  split_and!; [done|done|exact Hk| |]; intros ->; exact (Hp _ eq_refl).
Qed.

(** C19: stopping a daemon ends.  Whatever the system answers, [stop_daemon] makes
    at most 134 system calls (of which at most 121 wait for the process), the
    status at most three, and until they have made them they can go on: every
    run is finite and ends with a result. *)
Theorem stop_daemon_terminates (xdg home : option str) (sid : str) :
  (∀ m' (h : list event), reaches (stop_daemon xdg home sid) [] m' h →
     (length h ≤ 134)%nat ∧ ((∃ r, m' = Ret r) ∨ ∃ m'' e, io_step (m', h) (m'', h ++ [e])))
  ∧ (∀ m' (h : list event), reaches (status_daemon xdg home sid) [] m' h →
     (length h ≤ 3)%nat ∧ ((∃ r, m' = Ret r) ∨ ∃ m'' e, io_step (m', h) (m'', h ++ [e]))).
Proof.
  split; intros m' h Hr; (split; [|apply io_progress]).
  - destruct (bounded_reaches _ _ _ _ _ (stop_bounded xdg home sid) Hr) as (n & _ & Hn). cbn in Hn. lia.
  - destruct (bounded_reaches _ _ _ _ _ (status_bounded xdg home sid) Hr) as (n & _ & Hn). cbn in Hn. lia.
Qed.

(** What the status says.  Asking for the status changes nothing.  Where the
    metadata of the pid file can be read, it says stopped exactly when there is
    no pid file; an answer other than stopped reports a pid file that is there
    as unreadable, or names the 32-bit number it holds. *)
Theorem status_daemon_exact {I : Environment} (xdg home : option str) (sid p : str)
    (r : result RuntimeError DaemonStatus) (s s' : fs) :
  pid_file_path xdg home sid = Ok p →
  reaches (status_daemon xdg home sid) s (Ret r) s' →
  s' = s
  ∧ (stat_works p → r = Ok Stopped ↔ ¬ present s p)
  ∧ (r ≠ Ok Stopped → present s p ∧ (r = Err (ControlFile p) ∨
      ∃ pid, recorded_pid s p = Some pid ∧ pid ≤ U32_MAX
        ∧ (r = Ok (Running pid) ∨ r = Ok (StalePidFile pid)))).
Proof.
  intros Hp Hr. destruct (safe_reaches _ _ _ _ _ _ (status_safe xdg home sid s) Hr) as [-> H].
  split; [done|]. destruct (H r eq_refl p Hp) as [[-> Hn]|[Hpr Hc]].
  - split; [|done]. intros Hstat. split; [|done]. intros _. by apply Hn.
  - split; [intros _; split; [|done]; intros ->; by destruct Hc as [|(? & _ & [|])]|]. intros _.
    split; [done|]. destruct Hc as [->|(pid & Hrec & Hc)]; [by left|right]. exists pid. split_and!; [done| |done].
    unfold recorded_pid in Hrec. destruct (files s !! p) as [f|]; [|done]. cbn in Hrec.
    destruct (from_utf8 (content f)) as [text|]; [|done]. by apply parse_uint_bound in Hrec.
Qed.


(** C35: control files are written with mode 0600 and read back.  While a
    control file is written no other file changes; a file that did not exist
    has mode 0600 in every state, and one that existed has its old mode or 0600,
    the old one until the last step; once written it holds the text with mode
    0600.  A status that is answered after a pid file was written names its
    process, where the metadata of the file can be read, and a group that is
    found after a marker was written is that of the marker, where metadata can
    be read. *)
Theorem control_files_round_trip {I : Environment} (xdg home : option str) (sid path text : str)
    (pid : N) (s s' : fs) :
  (∀ m', reaches (write_control_file path text) s m' s' →
     (∀ q, q ≠ path → files s' !! q = files s !! q)
     ∧ (files s !! path = None → ∀ f, files s' !! path = Some f → file_mode f = PRIVATE_FILE)
     ∧ (∀ f f', files s !! path = Some f → files s' !! path = Some f' →
          file_mode f' = file_mode f ∨ file_mode f' = PRIVATE_FILE ∧ content f' = encode text)
     ∧ (m' = Ret (Ok tt) →
        files s' !! path = Some {| content := encode text; file_mode := PRIVATE_FILE |}))
  ∧ (∀ st, pid_file_path xdg home sid = Ok path → pid ≤ U32_MAX → stat_works path →
     reaches (_ ← write_control_file path (to_string pid); status_daemon xdg home sid)
       s (Ret (Ok st)) s' →
     st = Running pid ∨ st = StalePidFile pid)
  ∧ (∀ o, stat_works path → current_sid_marker_path xdg home = Ok path → wf_str sid → trim sid ≠ [] →
     reaches (_ ← set_current_sid xdg home sid; resolve_current_sid xdg home) s (Ret (Ok o)) s' →
     o = Some (trim sid)).
Proof.
  split_and!.
  - intros m' Hr. destruct (safe_reaches _ _ _ _ _ _ (write_control_safe path text s) Hr) as [(_ & Hq & Hf) Hp].
    split_and!; [done| | |].
    + intros Hn f E. destruct (Hf f E) as [[_ ?]|[Hs|[? _]]]; [done| |done]. by rewrite Hn in Hs.
    + intros f f' E E'. destruct (Hf f' E') as [[Hn _]|[Hs|?]]; [by rewrite Hn in E| |by right].
      rewrite E in Hs. injection Hs as ->. by left.
    + intros ->. by apply (Hp _ eq_refl).
  - intros st Hp Hpid Hstat Hr.
    by apply (proj2 (safe_reaches _ _ _ _ _ _ (pid_read_back xdg home sid path pid s Hp Hpid Hstat) Hr) _ eq_refl).
  - intros o Hstat Hm Hw Ht Hr.
    by apply (proj2 (safe_reaches _ _ _ _ _ _ (marker_read_back xdg home sid path s Hstat Hm Hw Ht) Hr) _ eq_refl).
Qed.

(** ** Concrete behaviours and witnesses *)

#[local] Definition xdg1 : option str := Some (lit "/run/user/1000").

(** The daemon of group-a is process 4711; it does not react to the stop file. *)
Definition stubborn : list answer :=
  [Done true; Text (Some (lit "4711")); Done true]
  ++ replicate 4 (Done true) ++ replicate 4 (Done true)
  ++ replicate 121 (Done true) ++ [Done true; Done true].

Lemma stop_daemon_bounded_witness :
  (replay (stop_daemon xdg1 None (lit "group-a")) stubborn []).1 = Ret (Ok true)
  ∧ Called (KillTerm 4711) true ∈ (replay (stop_daemon xdg1 None (lit "group-a")) stubborn []).2
  ∧ ∃ h0, (replay (stop_daemon xdg1 None (lit "group-a")) stubborn []).2
      = h0 ++ [Called (ProcessExists 4711) true; Called (KillTerm 4711) true]
    ∧ (slept h0 = 3000 ∨ Called (ProcessExists 4711) false ∈ h0).
Proof.
  pose proof (replay_reaches (stop_daemon xdg1 None (lit "group-a")) stubborn []) as Hr.
  destruct (stop_daemon_bounded xdg1 None (lit "group-a") _ _ Hr) as (_ & _ & Hk & _).
  assert (Called (KillTerm 4711) true ∈ (replay (stop_daemon xdg1 None (lit "group-a")) stubborn []).2)
    as Hin by by_compute.
  split; [by vm_compute|]. split; [done|].
  destruct (Hk 4711 true Hin) as (h0 & E & _ & _ & H). exists h0. split; [exact E|exact H].
Defined.

(** The stubborn daemon takes the most calls there can be. *)
Lemma stop_daemon_terminates_witness :
  length (replay (stop_daemon xdg1 None (lit "group-a")) stubborn []).2 = 134%nat
  ∧ (length (replay (stop_daemon xdg1 None (lit "group-a")) stubborn []).2 ≤ 134)%nat.
Proof.
  split; [by vm_compute|].
  exact (proj1 (proj1 (stop_daemon_terminates xdg1 None (lit "group-a")) _ _
    (replay_reaches (stop_daemon xdg1 None (lit "group-a")) stubborn []))).
Defined.

Definition control_fs : fs :=
  {| files := <[lit "/run/user/1000/ssh-key-sync/group-a/daemon.pid" :=
         {| content := encode (lit "4711"); file_mode := 384 |}]> ∅;
     dirs := <[lit "/run/user/1000/ssh-key-sync" := 448]>
       (<[lit "/run/user/1000/ssh-key-sync/group-b" := 448]>
         {[lit "/run/user/1000/ssh-key-sync/group-a" := 448]}) |}.

Lemma status_daemon_exact_witness :
  (run (status_daemon xdg1 None (lit "group-a")) control_fs).1 = Ok (Running 4711)
  ∧ (run (status_daemon xdg1 None (lit "group-a")) control_fs).2 = control_fs.
Proof.
  pose proof (@run_reaches no_environment _ _ (status_daemon xdg1 None (lit "group-a")) control_fs) as Hr.
  split; [by vm_compute|].
  by destruct (@status_daemon_exact no_environment xdg1 None (lit "group-a")
    (lit "/run/user/1000/ssh-key-sync/group-a/daemon.pid") _ _ _ ltac:(by vm_compute) Hr).
Defined.


Definition mark_and_find : io RuntimeError (option str) :=
  _ ← set_current_sid xdg1 None (lit "group-a"); resolve_current_sid xdg1 None.

Lemma control_files_round_trip_witness :
  (run mark_and_find control_fs).1 = Ok (Some (lit "group-a")).
Proof.
  pose proof (@run_reaches no_environment _ _ mark_and_find control_fs) as Hr.
  assert (is_ok (run mark_and_find control_fs).1 = true) as Hok by (by vm_compute).
  revert Hr Hok. generalize (run mark_and_find control_fs). intros [[o|e] s'] Hr Hok; [|done].
  destruct (@control_files_round_trip no_environment xdg1 None (lit "group-a")
    (lit "/run/user/1000/ssh-key-sync/current_sid") [] 0 control_fs s') as (_ & _ & H).
  cbn [fst snd] in *. f_equal.
  exact (H o ltac:(done) ltac:(by vm_compute) ltac:(by_compute) ltac:(by vm_compute) Hr).
Defined.

(** A pid file that is there with mode 0644 has its new text before its mode. *)
Definition open_fs : fs :=
  {| files := {[lit "/run/daemon.pid" := {| content := encode (lit "1"); file_mode := 420 |}]};
     dirs := ∅ |}.

Example old_mode_while_written :
  ∃ m', reaches (WW := @fs_world no_environment) (write_control_file (lit "/run/daemon.pid") (lit "4711")) open_fs
      m' (put_file open_fs (lit "/run/daemon.pid") {| content := encode (lit "4711"); file_mode := 420 |}).
Proof.
  eexists. eapply rtc_l.
  { eapply (@io_call _ (@fs_world no_environment)) with (ok := true).
    by apply (@exec_effect no_environment (OpenTruncate (lit "/run/daemon.pid") PRIVATE_FILE) open_fs). }
  eapply rtc_l; [|apply rtc_refl].
  eapply (@io_call _ (@fs_world no_environment)) with (ok := true).
  by exists (encode (lit "4711")).
Qed.
