(* ===== verification/Server.v ===== *)
(** * Serving and fetching keys (src/src/runtime.rs)

    The two sides of the protocol: [handle_http_connection] and
    [handle_udp_announcements] on the server, [request_public_key] and
    [run_sync_cycle] on the client, and [run_single_sync], which builds its
    transport security first.  To a request the network is a function from an
    address and the bytes sent to the bytes received ([Tls.exchange] is the one
    of the program); the clock is read by the caller.  The theorems: a key is
    fetched end to end, what a connection can answer, what a synchronisation
    makes of the key map whatever order the hash maps are walked in, and what it
    writes. *)

From S2P Require Import Prelude Str Utf8 Hex KeyValue SshKeys AuthorizedKeys Auth Envelope.
From S2P Require Import Transport Discovery Config Http Paths System Files Tls.

Local Open Scope N_scope.

(** ** Data *)

Record PeerEndpoint := {
  ep_participant_id : str;
  ep_address : str;
  ep_port : N
}.

#[export] Instance PeerEndpoint_eq_dec : EqDecision PeerEndpoint.
Proof. solve_decision. Defined.

Definition TIMESTAMP_SKEW_SECS : N := 60.
Definition NONCE_TTL_SECS : N := 120.
Definition UDP_BUFFER : N := 8192.

(** ** Hash maps

    [HashMap::values] enumerates the values in an order that the standard
    library leaves open; the code must not depend on it. *)

Class HashOrder := values : ∀ {A}, gmap str A → list A.
Class HashOrderOk (H : HashOrder) : Prop :=
  values_perm : ∀ A (m : gmap str A), values m ≡ₚ (map_to_list m).*2.

(** ** Operations *)

(** [next_nonce], from the clock in nanoseconds. *)
Definition next_nonce (nanos : N) : str := lit "n-" ++ to_string nanos.

Definition parse_bootstrap_peer (value : str) : option PeerEndpoint :=
  let trimmed := trim value in
  if is_empty trimmed then None
  else
    let '(participant, host_port) :=
      match split_once 64 trimmed with
      | Some (participant, host_port) => (trim participant, trim host_port)
      | None => (trimmed, trimmed)
      end in
    '(addr, port_text) ← rsplit_once 58 host_port;
    p ← parse_uint U16_MAX (trim port_text);
    Some {| ep_participant_id := participant; ep_address := trim addr; ep_port := p |}.

Section server.
Context {C : Crypto} {B : Build}.

(** The bytes sent back on the connection, or the error of reading it. *)
Definition handle_http_connection (service : HttpKeyExchangeService) (stream : reads)
    (now : N) (nonce : str) : outcome (result io_error bytes) :=
  request ← read_http_request stream;
  match request with
  | Err e => Val (Err e)
  | Ok (path, body) =>
      match parse_envelope body with
      | Err _ => Val (Ok (write_http_response 400 (lit "invalid envelope")))
      | Ok envelope =>
          let respond response :=
            match response with
            | Ok envelope => write_http_response 200 (encode (serialize_envelope envelope))
            | Err _ => write_http_response 401 (lit "verification failed")
            end in
          if bool_decide (path = PATH_GET_PUBLIC_KEY) then
            Val (Ok (respond (handle_get_public_key_request service envelope now nonce)))
          else if bool_decide (path = PATH_PUBLISH_PARTICIPANT) then
            Val (Ok (respond (handle_publish_request service envelope now nonce)))
          else Val (Ok (write_http_response 404 (lit "not found")))
      end
  end.

(** One datagram: the buffer holds [UDP_BUFFER] bytes, the rest is cut off.  The result
    has the line printed for the event. *)
Definition handle_datagram (d : DiscoveryEngine) (datagram : bytes) (now : N) :
    DiscoveryEngine * option str :=
  match from_utf8 (take (N.to_nat UDP_BUFFER) datagram) with
  | None => (d, None)
  | Some text =>
      match parse_envelope text with
      | Err _ => (d, None)
      | Ok envelope =>
          let '(d, r) := process_announcement d envelope now in
          (d, match r with
              | Ok (PeerAdded participant) => Some (lit "Discovered new peer: " ++ participant)
              | Ok (PeerUpdated participant) => Some (lit "Updated peer record: " ++ participant)
              | _ => None
              end)
      end
  end.

(** The loop over [recv_from]: datagrams, each with the clock at its
    processing, until an error (the socket does not block). *)
Fixpoint handle_udp_announcements (d : DiscoveryEngine)
    (received : list (result io_error (bytes * N))) : io (abort RuntimeError) DiscoveryEngine :=
  match received with
  | [] => Ret (Ok d)
  | Err _ :: _ => Ret (Ok d)
  | Ok (datagram, now) :: rest =>
      let '(d, line) := handle_datagram d datagram now in
      _ ← match line with Some line => println line | None => Ret (Ok tt) end;
      handle_udp_announcements d rest
  end.

(** The payload that [send_announcement] sends to the broadcast address. *)
Definition send_announcement (d : DiscoveryEngine) (participant addr : str) (p : N)
    (key : str) (now : N) (nonce : str) : result RuntimeError bytes :=
  envelope ← map_err (λ _, BuildAnnouncement)
    (build_startup_announcement d participant addr p key now nonce);
  Ok (encode (serialize_envelope envelope)).

End server.

Section client.
Context {C : Crypto}.
(** What comes back from an address for the bytes of a request. *)
Context (network : str → N → bytes → result io_error bytes).

Definition send_http_post (addr : str) (p : N) (path body : str) : result io_error str :=
  response ← network addr p (post_request addr p path body);
  response_body response.

Definition request_public_key (service : HttpKeyExchangeService) (endpoint : PeerEndpoint)
    (now : N) (nonce : str) : result RuntimeError str :=
  let request_envelope :=
    build_get_public_key_request service (ep_participant_id endpoint) now nonce in
  let request_body := serialize_envelope request_envelope in
  response_body ← map_err (λ _, HttpRequestFailed)
    (send_http_post (ep_address endpoint) (ep_port endpoint) PATH_GET_PUBLIC_KEY request_body);
  response_envelope ← map_err (λ _, ParseEnvelope) (parse_envelope response_body);
  payload ← map_err (λ _, VerifyOrParseResponse)
    (verify_and_parse_public_key_response service response_envelope);
  Ok (pk_public_key payload).
End client.

(** ** A synchronisation cycle

    It only asks its source of keys for the key of an endpoint; the laws of
    the source are all the client's theorems need. *)

Class KeySource := fetch_key : PeerEndpoint → result RuntimeError str.

(** A key in normal form. *)
Definition key_ok (k : str) : Prop := normalize_public_key k = Ok k ∧ wf_str k.

Class KeySourceOk (K : KeySource) : Prop :=
  fetched_ok : ∀ ep k, fetch_key ep = Ok k → key_ok k.

Definition endpoint_of (peer : PeerRecord) : PeerEndpoint :=
  {| ep_participant_id := Discovery.participant_id peer; ep_address := address peer;
     ep_port := port peer |}.

Definition insert_endpoint (endpoints : gmap str PeerEndpoint) (endpoint : PeerEndpoint) :
    gmap str PeerEndpoint :=
  <[ep_participant_id endpoint := endpoint]> endpoints.

Definition insert_bootstrap (endpoints : gmap str PeerEndpoint) (peer : str) :
    gmap str PeerEndpoint :=
  match parse_bootstrap_peer peer with
  | Some endpoint => insert_endpoint endpoints endpoint
  | None => endpoints
  end.

Section cycle.
Context {H : HashOrder} {K : KeySource}.

Definition collect_endpoints (bootstrap : list str) (peers : gmap str PeerRecord) :
    gmap str PeerEndpoint :=
  foldl (λ endpoints peer, insert_endpoint endpoints (endpoint_of peer))
    (foldl insert_bootstrap ∅ bootstrap) (values peers).

(** The body of the second loop of [run_sync_cycle]. *)
Definition sync_endpoint (own : str) (managed_keys : gmap str str) (endpoint : PeerEndpoint) :
    gmap str str :=
  if bool_decide (ep_participant_id endpoint = own) then managed_keys
  else match fetch_key endpoint with
       | Ok key => <[ep_participant_id endpoint := key]> managed_keys
       | Err _ => managed_keys
       end.

Definition run_sync_cycle (config : AppConfig) (d : DiscoveryEngine)
    (managed_keys : gmap str str) : gmap str str :=
  foldl (sync_endpoint (Config.participant_id config)) managed_keys
    (values (collect_endpoints (bootstrap_peers config) (de_peers d))).

End cycle.

(** ** A single synchronisation

    [run_single_sync]: the local key and the service, the transport security, a
    fresh engine with the bootstrap peers, one cycle from no keys, and the
    update of authorized_keys, which a dry run skips.  It is a program over the
    file system that talks to the [Network]. *)

(** The source of keys: a request to the endpoint, at the clock's reading in
    seconds and with a nonce from its reading in nanoseconds. *)
Definition service_source {C : Crypto} (network : str → N → bytes → result io_error bytes)
    (clock : PeerEndpoint → N * N) (service : HttpKeyExchangeService) : KeySource := λ endpoint,
  request_public_key network service endpoint (clock endpoint).1 (next_nonce (clock endpoint).2).

Section single_sync.
Context {C : Crypto} {H : HashOrder} {R : Rustls}.
Context (home : option str) (default_mode : N) (Net : Network R) (clock : PeerEndpoint → N * N).

(** The service, given the text of the public key file if it can be read. *)
Definition start_service (key_text : option str) (config : AppConfig) :
    result RuntimeError HttpKeyExchangeService :=
  let path := expand_home_path home (public_key_path config) in
  local_public_key ← map_err (λ _, ReadLocalPublicKey path)
    (read_local_public_key (λ _, key_text) path);
  map_err (λ _, ReadLocalPublicKey path)
    (HttpKeyExchangeService_new (sid config) (sid_token config) (Config.participant_id config)
       local_public_key).

(** The engine of a synchronisation that has only the configuration. *)
Definition bootstrap_engine (config : AppConfig) : DiscoveryEngine :=
  let d := DiscoveryEngine_new (sid config) (sid_token config)
    TIMESTAMP_SKEW_SECS NONCE_TTL_SECS in
  add_bootstrap_peers d (bootstrap_peers config).

(** The warning that is printed without TLS. *)
Definition warn_if_insecure {E : Type} (security : TransportSecurity R) : io (abort E) unit :=
  if is_tls security then Ret (Ok tt)
  else println (lit "WARNING: transport security is disabled (--insecure-no-tls)").

Definition sync_completed {E : Type} (managed_keys : gmap str str) : io (abort E) unit :=
  println (lit "Sync completed: " ++ to_string (N.of_nat (size managed_keys))
    ++ lit " remote key(s)").

Definition run_single_sync (config : AppConfig) : io (abort RuntimeError) (option str) :=
  let path := expand_home_path home (authorized_keys_path config) in
  ReadToString (expand_home_path home (public_key_path config)) (λ key_text,
    service ← lift (Ret (start_service key_text config));
    security ← lift (build_transport_security home config);
    _ ← warn_if_insecure security;
    let managed_keys :=
      @run_sync_cycle H (service_source (exchange security) clock service) config
        (bootstrap_engine config) ∅ in
    written ← (if dry_run config then Ret (Ok None)
      else
        text ← lift (io_map_err (λ _, WriteAuthorizedKeys path)
          (apply_managed_block_to_file default_mode path (values managed_keys)));
        Ret (Ok (Some text)));
    _ ← sync_completed managed_keys;
    Ret (Ok written)).
End single_sync.

(** ** Lemmas: walking a hash map *)

Section walk.
Context {A V : Type} (key : A → str) (step : gmap str V → A → gmap str V)
  (upd : A → option V → option V).
Hypothesis step_lookup : ∀ m a k,
  step m a !! k = if decide (k = key a) then upd a (m !! k) else m !! k.

Lemma walk_lookup l m :
  NoDup (key <$> l) →
  (∀ a, a ∈ l → foldl step m l !! key a = upd a (m !! key a))
  ∧ (∀ k, k ∉ key <$> l → foldl step m l !! k = m !! k).
Proof.
  revert m. induction l as [|x l IH]; intros m Hnd.
  { split; [by intros a ?%not_elem_of_nil|done]. }
  cbn [fmap list_fmap] in Hnd. apply NoDup_cons in Hnd as [Hx Hnd].
  destruct (IH (step m x) Hnd) as [H1 H2]. cbn [foldl]. split.
  - intros a [->|Ha]%elem_of_cons.
    + rewrite H2 by done. by rewrite step_lookup, decide_True.
    + rewrite H1 by done. rewrite step_lookup, decide_False; [done|].
      intros E. apply Hx. rewrite <- E. by apply list_elem_of_fmap_2.
  - intros k Hk. cbn [fmap list_fmap] in Hk. apply not_elem_of_cons in Hk as [Hne Hk].
    rewrite H2 by done. by rewrite step_lookup, decide_False.
Qed.

(** Walking the values of a map that stores each value under its own key:
    every order gives the same map. *)
Lemma walk_values `{HO : HashOrderOk} (m' : gmap str A) m k :
  map_Forall (λ k a, key a = k) m' →
  foldl step m (values m') !! k =
  match m' !! k with Some a => upd a (m !! k) | None => m !! k end.
Proof.
  intros Hkey. pose proof (HO A m') as Hp.
  assert (key <$> values m' ≡ₚ (map_to_list m').*1) as Hk.
  { rewrite Hp, <- list_fmap_compose.
    assert (key ∘ snd <$> map_to_list m' = (map_to_list m').*1) as ->; [|done].
    apply list_fmap_ext. intros i [k' a] Hi. cbn. apply Hkey.
    apply elem_of_map_to_list. by eapply list_elem_of_lookup_2. }
  destruct (walk_lookup (values m') m) as [H1 H2].
  { rewrite Hk. apply NoDup_fst_map_to_list. }
  destruct (m' !! k) as [a|] eqn:E.
  - pose proof (Hkey _ _ E) as Ek. cbn in Ek. subst k. apply H1. rewrite Hp.
    apply list_elem_of_fmap. exists (key a, a). split; [done|]. by apply elem_of_map_to_list.
  - apply H2. rewrite Hk. intros ([k' a] & -> & Hin)%list_elem_of_fmap.
    apply elem_of_map_to_list in Hin. cbn in E. congruence.
Qed.
End walk.

(** ** Lemmas: the synchronisation cycle *)

Section cycle_lemmas.
Context {H : HashOrder} {HO : HashOrderOk H}.

(** The endpoint of a participant: its record in the table of the engine, else
    the last bootstrap entry that names it. *)
Definition endpoint_for (bootstrap : list str) (peers : gmap str PeerRecord) (pid : str) :
    option PeerEndpoint :=
  match peers !! pid with
  | Some r => Some (endpoint_of r)
  | None => foldl insert_bootstrap ∅ bootstrap !! pid
  end.

Lemma collect_endpoints_lookup bootstrap peers pid :
  map_Forall record_ok peers →
  collect_endpoints bootstrap peers !! pid = endpoint_for bootstrap peers pid.
Proof.
  intros Hp. unfold collect_endpoints, endpoint_for.
  rewrite (walk_values Discovery.participant_id _ (λ r _, Some (endpoint_of r))).
  - by destruct (peers !! pid).
  - intros m r k. unfold insert_endpoint. case_decide as E; [subst k; apply lookup_insert_eq|].
    by apply lookup_insert_ne.
  - exact HO.
  - intros k r Hr. by destruct (Hp k r Hr).
Qed.

Lemma bootstrap_keyed (bootstrap : list str) (m : gmap str PeerEndpoint) :
  map_Forall (λ k ep, ep_participant_id ep = k) m →
  map_Forall (λ k ep, ep_participant_id ep = k) (foldl insert_bootstrap m bootstrap).
Proof.
  revert m. induction bootstrap as [|x bootstrap IH]; intros m Hm; [done|]. cbn [foldl].
  apply IH. unfold insert_bootstrap. destruct (parse_bootstrap_peer x); [|done].
  by apply map_Forall_insert_2.
Qed.

Lemma endpoint_for_key bootstrap peers pid ep :
  map_Forall record_ok peers → endpoint_for bootstrap peers pid = Some ep →
  ep_participant_id ep = pid.
Proof.
  intros Hp. unfold endpoint_for. destruct (peers !! pid) as [r|] eqn:E.
  - intros [= <-]. by destruct (Hp _ _ E).
  - apply bootstrap_keyed. apply map_Forall_empty.
Qed.

Context {K : KeySource}.

Lemma run_sync_cycle_lookup config d managed pid :
  map_Forall record_ok (de_peers d) →
  run_sync_cycle config d managed !! pid =
  match endpoint_for (bootstrap_peers config) (de_peers d) pid with
  | Some ep =>
      if bool_decide (pid = Config.participant_id config) then managed !! pid
      else match fetch_key ep with Ok key => Some key | Err _ => managed !! pid end
  | None => managed !! pid
  end.
Proof.
  intros Hp. unfold run_sync_cycle. set (own := Config.participant_id config).
  rewrite (walk_values ep_participant_id _ (λ ep o,
    if bool_decide (ep_participant_id ep = own) then o
    else match fetch_key ep with Ok key => Some key | Err _ => o end)).
  - rewrite collect_endpoints_lookup by done.
    destruct (endpoint_for _ _ pid) as [ep|] eqn:E; [|done].
    by rewrite (endpoint_for_key _ _ _ _ Hp E).
  - intros m ep k. unfold sync_endpoint. case_decide as E.
    + subst k. case_bool_decide; [done|]. destruct (fetch_key ep); [|done].
      by rewrite lookup_insert_eq.
    + case_bool_decide; [done|]. destruct (fetch_key ep); [|done]. by rewrite lookup_insert_ne.
  - exact HO.
  - intros k ep Hk. rewrite collect_endpoints_lookup in Hk by done.
    by eapply endpoint_for_key.
Qed.

Lemma run_sync_cycle_ok {KO : KeySourceOk K} config d managed :
  map_Forall (λ _, key_ok) managed →
  map_Forall (λ _, key_ok) (run_sync_cycle config d managed).
Proof.
  unfold run_sync_cycle. generalize (values (collect_endpoints (bootstrap_peers config) (de_peers d))).
  intros l. revert managed. induction l as [|ep l IH]; intros managed Hm; [done|]. cbn [foldl].
  apply IH. unfold sync_endpoint. case_bool_decide; [done|].
  destruct (fetch_key ep) as [key|] eqn:E; [|done].
  apply map_Forall_insert_2; [by eapply fetched_ok|done].
Qed.

Lemma elem_of_values {A} (m : gmap str A) a : a ∈ values m ↔ ∃ k, m !! k = Some a.
Proof.
  rewrite (HO A m), list_elem_of_fmap. split.
  - intros ([k a'] & -> & Hin). apply elem_of_map_to_list in Hin. by exists k.
  - intros [k Hk]. exists (k, a). split; [done|]. by apply elem_of_map_to_list.
Qed.

End cycle_lemmas.

(** ** Lemmas: fetching *)

Lemma payload_loop_wf {E} (err : E) m ls m' :
  Forall wf_str ls → map_Forall (λ _, wf_str) m → payload_loop err m ls = Ok m' →
  map_Forall (λ _, wf_str) m'.
Proof.
  intros Hls. revert m. induction Hls as [|l ls Hl _ IH]; intros m Hm; cbn [payload_loop].
  { by intros [= <-]. }
  case_match; [by apply IH|]. destruct (split_once 61 l) as [[k v]|] eqn:Es; [|done].
  cbn [ok_or mbind result_bind]. apply IH. apply map_Forall_insert_2; [|done].
  apply split_once_Some in Es as [-> _]. apply (wf_cut_closed _ _ Hl).
  intros c Hc%trim_elem. apply elem_of_app. right. by right.
Qed.

Lemma parse_payload_wf b m : wf_bytes b → Transport.parse_payload b = Ok m → map_Forall (λ _, wf_str) m.
Proof.
  unfold Transport.parse_payload, parse_payload_with. intros Hb H. inv_bind H.
  destruct (from_utf8 b) as [text|] eqn:Eu; [|done].
  apply from_utf8_wf in Eu as Hw; [|done]. cbn [ok_or] in *. inv_result.
  eapply payload_loop_wf; [|apply map_Forall_empty|exact H].
  apply Forall_forall. intros l Hl. apply (wf_cut_closed _ _ Hw). intros c Hc. by eapply elem_lines.
Qed.

Lemma parsed_key_ok {C : Crypto} s e p :
  wf_bytes (body e) → verify_and_parse_public_key_response s e = Ok p → key_ok (pk_public_key p).
Proof.
  unfold verify_and_parse_public_key_response. intros Hb Hp. repeat inv_bind Hp. inv_result.
  cbn. split; [by eapply normalize_idem|]. eapply normalize_wf; [|eassumption].
  match goal with E : Transport.parse_payload _ = Ok _ |- _ => apply parse_payload_wf in E as Hw; [|done] end.
  unfold get_required in *. inv_result. by eapply Hw.
Qed.

(** The service's source of keys keeps the promise the cycle relies on. *)
#[export] Instance service_source_ok {C : Crypto} network clock service :
  KeySourceOk (service_source network clock service).
Proof.
  intros ep k. unfold fetch_key, service_source, request_public_key. intros Hk.
  repeat inv_bind Hk. inv_result. eapply parsed_key_ok; [|eassumption].
  match goal with E : parse_envelope _ = Ok _ |- _ =>
    by apply parsed_safe in E as (_ & _ & _ & _ & _ & ? & _) end.
Qed.

Section fetching.
Context {C : Crypto} {CO : CryptoOk C} {B : Build}.

Lemma sign_envelope_wf sid token sender ts n ctx b :
  wf_str sid → wf_str sender → ts ≤ U64_MAX → wf_str n → context_wf ctx → wf_bytes b →
  envelope_wf (sign_envelope sid token sender ts n ctx b).
Proof.
  intros. unfold envelope_wf. cbn. split_and!; try done. apply encode_hex_wf, hmac_wf.
Qed.

Lemma payload_bytes kvs :
  Forall (λ kv, wf_str kv.1 ∧ wf_str kv.2) kvs → wf_bytes (serialize_payload kvs).
Proof. intros Hw. by apply encode_wf, kv_text_wf. Qed.

Lemma next_nonce_safe nanos : line_safe (next_nonce nanos) ∧ wf_str (next_nonce nanos).
Proof.
  unfold next_nonce. split; [|auto with text].
  destruct (to_string_line_safe nanos) as [HL _]. destruct (word_edges _ (to_string_word nanos)) as (_ & Hl & Hn).
  split; [rewrite not_elem_of_app; split; [by_compute|done]|].
  apply trim_ok; [done|]. rewrite last_app.
  destruct (last (to_string nanos)) eqn:E; [done|]. by apply last_None in E.
Qed.

Lemma get_request_safe client pid now nonce :
  line_safe (svc_sid client) → wf_str (svc_sid client) → line_safe pid → wf_str pid →
  now ≤ U64_MAX → line_safe nonce → wf_str nonce →
  envelope_safe (build_get_public_key_request client pid now nonce)
  ∧ envelope_wf (build_get_public_key_request client pid now nonce).
Proof.
  intros. assert (wf_bytes (serialize_payload [(lit "request", lit "public_key")])).
  { apply payload_bytes. kv_wf_list. }
  split.
  - apply sign_envelope_safe; try done. split; by_compute.
  - apply sign_envelope_wf; try done. split; apply lit_wf.
Qed.

Lemma get_response_safe server now nonce :
  service_ok server → now ≤ U64_MAX → line_safe nonce → wf_str nonce →
  let r := sign_envelope (svc_sid server) (svc_sid_token server) (svc_participant_id server) now nonce
    (HttpResponse 200 PATH_GET_PUBLIC_KEY)
    (serialize_payload [(lit "sid", svc_sid server);
       (lit "participant_id", svc_participant_id server);
       (lit "public_key", svc_public_key server)]) in
  envelope_safe r ∧ envelope_wf r.
Proof.
  intros (_ & ? & ? & ? & ? & ?) ? ? ? r.
  assert (wf_bytes (body r)).
  { apply payload_bytes. kv_wf_list. }
  split.
  - apply sign_envelope_safe; try done. split; by_compute.
  - apply sign_envelope_wf; try done. split; [by_compute|apply lit_wf].
Qed.

(** A connection that carries a request built for this service's group is
    answered with the service's key. *)
Lemma connection_serves server stream body e now nonce r :
  read_http_request stream = Val (Ok (PATH_GET_PUBLIC_KEY, body)) →
  parse_envelope body = Ok e →
  handle_get_public_key_request server e now nonce = Ok r →
  handle_http_connection server stream now nonce =
    Val (Ok (write_http_response 200 (encode (serialize_envelope r)))).
Proof.
  intros Hread Hp Hh. unfold handle_http_connection. rewrite Hread. cbn [mbind outcome_bind].
  rewrite Hp, bool_decide_true, Hh by done. done.
Qed.

End fetching.

(** The server at an address: the bytes of a request reach it cut in some way
    and followed by something, and the client receives the bytes it answers. *)
Definition served_by {C : Crypto} {B : Build} (server : HttpKeyExchangeService)
    (network : str → N → bytes → result io_error bytes) (addr : str) (p : N)
    (now : N) (nonce : str) : Prop :=
  ∀ request, ∃ chunks tail,
    Forall (λ c, c ≠ []) chunks ∧ concat chunks = request
    ∧ ∀ response,
        handle_http_connection server (map Ok chunks ++ tail) now nonce = Val (Ok response) →
        network addr p request = Ok response.

(** A key is fetched from a server of the group. *)
Lemma fetch_served {C : Crypto} {CO : CryptoOk C} {B : Build}
    (network : str → N → bytes → result io_error bytes)
    (client server : HttpKeyExchangeService) (endpoint : PeerEndpoint)
    (now now' nanos nanos' : N) :
  let request := serialize_envelope
    (build_get_public_key_request client (ep_participant_id endpoint) now (next_nonce nanos)) in
  svc_sid client = svc_sid server → svc_sid_token client = svc_sid_token server →
  service_ok server →
  line_safe (ep_participant_id endpoint) → wf_str (ep_participant_id endpoint) →
  LF ∉ ep_address endpoint → wf_str (ep_address endpoint) →
  now ≤ U64_MAX → now' ≤ U64_MAX →
  len (encode (header_text (request_lines (ep_address endpoint) (ep_port endpoint)
    PATH_GET_PUBLIC_KEY (byte_len request)))) ≤ 65536 →
  len (post_request (ep_address endpoint) (ep_port endpoint) PATH_GET_PUBLIC_KEY request) ≤ U64_MAX →
  served_by server network (ep_address endpoint) (ep_port endpoint) now' (next_nonce nanos') →
  request_public_key network client endpoint now (next_nonce nanos) = Ok (svc_public_key server).
Proof.
  intros request Hs Ht Hok Hp Hpw Ha Haw Hnow Hnow' Hh Hall Hnet.
  destruct (next_nonce_safe nanos) as [Hn Hnw], (next_nonce_safe nanos') as [Hn' Hnw'].
  destruct (exchange_keys client server (ep_participant_id endpoint) (next_nonce nanos)
    (next_nonce nanos') now now' Hs Ht Hok) as (r & Hserve & Hparse).
  pose proof Hok as (_ & _ & Hsid & Hsidw & _).
  destruct (get_request_safe client (ep_participant_id endpoint) now (next_nonce nanos))
    as [Hrs Hrw]; [by rewrite Hs|by rewrite Hs|done..|].
  assert (envelope_safe r ∧ envelope_wf r) as [Hresp Hrespw].
  { apply handle_get_Ok in Hserve as (_ & _ & ->). by apply get_response_safe. }
  destruct (Hnet (post_request (ep_address endpoint) (ep_port endpoint) PATH_GET_PUBLIC_KEY request))
    as (chunks & tail & Hc & Hb & Hdeliver).
  assert (read_http_request (map Ok chunks ++ tail) = Val (Ok (PATH_GET_PUBLIC_KEY, request))) as Hread.
  { apply (post_read (ep_address endpoint) _ request (ep_port endpoint)); try done.
    - split; by_compute.
    - apply lit_wf.
    - by apply serialize_wf. }
  unfold request_public_key, send_http_post. fold request.
  rewrite (Hdeliver (write_http_response 200 (encode (serialize_envelope r)))).
  - cbn [mbind result_bind]. rewrite response_read by (by apply serialize_wf).
    cbn [map_err mbind result_bind]. rewrite parse_serialize by done.
    cbn [map_err mbind result_bind]. rewrite Hparse. done.
  - eapply connection_serves; [done|by apply parse_serialize|done].
Qed.

(** ** Properties *)

(** C3: a key is fetched, end to end.  A client asks a peer of its group over
    the network: the request is signed, written as text, sent as an HTTP POST,
    cut into chunks on the way, read, parsed and verified by the peer; the
    answer comes back the same way; and the client ends with exactly the peer's
    public key, whatever names, times and nonces were used. *)
Theorem fetch_end_to_end {C : Crypto} {CO : CryptoOk C} {B : Build}
    (network : str → N → bytes → result io_error bytes)
    (client server : HttpKeyExchangeService) (endpoint : PeerEndpoint)
    (now now' nanos nanos' : N) :
  let request := serialize_envelope
    (build_get_public_key_request client (ep_participant_id endpoint) now (next_nonce nanos)) in
  svc_sid client = svc_sid server → svc_sid_token client = svc_sid_token server →
  service_ok server →
  line_safe (ep_participant_id endpoint) → wf_str (ep_participant_id endpoint) →
  LF ∉ ep_address endpoint → wf_str (ep_address endpoint) →
  now ≤ U64_MAX → now' ≤ U64_MAX →
  len (encode (header_text (request_lines (ep_address endpoint) (ep_port endpoint)
    PATH_GET_PUBLIC_KEY (byte_len request)))) ≤ 65536 →
  len (post_request (ep_address endpoint) (ep_port endpoint) PATH_GET_PUBLIC_KEY request) ≤ U64_MAX →
  served_by server network (ep_address endpoint) (ep_port endpoint) now' (next_nonce nanos') →
  request_public_key network client endpoint now (next_nonce nanos) = Ok (svc_public_key server).
Proof. apply fetch_served. Qed.

(** C23: what a connection can answer.  Whatever bytes arrive, a response that
    is not one of the three fixed refusals answers an envelope that was read
    from the request, verifies under the group's token, and was signed as a
    POST to the very path the request line names. *)
Theorem connection_answers {C : Crypto} {B : Build} (service : HttpKeyExchangeService)
    (stream : reads) (now : N) (nonce : str) (response : bytes) :
  handle_http_connection service stream now nonce = Val (Ok response) →
  response = write_http_response 400 (lit "invalid envelope")
  ∨ response = write_http_response 401 (lit "verification failed")
  ∨ response = write_http_response 404 (lit "not found")
  ∨ ∃ path body e r,
      read_http_request stream = Val (Ok (path, body)) ∧ parse_envelope body = Ok e
      ∧ verify_envelope e (svc_sid_token service) (svc_sid service) = Ok tt
      ∧ is_post_to path e
      ∧ ((path = PATH_GET_PUBLIC_KEY ∧ handle_get_public_key_request service e now nonce = Ok r)
         ∨ (path = PATH_PUBLISH_PARTICIPANT ∧ handle_publish_request service e now nonce = Ok r))
      ∧ response = write_http_response 200 (encode (serialize_envelope r)).
Proof.
  unfold handle_http_connection. destruct (read_http_request stream) as [[[path body]|e]|] eqn:Er;
    cbn [mbind outcome_bind]; [|done..].
  destruct (parse_envelope body) as [e|] eqn:Ep; [|intros [= <-]; by left].
  case_bool_decide as Hg.
  - destruct (handle_get_public_key_request service e now nonce) as [r|] eqn:Eh;
      intros [= <-]; [|by right; left].
    do 3 right. exists path, body, e, r. pose proof (proj1 (handle_get_Ok _ _ _ _ _) Eh) as (? & ? & _).
    subst path. split_and!; try done. by left.
  - case_bool_decide as Hp; [|intros [= <-]; by right; right; left].
    destruct (handle_publish_request service e now nonce) as [r|] eqn:Eh;
      intros [= <-]; [|by right; left].
    do 3 right. exists path, body, e, r. pose proof (proj1 (handle_publish_Ok _ _ _ _ _) Eh) as (? & ? & _).
    subst path. split_and!; try done. by right.
Qed.

(** C29: what a cycle makes of the keys.  Whatever order the hash maps are walked
    in, each participant ends with the key just fetched from its endpoint (its
    record in the table, else the last bootstrap entry naming it); a
    participant that cannot be reached, is unknown, or is the daemon itself
    keeps what it had.  Keys that were in normal form stay so. *)
Theorem sync_cycle_exact {H : HashOrder} {HO : HashOrderOk H} {K : KeySource} {KO : KeySourceOk K}
    (config : AppConfig) (d : DiscoveryEngine) (managed : gmap str str) :
  map_Forall record_ok (de_peers d) →
  (∀ pid, run_sync_cycle config d managed !! pid =
     match endpoint_for (bootstrap_peers config) (de_peers d) pid with
     | Some ep =>
         if bool_decide (pid = Config.participant_id config) then managed !! pid
         else match fetch_key ep with Ok key => Some key | Err _ => managed !! pid end
     | None => managed !! pid
     end)
  ∧ (map_Forall (λ _, key_ok) managed →
     map_Forall (λ _, key_ok) (run_sync_cycle config d managed)).
Proof.
  intros Hp. split; [intros pid; by apply run_sync_cycle_lookup|by apply run_sync_cycle_ok].
Qed.

(** Updating with keys in normal form. *)
Lemma upsert_normal content ks :
  in_order (lines content) → Forall key_ok ks →
  upsert_managed_block content ks =
    Ok (join [LF] (before (lines content) ++ block (nub ks) ++ after (lines content))).
Proof.
  intros Ho Hks. apply upsert_Ok. exists (nub ks). split_and!.
  - rewrite normalize_and_dedup_spec.
    assert (mapM (M := result PublicKeyError) normalize_public_key ks = Ok ks) as ->; [|done].
    apply mapM_result_Ok. induction Hks as [|k ks []]; by constructor.
  - by apply in_order_no_error.
  - by rewrite updated_lines_frame.
Qed.

Lemma bootstrap_engine_records config : map_Forall record_ok (de_peers (bootstrap_engine config)).
Proof. apply bootstrap_records. apply map_Forall_empty. Qed.

Section single_sync_lemmas.
Context {C : Crypto} {H : HashOrder} {HO : HashOrderOk H} {R : Rustls}.
Context (home : option str) (default_mode : N) (Net : Network R) (clock : PeerEndpoint → N * N)
  (config : AppConfig).

(** The keys of one cycle from nothing. *)
Lemma cycle_values network service k :
  k ∈ values (@run_sync_cycle H (service_source network clock service) config
                (bootstrap_engine config) ∅) ↔
  ∃ pid ep, endpoint_for (bootstrap_peers config) (de_peers (bootstrap_engine config)) pid = Some ep
    ∧ pid ≠ Config.participant_id config
    ∧ request_public_key network service ep (clock ep).1 (next_nonce (clock ep).2) = Ok k.
Proof.
  rewrite elem_of_values. apply exist_proper. intros pid.
  rewrite run_sync_cycle_lookup by apply bootstrap_engine_records. rewrite lookup_empty.
  unfold fetch_key, service_source.
  destruct (endpoint_for _ _ pid) as [ep|].
  2: { split; [done|by intros (? & [=] & _)]. }
  case_bool_decide as Hd.
  { split; [done|]. by intros (? & _ & ? & _). }
  destruct (request_public_key network service ep _ _) as [key|e] eqn:E; split.
  - intros [= ->]. by exists ep.
  - intros (ep' & [= <-] & _ & E'). congruence.
  - done.
  - intros (ep' & [= <-] & _ & E'). congruence.
Qed.

Lemma cycle_keys_ok network service :
  Forall key_ok (values (@run_sync_cycle H (service_source network clock service) config
    (bootstrap_engine config) ∅)).
Proof.
  apply Forall_forall. intros k (pid & Hk)%elem_of_values.
  assert (map_Forall (λ _, key_ok)
    (@run_sync_cycle H (service_source network clock service) config (bootstrap_engine config) ∅)) as Hm.
  { apply (run_sync_cycle_ok (K := service_source network clock service)), map_Forall_empty. }
  exact (Hm _ _ Hk).
Qed.

(** The service and the security that the files of a machine give. *)
Definition sync_setup (s : fs) (service : HttpKeyExchangeService) (security : TransportSecurity R) : Prop :=
  start_service home
    (f ← files s !! expand_home_path home (public_key_path config); from_utf8 (content f))
    config = Ok service
  ∧ tls_material home config s = Some security.

Definition sync_post {I : Environment} (s : fs) (r : result (abort RuntimeError) (option str)) (s' : fs) : Prop :=
  let path := expand_home_path home (authorized_keys_path config) in
  ∀ out, r = Ok out →
  ∃ service security, sync_setup s service security
  ∧ (dry_run config = true → out = None ∧ s' = s)
  ∧ (dry_run config = false → ∃ existing text,
       out = Some text ∧ base_text s path existing
       ∧ upsert_managed_block existing (values (@run_sync_cycle H
           (service_source (exchange security) clock service) config (bootstrap_engine config) ∅)) = Ok text
       ∧ files s' !! path = Some {| content := encode text; file_mode := MODE_600 |}).

(** Programs that print at most one line; printing changes no file. *)
Definition says {E} (m : io (abort E) unit) : Prop := m = Ret (Ok tt) ∨ ∃ line, m = println line.

Lemma warn_says {E} security : says (warn_if_insecure (E := E) security).
Proof. unfold warn_if_insecure. destruct (is_tls security); [by left|right; by eexists]. Qed.

Lemma says_safe {I : Environment} {E A} (Q : fs → Prop) (post : result (abort E) A → fs → Prop)
    (m : io (abort E) unit) (k : io (abort E) A) (s : fs) :
  says m → Q s → post (Err Panicked) s → safe Q post k s → safe Q post (m ≫= λ _, k) s.
Proof.
  intros [->|[line ->]] Hq He Hk; [exact Hk|].
  apply safe_bind, safe_attempt; [done| |]; intros s1 ->; by split.
Qed.

Lemma security_safe {I : Environment} (Q : fs → Prop) {A} (post : result (abort RuntimeError) A → fs → Prop)
    (k : TransportSecurity R → io (abort RuntimeError) A) (s : fs) :
  Q s → (∀ e, post (Err e) s) →
  (∀ security, tls_material home config s = Some security → safe Q post (k security) s) →
  safe Q post (security ← lift (build_transport_security home config); k security) s.
Proof.
  intros Hq He Hk. apply safe_bind, safe_map_err.
  eapply (safe_mono (λ s', s' = s)); [by intros s' ->| |apply build_result].
  intros r s' _ (-> & Hi & Hm). destruct r as [security|e]; cbn [map_err]; [|done].
  apply Hk. unfold tls_material. destruct (insecure_no_tls config) eqn:Ei.
  { by injection (Hi eq_refl) as ->. }
  destruct (Hm eq_refl) as [Hm1 Hm2]. destruct (missing_tls_value config) as [name|] eqn:Em.
  { by specialize (Hm1 name eq_refl). }
  destruct (Hm2 eq_refl) as [_ Hl]. unfold tls_material in Hl. by rewrite Ei in Hl.
Qed.

Lemma run_single_sync_safe {I : Environment} s :
  safe (λ s', ∀ q, q ≠ expand_home_path home (authorized_keys_path config) →
           q ≠ temp_path_near (expand_home_path home (authorized_keys_path config)) →
           files s' !! q = files s !! q)
    (sync_post s) (run_single_sync home default_mode Net clock config) s.
Proof.
  unfold run_single_sync. set (path := expand_home_path home (authorized_keys_path config)).
  split; [done|]. intros o s1 [-> Ho]. unfold lift at 1. cbn [io_map_err].
  apply safe_ret_bind; [done| |done]. intros service Hs%map_err_Ok.
  assert (o = (f ← files s !! expand_home_path home (public_key_path config); from_utf8 (content f))) as Eo.
  { destruct o as [t|]; [|done]. destruct (Ho _ eq_refl) as (f & -> & ?). done. }
  rewrite Eo in Hs. apply security_safe; [done|done|]. intros security Hsec.
  apply says_safe; [apply warn_says|done|by intros ?|]. set (managed := run_sync_cycle _ _ _).
  destruct (dry_run config) eqn:Hdry.
  { apply safe_ret_bind; [done| |done]. intros out [= <-]. apply says_safe; [right; by eexists|done|by intros ?|].
    split; [done|]. intros out [= <-]. exists service, security. split_and!; [by split|done|congruence]. }
  apply safe_bind, safe_bind, safe_map_err, safe_map_err.
  refine (safe_mono (atomic path (values managed) s) _ _ _ _ s _ _
    (apply_safe default_mode path (values managed) s (temp_path_ne path))); [by intros s' [Hq _]|].
  intros [text|e] s' [Hq _] Hpost; cbn [map_err]; [|by intros ?].
  split; [exact Hq|]. apply says_safe; [right; by eexists|exact Hq|by intros ?|].
  split; [exact Hq|]. intros out [= <-]. exists service, security.
  split_and!; [by split|congruence|].
  intros _. destruct (Hpost _ eq_refl) as ((existing & ? & ?) & ? & _). by exists existing, text.
Qed.
End single_sync_lemmas.

(** C12: what a single synchronisation leaves in authorized_keys.  However many
    peers fail, a run that reports success used the key of the public key file
    and the transport security of the configured files; a dry run changed
    nothing; otherwise, if the markers of the file were in order and its
    metadata could be read, its text is now the user's lines with a managed
    block that lists, without repetition and whatever the order of the hash
    maps, exactly the keys fetched in this run from the bootstrap peers other
    than the participant itself: a key that the old block had of a peer that
    did not answer now is gone.  No run touches a file other than
    authorized_keys and its temporary file. *)
Theorem single_sync_writes {I : Environment} {C : Crypto} {H : HashOrder} {HO : HashOrderOk H}
    {R : Rustls} (home : option str) (default_mode : N) (Net : Network R)
    (clock : PeerEndpoint → N * N)
    (config : AppConfig) (s s' : fs) (m' : io (abort RuntimeError) (option str)) :
  reaches (run_single_sync home default_mode Net clock config) s m' s' →
  let path := expand_home_path home (authorized_keys_path config) in
  (∀ q, q ≠ path → q ≠ temp_path_near path → files s' !! q = files s !! q)
  ∧ (∀ out, m' = Ret (Ok out) →
     ∃ service security, sync_setup home config s service security
     ∧ (dry_run config = true → out = None ∧ s' = s)
     ∧ (dry_run config = false → stat_works path →
        ∀ existing, old_text s path existing → in_order (lines existing) →
        ∃ keys, let text := join [LF] (before (lines existing) ++ block keys ++ after (lines existing)) in
          out = Some text
          ∧ files s' !! path = Some {| content := encode text; file_mode := MODE_600 |}
          ∧ NoDup keys
          ∧ ∀ k, k ∈ keys ↔ ∃ pid ep,
              endpoint_for (bootstrap_peers config) (de_peers (bootstrap_engine config)) pid = Some ep
              ∧ pid ≠ Config.participant_id config
              ∧ request_public_key (exchange security) service ep
                  (clock ep).1 (next_nonce (clock ep).2) = Ok k)).
Proof.
  intros Hr path.
  destruct (safe_reaches _ _ _ _ _ _
    (run_single_sync_safe home default_mode Net clock config s) Hr) as [Hq Hpost].
  split; [done|]. intros out ->.
  destruct (Hpost _ eq_refl out eq_refl) as (service & security & Hs & Hdry & Hw).
  exists service, security. split_and!; [done|done|]. intros Hd Hstat existing Ho Hin.
  destruct (Hw Hd) as (existing' & text & -> & Ho' & Hu & Hf).
  apply base_text_old in Ho'; [|done].
  rewrite (old_text_unique _ _ _ _ Ho' Ho), upsert_normal in Hu by (done || apply cycle_keys_ok).
  injection Hu as <-. eexists. split_and!; [reflexivity|exact Hf|apply NoDup_nub|].
  intros k. rewrite elem_of_nub. apply cycle_values.
Qed.

(** ** Concrete behaviours and witnesses *)

#[local] Instance map_order : HashOrder := λ A m, (map_to_list m).*2.
Lemma map_order_ok : HashOrderOk map_order.
Proof. by intros A m. Qed.

(** A network with one peer, the sample server, at 10.0.0.1:8080; requests reach
    it in two pieces. *)
Definition sample_network (addr : str) (p : N) (request : bytes) : result io_error bytes :=
  if bool_decide (addr = lit "10.0.0.1" ∧ p = 8080 ∧ take 40 request ≠ [] ∧ drop 40 request ≠ []) then
    match @handle_http_connection toy_crypto true sample_server
            (map Ok [take 40 request; drop 40 request]) 1001 (next_nonce 2) with
    | Val r => r
    | Panic => Err ConnectionClosed
    end
  else if bool_decide (addr = lit "10.0.0.1" ∧ p = 8080) then
    match @handle_http_connection toy_crypto true sample_server
            (map Ok (if bool_decide (request = []) then [] else [request])) 1001 (next_nonce 2) with
    | Val r => r
    | Panic => Err ConnectionClosed
    end
  else Err (IoFailure 111).

Definition sample_endpoint : PeerEndpoint :=
  {| ep_participant_id := lit "node-1"; ep_address := lit "10.0.0.1"; ep_port := 8080 |}.

Lemma sample_network_serves :
  @served_by toy_crypto true sample_server sample_network (lit "10.0.0.1") 8080 1001 (next_nonce 2).
Proof.
  intros request. unfold sample_network. case_bool_decide as H.
  - exists [take 40 request; drop 40 request], []. split_and!.
    + destruct H as (_ & _ & ? & ?). repeat apply Forall_cons_2; try apply Forall_nil_2; done.
    + cbn [concat]. by rewrite app_nil_r, take_drop.
    + intros response. rewrite app_nil_r. by intros ->.
  - rewrite bool_decide_true by done.
    exists (if bool_decide (request = []) then [] else [request]), []. case_bool_decide as E.
    + subst. split_and!; [constructor|done|]. intros response. rewrite app_nil_r. by intros ->.
    + split_and!; [by repeat constructor|by cbn; rewrite app_nil_r|].
      intros response. rewrite app_nil_r. by intros ->.
Qed.

Lemma fetch_end_to_end_witness :
  @request_public_key toy_crypto sample_network sample_client sample_endpoint 1000 (next_nonce 1)
  = Ok Transport.sample_key.
Proof.
  apply (@fetch_end_to_end toy_crypto toy_crypto_ok true sample_network sample_client sample_server
    sample_endpoint 1000 1001 1 2); [done|done|apply sample_server_ok|by_compute..|].
  apply sample_network_serves.
Defined.

(** The request for a peer's key is signed under the peer's own name. *)
Example request_names_the_peer :
  sender_id (@build_get_public_key_request toy_crypto sample_client
    (ep_participant_id sample_endpoint) 1000 (next_nonce 1)) = lit "node-1".
Proof. by vm_compute. Qed.

Definition sample_config : AppConfig :=
  {| sid := lit "group-a"; sid_token := lit "secret-token";
     Config.participant_id := lit "node-2"; http_listen_addr := lit "0.0.0.0:9922";
     udp_announce_addr := lit "0.0.0.0:9923";
     bootstrap_peers := [lit "node-1@10.0.0.1:8080"; lit "node-3@10.0.0.3:8080"];
     sync_interval_secs := 30; public_key_path := lit "~/.ssh/id_ed25519.pub";
     authorized_keys_path := lit "~/.ssh/authorized_keys"; tls_cert_path := None;
     tls_key_path := None; tls_ca_path := None; tls_server_name := None;
     insecure_no_tls := true; dry_run := false |}.

Definition sample_stream : reads := [Ok (post_request (lit "10.0.0.1") 8080 (lit "/v1/keys/get")
  (serialize_envelope (@build_get_public_key_request toy_crypto sample_client (lit "node-1") 1000
     (lit "n-1"))))].

Lemma connection_answers_witness :
  ∃ path body e, @read_http_request true sample_stream = Val (Ok (path, body))
    ∧ parse_envelope body = Ok e
    ∧ @verify_envelope toy_crypto e (lit "secret-token") (lit "group-a") = Ok tt ∧ is_post_to path e.
Proof.
  pose proof (@connection_answers toy_crypto true sample_server sample_stream 1001 (lit "n-2")
    match @handle_http_connection toy_crypto true sample_server sample_stream 1001 (lit "n-2") with
    | Val (Ok r) => r | _ => [] end) as H.
  destruct H as [H|[H|[H|(path & body & e & r & H1 & H2 & H3 & H4 & _)]]].
  - by vm_compute.
  - by vm_compute in H.
  - by vm_compute in H.
  - by vm_compute in H.
  - exists path, body, e. exact (conj H1 (conj H2 (conj H3 H4))).
Defined.

Definition toy_source : KeySource := λ ep,
  if bool_decide (ep_participant_id ep = lit "node-1") then Ok Transport.sample_key
  else Err HttpRequestFailed.
Lemma toy_source_ok : KeySourceOk toy_source.
Proof.
  intros ep k. unfold fetch_key, toy_source. case_bool_decide; [|done]. intros [= <-].
  split; [by vm_compute|by_compute].
Qed.

Lemma sync_cycle_exact_witness :
  @run_sync_cycle map_order toy_source sample_config engine_a ∅ !! lit "node-1"
  = Some Transport.sample_key.
Proof.
  rewrite (proj1 (@sync_cycle_exact map_order map_order_ok toy_source toy_source_ok sample_config
    engine_a ∅ (map_Forall_empty _))). by vm_compute.
Defined.

Definition sample_home : fs :=
  {| files := <[lit "/home/u/.ssh/id_ed25519.pub" :=
         {| content := encode (lit "ssh-rsa AAAAB3NzaC1yc2E"); file_mode := 420 |}]>
       {[lit "/home/u/.ssh/authorized_keys" :=
         {| content := encode (lit "ssh-rsa AAAA mine"); file_mode := 420 |}]};
     dirs := {[lit "/home/u/.ssh" := 493]} |}.

Definition sample_sync : io (abort RuntimeError) (option str) :=
  @run_single_sync toy_crypto map_order toy_rustls (Some (lit "/home/u")) 420
    (toy_network sample_network) (λ _, (1000, 1)) sample_config.

Lemma single_sync_writes_witness :
  ∃ out, (run sample_sync sample_home).1 = Ok (Some out)
  ∧ ∃ keys, out = join [LF] ([lit "ssh-rsa AAAA mine"; []] ++ block keys ++ [])
      ∧ files (run sample_sync sample_home).2 !! lit "/home/u/.ssh/authorized_keys"
        = Some {| content := encode out; file_mode := MODE_600 |}
      ∧ Transport.sample_key ∈ keys.
Proof.
  pose proof (@single_sync_writes no_environment toy_crypto map_order map_order_ok toy_rustls
    (Some (lit "/home/u")) 420
    (toy_network sample_network) (λ _, (1000, 1)) sample_config sample_home _ _
    (@run_reaches no_environment _ _ sample_sync sample_home)) as [_ H].
  assert (match (run sample_sync sample_home).1 with Ok (Some _) => true | _ => false end = true) as Hr
    by (by vm_compute).
  destruct ((run sample_sync sample_home).1) as [[out|]|]; [|done|done].
  destruct (H _ eq_refl) as (service & security & [Hs Hsec] & _ & Hw).
  destruct (Hw ltac:(by vm_compute) I (lit "ssh-rsa AAAA mine") ltac:(by vm_compute) ltac:(by_compute))
    as (keys & E & Hf & _ & Hk).
  exists out. split; [done|]. exists keys. injection E as ->. split_and!.
  - done.
  - exact Hf.
  - apply Hk. exists (lit "node-1"), sample_endpoint.
    assert (service = sample_client) as ->.
    { assert (Ok (E := RuntimeError) service = Ok sample_client) as E; [|by injection E].
      rewrite <- Hs. by vm_compute. }
    injection Hsec as <-.
    split_and!; [by vm_compute|by vm_compute|by vm_compute].
Defined.

(** A home whose block lists the key of a participant that does not answer: the
    synchronisation drops it. *)
Definition old_home : fs :=
  put_file sample_home (lit "/home/u/.ssh/authorized_keys")
    {| content := encode (join [LF] ([lit "ssh-rsa AAAA mine"; []] ++ block [lit "ssh-rsa CCCC node-3"]));
       file_mode := 384 |}.

Example vanished_key_removed :
  is_ok (run sample_sync old_home).1 = true
  ∧ ∃ text, content <$> files (run sample_sync old_home).2 !! lit "/home/u/.ssh/authorized_keys"
      = Some (encode text)
    ∧ lit "ssh-rsa AAAA mine" ∈ lines text ∧ lit "ssh-rsa CCCC node-3" ∉ lines text.
Proof.
  split; [by vm_compute|].
  exists (default [] (f ← files (run sample_sync old_home).2 !! lit "/home/u/.ssh/authorized_keys";
    from_utf8 (content f))).
  split_and!; [by vm_compute|by_compute|by_compute].
Qed.
