(* ===== verification/Runtime.v ===== *)
(** * The daemon (src/src/runtime.rs, [run_daemon])

    The whole life of the daemon as one program: it reads its key, binds its
    sockets, writes its control files, announces itself, and then goes round a
    loop that serves the connections and datagrams that have arrived,
    synchronises when it is due or asked for, and looks for the stop file.  What
    arrives from outside in each round (connections, datagrams, the clock and
    the answers of the peers) is an [iteration]; the daemon is run on a finite
    list of them and is still running when the list is used up.  A panic of the
    only thread ends the process. *)

From S2P Require Import Prelude Str Utf8 Hex KeyValue SshKeys AuthorizedKeys Auth Envelope.
From S2P Require Import Transport Discovery Config Http Paths System Files Tls Control Server.

Local Open Scope N_scope.

(** ** Data *)

Definition LOOP_SLEEP_MILLIS : N := 200.

(** What a round of the loop meets: the connections that are accepted, as the raw
    results of reading them, each with the clock (seconds and nanoseconds) when
    it is handled, the datagrams, the clock, the network and the clock of each
    request, and the clock of the announcement. *)
Record iteration {R : Rustls} := {
  it_connections : list (reads * (N * N));
  it_datagrams : list (result io_error (bytes * N));
  it_now : N;
  it_network : Network R;
  it_clock : PeerEndpoint → N * N;
  it_announced : N * N
}.
Arguments iteration R : clear implicits.

(** The variables of the loop. *)
Record daemon := {
  dm_discovery : DiscoveryEngine;
  dm_managed_keys : gmap str str;
  dm_next_sync_at : N
}.

(** ** Operations *)

Section daemon.
Context {C : Crypto} {B : Build} {H : HashOrder} {R : Rustls}.
Context (home xdg : option str) (default_mode : N) (own_pid : N) (config : AppConfig).

(** The loop over [accept]: a connection without a session, or that cannot be
    read, is dropped. *)
Fixpoint handle_http_connections (service : HttpKeyExchangeService) (security : TransportSecurity R)
    (accepted : list (reads * (N * N))) : io (abort RuntimeError) unit :=
  match accepted with
  | [] => Ret (Ok tt)
  | (raw, (now, nanos)) :: accepted =>
      match accepted_reads security raw with
      | None => handle_http_connections service security accepted
      | Some stream =>
          handled ← of_outcome (handle_http_connection service stream now (next_nonce nanos));
          _ ← match handled with
              | Ok response => ignore (Respond (is_tls security) response)
              | Err _ => Ret (Ok tt)
              end;
          handle_http_connections service security accepted
      end
  end.

(** [send_announcement] to the broadcast address; sending may fail. *)
Definition broadcast (discovery : DiscoveryEngine) (addr : str) (http_port udp_port : N)
    (local_public_key : str) (clock : N * N) : io (abort RuntimeError) unit :=
  payload ← lift (Ret (send_announcement discovery (Config.participant_id config) addr http_port
    local_public_key clock.1 (next_nonce clock.2)));
  ignore (SendTo (lit "255.255.255.255:" ++ to_string udp_port) payload).

Section loop.
Context (service : HttpKeyExchangeService) (security : TransportSecurity R)
  (local_public_key : str) (addr : str) (http_port udp_port : N).

Definition daemon_iteration (st : daemon) (it : iteration R) : io (abort RuntimeError) daemon :=
  let path := expand_home_path home (authorized_keys_path config) in
  _ ← handle_http_connections service security (it_connections it);
  discovery ← handle_udp_announcements (dm_discovery st) (it_datagrams it);
  let now := it_now it in
  let sync_due := dm_next_sync_at st <=? now in
  let '(discovery, discovery_trigger) := take_sync_trigger discovery in
  if sync_due || discovery_trigger then
    let managed_keys :=
      @run_sync_cycle H
        (service_source (exchange (Net := it_network it) security) (it_clock it) service)
        config discovery (dm_managed_keys st) in
    _ ← (if dry_run config then Ret (Ok tt)
         else
           _ ← lift (io_map_err (λ _, WriteAuthorizedKeys path)
             (apply_managed_block_to_file default_mode path (values managed_keys)));
           Ret (Ok tt));
    _ ← sync_completed managed_keys;
    _ ← broadcast discovery addr http_port udp_port local_public_key (it_announced it);
    next_sync_at ← of_outcome (add_u64 now (N.max (sync_interval_secs config) 1));
    Ret (Ok {| dm_discovery := discovery; dm_managed_keys := managed_keys;
               dm_next_sync_at := next_sync_at |})
  else
    Ret (Ok {| dm_discovery := discovery; dm_managed_keys := dm_managed_keys st;
               dm_next_sync_at := dm_next_sync_at st |}).

(** The loop: [None] when it was left because of the stop file. *)
Fixpoint daemon_loop (stop_path : str) (st : daemon) (its : list (iteration R)) :
    io (abort RuntimeError) (option daemon) :=
  match its with
  | [] => Ret (Ok (Some st))
  | it :: its =>
      st ← daemon_iteration st it;
      Do (Exists stop_path) (λ stop : bool,
        if stop then
          _ ← println (lit "Stop requested, shutting down daemon");
          Ret (Ok None)
        else Do (Sleep LOOP_SLEEP_MILLIS) (λ _, daemon_loop stop_path st its))
  end.
End loop.

(** [if path.exists() { let _ = fs::remove_file(&path); }]. *)
Definition discard_if_present (path : str) : io (abort RuntimeError) unit :=
  Do (Exists path) (λ found : bool, if found then ignore (RemoveFile path) else Ret (Ok tt)).

(** The part of [run_daemon] before the control files. *)
Definition bind_sockets : io (abort RuntimeError) unit :=
  let http_error := Error (BindHttp (http_listen_addr config)) in
  let udp_error := Error (BindUdp (udp_announce_addr config)) in
  _ ← attempt (TcpBind (http_listen_addr config)) http_error;
  _ ← attempt (SetNonblocking (http_listen_addr config)) http_error;
  _ ← attempt (UdpBind (udp_announce_addr config)) udp_error;
  _ ← attempt (SetNonblocking (udp_announce_addr config)) udp_error;
  attempt (SetBroadcast (udp_announce_addr config)) udp_error.

(** The part that takes over the control files of the group. *)
Definition write_control_files (control_dir : str) : io RuntimeError unit :=
  _ ← remove_if_present (path_join control_dir STOP_FILE_NAME);
  _ ← write_control_file (path_join control_dir PID_FILE_NAME) (to_string own_pid);
  set_current_sid xdg home (sid config).

Definition running_message : io (abort RuntimeError) unit :=
  println (lit "Daemon is running. HTTP: " ++ http_listen_addr config ++ lit ", UDP: "
    ++ udp_announce_addr config ++ lit ", participant: " ++ Config.participant_id config).

(** The daemon on a list of rounds; [started] is the clock before the first
    synchronisation, [announced] the clock of the first announcement.  The
    result is the state of the loop if it is still running. *)
Definition run_daemon (started : N) (announced : N * N) (its : list (iteration R)) :
    io (abort RuntimeError) (option daemon) :=
  let public_key_path := expand_home_path home (Config.public_key_path config) in
  ReadToString public_key_path (λ key_text,
    let key_error := Error (ReadLocalPublicKey public_key_path) in
    local_public_key ← Ret (map_err (λ _, key_error)
      (read_local_public_key (λ _, key_text) public_key_path));
    service ← Ret (map_err (λ _, key_error)
      (HttpKeyExchangeService_new (sid config) (sid_token config) (Config.participant_id config)
         local_public_key));
    security ← lift (build_transport_security home config);
    _ ← bind_sockets;
    http_port ← lift (Ret (parse_port (http_listen_addr config)));
    udp_port ← lift (Ret (parse_port (udp_announce_addr config)));
    let addr := advertised_address (http_listen_addr config) (Config.participant_id config) in
    let discovery := bootstrap_engine config in
    control_dir ← lift (ensure_control_runtime_dir_for_sid xdg home (sid config));
    let pid_path := path_join control_dir PID_FILE_NAME in
    let stop_path := path_join control_dir STOP_FILE_NAME in
    _ ← lift (write_control_files control_dir);
    _ ← running_message;
    _ ← warn_if_insecure security;
    _ ← broadcast discovery addr http_port udp_port local_public_key announced;
    running ← daemon_loop service security local_public_key addr http_port udp_port stop_path
      {| dm_discovery := discovery; dm_managed_keys := ∅; dm_next_sync_at := started |} its;
    match running with
    | Some st => Ret (Ok (Some st))
    | None =>
        _ ← discard_if_present pid_path;
        _ ← discard_if_present stop_path;
        Ret (Ok None)
    end).
End daemon.

(** ** How the daemon can fail *)

Section failures.
Context {C : Crypto} {B : Build} {H : HashOrder} {R : Rustls}.
Context (home xdg : option str) (default_mode : N) (own_pid : N) (config : AppConfig).

(** What the errors of a program are, given the calls that were made. *)
Definition fails {E A} (P : E → list event → Prop) (r : result E A) (h : list event) : Prop :=
  match r with Ok _ => True | Err e => P e h end.

Lemma fails_bind {E A A'} (P : E → list event → Prop) (m : io E A) (f : A → io E A') h :
  safe (λ _, True) (fails P) m h → (∀ a h, safe (λ _, True) (fails P) (f a) h) →
  safe (λ _, True) (fails P) (m ≫= f) h.
Proof.
  intros Hm Hf. apply safe_bind. eapply safe_weaken; [|exact Hm]. intros [a|e] h1 H1; [apply Hf|done].
Qed.

Lemma fails_weaken {E A} (P P' : E → list event → Prop) (m : io E A) h :
  (∀ e h, P e h → P' e h) → safe (λ _, True) (fails P) m h → safe (λ _, True) (fails P') m h.
Proof. intros HP. apply safe_weaken. intros [|e] h1; [done|apply HP]. Qed.

Lemma fails_attempt {E} (P : E → list event → Prop) c e h :
  (∀ h, last h = Some (Called c false) → P e h) → safe (λ _, True) (fails P) (attempt c e) h.
Proof. intros He. apply safe_attempt; [done|done|]. intros h1 ->. split; [done|]. apply He, last_snoc. Qed.

(** A line could not be printed. *)
Definition print_failed (h : list event) : Prop := ∃ line, last h = Some (Called (Print line) false).

Lemma fails_says {E} (P : abort E → list event → Prop) (m : io (abort E) unit) h :
  says m → (∀ h, print_failed h → P Panicked h) → safe (λ _, True) (fails P) m h.
Proof.
  intros [->|[line ->]] HP; [done|]. apply fails_attempt. intros h1 Hl. apply HP. by eexists.
Qed.

Lemma handle_panics service stream now nonce :
  handle_http_connection service stream now nonce = Panic → read_http_request stream = Panic.
Proof.
  unfold handle_http_connection. destruct (read_http_request stream) as [[[path body]|e]|]; [|done|done].
  cbn [mbind outcome_bind]. by repeat case_match.
Qed.

(** A connection on which the reader of requests panics. *)
Definition bad_connection (security : TransportSecurity R) (c : reads * (N * N)) : Prop :=
  ∃ stream, accepted_reads security c.1 = Some stream ∧ read_http_request stream = Panic.

Definition bad_request (it : iteration R) : Prop :=
  ∃ security c, is_tls security = negb (insecure_no_tls config)
    ∧ c ∈ it_connections it ∧ bad_connection security c.

Lemma connections_fail service security l h :
  safe (λ _, True) (fails (λ e _, e = Panicked ∧ ∃ c, c ∈ l ∧ bad_connection security c))
    (handle_http_connections service security l) h.
Proof.
  revert h. induction l as [|[raw [now nanos]] l IH]; intros h; [done|].
  cbn [handle_http_connections].
  assert (∀ h, safe (λ _, True) (fails (λ e _, e = Panicked
    ∧ ∃ c, c ∈ (raw, (now, nanos)) :: l ∧ bad_connection security c))
    (handle_http_connections service security l) h) as Hl.
  { intros h0. eapply fails_weaken; [|apply IH]. intros e h1 (-> & c & ? & ?).
    split; [done|]. exists c. split; [by right|done]. }
  destruct (accepted_reads security raw) as [stream|] eqn:Ea; [|apply Hl].
  apply fails_bind.
  - destruct (handle_http_connection _ _ _ _) eqn:Eh; [done|]. split; [done|]. split; [done|].
    exists (raw, (now, nanos)). split; [by left|]. exists stream. split; [done|].
    by apply handle_panics in Eh.
  - intros handled h1. apply fails_bind; [by destruct handled|]. intros _ h2. apply Hl.
Qed.

Lemma udp_fails d received h :
  safe (λ _, True) (fails (λ e h, e = Panicked ∧ print_failed h)) (handle_udp_announcements d received) h.
Proof.
  revert d h. induction received as [|[[datagram now]|e] received IH]; intros d h; [done| |done].
  cbn [handle_udp_announcements]. destruct (handle_datagram d datagram now) as [d' line].
  apply fails_bind; [|intros _ h1; apply IH].
  apply fails_says; [|done]. destruct line; [right; by eexists|by left].
Qed.

Lemma broadcast_fails discovery addr http_port udp_port key clock h :
  normalize_public_key key = Ok key →
  safe (λ _, True) (fails (λ _ _, False))
    (broadcast config discovery addr http_port udp_port key clock) h.
Proof.
  intros Hk. unfold broadcast, send_announcement, build_startup_announcement. rewrite Hk.
  apply safe_ret_bind; [done| |done]. intros payload _. split; [done|]. by intros ok h1 _.
Qed.

Definition interval_overflows (it : iteration R) : Prop :=
  add_u64 (it_now it) (N.max (sync_interval_secs config) 1) = Panic.

(** How a round can end the daemon. *)
Definition loop_failure (its : list (iteration R)) (e : abort RuntimeError) (h : list event) : Prop :=
  match e with
  | Error (WriteAuthorizedKeys p) =>
      dry_run config = false ∧ p = expand_home_path home (authorized_keys_path config)
  | Error _ => False
  | Panicked => print_failed h ∨ ∃ it, it ∈ its ∧ (bad_request it ∨ interval_overflows it)
  end.

Lemma iteration_fails service security key addr http_port udp_port st it h :
  normalize_public_key key = Ok key → is_tls security = negb (insecure_no_tls config) →
  safe (λ _, True) (fails (loop_failure [it]))
    (daemon_iteration home default_mode config service security key addr http_port udp_port st it) h.
Proof.
  intros Hk Hsec. unfold daemon_iteration. apply fails_bind.
  { eapply fails_weaken; [|apply connections_fail]. intros e h1 (-> & c & Hc & Hb). right.
    exists it. split; [by left|]. left. by exists security, c. }
  intros _ h1. apply fails_bind.
  { eapply fails_weaken; [|apply udp_fails]. intros e h2 [-> Hp]. by left. }
  intros d0 h2. destruct (take_sync_trigger _) as [d trigger]. case_match; [|done].
  apply fails_bind.
  { destruct (dry_run config) eqn:Hd; [done|]. apply fails_bind; [|done]. unfold lift.
    apply safe_map_err, safe_map_err. eapply safe_weaken; [|apply safe_any].
    by intros [|e] h3 _. }
  intros _ h3. apply fails_bind; [apply fails_says; [right; by eexists|by left]|].
  intros _ h4. apply fails_bind; [by eapply fails_weaken; [|by apply broadcast_fails]|].
  intros _ h5. apply fails_bind; [|done].
  destruct (add_u64 _ _) eqn:Eo; [done|]. split; [done|]. right. exists it. split; [by left|by right].
Qed.

Lemma loop_fails service security key addr http_port udp_port stop_path st its h :
  normalize_public_key key = Ok key → is_tls security = negb (insecure_no_tls config) →
  safe (λ _, True) (fails (loop_failure its))
    (daemon_loop home default_mode config service security key addr http_port udp_port stop_path st its) h.
Proof.
  intros Hk Hsec. revert st h. induction its as [|it its IH]; intros st h; [done|]. cbn [daemon_loop].
  assert (∀ l e h, (∀ it', it' ∈ l → it' ∈ it :: its) → loop_failure l e h → loop_failure (it :: its) e h) as Hmono.
  { intros l [[]|] h0 Hl; try done. intros [?|(it' & Hin & Hc)]; [by left|right].
    exists it'. split; [by apply Hl|done]. }
  apply fails_bind.
  - eapply fails_weaken; [|by apply iteration_fails]. intros e h1. apply Hmono.
    intros it' ->%list_elem_of_singleton. by left.
  - intros st1 h1. split; [done|]. intros stop h2 _. destruct stop.
    { apply fails_bind; [|done]. apply fails_says; [right; by eexists|by left]. }
    split; [done|]. intros ok h3 _. eapply fails_weaken; [|apply IH]. intros e h4. apply Hmono.
    intros it' Hin. by right.
Qed.

(** How the daemon can fail to start. *)
Definition control_error (e : RuntimeError) : Prop :=
  match e with ControlFile _ | RuntimeDirectory _ | MissingHomeDir => True | _ => False end.

Definition startup_failure (e : abort RuntimeError) (h : list event) : Prop :=
  match e with
  | Error e =>
      tls_failure config e ∨ control_error e
      ∨ e = ReadLocalPublicKey (expand_home_path home (Config.public_key_path config))
      ∨ e = BindHttp (http_listen_addr config) ∨ e = BindUdp (udp_announce_addr config)
      ∨ e = ParseListenAddress (http_listen_addr config)
      ∨ e = ParseListenAddress (udp_announce_addr config)
  | Panicked => print_failed h
  end.

Lemma fails_ret_bind {E A A'} (P : E → list event → Prop) (r : result E A) (f : A → io E A') h :
  (∀ e, r = Err e → P e h) → (∀ a, r = Ok a → safe (λ _, True) (fails P) (f a) h) →
  safe (λ _, True) (fails P) (Ret r ≫= f) h.
Proof. intros He Ha. by apply safe_ret_bind. Qed.

Lemma root_fails e : control_runtime_root_path xdg home = Err e → control_error e.
Proof.
  unfold control_runtime_root_path, control_runtime_root_with_env. repeat case_match; congruence || idtac.
  by intros [= <-].
Qed.

Lemma dir_fails sid e : control_runtime_dir_path_for_sid xdg home sid = Err e → control_error e.
Proof.
  unfold control_runtime_dir_path_for_sid. destruct (control_runtime_root_path xdg home) eqn:Er; [done|].
  intros [= <-]. by apply root_fails.
Qed.

(** Programs whose errors are those of the control files. *)
Definition control_only {A} (m : io RuntimeError A) : Prop :=
  ∀ h, safe (λ _, True) (fails (λ e _, control_error e)) m h.

#[local] Ltac control_fails :=
  intros ?;
  repeat first
    [ apply fails_bind; [|intros ? ?]
    | apply fails_attempt; intros ? _; exact Logic.I
    | done ].

Lemma ensure_private_fails path : control_only (ensure_private_dir path).
Proof. unfold ensure_private_dir. control_fails. Qed.

Lemma write_fails path text : control_only (write_control_file path text).
Proof. unfold write_control_file. control_fails. Qed.

Lemma remove_fails path : control_only (remove_if_present path).
Proof. split; [done|]. intros [] h1 _; [|done]. by apply fails_attempt. Qed.

Lemma ensure_root_fails : control_only (ensure_control_runtime_root xdg home).
Proof.
  intros h. apply fails_ret_bind; [apply root_fails|]. intros root _.
  apply fails_bind; [apply ensure_private_fails|done].
Qed.

Lemma ensure_dir_fails sid : control_only (ensure_control_runtime_dir_for_sid xdg home sid).
Proof.
  intros h. apply fails_ret_bind; [apply dir_fails|]. intros dir _.
  apply fails_bind; [apply ensure_root_fails|]. intros _ h1.
  apply fails_bind; [apply ensure_private_fails|done].
Qed.

Lemma control_files_fails dir : control_only (write_control_files home xdg own_pid config dir).
Proof.
  intros h. apply fails_bind; [apply remove_fails|]. intros _ h1.
  apply fails_bind; [apply write_fails|]. intros _ h2.
  apply fails_bind; [apply ensure_root_fails|]. intros _ h3.
  apply fails_ret_bind; [|intros marker _; apply write_fails].
  intros e. unfold current_sid_marker_path.
  destruct (control_runtime_root_path xdg home) eqn:Er; [done|]. intros [= <-]. by apply root_fails.
Qed.

Definition daemon_failure (its : list (iteration R)) (e : abort RuntimeError) (h : list event) : Prop :=
  startup_failure e h ∨ loop_failure its e h.

Lemma lift_control {A} its (m : io RuntimeError A) h :
  control_only m → safe (λ _, True) (fails (daemon_failure its)) (lift m) h.
Proof.
  intros Hm. apply safe_map_err. eapply safe_weaken; [|apply Hm].
  intros [|e] h1; [done|]. intros He. left. right. by left.
Qed.

Lemma port_fails a e : parse_port a = Err e → e = ParseListenAddress a.
Proof. unfold parse_port. destruct (_ ≫= _); [done|]. by intros [= <-]. Qed.

Lemma bind_fails h : safe (λ _, True) (fails startup_failure) (bind_sockets config) h.
Proof.
  unfold bind_sockets. do 4 (apply fails_bind; [apply fails_attempt; cbn; tauto|intros _ ?]).
  apply fails_attempt. cbn. tauto.
Qed.

Lemma says_fails its (m : io (abort RuntimeError) unit) h :
  says m → safe (λ _, True) (fails (daemon_failure its)) m h.
Proof. intros Hm. apply fails_says; [done|]. intros h1 Hp. by left. Qed.

Lemma run_daemon_fails started announced its h :
  safe (λ _, True) (fails (daemon_failure its))
    (run_daemon home xdg default_mode own_pid config started announced its) h.
Proof.
  unfold run_daemon. split; [done|]. intros o h1 _.
  apply fails_ret_bind.
  { intros e He. destruct (read_local_public_key _ _) as [|]; [done|]. injection He as <-.
    left. cbn. tauto. }
  intros key Hk. apply fails_ret_bind.
  { intros e He. destruct (HttpKeyExchangeService_new _ _ _ _) as [|]; [done|]. injection He as <-.
    left. cbn. tauto. }
  intros service _.
  assert (normalize_public_key key = Ok key) as Hn.
  { destruct (read_local_public_key _ _) as [key'|] eqn:E; [|done]. injection Hk as ->.
    unfold read_local_public_key in E. inv_bind E. by eapply normalize_idem. }
  apply safe_bind, safe_map_err. eapply safe_weaken; [|apply build_kind].
  intros [security|e] h2 Hsec; cbn [map_err]; [|left; by left].
  apply fails_bind; [eapply fails_weaken; [|apply bind_fails]; by left|]. intros _ h3.
  apply fails_ret_bind.
  { intros e He. destruct (parse_port _) eqn:Ep; [done|]. injection He as <-.
    apply port_fails in Ep as ->. left. cbn. tauto. }
  intros http_port _. apply fails_ret_bind.
  { intros e He. destruct (parse_port _) eqn:Ep; [done|]. injection He as <-.
    apply port_fails in Ep as ->. left. cbn. tauto. }
  intros udp_port _. apply fails_bind; [apply lift_control, ensure_dir_fails|]. intros dir h4.
  apply fails_bind; [apply lift_control, control_files_fails|]. intros _ h5.
  apply fails_bind; [apply says_fails; right; by eexists|]. intros _ h6.
  apply fails_bind; [apply says_fails, warn_says|]. intros _ h7.
  apply fails_bind; [by eapply fails_weaken; [|by apply broadcast_fails]|]. intros _ h8.
  apply fails_bind; [eapply fails_weaken; [|by apply loop_fails]; by right|].
  intros [st|] h9; [done|]. unfold discard_if_present.
  do 2 (apply fails_bind; [split; [done|]; intros [] ? _; [split; [done|]; done|done]|intros _ ?]). done.
Qed.
End failures.

(** ** Failures that end the daemon *)

Section strictness.
Context {C : Crypto} {B : Build} {H : HashOrder} {R : Rustls}.
Context (home xdg : option str) (default_mode : N) (own_pid : N) (config : AppConfig).
Let path : str := expand_home_path home (authorized_keys_path config).

(** The error of the daemon when a call or a read fails. *)
Definition failure_error (ev : event) (e : abort RuntimeError) : Prop :=
  let update_failed := dry_run config = false ∧ e = Error (WriteAuthorizedKeys path) in
  match ev with
  | WasRead p _ =>
      p = expand_home_path home (Config.public_key_path config) ∧ e = Error (ReadLocalPublicKey p)
      ∨ p = path ∧ update_failed
  | WasLoaded p _ | Called (OpenFile p) _ => ∃ m, e = Error (InvalidTlsConfig m)
  | Called (TcpBind a) _ => e = Error (BindHttp a)
  | Called (UdpBind a) _ | Called (SetBroadcast a) _ => e = Error (BindUdp a)
  | Called (SetNonblocking a) _ =>
      a = http_listen_addr config ∧ e = Error (BindHttp a)
      ∨ a = udp_announce_addr config ∧ e = Error (BindUdp a)
  | Called (CreateDirAll p) _ => e = Error (RuntimeDirectory p) ∨ update_failed
  | Called (SetPermissions p _) _ =>
      e = Error (RuntimeDirectory p) ∨ e = Error (ControlFile p) ∨ update_failed
  | Called (OpenTruncate p _) _ | Called (WriteAll p _) _ | Called (SyncAll p) _ =>
      e = Error (ControlFile p) ∨ update_failed
  | Called (Rename _ _) _ | Called (OpenDir _) _ => update_failed
  | Called (Print _) _ => e = Panicked
  | _ => False
  end.

(** The same for the programs of the other components. *)
Definition control_failure (ev : event) (e : RuntimeError) : Prop :=
  match ev with
  | Called (CreateDirAll p) _ => e = RuntimeDirectory p
  | Called (SetPermissions p _) _ => e = RuntimeDirectory p ∨ e = ControlFile p
  | Called (OpenTruncate p _) _ | Called (WriteAll p _) _ | Called (SyncAll p) _ => e = ControlFile p
  | _ => False
  end.

Definition tls_event (ev : event) (e : RuntimeError) : Prop :=
  match ev with
  | WasLoaded _ _ | Called (OpenFile _) _ => ∃ m, e = InvalidTlsConfig m
  | _ => False
  end.

Definition update_event (ev : event) : Prop :=
  match ev with
  | WasRead p _ => p = path
  | Called (CreateDirAll _) _ | Called (SetPermissions _ _) _ | Called (OpenTruncate _ _) _
  | Called (WriteAll _ _) _ | Called (SyncAll _) _ | Called (Rename _ _) _ | Called (OpenDir _) _ => True
  | _ => False
  end.

#[local] Ltac strictly :=
  repeat first
    [ progress intros
    | done
    | apply strict_bind
    | apply strict_attempt; cbn; solve [eauto 6]
    | match goal with |- strict _ (Ret _) => exact Logic.I end
    | match goal with |- strict _ (match ?o with Some _ => _ | None => _ end) => destruct o end
    | match goal with |- strict _ (ignore _) => split; [by left|done] end ].

Lemma ensure_private_strict p : strict control_failure (ensure_private_dir p).
Proof. unfold ensure_private_dir. strictly. Qed.

Lemma write_strict p text : strict control_failure (write_control_file p text).
Proof. unfold write_control_file. strictly. Qed.

Lemma ensure_root_strict : strict control_failure (ensure_control_runtime_root xdg home).
Proof. apply strict_ret_bind. intros root. apply strict_bind; [apply ensure_private_strict|done]. Qed.

Lemma ensure_dir_strict sid : strict control_failure (ensure_control_runtime_dir_for_sid xdg home sid).
Proof.
  apply strict_ret_bind. intros dir. apply strict_bind; [apply ensure_root_strict|intros _].
  apply strict_bind; [apply ensure_private_strict|done].
Qed.

Lemma control_files_strict dir : strict control_failure (write_control_files home xdg own_pid config dir).
Proof.
  unfold write_control_files, remove_if_present, set_current_sid. apply strict_bind.
  { split; [by left|]. intros []; [|done]. split; [by left|by intros []]. }
  intros _. apply strict_bind; [apply write_strict|intros _].
  apply strict_bind; [apply ensure_root_strict|intros root].
  apply strict_ret_bind. intros marker. apply write_strict.
Qed.

Lemma load_chain_strict p : strict tls_event (load_cert_chain p).
Proof.
  unfold load_cert_chain. strictly. split; [|strictly; by destruct a0].
  intros msg. by eexists; split; [|eexists].
Qed.

Lemma load_key_strict p : strict tls_event (load_private_key p).
Proof.
  unfold load_private_key. strictly. split; [|strictly].
  intros msg. by eexists; split; [|eexists].
Qed.

Lemma build_strict : strict tls_event (build_transport_security home config).
Proof.
  unfold build_transport_security. destruct (insecure_no_tls config); [done|].
  do 3 (apply strict_ret_bind; intros ?). apply strict_bind; [apply load_chain_strict|intros chain].
  apply strict_bind; [apply load_key_strict|intros key]. apply strict_ret_bind. intros server.
  apply strict_bind; [apply load_chain_strict|intros cas].
  destruct (add_parsable_certificates _ _) as [roots added]. by destruct (added =? 0).
Qed.

Lemma update_strict ks :
  strict (λ ev _, update_event ev) (apply_managed_block_to_file default_mode path ks).
Proof.
  unfold apply_managed_block_to_file. apply strict_bind.
  { unfold ensure_ssh_directory_permissions, set_ssh_dir_permissions. strictly. }
  intros _. apply strict_bind.
  { split; [by left|]. intros []; [|done]. by split; [eexists|]. }
  intros existing. apply strict_ret_bind. intros updated. apply strict_bind.
  { unfold atomic_write, sync_parent_directory. strictly. }
  intros _. apply strict_bind; [by apply strict_attempt|done].
Qed.

(** The round and what comes before it. *)

Lemma println_strict {A} line (f : unit → io (abort RuntimeError) A) :
  (∀ u, strict failure_error (f u)) → strict failure_error (println line ≫= f).
Proof. intros Hf. apply strict_bind; [by apply strict_attempt|done]. Qed.

Lemma connections_strict service security l :
  strict failure_error (handle_http_connections service security l).
Proof.
  induction l as [|[raw [now nanos]] l IH]; [done|]. cbn [handle_http_connections].
  destruct (accepted_reads security raw) as [stream|]; [|done].
  apply strict_bind; [by destruct (handle_http_connection _ _ _ _)|]. intros handled.
  apply strict_bind; [|done]. destruct handled; [|done]. by split; [left|].
Qed.

Lemma udp_strict d received : strict failure_error (handle_udp_announcements d received).
Proof.
  revert d. induction received as [|[[datagram now]|e] received IH]; intros d; [done| |done].
  cbn [handle_udp_announcements]. destruct (handle_datagram d datagram now) as [d' line].
  apply strict_bind; [|auto]. destruct line; [by apply strict_attempt|done].
Qed.

Lemma broadcast_strict d addr http_port udp_port key clock :
  strict failure_error (broadcast config d addr http_port udp_port key clock).
Proof.
  unfold broadcast. destruct (send_announcement _ _ _ _ _ _ _); [|done]. by split; [left|].
Qed.

Lemma iteration_strict service security key addr http_port udp_port st it :
  strict failure_error
    (daemon_iteration home default_mode config service security key addr http_port udp_port st it).
Proof.
  unfold daemon_iteration. apply strict_bind; [apply connections_strict|intros _].
  apply strict_bind; [apply udp_strict|intros d0].
  destruct (take_sync_trigger d0) as [d trigger]. case_match; [|done].
  apply strict_bind.
  { destruct (dry_run config) eqn:Hd; [done|]. apply strict_bind; [|done]. unfold lift.
    apply (strict_map_err (λ ev e, update_event ev ∧ e = WriteAuthorizedKeys path)).
    - intros ev e [He ->]. destruct ev as [[]| | |]; cbn in He |- *; try done; tauto.
    - eapply strict_map_err; [|apply update_strict]. by split. }
  intros _. apply println_strict. intros _.
  apply strict_bind; [apply broadcast_strict|intros _].
  apply strict_bind; [by destruct (add_u64 _ _)|done].
Qed.

Lemma loop_strict service security key addr http_port udp_port stop_path st its :
  strict failure_error
    (daemon_loop home default_mode config service security key addr http_port udp_port stop_path st its).
Proof.
  revert st. induction its as [|it its IH]; intros st; [done|]. cbn [daemon_loop].
  apply strict_bind; [apply iteration_strict|]. intros st1.
  split; [by left|]. intros []; [by apply println_strict|]. by split; [left|].
Qed.

Lemma bind_strict : strict failure_error (bind_sockets config).
Proof.
  unfold bind_sockets. do 4 (apply strict_bind; [apply strict_attempt; cbn; tauto|intros _]).
  apply strict_attempt. cbn. tauto.
Qed.

Lemma discard_strict p : strict failure_error (discard_if_present p).
Proof. split; [by left|]. intros []; [|done]. by split; [left|]. Qed.

Lemma lift_control_strict {A} (m : io RuntimeError A) :
  strict control_failure m → strict failure_error (lift m).
Proof.
  apply strict_map_err. intros ev e. destruct ev as [[]| | |]; cbn; try done;
    try (intros ->; by left). intros [-> | ->]; tauto.
Qed.

Lemma run_daemon_strict started announced its :
  strict failure_error (run_daemon home xdg default_mode own_pid config started announced its).
Proof.
  unfold run_daemon. split.
  { eexists. split; [reflexivity|]. by left. }
  intros o. do 2 (apply strict_ret_bind; intros ?).
  apply strict_bind.
  { eapply strict_map_err; [|apply build_strict]. intros ev e. destruct ev as [[]| | |]; cbn; try done;
      intros [m ->]; by eexists. }
  intros security. apply strict_bind; [apply bind_strict|intros _].
  do 2 (apply strict_ret_bind; intros ?).
  apply strict_bind; [apply lift_control_strict, ensure_dir_strict|intros dir].
  apply strict_bind; [apply lift_control_strict, control_files_strict|intros _].
  apply println_strict. intros _. apply strict_bind.
  { unfold warn_if_insecure. destruct (is_tls security); [done|by apply strict_attempt]. }
  intros _. apply strict_bind; [apply broadcast_strict|intros _].
  apply strict_bind; [apply loop_strict|]. intros [st|]; [done|].
  do 2 (apply strict_bind; [apply discard_strict|intros _]). done.
Qed.
End strictness.

Lemma ensure_dir_result {W} {WW : World W} xdg home sid (s : W) :
  safe (λ _, True) (λ r _, ∀ dir, r = Ok dir → control_runtime_dir_path_for_sid xdg home sid = Ok dir)
    (ensure_control_runtime_dir_for_sid xdg home sid) s.
Proof.
  apply safe_ret_bind; [done| |done]. intros dir ->.
  do 2 (apply safe_then; [done|intros _ ?]). split; [done|]. by intros dir' [= <-].
Qed.

(** ** What the daemon makes of authorized_keys *)

Lemma join_wf ls : Forall wf_str ls → wf_str (join [LF] ls).
Proof.
  induction 1 as [|l ls Hl _ IH]; [constructor|]. destruct ls as [|l' ls]; [done|].
  rewrite join_cons2. apply app_wf; [done|]. apply app_wf; [apply LF_wf|exact IH].
Qed.

Lemma upsert_wf c ks t :
  wf_str c → in_order (lines c) → Forall key_ok ks → upsert_managed_block c ks = Ok t → wf_str t.
Proof.
  intros Hc Ho Hks. rewrite upsert_normal by done. intros [= <-]. apply join_wf.
  assert (∀ l, l ∈ before (lines c) ++ after (lines c) → wf_str l) as Hf.
  { intros l [Hl| ->]%frame_elem; [|constructor|done].
    apply (wf_cut_closed _ _ Hc). intros x Hx. by eapply elem_lines. }
  apply Forall_app_2; [|apply Forall_cons_2; [apply lit_wf|apply Forall_app_2; [apply Forall_app_2|]]].
  - apply Forall_forall. intros l Hl. apply Hf, elem_of_app. by left.
  - apply Forall_forall. intros k Hk. apply (proj1 (elem_of_nub _ _)) in Hk.
    rewrite Forall_forall in Hks. exact (proj2 (Hks _ Hk)).
  - apply Forall_singleton, lit_wf.
  - apply Forall_forall. intros l Hl. apply Hf, elem_of_app. by right.
Qed.

Section keeps.
Context {I : Environment} {C : Crypto} {B : Build} {H : HashOrder} {HO : HashOrderOk H} {R : Rustls}.
Context (home xdg : option str) (default_mode : N) (own_pid : N) (config : AppConfig).
Let path : str := expand_home_path home (authorized_keys_path config).
Context (c : str).
Hypothesis Hwf : wf_str c.
Hypothesis Horder : in_order (lines c).
Hypothesis Htidy : tidy (lines c).
Hypothesis Hstat : stat_works path.
Hypothesis Henv : ∀ s s', other_processes s s' → files s' !! path = files s !! path.

(** The text of the file is the original one or one update of it. *)
Definition kept (s : fs) : Prop :=
  ∃ t, old_text s path t ∧ (t = c ∨ dry_run config = false ∧
    ∃ ks, Forall key_ok ks ∧ upsert_managed_block c ks = Ok t).

Lemma old_text_content s s' p t :
  content <$> files s' !! p = content <$> files s !! p → old_text s p t → old_text s' p t.
Proof.
  unfold old_text. destruct (files s !! p) as [f|], (files s' !! p) as [f'|]; cbn; try done.
  by intros [= ->].
Qed.

Lemma kept_content s s' :
  content <$> files s' !! path = content <$> files s !! path → kept s → kept s'.
Proof. intros Hc (t & Ht & Hk). exists t. split; [by eapply old_text_content|done]. Qed.

(** Calls that do not write to [p]. *)
Definition spares (p : str) (c : syscall) : Prop :=
  match c with
  | OpenTruncate q _ | OpenAppend q _ | WriteAll q _ | RemoveFile q => q ≠ p
  | Rename q q' => q ≠ p ∧ q' ≠ p
  | _ => True
  end.

Lemma spares_effect call s ok s' :
  spares path call → effect call s ok s' → content <$> files s' !! path = content <$> files s !! path.
Proof.
  assert (∀ q f, q ≠ path → content <$> files (put_file s q f) !! path = content <$> files s !! path) as Hput.
  { intros q f Hq. cbn. by rewrite lookup_insert_ne. }
  destruct call; cbn [spares effect]; intros Hsp He;
    try (by subst s'); try (by destruct He as [-> _]).
  - destruct He as [_ ->]. destruct ok; [|done]. unfold chmod.
    destruct (files s !! p) as [f|] eqn:E; [|done]. cbn.
    destruct (decide (p = path)) as [->|Hne]; [by rewrite lookup_insert_eq, E|by rewrite lookup_insert_ne].
  - destruct He as [_ ->]. destruct ok; [by apply Hput|done].
  - destruct He as [_ ->]. destruct ok; [by apply Hput|done].
  - destruct He as (w & _ & _ & ->). unfold append_to. destruct (files s !! p); [by apply Hput|done].
  - destruct ok; [|by subst]. destruct Hsp as [Hp Hq], He as (_ & f & _ & ->). cbn.
    rewrite lookup_insert_ne by done. by rewrite lookup_delete_ne.
  - destruct ok; [|by subst]. destruct He as [_ ->]. cbn. by rewrite lookup_delete_ne.
  - destruct He as [_ He]. f_equal. clear Hput. induction He as [|x y z Hs _ IH]; [done|].
    rewrite IH. by apply Henv.
Qed.

Lemma spares_safe {E A} (m : io E A) s :
  calls_only (spares path) m → kept s → safe kept (λ _, kept) m s.
Proof.
  revert s. induction m as [r|call k IH|p k IH|p k IH|p k IH]; intros s Hm Hk; (split; [done|]); cbn in *.
  - done.
  - intros ok s' He. destruct Hm as [Hc Hm]. apply IH; [done|].
    eapply kept_content; [by eapply spares_effect|done].
  - intros o s' [-> _]. by apply IH.
  - intros o s' [-> _]. by apply IH.
  - intros o s' [-> _]. by apply IH.
Qed.

Lemma update_keeps ks s :
  dry_run config = false → Forall key_ok ks → kept s →
  safe kept (λ _, kept) (apply_managed_block_to_file default_mode path ks) s.
Proof.
  intros Hd Hks (t & Ht & Hk).
  assert (∀ s', atomic path ks s s' → kept s') as Ha.
  { intros s' [_ [Hc|(existing & t' & Ho & Hu & Hc)]].
    { eapply kept_content; [done|]. by exists t. }
    apply base_text_old in Ho; [|done]. rewrite (old_text_unique _ _ _ _ Ho Ht) in Hu. clear existing Ho.
    assert (upsert_managed_block c ks = Ok t') as Hct.
    { destruct Hk as [->|(_ & ks0 & Hks0 & Hu0)]; [done|].
      destruct (proj1 (upsert_Ok _ _ _) Hu0) as (keys & Hn & _). by erewrite <- upsert_upsert. }
    exists t'. split.
    - unfold old_text. destruct (files s' !! path) as [f|]; [|done]. injection Hc as Hc.
      rewrite Hc. apply from_utf8_encode. by eapply upsert_wf.
    - right. split; [done|]. by exists ks. }
  eapply safe_mono; [exact Ha| |apply (apply_safe default_mode path ks s (temp_path_ne path))].
  intros r s' Hs' _. by apply Ha.
Qed.

Lemma connections_calls P service security l : (∀ b, P (Respond (is_tls security) b)) →
  calls_only P (handle_http_connections service security l).
Proof.
  intros HP. induction l as [|[raw [now nanos]] l IH]; [done|]. cbn [handle_http_connections].
  destruct (accepted_reads security raw) as [stream|]; [|done].
  apply calls_only_bind; [by destruct (handle_http_connection _ _ _ _)|]. intros handled.
  apply calls_only_bind; [by destruct handled|done].
Qed.

Lemma says_calls P (m : io (abort RuntimeError) unit) :
  (∀ line, P (Print line)) → says m → calls_only P m.
Proof. intros HP [->|[line ->]]; [done|]. by apply calls_only_attempt. Qed.

Lemma udp_calls P d received :
  (∀ line, P (Print line)) → calls_only P (handle_udp_announcements d received).
Proof.
  intros HP. revert d. induction received as [|[[datagram now]|e] received IH]; intros d; [done| |done].
  cbn [handle_udp_announcements]. destruct (handle_datagram d datagram now) as [d' line].
  apply calls_only_bind; [by destruct line; [apply calls_only_attempt|]|auto].
Qed.

Lemma broadcast_calls P d addr http_port udp_port key clock : (∀ a b, P (SendTo a b)) →
  calls_only P (broadcast config d addr http_port udp_port key clock).
Proof.
  intros HP. unfold broadcast. destruct (send_announcement _ _ _ _ _ _ _); cbn; auto.
Qed.

(** The keys the daemon holds are in normal form. *)
Definition keys_ok (st : daemon) : Prop := map_Forall (λ _, key_ok) (dm_managed_keys st).

Lemma iteration_keeps service security key addr http_port udp_port st it s :
  keys_ok st → kept s →
  safe kept (λ r s', kept s' ∧ ∀ st', r = Ok st' → keys_ok st')
    (daemon_iteration home default_mode config service security key addr http_port udp_port st it) s.
Proof.
  intros Hst Hs. unfold daemon_iteration. fold path.
  apply safe_bind. eapply safe_weaken; [|by apply spares_safe, Hs; apply connections_calls].
  intros [[]|e] s0 H0; [|by split].
  apply safe_bind. eapply safe_weaken; [|by apply spares_safe, H0; apply udp_calls].
  intros [d0|e] s1 H1; [|by split]. destruct (take_sync_trigger _) as [d trigger].
  case_match.
  2: { split; [done|]. split; [done|]. by intros ? [= <-]. }
  set (managed := @run_sync_cycle H _ config d (dm_managed_keys st)).
  assert (map_Forall (λ _, key_ok) managed) as Hm by by apply run_sync_cycle_ok.
  apply safe_bind.
  assert (safe kept (λ _, kept)
    (if dry_run config then Ret (Ok ())
     else _ ← lift (io_map_err (λ _, WriteAuthorizedKeys path)
                     (apply_managed_block_to_file default_mode path (values managed))); Ret (Ok ())) s1) as Hu.
  { destruct (dry_run config) eqn:Hd; [by split|]. apply safe_bind, safe_map_err, safe_map_err.
    eapply safe_weaken; [|apply update_keeps]; [|done| |done].
    - intros [|] s2 Hs2; [by split|done].
    - apply Forall_forall. intros k (pid & Hk)%elem_of_values. exact (Hm _ _ Hk). }
  eapply safe_weaken; [|exact Hu]. intros [[]|e] s2 Hk2; [|by split].
  apply safe_bind. eapply safe_weaken; [|by apply spares_safe, Hk2; apply calls_only_attempt].
  intros [[]|e] s3 Hk3; [|by split].
  apply safe_bind. eapply safe_weaken; [|by apply spares_safe, Hk3; apply broadcast_calls].
  intros [[]|e] s4 Hk4; [|by split].
  destruct (add_u64 _ _) as [next|]; [|by split]. split; [done|]. split; [done|].
  intros st' [= <-]. exact Hm.
Qed.

Lemma loop_keeps service security key addr http_port udp_port stop_path st its s :
  keys_ok st → kept s →
  safe kept (λ _, kept)
    (daemon_loop home default_mode config service security key addr http_port udp_port stop_path st its) s.
Proof.
  revert st s. induction its as [|it its IH]; intros st s Hst Hs; [by split|]. cbn [daemon_loop].
  apply safe_bind. eapply safe_weaken; [|by apply iteration_keeps].
  intros [st1|e] s1 [H1 Hk]; [|done]. specialize (Hk _ eq_refl).
  split; [done|]. intros stop s2 [-> _]. destruct stop.
  { apply safe_bind. eapply safe_weaken; [|by apply spares_safe, H1; apply calls_only_attempt].
    intros [[]|e] s2 H2; by try split. }
  split; [done|]. intros ok s3 He.
  apply IH; [done|]. eapply kept_content; [|exact H1]. exact (spares_effect (Sleep LOOP_SLEEP_MILLIS) s1 ok s3 Logic.I He).
Qed.

Lemma ensure_private_calls p : calls_only (spares path) (ensure_private_dir p).
Proof. apply calls_only_bind; [by apply calls_only_attempt|intros _; by apply calls_only_attempt]. Qed.

Lemma write_control_calls p text : p ≠ path → calls_only (spares path) (write_control_file p text).
Proof.
  intros Hp. unfold write_control_file.
  do 3 (apply calls_only_bind; [by apply calls_only_attempt|intros _]). by apply calls_only_attempt.
Qed.

Lemma ensure_root_calls : calls_only (spares path) (ensure_control_runtime_root xdg home).
Proof.
  apply calls_only_bind; [done|]. intros root.
  apply calls_only_bind; [apply ensure_private_calls|done].
Qed.

Lemma ensure_dir_calls sid : calls_only (spares path) (ensure_control_runtime_dir_for_sid xdg home sid).
Proof.
  apply calls_only_bind; [done|]. intros dir.
  apply calls_only_bind; [apply ensure_root_calls|]. intros _.
  apply calls_only_bind; [apply ensure_private_calls|done].
Qed.

Lemma control_files_calls dir :
  control_runtime_dir_path_for_sid xdg home (sid config) = Ok dir →
  pid_file_path xdg home (sid config) ≠ Ok path → stop_file_path xdg home (sid config) ≠ Ok path →
  current_sid_marker_path xdg home ≠ Ok path →
  calls_only (spares path) (write_control_files home xdg own_pid config dir).
Proof.
  unfold pid_file_path, stop_file_path. intros -> Hp Hs Hm. cbn [mbind result_bind] in *.
  apply calls_only_bind.
  { split; [done|]. intros []; [|done]. apply calls_only_attempt. cbn. congruence. }
  intros _. apply calls_only_bind; [apply write_control_calls; congruence|]. intros _.
  apply calls_only_bind; [apply ensure_root_calls|]. intros _.
  apply calls_only_ret_bind. intros marker E. apply write_control_calls. congruence.
Qed.

Lemma discard_calls p : p ≠ path → calls_only (spares path) (discard_if_present p).
Proof. intros Hp. split; [done|]. by intros []. Qed.

Lemma bind_calls : calls_only (spares path) (bind_sockets config).
Proof.
  unfold bind_sockets. do 4 (apply calls_only_bind; [by apply calls_only_attempt|intros _]).
  by apply calls_only_attempt.
Qed.

Lemma run_daemon_keeps started announced its s :
  pid_file_path xdg home (sid config) ≠ Ok path → stop_file_path xdg home (sid config) ≠ Ok path →
  current_sid_marker_path xdg home ≠ Ok path →
  kept s →
  safe kept (λ _, kept)
    (run_daemon home xdg default_mode own_pid config started announced its) s.
Proof.
  intros Hp Hst Hm Hs. unfold run_daemon. split; [done|]. intros o s1 [-> _].
  do 2 (apply safe_ret_bind; [done|intros ? _|done]).
  apply security_safe; [done|done|]. intros security _.
  apply safe_bind. eapply safe_weaken; [|by apply spares_safe, Hs; apply bind_calls].
  intros [[]|e] s1 H1; [|done].
  apply safe_ret_bind; [done|intros http_port _|done].
  apply safe_ret_bind; [done|intros udp_port _|done].
  apply safe_bind, safe_map_err.
  eapply safe_mono; [..|exact (safe_and _ _ _ _ _ _
    (spares_safe _ s1 (ensure_dir_calls (sid config)) H1) (ensure_dir_result xdg home (sid config) s1))];
    [by intros s2 [? _]|].
  intros [dir|e] s2 _ [H2 Hdir]; [|done]. specialize (Hdir dir eq_refl). cbn [map_err].
  apply safe_bind. eapply safe_weaken;
    [|by apply spares_safe, H2; apply calls_only_map_err, control_files_calls].
  intros [[]|e] s3 H3; [|done].
  apply says_safe; [right; by eexists|done|done|].
  apply says_safe; [apply warn_says|done|done|].
  apply safe_bind. eapply safe_weaken; [|by apply spares_safe, H3; apply broadcast_calls].
  intros [[]|e] s4 H4; [|done].
  apply safe_bind. eapply safe_weaken; [|apply loop_keeps; [apply map_Forall_empty|exact H4]].
  intros [[st|]|e] s5 H5; [by split| |done].
  unfold pid_file_path, stop_file_path in *. rewrite Hdir in Hp, Hst.
  apply spares_safe; [|done]. apply calls_only_bind; [apply discard_calls; cbn in *; congruence|].
  intros _. apply calls_only_bind; [apply discard_calls; cbn in *; congruence|done].
Qed.
End keeps.

(** ** Taking over the control files *)

Lemma path_join_inj d d' x y :
  x ≠ [] → (47 ∉ x) → y ≠ [] → (47 ∉ y) → path_join d x = path_join d' y → x = y.
Proof.
  intros Hx Hxs Hy Hys E.
  rewrite <- (proj2 (last_component (path_join d x) x)) by (split; [done|by apply path_join_component]).
  rewrite E. apply last_component. split; [done|by apply path_join_component].
Qed.

Section takeover.
Context {I : Environment} {C : Crypto} {B : Build} {H : HashOrder} {R : Rustls}.
Context (home xdg : option str) (default_mode : N) (own_pid : N) (config : AppConfig).

Lemma ensure_private_files p (s : fs) :
  safe (λ s', files s' = files s) (λ _ s', files s' = files s) (ensure_private_dir p) s.
Proof.
  unfold ensure_private_dir. apply safe_bind, safe_attempt; [done| |]; intros s1 (E & _ & Hok).
  2: { done. }
  split; [done|]. destruct (Hok eq_refl) as [Hf _].
  assert (files (chmod s1 p PRIVATE_DIR) = files s) as Hc by (unfold chmod; by rewrite E, Hf).
  apply safe_attempt; [done| |]; intros s2 [_ ->]; done.
Qed.

Lemma ensure_root_files (s : fs) :
  safe (λ s', files s' = files s) (λ _ s', files s' = files s) (ensure_control_runtime_root xdg home) s.
Proof.
  apply safe_ret_bind; [done| |done]. intros root _. apply safe_bind.
  eapply safe_weaken; [|apply ensure_private_files]. by intros [] s1 E.
Qed.

Lemma remove_if_present_safe p (s : fs) :
  safe (λ _, True) (λ r s', r = Ok tt → stat_works p → files s' !! p = None) (remove_if_present p) s.
Proof.
  split; [done|]. intros found s1 [-> Hf]. destruct found.
  - apply safe_attempt; [done| |done]. intros s2 [_ ->]. split; [done|]. intros _.
    intros _. apply lookup_delete_eq.
  - split; [done|]. intros _ Hstat. destruct (files s !! p) eqn:E; [|done].
    exfalso. apply Hf; [done|]. left. by eexists.
Qed.

(** The control files of a daemon that has started. *)
Definition taken_over (dir : str) (s : fs) : Prop :=
  files s !! path_join dir PID_FILE_NAME
    = Some {| content := encode (to_string own_pid); file_mode := PRIVATE_FILE |}
  ∧ (stat_works (path_join dir STOP_FILE_NAME) → files s !! path_join dir STOP_FILE_NAME = None)
  ∧ ∃ marker, current_sid_marker_path xdg home = Ok marker
    ∧ files s !! marker = Some {| content := encode (sid config); file_mode := PRIVATE_FILE |}.

Lemma control_files_safe dir (s : fs) :
  safe (λ _, True) (λ r s', r = Ok tt → taken_over dir s')
    (write_control_files home xdg own_pid config dir) s.
Proof.
  assert (∀ d, path_join d STOP_FILE_NAME ≠ path_join dir PID_FILE_NAME) as Hsp.
  { intros d E. by apply path_join_inj in E; [|by_compute..]. }
  assert (∀ d d', path_join d CURRENT_SID_FILE_NAME ≠ path_join d' PID_FILE_NAME) as Hcp.
  { intros d d' E. by apply path_join_inj in E; [|by_compute..]. }
  assert (∀ d d', path_join d CURRENT_SID_FILE_NAME ≠ path_join d' STOP_FILE_NAME) as Hcs.
  { intros d d' E. by apply path_join_inj in E; [|by_compute..]. }
  apply safe_bind. eapply safe_weaken; [|apply remove_if_present_safe].
  intros [[]|e] s1 H1; [|done]. specialize (H1 eq_refl).
  apply safe_bind. eapply safe_mono; [done| |apply write_control_safe].
  intros [[]|e] s2 (_ & Hq2 & _) H2; [|done]. destruct (H2 eq_refl) as [_ Hf2].
  rewrite <- (Hq2 (path_join dir STOP_FILE_NAME)) in H1 by done.
  apply safe_bind. eapply safe_mono; [done| |apply ensure_root_files].
  intros [root|e] s3 _ E3; [|done]. rewrite <- E3 in H1, Hf2.
  apply safe_ret_bind; [done| |done]. intros marker Hm.
  eapply safe_mono; [done| |apply write_control_safe]. intros r s4 (_ & Hq4 & _) H4 ->.
  destruct (H4 eq_refl) as [_ Hf4].
  unfold current_sid_marker_path in Hm. destruct (control_runtime_root_path xdg home) eqn:Er; [|done].
  injection Hm as <-. split_and!.
  - by rewrite Hq4.
  - by rewrite Hq4.
  - eexists. split; [|exact Hf4]. unfold current_sid_marker_path. by rewrite Er.
Qed.

(** A daemon with no rounds: the start. *)
Lemma start_safe started announced (s : fs) :
  safe (λ _, True) (λ r s', ∀ st, r = Ok (Some st) →
      ∃ dir, control_runtime_dir_path_for_sid xdg home (sid config) = Ok dir ∧ taken_over dir s')
    (run_daemon home xdg default_mode own_pid config started announced []) s.
Proof.
  unfold run_daemon. split; [done|]. intros o s1 [-> _].
  do 6 (apply safe_then; [done|intros ? ?]).
  apply safe_bind, safe_map_err. eapply safe_weaken; [|apply ensure_dir_result].
  intros [dir|e] t4 Hdir; [|done]. specialize (Hdir dir eq_refl). cbn [map_err].
  apply safe_bind, safe_map_err. eapply safe_weaken; [|apply control_files_safe].
  intros [[]|e] t5 Ht; [|done]. specialize (Ht eq_refl). cbn [map_err].
  apply says_safe; [right; by eexists|done|done|]. apply says_safe; [apply warn_says|done|done|].
  unfold broadcast. destruct (send_announcement _ _ _ _ _ _ _) as [payload|]; [|done].
  cbn [lift io_map_err map_err mbind io_bind]. split; [done|]. intros ok t6 ->.
  split; [done|]. intros st _. by exists dir.
Qed.
End takeover.

(** ** Being stopped *)

(** Calls that leave what is at [p] there. *)
Definition leaves (p : str) (c : syscall) : Prop :=
  match c with RemoveFile q | Rename q _ => q ≠ p | Sleep _ => False | _ => True end.

Section stopping.
Context {I : Environment} {C : Crypto} {B : Build} {H : HashOrder} {R : Rustls}.
Context (home xdg : option str) (default_mode : N) (own_pid : N) (config : AppConfig).

Lemma leaves_effect p c s ok s' : leaves p c → effect c s ok s' → present s p → present s' p.
Proof.
  assert (∀ q f, present s p → present (put_file s q f) p) as Hput.
  { intros q f [Hf|Hd]; [left|by right]. cbn.
    destruct (decide (q = p)) as [->|Hne]; [rewrite lookup_insert_eq; by eexists|by rewrite lookup_insert_ne]. }
  destruct c; cbn [leaves effect]; intros Hl He Hp; try (by subst s'); try done.
  - destruct He as (E & Hd & _). destruct Hp as [Hf|Hp]; [left; by rewrite E|right].
    destruct Hp as [m Hm]. exists m. by eapply lookup_weaken.
  - destruct He as [_ ->]. destruct ok; [|done]. unfold chmod. destruct (files s !! p0); [by apply Hput|].
    destruct Hp as [Hf|Hd]; [by left|right]. cbn.
    destruct (decide (p0 = p)) as [->|Hne]; [rewrite lookup_insert_eq; by eexists|by rewrite lookup_insert_ne].
  - by destruct He as [-> _].
  - by destruct He as [-> _].
  - destruct He as [_ ->]. destruct ok; [by apply Hput|done].
  - destruct He as [_ ->]. destruct ok; [by apply Hput|done].
  - destruct He as (w & _ & _ & ->). unfold append_to. destruct (files s !! p0); [by apply Hput|done].
  - destruct ok; [|by subst]. destruct He as (_ & f & _ & ->).
    destruct Hp as [Hf|Hd]; [left|by right]. cbn.
    destruct (decide (q = p)) as [->|Hne]; [rewrite lookup_insert_eq; by eexists|].
    rewrite lookup_insert_ne by done. by rewrite lookup_delete_ne.
  - by destruct He as [-> _].
  - destruct ok; [|by subst]. destruct He as [_ ->].
    destruct Hp as [Hf|Hd]; [left|by right]. cbn. by rewrite lookup_delete_ne.
Qed.

Lemma leaves_safe {E A} p (m : io E A) s :
  calls_only (leaves p) m → present s p → safe (λ s', present s' p) (λ _ s', present s' p) m s.
Proof.
  revert s. induction m as [r|c k IH|q k IH|q k IH|q k IH]; intros s Hm Hp; (split; [done|]); cbn in *.
  - done.
  - intros ok s' He. destruct Hm as [Hc Hm]. apply IH; [done|]. by eapply leaves_effect.
  - intros o s' [-> _]. by apply IH.
  - intros o s' [-> _]. by apply IH.
  - intros o s' [-> _]. by apply IH.
Qed.

Lemma update_leaves p path ks :
  temp_path_near path ≠ p → calls_only (leaves p) (apply_managed_block_to_file default_mode path ks).
Proof.
  intros Ht. unfold apply_managed_block_to_file, ensure_ssh_directory_permissions,
    set_ssh_dir_permissions, read_existing_authorized_keys, atomic_write, sync_parent_directory,
    set_authorized_keys_permissions.
  apply calls_only_bind.
  { destruct (parent path); [|done].
    apply calls_only_bind; [by apply calls_only_attempt|intros _; by apply calls_only_attempt]. }
  intros _. apply calls_only_bind; [by split; [|intros []]|]. intros existing.
  apply calls_only_bind; [done|]. intros updated. apply calls_only_bind.
  { do 4 (apply calls_only_bind; [by apply calls_only_attempt|intros _]).
    apply calls_only_bind; [|done]. destruct (parent path); [|done].
    apply calls_only_bind; [by apply calls_only_attempt|intros _; by apply calls_only_attempt]. }
  intros _. apply calls_only_bind; [by apply calls_only_attempt|done].
Qed.

Lemma iteration_leaves p service security key addr http_port udp_port st it :
  temp_path_near (expand_home_path home (authorized_keys_path config)) ≠ p →
  calls_only (leaves p)
    (daemon_iteration home default_mode config service security key addr http_port udp_port st it).
Proof.
  intros Ht. unfold daemon_iteration. apply calls_only_bind; [by apply connections_calls|]. intros _.
  apply calls_only_bind; [by apply udp_calls|]. intros d0.
  destruct (take_sync_trigger _) as [d trigger]. case_match; [|done].
  apply calls_only_bind.
  { destruct (dry_run config); [done|]. apply calls_only_bind; [|done].
    by apply calls_only_map_err, calls_only_map_err, update_leaves. }
  intros _. apply calls_only_bind; [by apply calls_only_attempt|]. intros _.
  apply calls_only_bind; [by apply broadcast_calls|]. intros _.
  apply calls_only_bind; [by destruct (add_u64 _ _)|done].
Qed.

(** The loop is left at the end of the round in which the stop file is there. *)
Lemma loop_stops service security key addr http_port udp_port stop_path st it its (s : fs) :
  temp_path_near (expand_home_path home (authorized_keys_path config)) ≠ stop_path →
  stat_works stop_path → present s stop_path →
  safe (λ s', present s' stop_path) (λ r _, ∀ o, r = Ok o → o = None)
    (daemon_loop home default_mode config service security key addr http_port udp_port stop_path st (it :: its)) s.
Proof.
  intros Ht Hstat Hs. cbn [daemon_loop]. apply safe_bind.
  eapply safe_weaken; [|by apply leaves_safe, Hs; apply iteration_leaves].
  intros [st1|e] s1 H1; [|done]. split; [done|]. intros stop s2 [-> Hp].
  destruct stop; [|by destruct (Hp Hstat)]. apply says_safe; [right; by eexists|done|done|].
  split; [done|]. by intros o [= <-].
Qed.

(** What [discard_if_present] adds to the history: the removal, if any, may fail. *)
Definition discarded (p : str) (removed : option bool) : list event :=
  match removed with
  | Some ok => [Called (Exists p) true; Called (RemoveFile p) ok]
  | None => [Called (Exists p) false]
  end.

Lemma discard_safe p (w : fs * list event) :
  safe (λ _, True)
    (λ _ w', ∃ removed, w'.2 = w.2 ++ discarded p removed
       ∧ (removed = Some true ∨ removed = None ∧ stat_works p → files w'.1 !! p = None)
       ∧ ∀ q, files w.1 !! q = None → files w'.1 !! q = None)
    (discard_if_present p) w.
Proof.
  split; [done|]. intros found [s1 h1] [[E Hf] Eh]. cbn in E, Eh. subst. destruct found.
  - split; [done|]. intros ok [s2 h2] [He Eh]. cbn [fst snd] in *. subst. split; [done|].
    exists (Some ok). cbn [fst snd]. split; [by rewrite <- app_assoc|]. destruct ok.
    + destruct He as [_ ->]. cbn. split; [intros _; apply lookup_delete_eq|].
      intros q Hq. apply lookup_delete_None. by right.
    + cbn in He. subst. split; [|done]. by intros [|[? _]].
  - split; [done|]. exists None. cbn [fst snd]. split; [done|]. split; [|done].
    intros [|[_ Hstat]]; [done|]. destruct (files w.1 !! p) eqn:E; [|done].
    exfalso. apply Hf; [done|]. left. by eexists.
Qed.

Definition STOPPING : str := lit "Stop requested, shutting down daemon".

(** The loop is only left with the stop file found and the message printed. *)
Lemma loop_left service security key addr http_port udp_port stop_path st its (w : fs * list event) :
  safe (λ _, True) (λ r w', r = Ok None →
      ∃ h0, w'.2 = h0 ++ [Called (Exists stop_path) true; Called (Print STOPPING) true])
    (daemon_loop home default_mode config service security key addr http_port udp_port stop_path st its) w.
Proof.
  revert st w. induction its as [|it its IH]; intros st w; [done|]. cbn [daemon_loop].
  apply safe_then; [done|]. intros st1 w1. split; [done|]. intros stop w2 [_ E2]. destruct stop.
  - apply safe_bind, safe_attempt; [done| |]; intros w3 [_ E3]; (split; [done|]); [|done].
    split; [done|]. intros _. exists w1.2. by rewrite E3, E2, <- app_assoc.
  - split; [done|]. intros ok w3 _. apply IH.
Qed.

(** The end of a daemon that was stopped. *)
Lemma stopped_safe started announced its (w : fs * list event) :
  safe (λ _, True)
    (λ r w', r = Ok None → ∃ dir h0 pid_removed stop_removed,
       let pid_path := path_join dir PID_FILE_NAME in
       let stop_path := path_join dir STOP_FILE_NAME in
       control_runtime_dir_path_for_sid xdg home (sid config) = Ok dir
       ∧ w'.2 = h0 ++ [Called (Exists stop_path) true; Called (Print STOPPING) true]
           ++ discarded pid_path pid_removed ++ discarded stop_path stop_removed
       ∧ (pid_removed = Some true ∨ pid_removed = None ∧ stat_works pid_path →
            files w'.1 !! pid_path = None)
       ∧ (stop_removed = Some true ∨ stop_removed = None ∧ stat_works stop_path →
            files w'.1 !! stop_path = None))
    (run_daemon home xdg default_mode own_pid config started announced its) w.
Proof.
  unfold run_daemon. split; [done|]. intros o w1 _.
  do 6 (apply safe_then; [done|intros ? ?]).
  apply safe_bind, safe_map_err. eapply safe_weaken; [|apply ensure_dir_result].
  intros [dir|e] w2 Hdir; [|done]. specialize (Hdir dir eq_refl). cbn [map_err].
  do 4 (apply safe_then; [done|intros ? ?]).
  apply safe_bind. eapply safe_weaken; [|apply loop_left].
  intros [[st|]|e] w3 H3; [done| |done]. destruct (H3 eq_refl) as [h0 E3].
  apply safe_bind. eapply safe_weaken; [|apply discard_safe].
  intros [[]|e] w4 (r1 & E4 & Hp & _); [|done].
  apply safe_bind. eapply safe_weaken; [|apply discard_safe].
  intros [[]|e] w5 (r2 & E5 & Hs & Hk); [|done]. split; [done|]. intros _.
  exists dir, h0, r1, r2. split_and!; [done| |by auto|done].
  by rewrite E5, E4, E3, <- !app_assoc.
Qed.
End stopping.

(** ** Properties *)

Section properties.
Context {C : Crypto} {B : Build} {H : HashOrder} {R : Rustls}.
Context (home xdg : option str) (default_mode : N) (own_pid : N) (config : AppConfig)
  (started : N) (announced : N * N) (its : list (iteration R)).

Let path : str := expand_home_path home (authorized_keys_path config).
Let run_it := run_daemon home xdg default_mode own_pid config started announced.

(** C4: the daemon keeps the user's lines.  If authorized_keys has its markers in
    order and is tidy (no line keeps a carriage return, and what follows the
    block does not end with an empty line), its metadata can be read, no other process edits it and it is not one of the
    control files: however long the daemon runs, whatever arrives from the
    network, whatever other calls fail and wherever it stops, the text of the
    file is the one the daemon found, or, unless it is a dry run, that text with
    a managed block of distinct keys in normal form in the place of the old one.
    However many synchronisations there were, the result is that of a single
    one. *)
Theorem daemon_keeps_user_lines {I : Environment} {HO : HashOrderOk H} (c : str) (s s' : fs)
    (m' : io (abort RuntimeError) (option daemon)) :
  (∀ s s', other_processes s s' → files s' !! path = files s !! path) →
  pid_file_path xdg home (sid config) ≠ Ok path →
  stop_file_path xdg home (sid config) ≠ Ok path →
  current_sid_marker_path xdg home ≠ Ok path →
  stat_works path → old_text s path c → wf_str c → in_order (lines c) → tidy (lines c) →
  reaches (run_it its) s m' s' →
  ∃ t, old_text s' path t
    ∧ (t = c ∨ dry_run config = false ∧ ∃ keys, NoDup keys ∧ Forall key_ok keys
         ∧ t = join [LF] (before (lines c) ++ block keys ++ after (lines c))).
Proof.
  intros Henv Hp Hs Hm Hstat Hc Hw Ho Ht Hr.
  destruct (safe_reaches _ _ _ _ _ _ (run_daemon_keeps home xdg default_mode own_pid config c
    Hw Ho Ht Hstat Henv started announced its s Hp Hs Hm (ex_intro _ c (conj Hc (or_introl eq_refl)))) Hr)
    as [(t & Hk & Hcase) _].
  exists t. split; [done|]. destruct Hcase as [->|(Hd & ks & Hks & Hu)]; [by left|right].
  split; [done|]. exists (nub ks). rewrite upsert_normal in Hu by done. injection Hu as <-.
  split_and!; [apply NoDup_nub| |done]. apply Forall_forall. intros k Hk'.
  apply (proj1 (elem_of_nub _ _)) in Hk'. rewrite Forall_forall in Hks. by apply Hks.
Qed.

(** C14: what ends the daemon.  A run that ends in an error failed to start, with
    the error of that step, or failed to write authorized_keys and is not a dry
    run, or panicked; it only panics if the HTTP reader does on what some
    connection delivers, if the time of the next synchronisation overflows, or
    if its last call was to print a line and failed.  Nothing else that arrives
    from the network ends it, and building its announcement never fails.
    Conversely a call or a read that fails is the last event, and the run has
    ended with the error for it: of the HTTP or UDP address for a socket, of
    the control file, of the public key, of the TLS files, of authorized_keys,
    or the panic of a failed print.  Only questions, sleeping, answers,
    announcements and removals of files may fail without that. *)
Theorem daemon_failures (m' : io (abort RuntimeError) (option daemon)) (h : list event) :
  reaches (run_it its) [] m' h →
  (∀ e, m' = Ret (Err e) →
   match e with
   | Panicked =>
       (∃ line, last h = Some (Called (Print line) false))
       ∨ ∃ it, it ∈ its ∧
       ((∃ security c stream, is_tls security = negb (insecure_no_tls config)
          ∧ c ∈ it_connections it ∧ accepted_reads security c.1 = Some stream
          ∧ read_http_request stream = Panic)
        ∨ overflow_checks = true ∧ U64_MAX < it_now it + N.max (sync_interval_secs config) 1)
   | Error e =>
       e = WriteAuthorizedKeys path ∧ dry_run config = false
       ∨ tls_failure config e ∨ control_error e
       ∨ e = ReadLocalPublicKey (expand_home_path home (Config.public_key_path config))
       ∨ e = BindHttp (http_listen_addr config) ∨ e = BindUdp (udp_announce_addr config)
       ∨ e = ParseListenAddress (http_listen_addr config)
       ∨ e = ParseListenAddress (udp_announce_addr config)
   end)
  ∧ (∀ ev, ev ∈ h → failed_event ev →
       last h = Some ev ∧ ∃ e, m' = Ret (Err e) ∧ failure_error home config ev e).
Proof.
  intros Hr. split.
  2: { by apply (strict_reaches _ _ _ _ _ (run_daemon_strict home xdg default_mode own_pid config
         started announced its) (Forall_nil_2 _) Hr). }
  intros e ->. destruct (safe_reaches _ _ _ _ _ _ (run_daemon_fails home xdg default_mode own_pid
    config started announced its []) Hr) as [_ Hp].
  destruct (Hp _ eq_refl) as [Hs|Hl].
  - destruct e as [e|]; [by right|by left].
  - destruct e as [e|].
    + destruct e; try done. destruct Hl as [? ->]. by left.
    + destruct Hl as [?|(it & Hin & Hc)]; [by left|right]. exists it. split; [done|].
      destruct Hc as [(security & c & ? & ? & stream & ? & ?)|Ho].
      { left. by exists security, c, stream. }
      right. unfold interval_overflows, add_u64 in Ho.
      destruct (N.leb_spec (it_now it + N.max (sync_interval_secs config) 1) U64_MAX); [done|].
      by destruct overflow_checks.
Qed.

(** C22: a daemon that has started is found, where the metadata of its control
    files can be read.  A stop file left over from before is gone; the status of
    the group names the daemon's process and the group is the current one, in
    every answer that is not an error. *)
Theorem startup_takes_over {I : Environment} (st : daemon) (s s' : fs) :
  own_pid ≤ U32_MAX → wf_str (sid config) → trim (sid config) ≠ [] →
  reaches (run_it []) s (Ret (Ok (Some st))) s' →
  (∀ p, stop_file_path xdg home (sid config) = Ok p → stat_works p → files s' !! p = None)
  ∧ (∀ p r s'', pid_file_path xdg home (sid config) = Ok p → stat_works p →
       reaches (status_daemon xdg home (sid config)) s' (Ret (Ok r)) s'' →
       r = Running own_pid ∨ r = StalePidFile own_pid)
  ∧ (∀ marker o s'', current_sid_marker_path xdg home = Ok marker → stat_works marker →
       reaches (resolve_current_sid xdg home) s' (Ret (Ok o)) s'' →
       o = Some (trim (sid config))).
Proof.
  intros Hpid Hw Hne Hr.
  destruct (safe_reaches _ _ _ _ _ _ (start_safe home xdg default_mode own_pid config
    started announced s) Hr) as [_ Hp].
  destruct (Hp _ eq_refl st eq_refl) as (dir & Hdir & Hpf & Hsf & marker & Hm & Hmf).
  split_and!.
  - unfold stop_file_path. rewrite Hdir. by intros p [= <-].
  - intros p r s'' Hpp Hstat Hst.
    assert (p = path_join dir PID_FILE_NAME) as ->.
    { unfold pid_file_path in Hpp. rewrite Hdir in Hpp. by injection Hpp as <-. }
    by apply (proj2 (safe_reaches _ _ _ _ _ _
      (status_of_pid xdg home (sid config) _ own_pid s' Hpp Hpid Hstat Hpf) Hst) _ eq_refl).
  - intros p o s'' Hpm Hstat Ho. assert (p = marker) as -> by congruence.
    by apply (proj2 (safe_reaches _ _ _ _ _ _
      (marked_is_found xdg home (sid config) marker s' Hstat Hm Hw Hne Hmf) Ho) _ eq_refl).
Qed.

(** C17: a request to stop is honoured.  When the stop file is there at the
    beginning of a round and its metadata can be read, the daemon leaves the
    loop at the end of that round, whatever else happens in it and however many
    rounds could follow.  A run that ends because of a stop ends with finding
    the stop file, the message, and the attempts to remove the pid and the stop
    file, each made if the file is found: a file is gone if its removal did not
    fail, which the daemon ignores. *)
Theorem stop_request_honoured {I : Environment} (s s' : fs) :
  (∀ service security key addr http_port udp_port stop_path st it o,
     temp_path_near path ≠ stop_path → stat_works stop_path → present s stop_path →
     reaches (daemon_loop home default_mode config service security key addr http_port udp_port stop_path st
       (it :: its)) s (Ret (Ok o)) s' →
     o = None)
  ∧ (∀ h, reaches (run_it its) (s, []) (Ret (Ok None)) (s', h) →
     ∃ dir h0 pid_removed stop_removed,
       let pid_path := path_join dir PID_FILE_NAME in
       let stop_path := path_join dir STOP_FILE_NAME in
       pid_file_path xdg home (sid config) = Ok pid_path
       ∧ stop_file_path xdg home (sid config) = Ok stop_path
       ∧ h = h0 ++ [Called (Exists stop_path) true; Called (Print STOPPING) true]
           ++ discarded pid_path pid_removed ++ discarded stop_path stop_removed
       ∧ (pid_removed = Some true ∨ pid_removed = None ∧ stat_works pid_path →
            files s' !! pid_path = None)
       ∧ (stop_removed = Some true ∨ stop_removed = None ∧ stat_works stop_path →
            files s' !! stop_path = None)).
Proof.
  split.
  - intros service security key addr http_port udp_port stop_path st it o Ht Hstat Hs Hr.
    by apply (proj2 (safe_reaches _ _ _ _ _ _ (loop_stops home default_mode config service security key addr
      http_port udp_port stop_path st it its s Ht Hstat Hs) Hr) _ eq_refl).
  - intros h Hr. destruct (proj2 (safe_reaches _ _ _ _ _ _ (stopped_safe home xdg default_mode
      own_pid config started announced its (s, [])) Hr) _ eq_refl eq_refl)
      as (dir & h0 & r1 & r2 & Hdir & Hh & Hp & Hs).
    exists dir, h0, r1, r2. unfold pid_file_path, stop_file_path. rewrite Hdir. by split_and!.
Qed.
End properties.

(** ** Witnesses *)

#[local] Definition xdg1 : option str := Some (lit "/run/user/1000").
#[local] Definition home1 : option str := Some (lit "/home/u").

(** A round with one datagram that is no announcement and one connection. *)
Definition sample_round (connection : reads) (now : N) : iteration toy_rustls :=
  {| it_connections := [(connection, (now, 7))]; it_datagrams := [Ok (lit "hello", now)];
     it_now := now; it_network := toy_network sample_network; it_clock := λ _, (1000, 1);
     it_announced := (now, 8) |}.

Definition sample_daemon (its : list (iteration toy_rustls)) : io (abort RuntimeError) (option daemon) :=
  @run_daemon toy_crypto true map_order toy_rustls home1 xdg1 420 4711 sample_config 1000 (1000, 5) its.

Lemma sample_reaches its :
  reaches (WW := @fs_world no_environment) (sample_daemon its) sample_home
    (Ret (run (sample_daemon its) sample_home).1) (run (sample_daemon its) sample_home).2.
Proof. apply (@run_reaches no_environment). Qed.

(** The start, a round in which the key of node-1 is fetched, and another. *)
Definition two_rounds : list (iteration toy_rustls) := [sample_round sample_stream 1000; sample_round [] 1031].

Lemma daemon_keeps_user_lines_witness :
  ∃ keys, NoDup keys ∧ Forall key_ok keys
  ∧ old_text (run (sample_daemon two_rounds) sample_home).2 (lit "/home/u/.ssh/authorized_keys")
      (join [LF] ([lit "ssh-rsa AAAA mine"; []] ++ block keys ++ [])).
Proof.
  destruct (@daemon_keeps_user_lines toy_crypto true map_order toy_rustls home1 xdg1 420 4711
    sample_config 1000 (1000, 5) two_rounds no_environment map_order_ok (lit "ssh-rsa AAAA mine")
    sample_home _ _ ltac:(done) ltac:(by_compute) ltac:(by_compute) ltac:(by_compute)
    ltac:(done) ltac:(by vm_compute) ltac:(by_compute) ltac:(by_compute) ltac:(by_compute)
    (sample_reaches two_rounds)) as (t & Ht & [->|(_ & keys & Hn & Hk & ->)]).
  - exfalso. by vm_compute in Ht.
  - exists keys. split_and!; [exact Hn|exact Hk|exact Ht].
Defined.

(** One unauthenticated request whose Content-Length is the largest word ends
    the daemon. *)
Definition attacked : io (abort RuntimeError) (option daemon) * list event :=
  replay (sample_daemon [sample_round [Ok attack] 1000])
    (Text (Some (lit "ssh-rsa AAAAB3NzaC1yc2E")) :: replicate 40 (Done true)) [].

Lemma daemon_failures_witness :
  attacked.1 = Ret (Err Panicked)
  ∧ ((∃ line, last attacked.2 = Some (Called (Print line) false))
     ∨ ∃ it, it ∈ [sample_round [Ok attack] 1000]
       ∧ ((∃ security c stream, @is_tls toy_rustls security = false ∧ c ∈ it_connections it
            ∧ accepted_reads security c.1 = Some stream ∧ @read_http_request true stream = Panic)
          ∨ true = true ∧ U64_MAX < it_now it + 30)).
Proof.
  assert (attacked.1 = Ret (Err Panicked)) as E by (by vm_compute). split; [exact E|].
  pose proof (replay_reaches (sample_daemon [sample_round [Ok attack] 1000])
    (Text (Some (lit "ssh-rsa AAAAB3NzaC1yc2E")) :: replicate 40 (Done true)) []) as Hr.
  fold attacked in Hr. rewrite E in Hr.
  exact (proj1 (@daemon_failures toy_crypto true map_order toy_rustls home1 xdg1 420 4711
    sample_config 1000 (1000, 5) _ _ attacked.2 Hr) Panicked eq_refl).
Defined.

(** The sample machine with a stop file from before. *)
Definition stale_home : fs :=
  put_file sample_home (lit "/run/user/1000/ssh-key-sync/group-a/daemon.stop")
    {| content := encode (lit "stop"); file_mode := 384 |}.

Lemma startup_takes_over_witness :
  is_ok (run (sample_daemon []) stale_home).1 = true
  ∧ files (run (sample_daemon []) stale_home).2
      !! lit "/run/user/1000/ssh-key-sync/group-a/daemon.stop" = None
  ∧ (run (status_daemon xdg1 home1 (lit "group-a")) (run (sample_daemon []) stale_home).2).1
    = Ok (Running 4711).
Proof.
  pose proof (@run_reaches no_environment _ _ (sample_daemon []) stale_home) as Hr.
  assert (match (run (sample_daemon []) stale_home).1 with Ok (Some _) => true | _ => false end = true)
    as Hok by (by vm_compute).
  assert ((run (status_daemon xdg1 home1 (lit "group-a")) (run (sample_daemon []) stale_home).2).1
    = Ok (Running 4711)) as Hst by (by vm_compute).
  revert Hr Hok Hst. generalize (run (sample_daemon []) stale_home).
  intros [[[st|]|e] s'] Hr Hok Hst; [|done|done]. cbn [fst snd] in *. split; [done|].
  destruct (@startup_takes_over toy_crypto true map_order toy_rustls home1 xdg1 420 4711
    sample_config 1000 (1000, 5) no_environment st stale_home s' ltac:(done) ltac:(by_compute)
    ltac:(by vm_compute) Hr) as (Hs & _ & _).
  split; [apply Hs; [by vm_compute|done]|exact Hst].
Defined.

(** The loop with a stop file in place, and two rounds to go. *)
Definition stopping_loop (service : HttpKeyExchangeService) : io (abort RuntimeError) (option daemon) :=
  @daemon_loop toy_crypto true map_order toy_rustls home1 420 sample_config service InsecureNoTls
    Transport.sample_key
    (lit "node-2") 9922 9923 (lit "/run/user/1000/ssh-key-sync/group-a/daemon.stop")
    {| dm_discovery := bootstrap_engine sample_config; dm_managed_keys := ∅; dm_next_sync_at := 1000 |}
    two_rounds.

Lemma stop_request_honoured_witness :
  (run (stopping_loop sample_client) stale_home).1 = Ok None.
Proof.
  pose proof (@run_reaches no_environment _ _ (stopping_loop sample_client) stale_home) as Hr.
  assert (is_ok (run (stopping_loop sample_client) stale_home).1 = true) as Hok by (by vm_compute).
  revert Hr Hok. generalize (run (stopping_loop sample_client) stale_home).
  intros [[o|e] s'] Hr Hok; [|done]. cbn [fst snd] in *. f_equal.
  exact (proj1 (@stop_request_honoured toy_crypto true map_order toy_rustls home1 xdg1 420 4711
    sample_config 1000 (1000, 5) [sample_round [] 1031] no_environment stale_home s')
    sample_client InsecureNoTls Transport.sample_key (lit "node-2") 9922 9923
    (lit "/run/user/1000/ssh-key-sync/group-a/daemon.stop") _ _ o
    ltac:(by_compute) ltac:(done) ltac:(by_compute) Hr).
Defined.
