(* ===== verification/Invariants.v ===== *)
(** * Invariants of the daemon (src/src/runtime.rs)

    What holds of every state of the daemon's loop: its discovery engine is one
    that the operations of [DiscoveryEngine] reach, so that the theorems about
    those apply to it, its keys are in normal form and none is its own, and its
    numbers fit their machine types.  And what holds of every answer it sends:
    with TLS, none goes out in the clear, and without it the warning has been
    printed before. *)

From S2P Require Import Prelude Str Utf8 SshKeys Auth Discovery Config Http Paths System Files.
From S2P Require Import Tls Control Server Runtime.

Local Open Scope N_scope.

(** ** The state of the loop *)

Section state.
Context {C : Crypto} {B : Build} {H : HashOrder} {HO : HashOrderOk H} {R : Rustls}.
Context (home xdg : option str) (default_mode : N) (own_pid : N) (config : AppConfig).

Definition nonces_ok (d : DiscoveryEngine) : Prop :=
  map_Forall (λ _ seen_at, seen_at ≤ U64_MAX) (v_seen_nonces (de_verifier d)).

Definition discovery_ok (d : DiscoveryEngine) : Prop :=
  reachable (sid config) (sid_token config) TIMESTAMP_SKEW_SECS NONCE_TTL_SECS d ∧ nonces_ok d.

Definition managed_ok (managed : gmap str str) : Prop :=
  managed !! Config.participant_id config = None ∧ map_Forall (λ _, key_ok) managed.

Definition daemon_ok (st : daemon) : Prop :=
  discovery_ok (dm_discovery st) ∧ managed_ok (dm_managed_keys st) ∧ dm_next_sync_at st ≤ U64_MAX.

(** The clock gives 64-bit readings. *)
Definition round_ok (it : iteration R) : Prop :=
  it_now it ≤ U64_MAX
  ∧ Forall (λ received, ∀ datagram now, received = Ok (datagram, now) → now ≤ U64_MAX) (it_datagrams it).

Lemma apply_op_nonces d o :
  nonces_ok d → before_op U64_MAX o → nonces_ok (apply_op d o).
Proof.
  unfold nonces_ok. intros Hd Ho. destruct o as [ps|e now|]; cbn in Ho |- *.
  - by destruct (bootstrap_verifier ps d) as (-> & _).
  - destruct (process_config d e now) as (_ & _ & [-> | ->]); [done|].
    unfold verify. destruct (verify_envelope _ _ _); [|done]. case_match; [done|].
    assert (map_Forall (λ _ seen_at, seen_at ≤ U64_MAX) (v_seen_nonces (prune_nonces (de_verifier d) now))) as Hp.
    { intros k t Hk. apply map_lookup_filter_Some in Hk as [Hk _]. exact (Hd _ _ Hk). }
    destruct (v_seen_nonces (prune_nonces _ _) !! _); [exact Hp|]. by apply map_Forall_insert_2.
  - by destruct (take_config d) as (_ & _ & -> & _).
Qed.

Lemma discovery_step d o :
  discovery_ok d → before_op U64_MAX o → discovery_ok (apply_op d o).
Proof. intros [Hr Hn] Ho. split; [by constructor|by apply apply_op_nonces]. Qed.

Lemma datagram_ok d datagram now :
  discovery_ok d → now ≤ U64_MAX → discovery_ok (handle_datagram d datagram now).1.
Proof.
  intros Hd Hnow. unfold handle_datagram. destruct (from_utf8 _) as [text|]; [|done].
  destruct (Envelope.parse_envelope text) as [e|]; [|done].
  pose proof (discovery_step d (Announce e now) Hd Hnow) as Hs. cbn in Hs.
  by destruct (process_announcement d e now) as [d' r].
Qed.

Lemma udp_ok d received :
  discovery_ok d →
  Forall (λ received, ∀ datagram now, received = Ok (datagram, now) → now ≤ U64_MAX) received →
  yields discovery_ok (handle_udp_announcements d received).
Proof.
  intros Hd Hr. revert d Hd. induction Hr as [|[[datagram now]|e] received Hnow _ IH]; intros d Hd;
    cbn [handle_udp_announcements]; [by apply yields_ret; intros ? [= <-]| |by apply yields_ret; intros ? [= <-]].
  pose proof (datagram_ok d datagram now Hd (Hnow _ _ eq_refl)) as Hd'.
  destruct (handle_datagram d datagram now) as [d' line]. apply yields_then. intros _. by apply IH.
Qed.

Lemma cycle_ok network clock service d managed :
  discovery_ok d → managed_ok managed →
  managed_ok (@run_sync_cycle H (service_source network clock service) config d managed).
Proof.
  intros [Hr _] [Hown Hm]. split; [|by apply run_sync_cycle_ok].
  apply reachable_engine in Hr. rewrite run_sync_cycle_lookup by apply Hr.
  rewrite bool_decide_true by done. by destruct (endpoint_for _ _ _).
Qed.

Lemma add_u64_bound a b n : add_u64 a b = Val n → n ≤ U64_MAX.
Proof.
  unfold add_u64. destruct (N.leb_spec (a + b) U64_MAX); [by intros [= <-]|].
  destruct overflow_checks; [done|]. intros [= <-].
  assert ((a + b) mod 18446744073709551616 < 18446744073709551616) by by apply N.mod_lt.
  unfold U64_MAX. lia.
Qed.

Lemma iteration_ok service security key addr http_port udp_port st it :
  daemon_ok st → round_ok it →
  yields daemon_ok
    (daemon_iteration home default_mode config service security key addr http_port udp_port st it).
Proof.
  intros (Hd & Hm & Hn) [Hnow Hrec]. unfold daemon_iteration. apply yields_then. intros _.
  eapply yields_bind; [by apply udp_ok|]. intros d Hd1.
  pose proof (discovery_step d TakeTrigger Hd1 Logic.I) as Hd2. cbn in Hd2.
  destruct (take_sync_trigger d) as [d' trigger]. cbn in Hd2. case_match.
  2: { apply yields_ret. intros st' [= <-]. by split; [|split]. }
  do 3 (apply yields_then; intros ?).
  apply (yields_bind (λ n, n ≤ U64_MAX)).
  { destruct (add_u64 _ _) eqn:E; apply yields_ret; [|done]. intros n [= <-]. by eapply add_u64_bound. }
  intros n Hn'. apply yields_ret. intros st' [= <-].
  split; [exact Hd2|]. split; [by apply cycle_ok|done].
Qed.

Lemma loop_ok service security key addr http_port udp_port stop_path st its :
  daemon_ok st → Forall round_ok its →
  yields (λ o, ∀ st', o = Some st' → daemon_ok st')
    (daemon_loop home default_mode config service security key addr http_port udp_port stop_path st its).
Proof.
  intros Hst Hits. revert st Hst. induction Hits as [|it its Hit _ IH]; intros st Hst; cbn [daemon_loop].
  { apply yields_ret. by intros o [= <-] st' [= <-]. }
  eapply yields_bind; [by apply iteration_ok|]. intros st1 Hst1.
  apply yields_do. intros [].
  - apply yields_then. intros _. apply yields_ret. by intros o [= <-].
  - apply yields_do. intros ok. by apply IH.
Qed.

Lemma run_daemon_ok started announced its :
  started ≤ U64_MAX → Forall round_ok its →
  yields (λ o, ∀ st, o = Some st → daemon_ok st)
    (run_daemon home xdg default_mode own_pid config started announced its).
Proof.
  intros Hs Hits. unfold run_daemon. apply yields_read. intros o.
  do 11 (apply yields_then; intros ?).
  eapply yields_bind; [apply loop_ok; [|done]|].
  - split; [|split; [split; [apply lookup_empty|apply map_Forall_empty]|done]]. split.
    + apply (reachable_op _ _ _ _ _ (Bootstrap (bootstrap_peers config))), reachable_new.
    + unfold nonces_ok, bootstrap_engine. cbn [dm_discovery].
      destruct (bootstrap_verifier (bootstrap_peers config)
        (DiscoveryEngine_new (sid config) (sid_token config) TIMESTAMP_SKEW_SECS NONCE_TTL_SECS)) as (-> & _).
      apply map_Forall_empty.
  - intros [st|] Hst; [by apply yields_ret; intros o' [= <-]|].
    do 2 (apply yields_then; intros ?). by apply yields_ret; intros o' [= <-].
Qed.
End state.

(** ** Answers *)

Section answers.
Context {C : Crypto} {B : Build} {H : HashOrder} {R : Rustls}.
Context (home xdg : option str) (default_mode : N) (own_pid : N) (config : AppConfig).

(** Calls that are right for a configuration: answers go through a session
    unless TLS is switched off, only then the warning is printed, and only
    without it are certificates opened. *)
Definition WARNING : str := lit "WARNING: transport security is disabled (--insecure-no-tls)".

Definition discreet (c : syscall) : Prop :=
  match c with
  | Respond secure _ => secure = negb (insecure_no_tls config)
  | Print line => line = WARNING → insecure_no_tls config = true
  | OpenFile _ => insecure_no_tls config = false
  | _ => True
  end.

Lemma build_calls (P : syscall → Prop) :
  (insecure_no_tls config = false → ∀ p, P (OpenFile p)) →
  calls_only P (build_transport_security home config).
Proof.
  intros HP. unfold build_transport_security. destruct (insecure_no_tls config) eqn:E; [done|].
  specialize (HP eq_refl).
  do 3 (apply calls_only_bind; [done|intros ?]).
  apply calls_only_bind; [unfold load_cert_chain; calls; by destruct a2|intros chain].
  apply calls_only_bind; [unfold load_private_key; calls|intros key].
  apply calls_only_bind; [done|intros server].
  apply calls_only_bind; [unfold load_cert_chain; calls; by destruct a2|intros cas].
  destruct (add_parsable_certificates _ _) as [roots added]. by destruct (added =? 0).
Qed.

Lemma build_discreet : calls_only discreet (build_transport_security home config).
Proof. by apply build_calls. Qed.

Lemma warning_discreet {E} (security : TransportSecurity R) :
  is_tls security = negb (insecure_no_tls config) →
  calls_only discreet (warn_if_insecure (E := E) security).
Proof.
  unfold warn_if_insecure. intros Hs. destruct (is_tls security); [done|].
  apply calls_only_attempt. intros _. by destruct (insecure_no_tls config).
Qed.

(** The other lines do not begin like the warning. *)
Lemma line_discreet line : head line ≠ Some 87 → discreet (Print line).
Proof. by intros Hl ->. Qed.

Lemma udp_discreet d received : calls_only discreet (handle_udp_announcements d received).
Proof.
  revert d. induction received as [|[[datagram now]|e] received IH]; intros d; [done| |done].
  cbn [handle_udp_announcements].
  assert (∀ line, (handle_datagram d datagram now).2 = Some line → discreet (Print line)) as Hl.
  { intros line. unfold handle_datagram. destruct (from_utf8 _); [|done].
    destruct (Envelope.parse_envelope _); [|done].
    destruct (process_announcement d _ now) as [d' [[]|]]; cbn [snd]; try done;
      intros [= <-]; by apply line_discreet. }
  destruct (handle_datagram d datagram now) as [d' line].
  apply calls_only_bind; [|intros _; apply IH].
  destruct line; [|done]. apply calls_only_attempt. by apply Hl.
Qed.

Lemma update_discreet path ks : calls_only discreet (apply_managed_block_to_file default_mode path ks).
Proof.
  unfold apply_managed_block_to_file, ensure_ssh_directory_permissions, set_ssh_dir_permissions,
    read_existing_authorized_keys, atomic_write, sync_parent_directory,
    set_authorized_keys_permissions. calls.
Qed.

Lemma iteration_discreet service security key addr http_port udp_port st it :
  is_tls security = negb (insecure_no_tls config) →
  calls_only discreet
    (daemon_iteration home default_mode config service security key addr http_port udp_port st it).
Proof.
  intros Hs. unfold daemon_iteration.
  apply calls_only_bind; [by apply connections_calls|intros _].
  apply calls_only_bind; [apply udp_discreet|intros d0].
  destruct (take_sync_trigger d0) as [d trigger]. case_match; [|done].
  apply calls_only_bind.
  { destruct (dry_run config); [done|]. apply calls_only_bind; [|done].
    apply calls_only_map_err, calls_only_map_err, update_discreet. }
  intros _. apply calls_only_bind; [by apply calls_only_attempt, line_discreet|intros _].
  apply calls_only_bind; [by apply broadcast_calls|intros _].
  apply calls_only_bind; [by destruct (add_u64 _ _)|done].
Qed.

Lemma loop_discreet service security key addr http_port udp_port stop_path st its :
  is_tls security = negb (insecure_no_tls config) →
  calls_only discreet
    (daemon_loop home default_mode config service security key addr http_port udp_port stop_path st its).
Proof.
  intros Hs. revert st. induction its as [|it its IH]; intros st; [done|]. cbn [daemon_loop].
  apply calls_only_bind; [by apply iteration_discreet|]. intros st1.
  split; [done|]. intros []; [|by split].
  apply calls_only_bind; [by apply calls_only_attempt, line_discreet|done].
Qed.

Lemma run_daemon_discreet started announced its (h : list event) :
  Forall (event_call discreet) h →
  safe (Forall (event_call discreet)) (λ _, Forall (event_call discreet))
    (run_daemon home xdg default_mode own_pid config started announced its) h.
Proof.
  intros Hh. unfold run_daemon. split; [done|]. intros o h1 ->.
  assert (Forall (event_call discreet) (h ++ [WasRead (expand_home_path home (public_key_path config)) o]))
    as H1 by (apply Forall_app_2; [done|by apply Forall_singleton]).
  do 2 (apply safe_ret_bind; [done|intros ? _|done]).
  apply safe_bind, safe_map_err.
  eapply safe_mono; [..|exact (safe_and _ _ _ _ _ _
    (calls_only_events _ _ _ build_discreet H1) (build_kind home config _))]; [by intros ? [? _]|].
  intros [security|e] h2 _ [H2 Hs]; cbn [map_err]; [|done].
  apply calls_only_events; [|done].
  apply calls_only_bind; [unfold bind_sockets; calls|intros _].
  do 2 (apply calls_only_bind; [done|intros ?]).
  apply calls_only_bind.
  { unfold ensure_control_runtime_dir_for_sid, ensure_control_runtime_root, ensure_private_dir. calls. }
  intros dir. apply calls_only_bind.
  { unfold write_control_files, remove_if_present, write_control_file, set_current_sid,
      ensure_control_runtime_root, ensure_private_dir, write_control_file. calls. }
  intros _. apply calls_only_bind; [by apply calls_only_attempt, line_discreet|intros _].
  apply calls_only_bind; [by apply warning_discreet|intros _].
  apply calls_only_bind; [by apply broadcast_calls|intros _].
  apply calls_only_bind; [by apply loop_discreet|]. intros [st|]; [done|].
  unfold discard_if_present. calls.
Qed.

(** *** The warning comes before the answers *)

Definition silent (c : syscall) : Prop := match c with Respond _ _ => False | _ => True end.

(** Before each answer the warning was printed. *)
Definition warned (h : list event) : Prop :=
  ∀ h1 h2 secure response ok, h = h1 ++ Called (Respond secure response) ok :: h2 →
    Called (Print WARNING) true ∈ h1.

Lemma silent_warned h : Forall (event_call silent) h → warned h.
Proof.
  intros Hh h1 h2 secure response ok ->. apply Forall_app in Hh as [_ Hh].
  by apply Forall_cons in Hh as [? _].
Qed.

Lemma warned_app h t :
  Forall (event_call silent) h → Called (Print WARNING) true ∈ h → warned (h ++ t).
Proof.
  intros Hh Hw h1 h2 secure response ok E. apply app_eq_inv in E as [(k & -> & Ek)|(k & -> & Ek)].
  - destruct k as [|x k].
    + by rewrite app_nil_r in Hw.
    + injection Ek as <- _. apply Forall_app in Hh as [_ Hh]. by apply Forall_cons in Hh as [? _].
  - apply elem_of_app. by left.
Qed.

(** A part of the start. *)
Lemma silent_bind {E A A'} (m : io E A) (f : A → io E A') h :
  calls_only silent m → Forall (event_call silent) h →
  (∀ a h', Forall (event_call silent) h' → safe warned (λ _, warned) (f a) h') →
  safe warned (λ _, warned) (m ≫= f) h.
Proof.
  intros Hm Hh Hf. apply safe_bind. eapply safe_mono; [..|by apply calls_only_events].
  - apply silent_warned.
  - intros [a|e] h' _ Hh'; [by apply Hf|by apply silent_warned].
Qed.

Lemma build_silent : calls_only silent (build_transport_security home config).
Proof. by apply build_calls. Qed.

Lemma run_daemon_warns started announced its :
  insecure_no_tls config = true →
  safe warned (λ _, warned)
    (run_daemon home xdg default_mode own_pid config started announced its) [].
Proof.
  intros Hi. unfold run_daemon. split; [by apply silent_warned|]. intros o h1 ->.
  assert (Forall (event_call silent)
    ([] ++ [WasRead (expand_home_path home (public_key_path config)) o])) as H1
    by by apply Forall_singleton.
  do 2 (apply silent_bind; [done|done|]; clear H1; intros ? ? H1).
  apply safe_bind, safe_map_err.
  eapply safe_mono; [..|exact (safe_and _ _ _ _ _ _
    (calls_only_events _ _ _ build_silent H1) (build_kind home config _))];
    [by intros ? [?%silent_warned _]|].
  intros [security|e] h2 _ [H2 Hs]; cbn [map_err]; [|by apply silent_warned].
  cbn in Hs. rewrite Hi in Hs.
  apply silent_bind; [unfold bind_sockets; calls|done|intros _ h3 H3].
  do 2 (apply silent_bind; [done|done|]; clear H3; intros ? ? H3).
  apply silent_bind; [|done|intros dir h4 H4].
  { unfold ensure_control_runtime_dir_for_sid, ensure_control_runtime_root, ensure_private_dir. calls. }
  apply silent_bind; [|done|intros _ h5 H5].
  { unfold write_control_files, remove_if_present, write_control_file, set_current_sid,
      ensure_control_runtime_root, ensure_private_dir, write_control_file. calls. }
  apply silent_bind; [unfold running_message; calls|done|intros _ h6 H6].
  unfold warn_if_insecure. rewrite Hs.
  apply safe_bind, safe_attempt; [by apply silent_warned| |]; intros h7 ->;
    (assert (∀ ok, Forall (event_call silent) (h6 ++ [Called (Print WARNING) ok])) as H7
      by (intros ok; apply Forall_app_2; [done|by apply Forall_singleton])).
  2: { split; apply silent_warned, H7. }
  split; [apply silent_warned, H7|].
  assert (∀ t, warned ((h6 ++ [Called (Print WARNING) true]) ++ t)) as Hw.
  { intros t. apply warned_app; [apply H7|]. apply elem_of_app. right. by left. }
  eapply safe_mono; [..|apply (calls_only_history (λ _, True)), calls_only_any].
  - intros h (t & -> & _). apply Hw.
  - intros r h (t & -> & _) _. apply Hw.
Qed.
End answers.

(** ** Properties *)

(** C5: the daemon's state is well formed.  Whatever arrives and whatever the
    system calls answer, as long as the clock is 64 bits wide: after any number
    of rounds the discovery engine of the loop is one that the operations of
    [DiscoveryEngine] reach from a new one with the configured group and the
    windows of 60 and 120 seconds, with a table of well-formed records; the
    keys are in normal form and none is the daemon's own; the time of the next
    synchronisation and those of the seen nonces fit 64 bits. *)
Theorem daemon_well_formed {C : Crypto} {B : Build} {H : HashOrder} {HO : HashOrderOk H} {R : Rustls}
    (home xdg : option str) (default_mode own_pid : N) (config : AppConfig) (started : N)
    (announced : N * N) (its : list (iteration R)) (st : daemon) (h : list event) :
  started ≤ U64_MAX → Forall round_ok its →
  reaches (run_daemon home xdg default_mode own_pid config started announced its) []
    (Ret (Ok (Some st))) h →
  (reachable (sid config) (sid_token config) 60 120 (dm_discovery st)
   ∧ map_Forall record_ok (de_peers (dm_discovery st))
   ∧ map_Forall (λ _ seen_at, seen_at ≤ U64_MAX) (v_seen_nonces (de_verifier (dm_discovery st))))
  ∧ dm_managed_keys st !! Config.participant_id config = None
  ∧ map_Forall (λ _, key_ok) (dm_managed_keys st)
  ∧ dm_next_sync_at st ≤ U64_MAX.
Proof.
  intros Hs Hits Hr.
  destruct (yields_reaches _ _ _ _ _ (run_daemon_ok home xdg default_mode own_pid config started
    announced its Hs Hits) Hr st eq_refl) as ([Hd Hn] & [Ho Hm] & Ht).
  split_and!; try done. by apply reachable_engine in Hd as (_ & _ & _ & _ & _ & _ & ?).
Qed.

(** C6: no answer in the clear without a warning.  In every run of the daemon,
    whatever the calls answer, every answer on a connection goes through a TLS
    session unless TLS is switched off in the configuration, and then none does;
    certificates are only opened with TLS; the warning is only printed without
    it, and without it it has been printed before each answer. *)
Theorem daemon_answers_in_session {C : Crypto} {B : Build} {H : HashOrder} {R : Rustls}
    (home xdg : option str) (default_mode own_pid : N) (config : AppConfig) (started : N)
    (announced : N * N) (its : list (iteration R)) m' (h : list event) :
  reaches (run_daemon home xdg default_mode own_pid config started announced its) [] m' h →
  (∀ secure response ok, Called (Respond secure response) ok ∈ h →
     secure = negb (insecure_no_tls config))
  ∧ (∀ p ok, Called (OpenFile p) ok ∈ h → insecure_no_tls config = false)
  ∧ (∀ ok, Called (Print WARNING) ok ∈ h → insecure_no_tls config = true)
  ∧ (insecure_no_tls config = true → ∀ h1 h2 secure response ok,
       h = h1 ++ Called (Respond secure response) ok :: h2 → Called (Print WARNING) true ∈ h1).
Proof.
  intros Hr. destruct (safe_reaches _ _ _ _ _ _ (run_daemon_discreet home xdg default_mode own_pid
    config started announced its [] (Forall_nil_2 _)) Hr) as [Hh _].
  rewrite Forall_forall in Hh. split_and!.
  - intros secure response ok Hin. exact (Hh _ Hin).
  - intros p ok Hin. exact (Hh _ Hin).
  - intros ok Hin. exact (Hh _ Hin eq_refl).
  - intros Hi. exact (proj1 (safe_reaches _ _ _ _ _ _ (run_daemon_warns home xdg default_mode own_pid
      config started announced its Hi) Hr)).
Qed.

(** ** Witnesses *)

(** A dry run of the sample daemon that answers one request and then sleeps. *)
Definition dry_config : AppConfig :=
  {| sid := lit "group-a"; sid_token := lit "secret-token";
     Config.participant_id := lit "node-2"; http_listen_addr := lit "0.0.0.0:9922";
     udp_announce_addr := lit "0.0.0.0:9923"; bootstrap_peers := [lit "node-1@10.0.0.1:8080"];
     sync_interval_secs := 30; public_key_path := lit "/k.pub";
     authorized_keys_path := lit "/a"; tls_cert_path := None; tls_key_path := None;
     tls_ca_path := None; tls_server_name := None; insecure_no_tls := true; dry_run := true |}.

Definition dry_daemon : io (abort Envelope.RuntimeError) (option daemon) :=
  @run_daemon toy_crypto true map_order toy_rustls None (Some (lit "/run")) 420 4711 dry_config 1000
    (1000, 5) [sample_round sample_stream 1000].

Definition dry_answers : list answer :=
  [Text (Some (lit "ssh-rsa AAAAB3NzaC1yc2E"))] ++ replicate 27 (Done true) ++ [Done false; Done true].

Lemma daemon_well_formed_witness :
  ∃ st, (replay dry_daemon dry_answers []).1 = Ret (Ok (Some st))
  ∧ dm_managed_keys st !! lit "node-2" = None ∧ dm_next_sync_at st ≤ U64_MAX.
Proof.
  pose proof (replay_reaches dry_daemon dry_answers []) as Hr.
  assert (match (replay dry_daemon dry_answers []).1 with
          | Ret (Ok (Some st)) => dm_next_sync_at st =? 1030 | _ => false end = true) as Hst
    by (by vm_compute).
  revert Hr Hst. generalize (replay dry_daemon dry_answers []).
  intros [[[[st|]|]| | | |] h] Hr Hst; try done. exists st. split; [done|].
  destruct (@daemon_well_formed toy_crypto true map_order map_order_ok toy_rustls None (Some (lit "/run"))
    420 4711 dry_config 1000 (1000, 5) [sample_round sample_stream 1000] st h ltac:(done)
    ltac:(apply Forall_singleton; split; [done|by apply Forall_singleton; intros ?? [= _ <-]]) Hr)
    as (_ & Ho & _ & Ht).
  split; [exact Ho|exact Ht].
Defined.

Lemma daemon_answers_in_session_witness :
  existsb (λ e, match e with Called (Respond false _) true => true | _ => false end)
    (replay dry_daemon dry_answers []).2 = true
  ∧ ∀ secure response ok, Called (Respond secure response) ok ∈ (replay dry_daemon dry_answers []).2 →
      secure = false.
Proof.
  split; [by vm_compute|].
  exact (proj1 (@daemon_answers_in_session toy_crypto true map_order toy_rustls None (Some (lit "/run"))
    420 4711 dry_config 1000 (1000, 5) [sample_round sample_stream 1000] _ _
    (replay_reaches dry_daemon dry_answers []))).
Defined.
