(* ===== verification/Cli.v ===== *)
(** * The command line (src/src/main.rs)

    [main] as a program of system calls: the four commands, the loading of the
    configuration, the choice of the group of a control command and the start
    in the background, with every line printed and every exit code.  Parsing
    the arguments is clap's; a command here is what it delivers.  The theorems:
    the line and the code each command ends with for the results of its parts,
    and when a daemon is started in the background. *)

From S2P Require Import Prelude Str Utf8 Envelope Auth Config Http Paths System Files Tls.
From S2P Require Import Control Server Runtime.

Local Open Scope N_scope.

(** ** The arguments *)

Record SyncConfigArgs := {
  arg_sid : option str;
  arg_sid_token : option str;
  arg_participant_id : option str;
  arg_http_listen_addr : option str;
  arg_udp_announce_addr : option str;
  arg_bootstrap_peers : option str;
  arg_sync_interval_secs : option N;
  arg_public_key_path : option str;
  arg_authorized_keys_path : option str;
  arg_tls_cert_path : option str;
  arg_tls_key_path : option str;
  arg_tls_ca_path : option str;
  arg_tls_server_name : option str;
  arg_insecure_no_tls : bool;
  arg_dry_run : bool;
  arg_config_path : option str
}.

Record StartArgs := {
  start_config : SyncConfigArgs;
  foreground : bool
}.

Record SyncArgs := { sync_config : SyncConfigArgs }.

Record ControlArgs := { control_sid : option str }.

Inductive Command :=
| Start (args : StartArgs)
| Stop (args : ControlArgs)
| Status (args : ControlArgs)
| Sync (args : SyncArgs).

Definition config_input_from_args (args : SyncConfigArgs) : ConfigInput :=
  {| in_sid := arg_sid args;
     in_sid_token := arg_sid_token args;
     in_participant_id := arg_participant_id args;
     in_http_listen_addr := arg_http_listen_addr args;
     in_udp_announce_addr := arg_udp_announce_addr args;
     in_bootstrap_peers := arg_bootstrap_peers args;
     in_sync_interval_secs := arg_sync_interval_secs args;
     in_public_key_path := arg_public_key_path args;
     in_authorized_keys_path := arg_authorized_keys_path args;
     in_tls_cert_path := arg_tls_cert_path args;
     in_tls_key_path := arg_tls_key_path args;
     in_tls_ca_path := arg_tls_ca_path args;
     in_tls_server_name := arg_tls_server_name args;
     in_insecure_no_tls := arg_insecure_no_tls args;
     in_dry_run := arg_dry_run args;
     in_config_path := arg_config_path args |}.

(** ** Messages *)

(** [Display for RuntimeError]. *)
Definition RuntimeError_display (e : RuntimeError) : str :=
  match e with
  | ReadLocalPublicKey path => lit "Failed to read local public key from " ++ path
  | BindHttp addr => lit "Failed to bind HTTP listener at " ++ addr
  | BindUdp addr => lit "Failed to bind UDP socket at " ++ addr
  | ParseListenAddress addr => lit "Invalid listen address: " ++ addr
  | BuildAnnouncement => lit "Failed to build startup announcement"
  | ParseEnvelope => lit "Failed to parse signed envelope"
  | HttpRequestFailed => lit "Failed to perform HTTP key request"
  | VerifyOrParseResponse => lit "Failed to verify or parse response"
  | WriteAuthorizedKeys path => lit "Failed to write authorized_keys at " ++ path
  | ControlFile path => lit "Failed to access control file at " ++ path
  | RuntimeDirectory path => lit "Failed to prepare runtime directory at " ++ path
  | MissingHomeDir => lit "Cannot resolve runtime directory: set XDG_RUNTIME_DIR or HOME"
  | KillProcess pid => lit "Failed to terminate process with pid " ++ to_string pid
  | MissingTlsConfig name => lit "Missing TLS configuration value: " ++ name
  | InvalidTlsConfig message => lit "Invalid TLS configuration: " ++ message
  end.

(** ** Ending

    A program ends with the exit code as its error, or without one: then the
    code is 0, or the daemon in the foreground is still running. *)

Definition PANIC_CODE : N := 101.

(** [eprintln!(..); exit(code)]; [eprintln!] panics when it cannot write. *)
Definition exit_with {A} (line : str) (code : N) : io N A :=
  Do (Eprint line) (λ ok : bool, Ret (Err (if ok then code else PANIC_CODE))).

(** [println!(..)], the last statement. *)
Definition say (line : str) : io N (option daemon) :=
  _ ← attempt (Print line) PANIC_CODE;
  Ret (Ok None).

Definition non_blank (value : option str) : option str :=
  value ← value;
  let trimmed := trim value in
  if is_empty trimmed then None else Some trimmed.

Section main.
Context {C : Crypto} {B : Build} {H : HashOrder} {R : Rustls}.
(** The environment variables and the messages of the errors of calls. *)
Context (env_var : str → option str) (os_error : syscall → str) (default_mode own_pid : N).
(** What a synchronisation and a daemon in the foreground meet. *)
Context (Net : Network R) (clock : PeerEndpoint → N * N)
  (started : N) (announced : N * N) (its : list (iteration R)).

#[local] Abbreviation home := (env_var (lit "HOME")) (only parsing).
#[local] Abbreviation xdg := (env_var (lit "XDG_RUNTIME_DIR")) (only parsing).

(** [load_config], with the configuration file read when there is one. *)
Definition load_app_config (input : ConfigInput) : io ConfigError (option AppConfig) :=
  match in_config_path input with
  | None => Ret (load_config env_var (λ _, None) input RequireSyncConfig)
  | Some path => ReadToString path (λ o,
      Ret (load_config env_var (λ _, encode <$> o) input RequireSyncConfig))
  end.

Definition resolve_control_sid (explicit_sid : option str) : io str str :=
  match non_blank explicit_sid with
  | Some sid => Ret (Ok sid)
  | None =>
      match non_blank (env_var (lit "SSH_KEY_SYNC_SID")) with
      | Some sid => Ret (Ok sid)
      | None =>
          io_match (resolve_current_sid xdg home) (λ r, Ret
            match r with
            | Ok (Some sid) => Ok sid
            | Ok None => Err (lit "Missing SID: use --sid or start daemon first")
            | Err error => Err (RuntimeError_display error)
            end)
      end
  end.

Definition spawn_background_start (sid : str) : io str unit :=
  _ ← attempt CurrentExe (os_error CurrentExe);
  log_file ← io_map_err RuntimeError_display (open_daemon_log_file xdg home sid);
  _ ← attempt (CloneHandle log_file) (os_error (CloneHandle log_file));
  attempt (Spawn log_file) (os_error (Spawn log_file)).

(** The branch of [Command::Start] without --foreground. *)
Definition start_background (config : AppConfig) : io N (option daemon) :=
  io_match (status_daemon xdg home (sid config)) (λ status,
    match status with
    | Ok (Running pid) =>
        say (lit "Daemon is already running for SID: " ++ sid config ++ lit " (pid: "
          ++ to_string pid ++ lit ")")
    | Err error => exit_with (RuntimeError_display error) 1
    | Ok _ =>
        io_match (spawn_background_start (sid config)) (λ spawned,
          match spawned with
          | Ok _ =>
              let log_path := match daemon_log_file_path xdg home (sid config) with
                              | Ok path => path | Err _ => lit "<unavailable>" end in
              say (lit "Daemon started in background for SID: " ++ sid config ++ lit " (log: "
                ++ log_path ++ lit ")")
          | Err error => exit_with (lit "Failed to start daemon in background: " ++ error) 1
          end)
    end).

(** [if let Err(error) = program() { eprintln!("{error}"); exit(1) }]. *)
Definition or_exit {A} (m : io (abort RuntimeError) A) (k : A → option daemon) : io N (option daemon) :=
  io_match m (λ r,
    match r with
    | Ok a => Ret (Ok (k a))
    | Err (Error error) => exit_with (RuntimeError_display error) 1
    | Err Panicked => Ret (Err PANIC_CODE)
    end).

Definition with_config (args : SyncConfigArgs) (missing : str)
    (k : AppConfig → io N (option daemon)) : io N (option daemon) :=
  io_match (load_app_config (config_input_from_args args)) (λ config,
    match config with
    | Ok (Some config) => k config
    | Ok None => exit_with missing 2
    | Err error => exit_with (ConfigError_display error) 2
    end).

Definition with_sid (args : ControlArgs) (k : str → io N (option daemon)) : io N (option daemon) :=
  io_match (resolve_control_sid (control_sid args)) (λ sid,
    match sid with
    | Ok sid => k sid
    | Err error => exit_with error 2
    end).

Definition main (command : Command) : io N (option daemon) :=
  match command with
  | Stop args =>
      with_sid args (λ sid,
        io_match (stop_daemon xdg home sid) (λ stopped,
          match stopped with
          | Ok true => say (lit "Stop requested for SID: " ++ sid)
          | Ok false => say (lit "Daemon is not running for SID: " ++ sid)
          | Err error => exit_with (RuntimeError_display error) 1
          end))
  | Status args =>
      with_sid args (λ sid,
        io_match (status_daemon xdg home sid) (λ status,
          match status with
          | Ok (Running pid) =>
              say (lit "Daemon is running for SID: " ++ sid ++ lit " (pid: " ++ to_string pid ++ lit ")")
          | Ok Stopped => say (lit "Daemon is stopped for SID: " ++ sid)
          | Ok (StalePidFile pid) =>
              say (lit "Daemon is stopped for SID: " ++ sid ++ lit " (stale pid file: "
                ++ to_string pid ++ lit ")")
          | Err error => exit_with (RuntimeError_display error) 1
          end))
  | Start args =>
      with_config (start_config args) (lit "Missing required configuration for start command")
        (λ config,
          if negb (foreground args)
             && bool_decide (env_var (lit "SSH_KEY_SYNC_INTERNAL_FOREGROUND") = None)
          then start_background config
          else or_exit (run_daemon home xdg default_mode own_pid config started announced its) id)
  | Sync args =>
      with_config (sync_config args) (lit "Missing required configuration for sync command")
        (λ config, or_exit (run_single_sync home default_mode Net clock config) (λ _, None))
  end.
End main.

(** ** Lemmas *)

Section lemmas.
Context {C : Crypto} {B : Build} {H : HashOrder} {R : Rustls}.
Context (env_var : str → option str) (os_error : syscall → str) (default_mode own_pid : N).
Context (Net : Network R) (clock : PeerEndpoint → N * N)
  (started : N) (announced : N * N) (its : list (iteration R)).

#[local] Abbreviation home := (env_var (lit "HOME")) (only parsing).
#[local] Abbreviation xdg := (env_var (lit "XDG_RUNTIME_DIR")) (only parsing).
Let run_main := main env_var os_error default_mode own_pid Net clock started announced its.

(** Calls that change nothing. *)
Definition harmless (c : syscall) : Prop :=
  match c with Exists _ | IsDir _ | Eprint _ => True | _ => False end.

(** The daemon stays in the foreground. *)
Definition in_foreground (command : Command) : bool :=
  match command with
  | Start args =>
      foreground args || negb (bool_decide (env_var (lit "SSH_KEY_SYNC_INTERNAL_FOREGROUND") = None))
  | _ => false
  end.

Lemma current_harmless : calls_only harmless (resolve_current_sid xdg home).
Proof.
  unfold resolve_current_sid, discover_sid_from_pid_files.
  assert (∀ root found entries, calls_only harmless (discover_entries root found entries)) as Hd.
  { intros root found entries. revert found.
    induction entries as [|[name|] entries IH]; intros found; [done| |done]. cbn [discover_entries].
    split; [done|]. intros []; [|apply IH]. split; [done|]. intros []; [|apply IH].
    destruct found; [done|apply IH]. }
  assert (calls_only harmless (discover_sid_from_pid_files xdg home)) as Hs.
  { apply calls_only_bind; [done|]. intros root. split; [done|]. intros []; [|done].
    intros entries. apply calls_only_bind; [done|]. intros l. apply Hd. }
  apply calls_only_bind; [done|]. intros marker. split; [done|]. intros []; [|done].
  intros o. apply calls_only_bind; [done|]. intros text. by destruct (negb _).
Qed.

(** The last line of a command and how it ends: printing may fail. *)
Inductive verdict :=
| Report (line : str)
| Complaint (line : str) (code : N).

Definition ends (h0 : list event) (v : verdict) (r : result N (option daemon)) (h : list event) : Prop :=
  match v with
  | Report line => ∃ ok, h = h0 ++ [Called (Print line) ok] ∧ r = if ok then Ok None else Err PANIC_CODE
  | Complaint line code =>
      ∃ ok, h = h0 ++ [Called (Eprint line) ok] ∧ r = Err (if ok then code else PANIC_CODE)
  end.

Lemma say_ends line h0 r h : reaches (say line) h0 (Ret r) h → ends h0 (Report line) r h.
Proof.
  intros Hr. refine (proj2 (safe_reaches (λ _, True) (ends h0 (Report line)) _ _ _ _ _ Hr) _ eq_refl).
  apply safe_bind, safe_attempt; [done| |]; intros h1 ->; (split; [done|]).
  - split; [done|]. by exists true.
  - by exists false.
Qed.

Lemma exit_ends line code h0 r h : reaches (exit_with line code) h0 (Ret r) h → ends h0 (Complaint line code) r h.
Proof.
  intros Hr. refine (proj2 (safe_reaches (λ _, True) (ends h0 (Complaint line code)) _ _ _ _ _ Hr) _ eq_refl).
  split; [done|]. intros ok h1 ->. split; [done|]. by exists ok.
Qed.

(** The group of a control command, or what is said when there is none. *)
Definition group_found (explicit : option str) (g : result str str) (h : list event) : Prop :=
  match non_blank explicit, non_blank (env_var (lit "SSH_KEY_SYNC_SID")) with
  | Some sid, _ | None, Some sid => g = Ok sid ∧ h = []
  | None, None =>
      ∃ o, reaches (resolve_current_sid xdg home) [] (Ret o) h
        ∧ g = match o with
              | Ok (Some sid) => Ok sid
              | Ok None => Err (lit "Missing SID: use --sid or start daemon first")
              | Err e => Err (RuntimeError_display e)
              end
  end.

(** The one event of loading the configuration, with the text that was read. *)
Definition config_read (input : ConfigInput) (text : option str) (h : list event) : Prop :=
  match in_config_path input with
  | Some path => h = [WasRead path text]
  | None => h = [] ∧ text = None
  end.

(** A command with a group, and one with a configuration. *)
Definition on_group (explicit : option str) (r : result N (option daemon)) (h : list event)
    (k : str → list event → Prop) : Prop :=
  ∃ g hg, group_found explicit g hg ∧
    match g with Ok sid => k sid hg | Err line => ends hg (Complaint line 2) r h end.

Definition on_config (args : SyncConfigArgs) (missing : str) (r : result N (option daemon))
    (h : list event) (k : AppConfig → list event → Prop) : Prop :=
  ∃ text hc, config_read (config_input_from_args args) text hc ∧
    match load_config env_var (λ _, encode <$> text) (config_input_from_args args) RequireSyncConfig with
    | Ok (Some config) => k config hc
    | Ok None => ends hc (Complaint missing 2) r h
    | Err e => ends hc (Complaint (ConfigError_display e) 2) r h
    end.

(** What a command has done when it has ended: the runs of its parts, in their
    order, and the line and the code for their results. *)
Definition outcome (command : Command) (r : result N (option daemon)) (h : list event) : Prop :=
  match command with
  | Stop args => on_group (control_sid args) r h (λ sid hg,
      ∃ x hx, reaches (stop_daemon xdg home sid) hg (Ret x) hx
      ∧ ends hx
          match x with
          | Ok true => Report (lit "Stop requested for SID: " ++ sid)
          | Ok false => Report (lit "Daemon is not running for SID: " ++ sid)
          | Err e => Complaint (RuntimeError_display e) 1
          end r h)
  | Status args => on_group (control_sid args) r h (λ sid hg,
      ∃ x hx, reaches (status_daemon xdg home sid) hg (Ret x) hx
      ∧ ends hx
          match x with
          | Ok (Running pid) =>
              Report (lit "Daemon is running for SID: " ++ sid ++ lit " (pid: " ++ to_string pid ++ lit ")")
          | Ok Stopped => Report (lit "Daemon is stopped for SID: " ++ sid)
          | Ok (StalePidFile pid) =>
              Report (lit "Daemon is stopped for SID: " ++ sid ++ lit " (stale pid file: "
                ++ to_string pid ++ lit ")")
          | Err e => Complaint (RuntimeError_display e) 1
          end r h)
  | Start args =>
      on_config (start_config args) (lit "Missing required configuration for start command") r h
        (λ config hc,
          if in_foreground command then
            ∃ x hx, reaches (run_daemon home xdg default_mode own_pid config started announced its)
                hc (Ret x) hx
            ∧ match x with
              | Ok o => r = Ok o ∧ h = hx
              | Err (Error e) => ends hx (Complaint (RuntimeError_display e) 1) r h
              | Err Panicked => r = Err PANIC_CODE ∧ h = hx
              end
          else
            ∃ x hx, reaches (status_daemon xdg home (sid config)) hc (Ret x) hx
            ∧ match x with
              | Ok (Running pid) =>
                  ends hx (Report (lit "Daemon is already running for SID: " ++ sid config
                    ++ lit " (pid: " ++ to_string pid ++ lit ")")) r h
              | Err e => ends hx (Complaint (RuntimeError_display e) 1) r h
              | Ok _ =>
                  ∃ y hy, reaches (spawn_background_start env_var os_error (sid config)) hx (Ret y) hy
                  ∧ match y with
                    | Ok _ => ∃ log, ends hy (Report (lit "Daemon started in background for SID: "
                        ++ sid config ++ lit " (log: " ++ log ++ lit ")")) r h
                        ∧ ∀ path, log_file_path xdg home (sid config) = Ok path → log = path
                    | Err line =>
                        ends hy (Complaint (lit "Failed to start daemon in background: " ++ line) 1) r h
                    end
              end)
  | Sync args =>
      on_config (sync_config args) (lit "Missing required configuration for sync command") r h
        (λ config hc,
          ∃ x hx, reaches (run_single_sync home default_mode Net clock config) hc (Ret x) hx
          ∧ match x with
            | Ok _ => r = Ok None ∧ h = hx ∧ ∃ n, last h = Some (Called (Print
                (lit "Sync completed: " ++ to_string n ++ lit " remote key(s)")) true)
            | Err (Error e) => ends hx (Complaint (RuntimeError_display e) 1) r h
            | Err Panicked => r = Err PANIC_CODE ∧ h = hx
            end)
  end.

Lemma resolve_found explicit g h :
  reaches (resolve_control_sid env_var explicit) [] (Ret g) h → group_found explicit g h.
Proof.
  unfold resolve_control_sid, group_found. destruct (non_blank explicit) as [sid|].
  { by intros [[= ->] ->]%reaches_ret. }
  destruct (non_blank _) as [sid|]; [by intros [[= ->] ->]%reaches_ret|].
  intros (o & ho & Ho & [[= ->] ->]%reaches_ret)%reaches_match. by exists o.
Qed.

Lemma load_read input c h :
  reaches (load_app_config env_var input) [] (Ret c) h →
  ∃ text, config_read input text h
    ∧ c = load_config env_var (λ _, encode <$> text) input RequireSyncConfig.
Proof.
  unfold load_app_config, config_read. destruct (in_config_path input) as [path|].
  - intros Hr. refine (proj2 (safe_reaches (λ _, True) (λ c h, ∃ text, h = [WasRead path text]
      ∧ c = load_config env_var (λ _, encode <$> text) input RequireSyncConfig) _ _ _ _ _ Hr) _ eq_refl).
    split; [done|]. intros text h1 ->. split; [done|]. by exists text.
  - intros [[= ->] ->]%reaches_ret. by exists None.
Qed.

Lemma with_sid_outcome args k r h K :
  reaches (with_sid env_var args k) [] (Ret r) h →
  (∀ sid hg, reaches (k sid) hg (Ret r) h → K sid hg) →
  on_group (control_sid args) r h K.
Proof.
  intros (g & hg & Hg%resolve_found & Hr)%reaches_match HK. exists g, hg. split; [done|].
  destruct g; [by apply HK|by apply exit_ends].
Qed.

Lemma with_config_outcome args missing k r h K :
  reaches (with_config env_var args missing k) [] (Ret r) h →
  (∀ config hc, reaches (k config) hc (Ret r) h → K config hc) →
  on_config args missing r h K.
Proof.
  intros (c & hc & (text & Ht & ->)%load_read & Hr)%reaches_match HK. exists text, hc. split; [done|].
  destruct (load_config _ _ _ _) as [[config|]|e]; [by apply HK|by apply exit_ends..].
Qed.

(** The last thing a synchronisation does is to say so. *)
Lemma sync_said config (h : list event) :
  safe (λ _, True) (λ r h', ∀ o, r = Ok o → ∃ n, last h' = Some (Called (Print
      (lit "Sync completed: " ++ to_string n ++ lit " remote key(s)")) true))
    (run_single_sync home default_mode Net clock config) h.
Proof.
  unfold run_single_sync. split; [done|]. intros key_text h1 _.
  do 4 (apply safe_then; [done|intros ? ?]).
  apply safe_bind, safe_attempt; [done| |done]. intros h3 ->. split; [done|]. split; [done|].
  intros o _. eexists. apply last_snoc.
Qed.

Lemma main_outcome command r h : reaches (run_main command) [] (Ret r) h → outcome command r h.
Proof.
  destruct command as [args|args|args|args]; cbn [run_main main outcome]; intros Hr.
  - eapply with_config_outcome; [exact Hr|]. clear Hr. intros config hc Hr. cbn beta in *.
    unfold in_foreground. destruct (foreground args), (bool_decide _); cbn [negb andb orb] in *.
    3: { apply reaches_match in Hr as (x & hx & Hx & Hr). exists x, hx. split; [done|].
      destruct x as [[pid| |pid]|e]; [by apply say_ends| | |by apply exit_ends];
        apply reaches_match in Hr as (y & hy & Hy & Hr); exists y, hy; (split; [done|]);
        (destruct y; [|by apply exit_ends]); eexists; (split; [by apply say_ends|]);
        unfold daemon_log_file_path; by intros path ->. }
    all: apply reaches_match in Hr as (x & hx & Hx & Hr); exists x, hx; (split; [done|]).
    all: destruct x as [o|[e|]]; [by apply reaches_ret in Hr as [[= ->] ->]|by apply exit_ends|].
    all: by apply reaches_ret in Hr as [[= ->] ->].
  - eapply with_sid_outcome; [exact Hr|]. clear Hr. intros sid hg (x & hx & Hx & Hr)%reaches_match.
    exists x, hx. split; [done|]. destruct x as [[]|e]; [by apply say_ends..|by apply exit_ends].
  - eapply with_sid_outcome; [exact Hr|]. clear Hr. intros sid hg (x & hx & Hx & Hr)%reaches_match.
    exists x, hx. split; [done|]. destruct x as [[]|e]; [by apply say_ends..|by apply exit_ends].
  - eapply with_config_outcome; [exact Hr|]. clear Hr. intros config hc (x & hx & Hx & Hr)%reaches_match.
    exists x, hx. split; [done|]. destruct x as [o|[e|]]; [|by apply exit_ends|].
    + apply reaches_ret in Hr as [[= ->] ->]. split_and!; [done..|].
      exact (proj2 (safe_reaches _ _ _ _ _ _ (sync_said config hc) Hx) _ eq_refl o eq_refl).
    + by apply reaches_ret in Hr as [[= ->] ->].
Qed.

(** The codes: 1, that of a panic, and 2 when the command has only looked. *)
Definition code_ok (h : list event) (r : result N (option daemon)) : Prop :=
  ∀ code, r = Err code → code = 1 ∨ code = PANIC_CODE ∨ code = 2 ∧ Forall (event_call harmless) h.

Lemma ends_code h0 v r h :
  ends h0 v r h → (∀ line code, v = Complaint line code → code = 1 ∨ code = 2 ∧ Forall (event_call harmless) h0) →
  code_ok h r.
Proof.
  intros He Hv code ->. destruct v as [line|line c].
  - destruct He as ([] & _ & [= ->]). by right; left.
  - destruct He as (ok & -> & [= ->]). destruct ok; [|by right; left].
    destruct (Hv line c eq_refl) as [?|[? ?]]; [by left|right; right]. split; [done|].
    apply Forall_app_2; [done|by apply Forall_singleton].
Qed.

Lemma on_group_code explicit r h K :
  on_group explicit r h K → (∀ sid hg, K sid hg → code_ok h r) → code_ok h r.
Proof.
  intros (g & hg & Hg & Hk) HK. destruct g as [sid|line]; [by eapply HK|].
  eapply ends_code; [exact Hk|]. intros l c [= <- <-]. right. split; [done|].
  unfold group_found in Hg. destruct (non_blank explicit); [by destruct Hg|].
  destruct (non_blank _); [by destruct Hg|]. destruct Hg as (o & Ho & _).
  exact (proj1 (safe_reaches _ _ _ _ _ _
    (calls_only_events _ _ _ current_harmless (Forall_nil_2 _)) Ho)).
Qed.

Lemma on_config_code args missing r h K :
  on_config args missing r h K → (∀ config hc, K config hc → code_ok h r) → code_ok h r.
Proof.
  intros (text & hc & Ht & Hk) HK.
  assert (Forall (event_call harmless) hc) as Hc.
  { unfold config_read in Ht. destruct (in_config_path _); [subst; by apply Forall_singleton|by destruct Ht as [-> _]]. }
  destruct (load_config _ _ _ _) as [[config|]|e]; [by eapply HK|..];
    (eapply ends_code; [exact Hk|]); intros l c [= <- <-]; by right.
Qed.

(** A part that ends with a report, or a complaint with code 1. *)
Definition reporting (v : verdict) : Prop := match v with Report _ => True | Complaint _ code => code = 1 end.

Lemma ends_reporting h0 v r h : ends h0 v r h → reporting v → code_ok h r.
Proof. intros He Hv. eapply ends_code; [exact He|]. intros line code ->. by left. Qed.

Lemma outcome_code command r h : outcome command r h → code_ok h r.
Proof.
  assert (code_ok h (Err PANIC_CODE)) as Hpanic by (intros code [= <-]; by right; left).
  destruct command as [args|args|args|args]; cbn [outcome]; intros Ho.
  - eapply on_config_code; [exact Ho|]. intros config hc Hk. cbn beta in Hk.
    destruct (in_foreground _); destruct Hk as (x & hx & _ & Hk).
    { destruct x as [o|[e|]]; [by destruct Hk as [-> _]|by eapply ends_reporting|by destruct Hk as [-> _]]. }
    destruct x as [[pid| |pid]|e]; [by eapply ends_reporting| | |by eapply ends_reporting];
      destruct Hk as (y & hy & _ & Hk); (destruct y; [destruct Hk as (log & Hk & _)|]); by eapply ends_reporting.
  - eapply on_group_code; [exact Ho|]. intros sid hg (x & hx & _ & Hk).
    eapply ends_reporting; [exact Hk|]. by destruct x as [[]|].
  - eapply on_group_code; [exact Ho|]. intros sid hg (x & hx & _ & Hk).
    eapply ends_reporting; [exact Hk|]. by destruct x as [[]|].
  - eapply on_config_code; [exact Ho|]. intros config hc (x & hx & _ & Hk).
    destruct x as [o|[e|]]; [by destruct Hk as [-> _]|by eapply ends_reporting|by destruct Hk as [-> _]].
Qed.

(** Different errors have different messages. *)
Lemma runtime_message_inj e e' : RuntimeError_display e = RuntimeError_display e' → e = e'.
Proof.
  destruct e, e'; cbn [RuntimeError_display]; intros E; try reflexivity;
    try (exfalso; apply (f_equal (take 16)) in E; vm_compute in E; discriminate E);
    apply app_inv_head in E; try apply to_string_inj in E; by subst.
Qed.

Lemma config_message_inj e e' : ConfigError_display e = ConfigError_display e' → e = e'.
Proof.
  destruct e, e'; cbn [ConfigError_display]; intros E; try reflexivity;
    try (exfalso; apply (f_equal (take 16)) in E; vm_compute in E; discriminate E).
  apply app_inv_head in E. by subst.
Qed.

(** *** The start in the background *)













End lemmas.

(** ** Properties *)

Section properties.
Context {C : Crypto} {B : Build} {H : HashOrder} {R : Rustls}.
Context (env_var : str → option str) (os_error : syscall → str) (default_mode own_pid : N).
Context (Net : Network R) (clock : PeerEndpoint → N * N)
  (started : N) (announced : N * N) (its : list (iteration R)).

(** C20: what a command prints at its end and its exit code.  Whatever the system
    answers, a command that has ended is composed of the runs of its parts
    ([outcome]): a group that is missing or cannot be determined, or a
    configuration that cannot be loaded, gives the message for it and code 2; an
    operation that failed gives the message of its error and code 1; otherwise
    the last line says what was done or found (the stop, the status with the
    pid, the start with the log file, the number of keys).  A line that cannot
    be printed is a panic, 101.  There are no other codes, code 2 means that
    the command has only looked at the control files, and different errors have
    different messages. *)
Theorem exit_codes (command : Command) (r : result N (option daemon)) (h : list event) :
  reaches (main env_var os_error default_mode own_pid Net clock started announced its command) []
    (Ret r) h →
  outcome env_var os_error default_mode own_pid Net clock started announced its command r h
  ∧ (∀ code, r = Err code → code = 1 ∨ code = PANIC_CODE ∨ code = 2 ∧ Forall (event_call harmless) h)
  ∧ (∀ e e', RuntimeError_display e = RuntimeError_display e' → e = e')
  ∧ (∀ e e', ConfigError_display e = ConfigError_display e' → e = e').
Proof.
  intros Ho%main_outcome. split_and!; [done| |apply runtime_message_inj|apply config_message_inj].
  by eapply outcome_code.
Qed.

End properties.

(** ** Witnesses *)

Definition sample_env (key : str) : option str :=
  if bool_decide (key = lit "HOME") then Some (lit "/home/u")
  else if bool_decide (key = lit "XDG_RUNTIME_DIR") then Some (lit "/run")
  else if bool_decide (key = lit "SSH_KEY_SYNC_SID_TOKEN") then Some (lit "secret")
  else None.

Definition sample_main : Command → io N (option daemon) :=
  @main toy_crypto true map_order toy_rustls sample_env (λ _, lit "failed") 420 4711
    (toy_network sample_network) (λ _, (1000, 1)) 1000 (1000, 5) [].

(** [stop] without a group, on a machine without control files. *)
Definition lost_stop : io N (option daemon) * list event :=
  replay (sample_main (Stop {| control_sid := Some (lit "  ") |})) [Done false; Done false; Done true] [].

Lemma exit_codes_witness :
  lost_stop.1 = Ret (Err 2)
  ∧ last lost_stop.2 = Some (Called (Eprint (lit "Missing SID: use --sid or start daemon first")) true)
  ∧ Forall (event_call harmless) lost_stop.2.
Proof.
  assert (lost_stop.1 = Ret (Err 2)) as E by (by vm_compute). split; [exact E|].
  split; [by vm_compute|].
  pose proof (replay_reaches (sample_main (Stop {| control_sid := Some (lit "  ") |}))
    [Done false; Done false; Done true] []) as Hr.
  fold lost_stop in Hr. rewrite E in Hr.
  destruct (@exit_codes toy_crypto true map_order toy_rustls sample_env (λ _, lit "failed") 420 4711
    (toy_network sample_network) (λ _, (1000, 1)) 1000 (1000, 5) [] _ (Err 2) _ Hr) as (_ & H & _).
  destruct (H 2 eq_refl) as [?|[?|[_ Hh]]]; [done|done|exact Hh].
Defined.




(** The group: an argument counts if it is not blank, then the variable. *)
Example explicit_sid : resolve_control_sid sample_env (Some (lit " group-b ")) = Ret (Ok (lit "group-b")).
Proof. by vm_compute. Qed.
