(* ===== verification/Tests.v ===== *)
(** * The tests of the repository (the [tests] modules under src/src)

    Every unit test of the code, written with the definitions of the model as
    the test is written with the functions of the code: a test is a computation
    that panics where an assertion or an [expect] fails.  The tests run with
    any cryptography and any build; they are evaluated with the toy one.  The
    directories of the tests that write files are given, and removing them at
    the end of a test is left out. *)

From S2P Require Import Prelude Str Utf8 Hex KeyValue SshKeys AuthorizedKeys Auth Envelope.
From S2P Require Import Transport Discovery Config Http Paths System Files Control Daemon.

Local Open Scope N_scope.

(** ** The language of tests *)

Definition test : Type := outcome unit.

(** [expect]. *)
Definition expect {E A} (r : result E A) : outcome A :=
  match r with Ok a => Val a | Err _ => Panic end.
Definition expect_some {A} (o : option A) : outcome A :=
  match o with Some a => Val a | None => Panic end.

Definition assert (b : bool) : test := if b then Val tt else Panic.
Definition assert_eq {A} `{EqDecision A} (a b : A) : test := assert (bool_decide (a = b)).
Definition assert_ne {A} `{EqDecision A} (a b : A) : test := assert (bool_decide (a ≠ b)).

(** [str::contains]. *)
Definition contains (text part : str) : bool := bool_decide (is_Some (find_subslice text part)).

Section tests.
Context {C : Crypto} {B : Build}.

(** ** auth.rs *)

Definition with_body (e : SignedEnvelope) (b : bytes) : SignedEnvelope :=
  {| env_sid := env_sid e; sender_id := sender_id e; timestamp_secs := timestamp_secs e;
     nonce := nonce e; context := context e; body := b; signature_hex := signature_hex e |}.
Definition with_signature (e : SignedEnvelope) (s : str) : SignedEnvelope :=
  {| env_sid := env_sid e; sender_id := sender_id e; timestamp_secs := timestamp_secs e;
     nonce := nonce e; context := context e; body := body e; signature_hex := s |}.

Definition signs_and_verifies_envelope : test :=
  let envelope := sign_envelope (lit "group-a") (lit "secret-token") (lit "node-1") 1781771000
    (lit "nonce-1") UdpAnnouncement
    ([123; 34] ++ lit "addr" ++ [34; 58; 34] ++ lit "10.0.0.2" ++ [34; 125]) in
  assert_eq (verify_envelope envelope (lit "secret-token") (lit "group-a")) (Ok tt).

Definition rejects_sid_mismatch : test :=
  let envelope := sign_envelope (lit "group-a") (lit "secret-token") (lit "node-1") 1781771000
    (lit "nonce-1") UdpAnnouncement (lit "payload") in
  assert_eq (verify_envelope envelope (lit "secret-token") (lit "group-b")) (Err SidMismatch).

Definition rejects_tampered_body : test :=
  let envelope := sign_envelope (lit "group-a") (lit "secret-token") (lit "node-1") 1781771000
    (lit "nonce-1") UdpAnnouncement (lit "payload") in
  let envelope := with_body envelope (lit "modified") in
  assert_eq (verify_envelope envelope (lit "secret-token") (lit "group-a")) (Err InvalidSignature).

Definition rejects_invalid_signature_encoding : test :=
  let envelope := sign_envelope (lit "group-a") (lit "secret-token") (lit "node-1") 1781771000
    (lit "nonce-1") UdpAnnouncement (lit "payload") in
  let envelope := with_signature envelope (lit "not-hex") in
  assert_eq (verify_envelope envelope (lit "secret-token") (lit "group-a"))
    (Err InvalidSignatureEncoding).

Definition canonical_signature_is_stable_for_same_payload : test :=
  let first := sign_envelope (lit "group-a") (lit "secret-token") (lit "node-1") 1781771000
    (lit "nonce-1") (HttpRequest (lit "POST") (lit "/v1/keys")) (lit "payload") in
  let second := sign_envelope (lit "group-a") (lit "secret-token") (lit "node-1") 1781771000
    (lit "nonce-1") (HttpRequest (lit "POST") (lit "/v1/keys")) (lit "payload") in
  assert_eq (signature_hex first) (signature_hex second).

Definition different_contexts_produce_different_signatures : test :=
  let request := sign_envelope (lit "group-a") (lit "secret-token") (lit "node-1") 1781771000
    (lit "nonce-1") (HttpRequest (lit "GET") (lit "/v1/keys")) (lit "payload") in
  let response := sign_envelope (lit "group-a") (lit "secret-token") (lit "node-1") 1781771000
    (lit "nonce-1") (HttpResponse 200 (lit "/v1/keys")) (lit "payload") in
  let announcement := sign_envelope (lit "group-a") (lit "secret-token") (lit "node-1") 1781771000
    (lit "nonce-1") UdpAnnouncement (lit "payload") in
  _ ← assert_ne (signature_hex request) (signature_hex response);
  _ ← assert_ne (signature_hex request) (signature_hex announcement);
  assert_ne (signature_hex response) (signature_hex announcement).

Definition verifier_rejects_outside_timestamp_window : test :=
  let verifier := EnvelopeVerifier_new (lit "secret-token") (lit "group-a") 30 120 in
  let envelope := sign_envelope (lit "group-a") (lit "secret-token") (lit "node-1") 1000
    (lit "nonce-1") UdpAnnouncement (lit "payload") in
  let '(_, result) := verify verifier envelope 2000 in
  assert_eq result (Err TimestampOutsideWindow).

Definition verifier_rejects_replayed_nonce_inside_ttl : test :=
  let verifier := EnvelopeVerifier_new (lit "secret-token") (lit "group-a") 30 120 in
  let envelope := sign_envelope (lit "group-a") (lit "secret-token") (lit "node-1") 1000
    (lit "nonce-1") UdpAnnouncement (lit "payload") in
  let '(verifier, first) := verify verifier envelope 1005 in
  let '(verifier, second) := verify verifier envelope 1010 in
  _ ← assert_eq first (Ok tt);
  assert_eq second (Err ReplayNonce).

Definition verifier_accepts_same_nonce_after_ttl_expiry : test :=
  let verifier := EnvelopeVerifier_new (lit "secret-token") (lit "group-a") 300 5 in
  let envelope := sign_envelope (lit "group-a") (lit "secret-token") (lit "node-1") 1000
    (lit "nonce-1") UdpAnnouncement (lit "payload") in
  let '(verifier, first) := verify verifier envelope 1002 in
  let '(verifier, second) := verify verifier envelope 1010 in
  _ ← assert_eq first (Ok tt);
  assert_eq second (Ok tt).

(** ** ssh_keys.rs *)

Definition parses_valid_public_key : test :=
  let key := lit "ssh-ed25519 AAAAC3NzaC1lZDI1NTE5AAAAIB1 node-a" in
  parsed ← expect (parse_public_key key);
  _ ← assert_eq (algorithm parsed) (lit "ssh-ed25519");
  _ ← assert_eq (key_data parsed) (lit "AAAAC3NzaC1lZDI1NTE5AAAAIB1");
  assert_eq (comment parsed) (Some (lit "node-a")).

Definition rejects_empty_input : test :=
  let parsed := parse_public_key (lit "   ") in
  assert_eq parsed (Err EmptyInput).

Definition rejects_invalid_format : test :=
  let parsed := parse_public_key (lit "ssh-ed25519") in
  assert_eq parsed (Err InvalidFormat).

Definition rejects_unsupported_algorithm : test :=
  let parsed := parse_public_key (lit "ssh-dss AAAAC3Nza comment") in
  assert_eq parsed (Err UnsupportedAlgorithm).

Definition normalizes_whitespace : test :=
  normalized ← expect (normalize_public_key (lit "  ssh-ed25519   AAAAC3Nza    node-a  "));
  assert_eq normalized (lit "ssh-ed25519 AAAAC3Nza node-a").

(** The file at [path] after the text was written to it. *)
Definition test_file (path text : str) : fs :=
  {| files := {[path := {| content := encode text; file_mode := 420 |}]}; dirs := ∅ |}.

Definition read_in (s : fs) (path : str) : option str :=
  f ← files s !! path; from_utf8 (content f).

Definition reads_and_normalizes_local_key_file (path : str) : test :=
  let s := test_file path (lit "  ssh-ed25519   AAAAC3Nza    node-a  " ++ [LF]) in
  normalized ← expect (read_local_public_key (read_in s) path);
  assert_eq normalized (lit "ssh-ed25519 AAAAC3Nza node-a").

Definition fails_when_local_key_file_is_missing (path : str) : test :=
  let loaded := read_local_public_key (read_in {| files := ∅; dirs := ∅ |}) path in
  assert_eq loaded (Err (SshKeys.ReadFailed path)).

(** ** authorized_keys.rs *)

Definition appends_new_managed_block_when_absent : test :=
  let input := lit "ssh-ed25519 AAAA user@host" in
  let managed := [lit "ssh-ed25519 BBBB node-b"; lit "ssh-ed25519 CCCC node-c"] in
  updated ← expect (upsert_managed_block input managed);
  _ ← assert (contains updated (lit "ssh-ed25519 AAAA user@host"));
  _ ← assert (contains updated (lit "# ssh-key-sync begin"));
  _ ← assert (contains updated (lit "ssh-ed25519 BBBB node-b"));
  _ ← assert (contains updated (lit "ssh-ed25519 CCCC node-c"));
  assert (contains updated (lit "# ssh-key-sync end")).

Definition replaces_existing_managed_block_only : test :=
  let input := join [LF] [lit "ssh-ed25519 AAAA user@host"; lit "# ssh-key-sync begin";
    lit "ssh-ed25519 OLD old"; lit "# ssh-key-sync end"; lit "ssh-ed25519 DDDD manual"] in
  let managed := [lit "ssh-ed25519 BBBB node-b"] in
  updated ← expect (upsert_managed_block input managed);
  _ ← assert (contains updated (lit "ssh-ed25519 AAAA user@host"));
  _ ← assert (contains updated (lit "ssh-ed25519 DDDD manual"));
  _ ← assert (contains updated (lit "ssh-ed25519 BBBB node-b"));
  assert (negb (contains updated (lit "ssh-ed25519 OLD old"))).

Definition rejects_invalid_managed_key : test :=
  let input := [] in
  let managed := [lit "invalid"] in
  let updated := upsert_managed_block input managed in
  assert_eq updated (Err AuthorizedKeys.InvalidPublicKey).

Definition rejects_missing_block_end : test :=
  let input := join [LF] [lit "ssh-ed25519 AAAA user@host"; lit "# ssh-key-sync begin";
    lit "ssh-ed25519 OLD old"] in
  let managed := [lit "ssh-ed25519 BBBB node-b"] in
  let updated := upsert_managed_block input managed in
  assert_eq updated (Err MissingManagedEnd).

(** A directory that exists, and nothing else. *)
Definition temp_test_dir (base : str) : fs := {| files := ∅; dirs := {[base := 493]} |}.

Definition applies_managed_block_to_new_file (base : str) : test :=
  let ssh_dir := path_join base (lit ".ssh") in
  let file := path_join ssh_dir (lit "authorized_keys") in
  let managed := [lit "ssh-ed25519 BBBB node-b"] in
  let '(applied, s) := System.run (apply_managed_block_to_file 420 file managed) (temp_test_dir base) in
  updated ← expect applied;
  disk ← expect_some (read_in s file);
  _ ← assert_eq updated disk;
  _ ← assert (contains disk (lit "# ssh-key-sync begin"));
  _ ← assert (contains disk (lit "ssh-ed25519 BBBB node-b"));
  assert (contains disk (lit "# ssh-key-sync end")).

Definition keeps_manual_lines_while_updating_managed_block_on_disk (base : str) : test :=
  let ssh_dir := path_join base (lit ".ssh") in
  let file := path_join ssh_dir (lit "authorized_keys") in
  let seed := join [LF] [lit "ssh-ed25519 AAAA user@host"; lit "# ssh-key-sync begin";
    lit "ssh-ed25519 OLD old"; lit "# ssh-key-sync end"; []] in
  let s := {| files := {[file := {| content := encode seed; file_mode := 420 |}]};
              dirs := {[base := 493; ssh_dir := 493]} |} in
  let managed := [lit "ssh-ed25519 BBBB node-b"] in
  let '(applied, s) := System.run (apply_managed_block_to_file 420 file managed) s in
  updated ← expect applied;
  _ ← assert (contains updated (lit "ssh-ed25519 AAAA user@host"));
  _ ← assert (contains updated (lit "ssh-ed25519 BBBB node-b"));
  assert (negb (contains updated (lit "ssh-ed25519 OLD old"))).

Definition fails_when_managed_key_is_invalid_before_write (base : str) : test :=
  let file := path_join (path_join base (lit ".ssh")) (lit "authorized_keys") in
  let managed := [lit "invalid"] in
  let '(result, s) := System.run (apply_managed_block_to_file 420 file managed) (temp_test_dir base) in
  _ ← assert_eq result (Err AuthorizedKeys.InvalidPublicKey);
  assert (bool_decide (¬ present s file)).

(** ** config.rs

    [load_config] runs without environment variables; a configuration file is
    the only file there is. *)

Definition no_variables (key : str) : option str := None.
Definition no_files (path : str) : option bytes := None.
Definition only_file (path text : str) (p : str) : option bytes :=
  if bool_decide (p = path) then Some (encode text) else None.

Definition input_with (sid sid_token : option str) (bootstrap_peers : option str)
    (sync_interval_secs : option N) (config_path : option str) : ConfigInput :=
  {| in_sid := sid; in_sid_token := sid_token; in_participant_id := None;
     in_http_listen_addr := None; in_udp_announce_addr := None; in_bootstrap_peers := bootstrap_peers;
     in_sync_interval_secs := sync_interval_secs; in_public_key_path := None;
     in_authorized_keys_path := None; in_tls_cert_path := None; in_tls_key_path := None;
     in_tls_ca_path := None; in_tls_server_name := None; in_insecure_no_tls := false;
     in_dry_run := false; in_config_path := config_path |}.

Definition base_input : ConfigInput :=
  input_with (Some (lit "group-a")) (Some (lit "secret-token")) None None None.

Definition requires_sid_when_mode_is_strict : test :=
  let input := input_with None (in_sid_token base_input) None None None in
  let config := load_config no_variables no_files input RequireSyncConfig in
  assert_eq config (Err MissingSid).

Definition requires_sid_token_when_mode_is_strict : test :=
  let input := input_with (in_sid base_input) None None None None in
  let config := load_config no_variables no_files input RequireSyncConfig in
  assert_eq config (Err MissingSidToken).

Definition rejects_empty_sid : test :=
  let input := input_with (Some (lit "   ")) (in_sid_token base_input) None None None in
  let config := load_config no_variables no_files input RequireSyncConfig in
  assert_eq config (Err InvalidSid).

Definition rejects_empty_sid_token : test :=
  let input := input_with (in_sid base_input) (Some (lit "  ")) None None None in
  let config := load_config no_variables no_files input RequireSyncConfig in
  assert_eq config (Err InvalidSidToken).

Definition accepts_values_from_args : test :=
  config ← expect (load_config no_variables no_files base_input RequireSyncConfig);
  config ← expect_some config;
  _ ← assert_eq (Config.sid config) (lit "group-a");
  _ ← assert_eq (Config.sid_token config) (lit "secret-token");
  assert_eq (Config.sync_interval_secs config) 30.

Definition allows_missing_config_in_optional_mode : test :=
  let input := input_with None None None None None in
  config ← expect (load_config no_variables no_files input AllowMissing);
  assert (bool_decide (config = None)).

Definition does_not_allow_partial_config_in_optional_mode : test :=
  let input := input_with (in_sid base_input) None None None None in
  let config := load_config no_variables no_files input AllowMissing in
  assert_eq config (Err MissingSidToken).

Definition rejects_zero_sync_interval : test :=
  let input := input_with (in_sid base_input) (in_sid_token base_input) None (Some 0) None in
  let config := load_config no_variables no_files input RequireSyncConfig in
  assert_eq config (Err InvalidSyncInterval).

(** The texts among the fields of the [Debug] output. *)
Definition debug_texts (value : debug_value) : list str :=
  match value with
  | DStr s => [s]
  | DList l => l
  | DOpt (Some s) => [s]
  | _ => []
  end.

Definition masks_sid_token_in_debug_output : test :=
  config ← expect (load_config no_variables no_files base_input RequireSyncConfig);
  config ← expect_some config;
  let debug := AppConfig_debug config in
  _ ← assert (existsb (λ field, bool_decide (field.1 = lit "sid_token")
                 && bool_decide (debug_texts field.2 = [lit "***"])) debug);
  assert (negb (existsb (λ field, existsb (λ text, contains text (lit "secret-token"))
                   (debug_texts field.2)) debug)).

Definition reads_values_from_config_file (config_path : str) : test :=
  let files := only_file config_path (join [LF]
    [lit "SID=file-group"; lit "SID_TOKEN=file-token"; lit "PARTICIPANT_ID=file-node";
     lit "HTTP_LISTEN_ADDR=127.0.0.1:1234"; lit "UDP_ANNOUNCE_ADDR=127.0.0.1:1235";
     lit "BOOTSTRAP_PEERS=node-a:1,node-b:2"; lit "SYNC_INTERVAL_SECS=45";
     lit "PUBLIC_KEY_PATH=/tmp/key.pub"; lit "AUTHORIZED_KEYS_PATH=/tmp/authorized_keys";
     lit "TLS_CERT_PATH=/tmp/tls.crt"; lit "TLS_KEY_PATH=/tmp/tls.key";
     lit "TLS_CA_PATH=/tmp/ca.crt"; lit "TLS_SERVER_NAME=node-a.local";
     lit "INSECURE_NO_TLS=false"; lit "DRY_RUN=true"; []]) in
  let input := input_with None None None None (Some config_path) in
  config ← expect (load_config no_variables files input RequireSyncConfig);
  config ← expect_some config;
  _ ← assert_eq (Config.sid config) (lit "file-group");
  _ ← assert_eq (Config.sid_token config) (lit "file-token");
  _ ← assert_eq (Config.participant_id config) (lit "file-node");
  _ ← assert_eq (http_listen_addr config) (lit "127.0.0.1:1234");
  _ ← assert_eq (udp_announce_addr config) (lit "127.0.0.1:1235");
  _ ← assert_eq (bootstrap_peers config) [lit "node-a:1"; lit "node-b:2"];
  _ ← assert_eq (Config.sync_interval_secs config) 45;
  _ ← assert_eq (public_key_path config) (lit "/tmp/key.pub");
  _ ← assert_eq (authorized_keys_path config) (lit "/tmp/authorized_keys");
  _ ← assert_eq (tls_cert_path config) (Some (lit "/tmp/tls.crt"));
  _ ← assert_eq (tls_key_path config) (Some (lit "/tmp/tls.key"));
  _ ← assert_eq (tls_ca_path config) (Some (lit "/tmp/ca.crt"));
  _ ← assert_eq (tls_server_name config) (Some (lit "node-a.local"));
  _ ← assert (negb (insecure_no_tls config));
  assert (dry_run config).

Definition cli_values_override_config_file (config_path : str) : test :=
  let files := only_file config_path (join [LF]
    [lit "SID=file-group"; lit "SID_TOKEN=file-token"; lit "SYNC_INTERVAL_SECS=90"; []]) in
  let input := input_with (in_sid base_input) (in_sid_token base_input) None (Some 10)
    (Some config_path) in
  config ← expect (load_config no_variables files input RequireSyncConfig);
  config ← expect_some config;
  _ ← assert_eq (Config.sid config) (lit "group-a");
  _ ← assert_eq (Config.sid_token config) (lit "secret-token");
  assert_eq (Config.sync_interval_secs config) 10.

Definition normalizes_and_deduplicates_bootstrap_peers : test :=
  let input := input_with (in_sid base_input) (in_sid_token base_input)
    (Some (lit " node-a:1, node-b:2, node-a:1 , node-c:3 ")) None None in
  config ← expect (load_config no_variables no_files input RequireSyncConfig);
  config ← expect_some config;
  assert_eq (bootstrap_peers config) [lit "node-a:1"; lit "node-b:2"; lit "node-c:3"].

Definition reads_values_from_env_sources : test :=
  let input := input_with None None None None None in
  let env_data : gmap str str := list_to_map
    [(lit "SSH_KEY_SYNC_SID", lit "env-group"); (lit "SSH_KEY_SYNC_SID_TOKEN", lit "env-token");
     (lit "SSH_KEY_SYNC_PARTICIPANT_ID", lit "env-node");
     (lit "SSH_KEY_SYNC_BOOTSTRAP_PEERS", lit "peer-a:1,peer-b:2");
     (lit "SSH_KEY_SYNC_SYNC_INTERVAL_SECS", lit "75");
     (lit "SSH_KEY_SYNC_TLS_CERT_PATH", lit "/env/tls.crt");
     (lit "SSH_KEY_SYNC_TLS_KEY_PATH", lit "/env/tls.key");
     (lit "SSH_KEY_SYNC_TLS_CA_PATH", lit "/env/ca.crt");
     (lit "SSH_KEY_SYNC_TLS_SERVER_NAME", lit "peer.env.local");
     (lit "SSH_KEY_SYNC_INSECURE_NO_TLS", lit "false"); (lit "SSH_KEY_SYNC_DRY_RUN", lit "true")] in
  config ← expect (load_config_with_sources no_files input RequireSyncConfig env_data);
  config ← expect_some config;
  _ ← assert_eq (Config.sid config) (lit "env-group");
  _ ← assert_eq (Config.sid_token config) (lit "env-token");
  _ ← assert_eq (Config.participant_id config) (lit "env-node");
  _ ← assert_eq (bootstrap_peers config) [lit "peer-a:1"; lit "peer-b:2"];
  _ ← assert_eq (Config.sync_interval_secs config) 75;
  _ ← assert_eq (tls_cert_path config) (Some (lit "/env/tls.crt"));
  _ ← assert_eq (tls_key_path config) (Some (lit "/env/tls.key"));
  _ ← assert_eq (tls_ca_path config) (Some (lit "/env/ca.crt"));
  _ ← assert_eq (tls_server_name config) (Some (lit "peer.env.local"));
  _ ← assert (negb (insecure_no_tls config));
  assert (dry_run config).

Definition cli_values_override_env_sources : test :=
  let input := base_input in
  let env_data : gmap str str := list_to_map
    [(lit "SSH_KEY_SYNC_SID", lit "env-group"); (lit "SSH_KEY_SYNC_SID_TOKEN", lit "env-token");
     (lit "SSH_KEY_SYNC_SYNC_INTERVAL_SECS", lit "75")] in
  config ← expect (load_config_with_sources no_files input RequireSyncConfig env_data);
  config ← expect_some config;
  _ ← assert_eq (Config.sid config) (lit "group-a");
  _ ← assert_eq (Config.sid_token config) (lit "secret-token");
  assert_eq (Config.sync_interval_secs config) 75.

(** ** daemon.rs *)

Definition startup_sync_sets_success_state : test :=
  daemon ← DaemonLoop_new 1000 30 5;
  daemon ← run_startup_sync daemon (Success {| completed_at_secs := 1001; peer_errors := [] |}) 1001;
  let s := state daemon in
  _ ← assert_eq (mode s) Running;
  _ ← assert_eq (last_successful_sync_at_secs s) (Some 1001);
  assert_eq (next_sync_due_secs s) (1001 + 30 + 5).

Definition discovery_trigger_starts_sync_before_poll_due : test :=
  daemon ← DaemonLoop_new 1000 30 0;
  _ ← assert (negb (should_start_sync daemon 1010));
  let daemon := trigger_sync_from_discovery daemon in
  _ ← assert (should_start_sync daemon 1010);
  let '(_, started) := start_sync daemon 1010 in
  assert started.

Definition peer_errors_do_not_stop_daemon : test :=
  daemon ← DaemonLoop_new 1000 30 0;
  let '(daemon, started) := start_sync daemon 1031 in
  _ ← assert started;
  daemon ← finish_sync daemon (Success {| completed_at_secs := 1032; peer_errors :=
    [{| pse_participant_id := lit "node-b"; pse_kind := Unreachable;
        pse_message := lit "connection timeout" |}] |}) 1032;
  let s := state daemon in
  _ ← assert_eq (mode s) Running;
  _ ← assert_eq (length (last_peer_errors s)) 1%nat;
  assert_eq (last_critical_error s) None.

Definition critical_error_stops_daemon : test :=
  daemon ← DaemonLoop_new 1000 30 0;
  let '(daemon, started) := start_sync daemon 1030 in
  _ ← assert started;
  daemon ← finish_sync daemon (CriticalFailure (lit "failed to update authorized_keys")) 1031;
  let s := state daemon in
  _ ← assert_eq (mode s) Stopped;
  assert_eq (last_critical_error s) (Some (lit "failed to update authorized_keys")).

Definition graceful_shutdown_waits_for_inflight_sync : test :=
  daemon ← DaemonLoop_new 1000 30 0;
  let '(daemon, started) := start_sync daemon 1030 in
  _ ← assert started;
  let daemon := request_shutdown daemon in
  _ ← assert_eq (mode (state daemon)) Stopping;
  daemon ← finish_sync daemon (Success {| completed_at_secs := 1031; peer_errors := [] |}) 1031;
  assert_eq (mode (state daemon)) Stopped.

Definition shutdown_without_inflight_sync_stops_immediately : test :=
  daemon ← DaemonLoop_new 1000 30 0;
  let daemon := request_shutdown daemon in
  _ ← assert_eq (mode (state daemon)) Stopped;
  assert (negb (should_start_sync daemon 2000)).

Definition poll_interval_triggers_sync_when_due : test :=
  daemon ← DaemonLoop_new 1000 30 0;
  _ ← assert (negb (should_start_sync daemon 1029));
  assert (should_start_sync daemon 1030).

(** ** discovery.rs *)

Definition loads_bootstrap_peers_and_sets_trigger : test :=
  let engine := DiscoveryEngine_new (lit "group-a") (lit "secret-token") 60 120 in
  let engine := add_bootstrap_peers engine
    [lit "node-a@10.0.0.2:2222"; lit "10.0.0.3:2222"; lit "invalid"] in
  _ ← assert (bool_decide (is_Some (de_peers engine !! lit "node-a")));
  _ ← assert (bool_decide (is_Some (de_peers engine !! lit "10.0.0.3:2222")));
  let '(engine, taken) := take_sync_trigger engine in
  _ ← assert taken;
  let '(engine, taken) := take_sync_trigger engine in
  assert (negb taken).

Definition accepts_valid_announcement_and_adds_peer : test :=
  let receiver := DiscoveryEngine_new (lit "group-a") (lit "secret-token") 60 120 in
  let sender := DiscoveryEngine_new (lit "group-a") (lit "secret-token") 60 120 in
  envelope ← expect (build_startup_announcement sender (lit "node-b") (lit "10.0.0.5") 2222
    (lit "ssh-ed25519 AAAAB3Nza node-b") 1700000000 (lit "n-1"));
  let '(receiver, processed) := process_announcement receiver envelope 1700000010 in
  event ← expect processed;
  _ ← assert_eq event (PeerAdded (lit "node-b"));
  _ ← assert (bool_decide (is_Some (de_peers receiver !! lit "node-b")));
  let '(_, taken) := take_sync_trigger receiver in
  assert taken.

Definition ignores_announcement_with_wrong_sid_token : test :=
  let receiver := DiscoveryEngine_new (lit "group-a") (lit "secret-token") 60 120 in
  let sender := DiscoveryEngine_new (lit "group-a") (lit "wrong-token") 60 120 in
  envelope ← expect (build_startup_announcement sender (lit "node-b") (lit "10.0.0.5") 2222
    (lit "ssh-ed25519 AAAAB3Nza node-b") 1700000000 (lit "n-1"));
  let '(receiver, processed) := process_announcement receiver envelope 1700000010 in
  event ← expect processed;
  _ ← assert_eq event Ignored;
  _ ← assert (negb (bool_decide (is_Some (de_peers receiver !! lit "node-b"))));
  let '(_, taken) := take_sync_trigger receiver in
  assert (negb taken).

Definition ignores_announcement_with_other_sid : test :=
  let receiver := DiscoveryEngine_new (lit "group-a") (lit "secret-token") 60 120 in
  let sender := DiscoveryEngine_new (lit "group-b") (lit "secret-token") 60 120 in
  envelope ← expect (build_startup_announcement sender (lit "node-b") (lit "10.0.0.5") 2222
    (lit "ssh-ed25519 AAAAB3Nza node-b") 1700000000 (lit "n-1"));
  let '(_, processed) := process_announcement receiver envelope 1700000010 in
  event ← expect processed;
  assert_eq event Ignored.

Definition rejects_malformed_payload : test :=
  let receiver := DiscoveryEngine_new (lit "group-a") (lit "secret-token") 60 120 in
  let sender := DiscoveryEngine_new (lit "group-a") (lit "secret-token") 60 120 in
  envelope ← expect (build_startup_announcement sender (lit "node-b") (lit "10.0.0.5") 2222
    (lit "ssh-ed25519 AAAAB3Nza node-b") 1700000000 (lit "n-1"));
  let envelope := with_body envelope (join [LF]
    [lit "sid=group-a"; lit "participant_id=node-b"; lit "address=10.0.0.5"; lit "port=bad"; []]) in
  let envelope := with_signature envelope (signature_hex
    (sign_envelope (lit "group-a") (lit "secret-token") (lit "node-b") (timestamp_secs envelope)
       (nonce envelope) UdpAnnouncement (body envelope))) in
  let '(_, event) := process_announcement receiver envelope 1700000010 in
  assert_eq event (Err InvalidAnnouncementPayload).

Definition updates_existing_peer_and_triggers_sync : test :=
  let receiver := DiscoveryEngine_new (lit "group-a") (lit "secret-token") 60 120 in
  let sender := DiscoveryEngine_new (lit "group-a") (lit "secret-token") 60 120 in
  first ← expect (build_startup_announcement sender (lit "node-b") (lit "10.0.0.5") 2222
    (lit "ssh-ed25519 AAAAB3Nza node-b") 1700000000 (lit "n-1"));
  second ← expect (build_startup_announcement sender (lit "node-b") (lit "10.0.0.6") 2222
    (lit "ssh-ed25519 AAAAB3Nza node-b") 1700000001 (lit "n-2"));
  let '(receiver, processed) := process_announcement receiver first 1700000005 in
  event ← expect processed;
  _ ← assert_eq event (PeerAdded (lit "node-b"));
  let '(receiver, taken) := take_sync_trigger receiver in
  _ ← assert taken;
  let '(receiver, processed) := process_announcement receiver second 1700000006 in
  event ← expect processed;
  _ ← assert_eq event (PeerUpdated (lit "node-b"));
  let '(_, taken) := take_sync_trigger receiver in
  assert taken.

Definition ignores_replayed_nonce : test :=
  let receiver := DiscoveryEngine_new (lit "group-a") (lit "secret-token") 60 120 in
  let sender := DiscoveryEngine_new (lit "group-a") (lit "secret-token") 60 120 in
  envelope ← expect (build_startup_announcement sender (lit "node-b") (lit "10.0.0.5") 2222
    (lit "ssh-ed25519 AAAAB3Nza node-b") 1700000000 (lit "n-replay"));
  let '(receiver, processed) := process_announcement receiver envelope 1700000005 in
  event ← expect processed;
  _ ← assert_eq event (PeerAdded (lit "node-b"));
  let '(_, processed) := process_announcement receiver envelope 1700000006 in
  event ← expect processed;
  assert_eq event Ignored.

(** ** transport.rs *)

Definition signs_and_verifies_http_request_envelope : test :=
  let request := {| req_path := lit "/v1/keys"; req_sender_id := lit "node-a";
    req_timestamp_secs := 1781771234; req_nonce := lit "req-1";
    req_body := lit "public_key=ssh-ed25519 AAAA node-a" |} in
  let envelope := sign_http_request (lit "group-a") (lit "secret-token") request in
  let verified := verify_http_request envelope (lit "secret-token") (lit "group-a") in
  assert_eq verified (Ok tt).

Definition signs_and_verifies_http_response_envelope : test :=
  let response := {| resp_path := lit "/v1/keys"; resp_status_code := 200;
    resp_sender_id := lit "node-b"; resp_timestamp_secs := 1781771240; resp_nonce := lit "res-1";
    resp_body := lit "public_key=ssh-ed25519 BBBB node-b" |} in
  let envelope := sign_http_response (lit "group-a") (lit "secret-token") response in
  let verified := verify_http_response envelope (lit "secret-token") (lit "group-a") in
  assert_eq verified (Ok tt).

Definition rejects_http_request_with_wrong_sid_token : test :=
  let request := {| req_path := lit "/v1/keys"; req_sender_id := lit "node-a";
    req_timestamp_secs := 1781771234; req_nonce := lit "req-1";
    req_body := lit "public_key=ssh-ed25519 AAAA node-a" |} in
  let envelope := sign_http_request (lit "group-a") (lit "secret-token") request in
  let verified := verify_http_request envelope (lit "wrong-token") (lit "group-a") in
  assert_eq verified (Err InvalidSignature).

Definition handles_get_public_key_request_and_response_without_secret_leak : test :=
  service ← expect (HttpKeyExchangeService_new (lit "group-a") (lit "secret-token") (lit "node-local")
    (lit "ssh-ed25519 AAAA node-local"));
  let request := build_get_public_key_request service (lit "node-remote") 1700000000 (lit "req-1") in
  response ← expect (handle_get_public_key_request service request 1700000001 (lit "res-1"));
  payload ← expect (verify_and_parse_public_key_response service response);
  _ ← assert_eq (pk_sid payload) (lit "group-a");
  _ ← assert_eq (pk_participant_id payload) (lit "node-local");
  _ ← assert_eq (pk_public_key payload) (lit "ssh-ed25519 AAAA node-local");
  body_text ← expect_some (from_utf8 (body response));
  assert (negb (contains body_text (lit "secret-token"))).

Definition remote_payload (key : str) : ParticipantPublishPayload :=
  {| pub_participant_id := lit "node-remote"; pub_address := lit "10.0.0.5"; pub_port := 2222;
     pub_public_key := key |}.

Definition handles_publish_request_with_valid_key : test :=
  service ← expect (HttpKeyExchangeService_new (lit "group-a") (lit "secret-token") (lit "node-local")
    (lit "ssh-ed25519 AAAA node-local"));
  let request := build_publish_request service (lit "node-remote") 1700000010 (lit "pub-1")
    (remote_payload (lit "ssh-ed25519 BBBB node-remote")) in
  response ← expect (handle_publish_request service request 1700000011 (lit "ack-1"));
  let verified := verify_http_response response (lit "secret-token") (lit "group-a") in
  _ ← assert_eq verified (Ok tt);
  assert_eq (context response) (HttpResponse 202 PATH_PUBLISH_PARTICIPANT).

Definition rejects_publish_request_with_invalid_public_key : test :=
  service ← expect (HttpKeyExchangeService_new (lit "group-a") (lit "secret-token") (lit "node-local")
    (lit "ssh-ed25519 AAAA node-local"));
  let request := build_publish_request service (lit "node-remote") 1700000010 (lit "pub-1")
    (remote_payload (lit "invalid")) in
  let response := handle_publish_request service request 1700000011 (lit "ack-1") in
  assert_eq response (Err Transport.InvalidPayload).

Definition rejects_get_public_key_request_with_wrong_context_path : test :=
  service ← expect (HttpKeyExchangeService_new (lit "group-a") (lit "secret-token") (lit "node-local")
    (lit "ssh-ed25519 AAAA node-local"));
  let request := {| req_path := lit "/v1/other"; req_sender_id := lit "node-remote";
    req_timestamp_secs := 1700000000; req_nonce := lit "req-1";
    req_body := lit "request=public_key" |} in
  let envelope := sign_http_request (lit "group-a") (lit "secret-token") request in
  let response := handle_get_public_key_request service envelope 1700000001 (lit "res-1") in
  assert_eq response (Err UnexpectedContext).

(** ** runtime.rs *)

(** [control_runtime_dir_with_env], which only the tests use. *)
Definition control_runtime_dir_with_env (sid : str) (xdg_runtime_dir home : option str) :
    result RuntimeError str :=
  root ← control_runtime_root_with_env xdg_runtime_dir home;
  Ok (path_join root (sanitize_for_file sid)).

Definition runtime_dir_uses_xdg_when_present : test :=
  dir ← expect (control_runtime_dir_with_env (lit "group-a") (Some (lit "/run/user/1000"))
    (Some (lit "/home/a")));
  assert_eq dir (lit "/run/user/1000/ssh-key-sync/group-a").

Definition runtime_dir_falls_back_to_home_local_run : test :=
  dir ← expect (control_runtime_dir_with_env (lit "group-a") None (Some (lit "/home/a")));
  assert_eq dir (lit "/home/a/.local/run/ssh-key-sync/group-a").

Definition runtime_root_uses_xdg_when_present : test :=
  root ← expect (control_runtime_root_with_env (Some (lit "/run/user/1000")) (Some (lit "/home/a")));
  assert_eq root (lit "/run/user/1000/ssh-key-sync").

Definition control_dir_and_files_have_private_permissions (base : str) : test :=
  let control_dir := path_join (path_join base (lit "ssh-key-sync")) (lit "group-a") in
  let '(r, s) := System.run (ensure_private_dir control_dir) {| files := ∅; dirs := ∅ |} in
  _ ← expect r;
  let pid_path := path_join control_dir (lit "daemon.pid") in
  let '(r, s) := System.run (write_control_file pid_path (lit "123")) s in
  _ ← expect r;
  let log_path := path_join control_dir (lit "daemon.log") in
  let '(r, s) := System.run (open_control_file_append log_path) s in
  _ ← expect r;
  dir_mode ← expect_some (dirs s !! control_dir);
  pid_mode ← expect_some (file_mode <$> files s !! pid_path);
  log_mode ← expect_some (file_mode <$> files s !! log_path);
  _ ← assert_eq dir_mode PRIVATE_DIR;
  _ ← assert_eq pid_mode PRIVATE_FILE;
  assert_eq log_mode PRIVATE_FILE.
End tests.

(** ** The tests pass *)

Definition unit_tests {C : Crypto} {B : Build} : list test :=
  [signs_and_verifies_envelope; rejects_sid_mismatch; rejects_tampered_body;
   rejects_invalid_signature_encoding; canonical_signature_is_stable_for_same_payload;
   different_contexts_produce_different_signatures; verifier_rejects_outside_timestamp_window;
   verifier_rejects_replayed_nonce_inside_ttl; verifier_accepts_same_nonce_after_ttl_expiry;
   parses_valid_public_key; rejects_empty_input; rejects_invalid_format;
   rejects_unsupported_algorithm; normalizes_whitespace;
   reads_and_normalizes_local_key_file (lit "/tmp/key"); fails_when_local_key_file_is_missing (lit "/tmp/key");
   appends_new_managed_block_when_absent; replaces_existing_managed_block_only;
   rejects_invalid_managed_key; rejects_missing_block_end;
   applies_managed_block_to_new_file (lit "/tmp/t");
   keeps_manual_lines_while_updating_managed_block_on_disk (lit "/tmp/t");
   fails_when_managed_key_is_invalid_before_write (lit "/tmp/t");
   requires_sid_when_mode_is_strict; requires_sid_token_when_mode_is_strict; rejects_empty_sid;
   rejects_empty_sid_token; accepts_values_from_args; allows_missing_config_in_optional_mode;
   does_not_allow_partial_config_in_optional_mode; rejects_zero_sync_interval;
   masks_sid_token_in_debug_output; reads_values_from_config_file (lit "/tmp/c.env");
   cli_values_override_config_file (lit "/tmp/c.env"); normalizes_and_deduplicates_bootstrap_peers;
   reads_values_from_env_sources; cli_values_override_env_sources;
   startup_sync_sets_success_state; discovery_trigger_starts_sync_before_poll_due;
   peer_errors_do_not_stop_daemon; critical_error_stops_daemon;
   graceful_shutdown_waits_for_inflight_sync; shutdown_without_inflight_sync_stops_immediately;
   poll_interval_triggers_sync_when_due; loads_bootstrap_peers_and_sets_trigger;
   accepts_valid_announcement_and_adds_peer; ignores_announcement_with_wrong_sid_token;
   ignores_announcement_with_other_sid; rejects_malformed_payload;
   updates_existing_peer_and_triggers_sync; ignores_replayed_nonce;
   signs_and_verifies_http_request_envelope; signs_and_verifies_http_response_envelope;
   rejects_http_request_with_wrong_sid_token;
   handles_get_public_key_request_and_response_without_secret_leak;
   handles_publish_request_with_valid_key; rejects_publish_request_with_invalid_public_key;
   rejects_get_public_key_request_with_wrong_context_path;
   runtime_dir_uses_xdg_when_present; runtime_dir_falls_back_to_home_local_run;
   runtime_root_uses_xdg_when_present; control_dir_and_files_have_private_permissions (lit "/tmp/t")].

Example unit_tests_pass (B : Build) : Forall (λ t, t = Val tt) (@unit_tests toy_crypto B).
Proof. repeat apply Forall_cons_2; try apply Forall_nil_2. all: by vm_compute. Qed.
