(* ===== verification/EndToEnd.v ===== *)
(** * Two participants end to end (src/src/e2e.rs)

    The end-to-end tests of the code, written with the definitions of the model
    as in [Tests], and proved to pass with every cryptography rather than
    evaluated with one; and the isolation of groups in general: what the engine
    and the handlers of one group do with a message signed in another. *)

From S2P Require Import Prelude Str Utf8 Hex KeyValue SshKeys AuthorizedKeys Auth Transport.
From S2P Require Import Discovery System Tests.

Local Open Scope N_scope.

Section e2e.
Context {C : Crypto}.

(** ** The tests *)

Definition two_participants_exchange_public_keys : test :=
  node_a ← expect (HttpKeyExchangeService_new (lit "group-a") (lit "token-a") (lit "node-a")
    (lit "ssh-ed25519 AAAA node-a"));
  node_b ← expect (HttpKeyExchangeService_new (lit "group-a") (lit "token-a") (lit "node-b")
    (lit "ssh-ed25519 BBBB node-b"));
  let request := build_get_public_key_request node_a (lit "node-a") 1700001000 (lit "req-1") in
  response ← expect (handle_get_public_key_request node_b request 1700001001 (lit "res-1"));
  payload ← expect (verify_and_parse_public_key_response node_a response);
  _ ← assert_eq (pk_participant_id payload) (lit "node-b");
  assert_eq (pk_public_key payload) (lit "ssh-ed25519 BBBB node-b").

Definition late_joiner_triggers_discovery_sync : test :=
  let node_a := DiscoveryEngine_new (lit "group-a") (lit "token-a") 60 120 in
  let node_a := add_bootstrap_peers node_a [lit "node-b@10.0.0.2:2222"] in
  let '(node_a, trigger) := take_sync_trigger node_a in
  _ ← assert trigger;
  let node_c := DiscoveryEngine_new (lit "group-a") (lit "token-a") 60 120 in
  announcement ← expect (build_startup_announcement node_c (lit "node-c") (lit "10.0.0.3") 2222
    (lit "ssh-ed25519 CCCC node-c") 1700001100 (lit "late-1"));
  let '(node_a, event) := process_announcement node_a announcement 1700001101 in
  event ← expect event;
  _ ← assert_eq event (PeerAdded (lit "node-c"));
  assert (take_sync_trigger node_a).2.

Definition isolation_by_sid_and_sid_token : test :=
  let receiver := DiscoveryEngine_new (lit "group-a") (lit "token-a") 60 120 in
  let wrong_sid_sender := DiscoveryEngine_new (lit "group-b") (lit "token-a") 60 120 in
  wrong_sid ← expect (build_startup_announcement wrong_sid_sender (lit "node-x") (lit "10.0.0.9")
    2222 (lit "ssh-ed25519 XXXX node-x") 1700001200 (lit "sid-1"));
  let '(receiver, sid_event) := process_announcement receiver wrong_sid 1700001201 in
  sid_event ← expect sid_event;
  _ ← assert_eq sid_event Ignored;
  let wrong_token_sender := DiscoveryEngine_new (lit "group-a") (lit "token-b") 60 120 in
  wrong_token ← expect (build_startup_announcement wrong_token_sender (lit "node-y")
    (lit "10.0.0.10") 2222 (lit "ssh-ed25519 YYYY node-y") 1700001210 (lit "tok-1"));
  let '(receiver, token_event) := process_announcement receiver wrong_token 1700001211 in
  token_event ← expect token_event;
  assert_eq token_event Ignored.

Definition idempotent_authorized_keys_on_restart : test :=
  let initial := lit "ssh-ed25519 LOCAL local" ++ [LF] in
  let managed := [lit "ssh-ed25519 AAAA node-a"; lit "ssh-ed25519 BBBB node-b"] in
  first ← expect (upsert_managed_block initial managed);
  second ← expect (upsert_managed_block first managed);
  assert_eq first second.

Definition publish_flow_accepts_valid_remote_participant : test :=
  node_a ← expect (HttpKeyExchangeService_new (lit "group-a") (lit "token-a") (lit "node-a")
    (lit "ssh-ed25519 AAAA node-a"));
  node_b ← expect (HttpKeyExchangeService_new (lit "group-a") (lit "token-a") (lit "node-b")
    (lit "ssh-ed25519 BBBB node-b"));
  let publish_request := build_publish_request node_a (lit "node-a") 1700001300 (lit "pub-1")
    {| pub_participant_id := lit "node-a"; pub_address := lit "10.0.0.11"; pub_port := 2222;
       pub_public_key := lit "ssh-ed25519 AAAA node-a" |} in
  response ← expect (handle_publish_request node_b publish_request 1700001301 (lit "ack-1"));
  got ← expect (handle_get_public_key_request node_b
    (build_get_public_key_request node_a (lit "node-a") 1700001302 (lit "req-2"))
    1700001303 (lit "res-2"));
  payload ← expect (verify_and_parse_public_key_response node_a got);
  _ ← assert_eq (pk_participant_id payload) (lit "node-b");
  assert match context response with
         | HttpResponse status_code path =>
             (status_code =? 202) && bool_decide (path = lit "/v1/participants/publish")
         | _ => false
         end.

Definition e2e_tests : list test :=
  [two_participants_exchange_public_keys; late_joiner_triggers_discovery_sync;
   isolation_by_sid_and_sid_token; idempotent_authorized_keys_on_restart;
   publish_flow_accepts_valid_remote_participant].

(** ** Messages of another group *)

(** The text that [sign_envelope] signs. *)
Definition signed_text (e : SignedEnvelope) : bytes := encode (envelope_canonical e).

(** The verdict on a message of the group [sid'] with the token [token']. *)
Definition foreign_error (sid sid' : str) : AuthError :=
  if bool_decide (sid' = sid) then InvalidSignature else SidMismatch.

(** Another group, or another token that does not happen to give the same tag. *)
Definition foreign (sid token token' : str) (e : SignedEnvelope) : Prop :=
  env_sid e ≠ sid
  ∨ hmac_sha256 (encode token') (signed_text e) ≠ hmac_sha256 (encode token) (signed_text e).

End e2e.

(** ** Lemmas *)

Section e2e_lemmas.
Context {C : Crypto} {CO : CryptoOk C}.

Lemma verify_foreign sid token sid' token' sender ts n ctx b :
  let e := sign_envelope sid' token' sender ts n ctx b in
  foreign sid token token' e → verify_envelope e token sid = Err (foreign_error sid sid').
Proof.
  intros e Hf. unfold verify_envelope, foreign_error. change (env_sid e) with sid'.
  case_bool_decide as Hs; cbn [negb]; [|done].
  destruct Hf as [Hf|Hf]; [done|]. change (signature_hex e) with
    (AuthHex.encode_hex (hmac_sha256 (encode token') (signed_text e))).
  rewrite decode_hex_encode_hex by apply hmac_wf. cbn [ok_or mbind result_bind].
  destruct (verify_slice _ _ _) eqn:E; [|done]. by apply verify_slice_spec in E.
Qed.

(** An engine leaves what its verifier does not authenticate alone. *)
Lemma process_unauthenticated d e now err :
  verify_envelope e (v_sid_token (de_verifier d)) (v_expected_sid (de_verifier d)) = Err err →
  process_announcement d e now = (d, Ok Ignored).
Proof.
  intros E. unfold process_announcement. case_bool_decide; [|done]. cbn [negb].
  unfold verify. rewrite E. cbn. by destruct d.
Qed.

Lemma process_foreign sid token skew ttl d sid' token' sender ts n ctx b now :
  let e := sign_envelope sid' token' sender ts n ctx b in
  engine_ok sid token skew ttl d → foreign sid token token' e →
  process_announcement d e now = (d, Ok Ignored).
Proof.
  intros e (_ & _ & Vs & Vt & _) Hf. eapply process_unauthenticated. rewrite Vs, Vt.
  by apply verify_foreign.
Qed.

(** *** The two services of the tests *)

Definition node (name key : str) : HttpKeyExchangeService :=
  {| svc_sid := lit "group-a"; svc_sid_token := lit "token-a"; svc_participant_id := name;
     svc_public_key := key |}.
Definition node_a : HttpKeyExchangeService := node (lit "node-a") (lit "ssh-ed25519 AAAA node-a").
Definition node_b : HttpKeyExchangeService := node (lit "node-b") (lit "ssh-ed25519 BBBB node-b").

Lemma node_a_new : HttpKeyExchangeService_new (lit "group-a") (lit "token-a") (lit "node-a")
  (lit "ssh-ed25519 AAAA node-a") = Ok node_a.
Proof. by vm_compute. Qed.
Lemma node_b_new : HttpKeyExchangeService_new (lit "group-a") (lit "token-a") (lit "node-b")
  (lit "ssh-ed25519 BBBB node-b") = Ok node_b.
Proof. by vm_compute. Qed.
Lemma node_b_ok : service_ok node_b.
Proof. eapply service_new_ok; [apply node_b_new|..]; by_compute. Qed.

Lemma exchange_a_b sender n n' ts ts' :
  ∃ response,
    handle_get_public_key_request node_b (build_get_public_key_request node_a sender ts n) ts' n'
      = Ok response
    ∧ verify_and_parse_public_key_response node_a response =
      Ok {| pk_sid := lit "group-a"; pk_participant_id := lit "node-b";
            pk_public_key := lit "ssh-ed25519 BBBB node-b" |}.
Proof. by apply exchange_keys; [..|apply node_b_ok]. Qed.

Lemma assert_eq_refl {A} `{EqDecision A} (a : A) : assert_eq a a = Val tt.
Proof. unfold assert_eq. by rewrite bool_decide_true. Qed.

Lemma exchange_test_passes : two_participants_exchange_public_keys = Val tt.
Proof.
  unfold two_participants_exchange_public_keys. rewrite node_a_new, node_b_new.
  cbn [expect mbind outcome_bind].
  destruct (exchange_a_b (lit "node-a") (lit "req-1") (lit "res-1") 1700001000 1700001001)
    as (r & -> & E). cbn [expect mbind outcome_bind]. rewrite E.
  cbn [expect mbind outcome_bind pk_participant_id pk_public_key].
  by rewrite !assert_eq_refl.
Qed.

Lemma publish_test_passes : publish_flow_accepts_valid_remote_participant = Val tt.
Proof.
  unfold publish_flow_accepts_valid_remote_participant. rewrite node_a_new, node_b_new.
  cbn [expect mbind outcome_bind].
  match goal with |- context [handle_publish_request node_b ?e ?t ?n] =>
    assert (∃ r, handle_publish_request node_b e t n = Ok r
      ∧ context r = HttpResponse 202 PATH_PUBLISH_PARTICIPANT) as (r & -> & Hc) end.
  { eexists. rewrite handle_publish_Ok. split.
    - split_and!; [apply verify_sign|apply is_post_to_built|]. eexists. split_and!.
      + apply parse_built_publish; by_compute.
      + by vm_compute.
      + reflexivity.
    - reflexivity. }
  cbn [expect mbind outcome_bind].
  destruct (exchange_a_b (lit "node-a") (lit "req-2") (lit "res-2") 1700001302 1700001303)
    as (got & -> & E). cbn [expect mbind outcome_bind]. rewrite E.
  cbn [expect mbind outcome_bind pk_participant_id]. by rewrite assert_eq_refl, Hc.
Qed.

Lemma restart_test_passes : idempotent_authorized_keys_on_restart = Val tt.
Proof. by vm_compute. Qed.

(** *** The engines of the tests *)

(** What [build_startup_announcement] makes of a key that is in normal form. *)
Lemma build_announcement_Ok d pid addr p key ts n :
  normalize_public_key key = Ok key →
  build_startup_announcement d pid addr p key ts n =
    Ok (sign_envelope (de_sid d) (de_sid_token d) pid ts n UdpAnnouncement
      (serialize_payload [(lit "sid", de_sid d); (lit "participant_id", pid);
         (lit "address", addr); (lit "port", to_string p); (lit "public_key", key)])).
Proof. intros E. unfold build_startup_announcement. by rewrite E. Qed.

Definition engine (sid token : str) : DiscoveryEngine := DiscoveryEngine_new sid token 60 120.

Lemma engine_new_ok sid token : engine_ok sid token 60 120 (engine sid token).
Proof. apply reachable_engine, reachable_new. Qed.

(** An announcement made in the group of the receiver enters its table. *)
Lemma announcement_added sid token d pid addr p key ts now n :
  engine_ok sid token 60 120 d → de_peers d !! pid = None →
  v_seen_nonces (de_verifier d) = ∅ →
  line_safe sid → wf_str sid → sid ≠ [] → line_safe pid → wf_str pid → pid ≠ [] →
  line_safe addr → wf_str addr → addr ≠ [] → p ≤ U16_MAX →
  wf_str key → normalize_public_key key = Ok key →
  ts ≤ U64_MAX → now - 60 ≤ ts ≤ now + 60 →
  ∃ e, build_startup_announcement (engine sid token) pid addr p key ts n = Ok e
    ∧ (process_announcement d e now).2 = Ok (PeerAdded pid)
    ∧ de_sync_trigger_pending (process_announcement d e now).1 = true.
Proof.
  intros Hd Hp Hv ? ? ? ? ? ? ? ? ? ? ? Hk ? ?.
  eexists. split; [by apply build_announcement_Ok|].
  assert (∀ k, v_seen_nonces (prune_nonces (de_verifier d) now) !! k = None) as Hn.
  { intros k. cbn [v_seen_nonces prune_nonces with_nonces]. by rewrite Hv, map_filter_empty. }
  erewrite process_accepted.
  2: { apply (built_announcement_accepted (engine sid token) d sid token pid addr key key n
         p ts now 60 120 60 120); try assumption;
       [apply engine_new_ok|by apply build_announcement_Ok|apply Hn]. }
  unfold table_event. cbn. rewrite Hp. by unfold is_ignored; rewrite bool_decide_false by done.
Qed.

Lemma late_joiner_test_passes : late_joiner_triggers_discovery_sync = Val tt.
Proof.
  unfold late_joiner_triggers_discovery_sync.
  set (d := (take_sync_trigger (add_bootstrap_peers (engine (lit "group-a") (lit "token-a"))
    [lit "node-b@10.0.0.2:2222"])).1).
  assert (engine_ok (lit "group-a") (lit "token-a") 60 120 d) as Hd.
  { apply reachable_engine. apply (reachable_op _ _ _ _ _ TakeTrigger).
    apply (reachable_op _ _ _ _ _ (Bootstrap [lit "node-b@10.0.0.2:2222"])). apply reachable_new. }
  destruct (announcement_added (lit "group-a") (lit "token-a") d (lit "node-c") (lit "10.0.0.3")
    2222 (lit "ssh-ed25519 CCCC node-c") 1700001100 1700001101 (lit "late-1"))
    as (e & Hb & He & Ht); [exact Hd|by_compute..|].
  fold (engine (lit "group-a") (lit "token-a")).
  assert (take_sync_trigger (add_bootstrap_peers (engine (lit "group-a") (lit "token-a"))
    [lit "node-b@10.0.0.2:2222"]) = (d, true)) as -> by (by vm_compute).
  clearbody d. cbn [assert mbind outcome_bind]. rewrite Hb. cbn [expect mbind outcome_bind].
  destruct (process_announcement d e 1700001101) as [d' r]. cbn [fst snd] in He, Ht. subst r.
  cbn [expect mbind outcome_bind]. rewrite assert_eq_refl. cbn [mbind outcome_bind].
  unfold take_sync_trigger. by rewrite Ht.
Qed.

(** *** The isolation test *)

(** The announcement with the wrong token. *)
Definition wrong_token_announcement (token : str) : SignedEnvelope :=
  sign_envelope (lit "group-a") token (lit "node-y") 1700001210 (lit "tok-1") UdpAnnouncement
    (serialize_payload [(lit "sid", lit "group-a"); (lit "participant_id", lit "node-y");
       (lit "address", lit "10.0.0.10"); (lit "port", to_string 2222);
       (lit "public_key", lit "ssh-ed25519 YYYY node-y")]).

Lemma build_wrong_token token :
  build_startup_announcement (engine (lit "group-a") token) (lit "node-y") (lit "10.0.0.10") 2222
    (lit "ssh-ed25519 YYYY node-y") 1700001210 (lit "tok-1") = Ok (wrong_token_announcement token).
Proof. by apply build_announcement_Ok. Qed.

(** What the receiver makes of it: two tokens with the same tag cannot be told
    apart, others are. *)
Lemma wrong_token_event :
  let e := wrong_token_announcement (lit "token-b") in
  let d := engine (lit "group-a") (lit "token-a") in
  (foreign (lit "group-a") (lit "token-a") (lit "token-b") e →
     (process_announcement d e 1700001211).2 = Ok Ignored)
  ∧ (¬ foreign (lit "group-a") (lit "token-a") (lit "token-b") e →
     (process_announcement d e 1700001211).2 = Ok (PeerAdded (lit "node-y"))).
Proof.
  intros e d. split; intros Hf.
  - unfold e, wrong_token_announcement. erewrite process_foreign; [done|apply engine_new_ok|exact Hf].
  - destruct (announcement_added (lit "group-a") (lit "token-a") d (lit "node-y") (lit "10.0.0.10")
      2222 (lit "ssh-ed25519 YYYY node-y") 1700001210 1700001211 (lit "tok-1"))
      as (e' & Hb & He & _); [apply engine_new_ok|by_compute..|].
    fold d in Hb. unfold d in Hb. rewrite build_wrong_token in Hb. injection Hb as <-.
    assert (e = wrong_token_announcement (lit "token-a")) as ->; [|done].
    unfold e, wrong_token_announcement, sign_envelope. f_equal.
    unfold hmac_signature_hex. f_equal.
    destruct (decide (hmac_sha256 (encode (lit "token-b")) (signed_text e)
      = hmac_sha256 (encode (lit "token-a")) (signed_text e))) as [E|E]; [exact E|].
    exfalso. apply Hf. by right.
Qed.

Lemma isolation_test_exact :
  let e := wrong_token_announcement (lit "token-b") in
  isolation_by_sid_and_sid_token = Val tt
  ↔ foreign (lit "group-a") (lit "token-a") (lit "token-b") e.
Proof.
  intros e. unfold isolation_by_sid_and_sid_token.
  fold (engine (lit "group-a") (lit "token-a")) (engine (lit "group-b") (lit "token-a"))
    (engine (lit "group-a") (lit "token-b")).
  rewrite build_wrong_token, build_announcement_Ok by (by vm_compute).
  cbn [expect mbind outcome_bind]. erewrite process_foreign; [|apply engine_new_ok|by left; by_compute].
  cbn [expect mbind outcome_bind]. rewrite assert_eq_refl.
  cbn [expect mbind outcome_bind]. fold e.
  destruct wrong_token_event as [Hf Hn]. fold e in Hf, Hn.
  destruct (process_announcement _ e _) as [d' r]. cbn [snd] in Hf, Hn.
  split.
  - intros H. destruct (decide (hmac_sha256 (encode (lit "token-b")) (signed_text e)
      = hmac_sha256 (encode (lit "token-a")) (signed_text e))) as [E|E]; [|by right].
    exfalso. rewrite Hn in H; [|by intros [[]|]]. by vm_compute in H.
  - intros H%Hf. subst r. apply assert_eq_refl.
Qed.
End e2e_lemmas.

(** ** Properties *)

(** C8: groups are isolated.  A message signed in another group, or under
    another token (unless the two tokens give its text the same tag), changes
    nothing: the engines of the group ignore it and keep their table, their
    trigger and their nonces; both request handlers refuse it and the client
    does not accept it as a response, with the same error, whatever the
    message says, whenever it comes and whatever the engine did before. *)
Theorem groups_isolated {C : Crypto} {CO : CryptoOk C}
    (sid token sid' token' sender n : str) (ts : N) (ctx : MessageContext) (b : bytes) :
  let e := sign_envelope sid' token' sender ts n ctx b in
  foreign sid token token' e →
  (∀ skew ttl d now, reachable sid token skew ttl d →
     process_announcement d e now = (d, Ok Ignored))
  ∧ (∀ s t m, svc_sid s = sid → svc_sid_token s = token →
     let refusal := Auth (foreign_error sid sid') in
     handle_get_public_key_request s e t m = Err refusal
     ∧ handle_publish_request s e t m = Err refusal
     ∧ verify_and_parse_public_key_response s e = Err refusal).
Proof.
  intros e Hf. split.
  - intros skew ttl d now Hd%reachable_engine. by eapply process_foreign.
  - intros s t m <- <- refusal. apply verify_foreign in Hf.
    unfold handle_get_public_key_request, handle_publish_request,
      verify_and_parse_public_key_response, verify_http_request, verify_http_response.
    fold e in Hf. by rewrite Hf.
Qed.

(** The end-to-end tests.  Four of them pass with every cryptography: two
    services exchange a key, a late joiner triggers a synchronisation, the
    managed block is stable under a restart and a publication is accepted.  The
    isolation test passes exactly when the two tokens give the announcement
    different tags. *)
Theorem e2e_tests_pass {C : Crypto} {CO : CryptoOk C} :
  Forall (λ t, t = Val tt)
    [two_participants_exchange_public_keys; late_joiner_triggers_discovery_sync;
     idempotent_authorized_keys_on_restart; publish_flow_accepts_valid_remote_participant]
  ∧ (isolation_by_sid_and_sid_token = Val tt
     ↔ let text := signed_text (wrong_token_announcement (lit "token-b")) in
       hmac_sha256 (encode (lit "token-b")) text ≠ hmac_sha256 (encode (lit "token-a")) text).
Proof.
  split.
  - repeat apply Forall_cons_2; [apply exchange_test_passes|apply late_joiner_test_passes|
      apply restart_test_passes|apply publish_test_passes|apply Forall_nil_2].
  - rewrite isolation_test_exact. split; [|by right]. by intros [[]|].
Qed.

(** ** Witnesses *)

Lemma groups_isolated_witness :
  let e := @wrong_token_announcement toy_crypto (lit "token-b") in
  @process_announcement toy_crypto (engine (lit "group-a") (lit "token-a")) e 1700001211
    = (engine (lit "group-a") (lit "token-a"), Ok Ignored)
  ∧ @handle_get_public_key_request toy_crypto node_a e 0 [] = Err (Auth InvalidSignature).
Proof.
  destruct (@groups_isolated toy_crypto toy_crypto_ok (lit "group-a") (lit "token-a")
    (lit "group-a") (lit "token-b") (lit "node-y") (lit "tok-1") 1700001210 UdpAnnouncement
    (body (@wrong_token_announcement toy_crypto (lit "token-b")))) as [H1 H2]; [right; by_compute|].
  assert (foreign_error (lit "group-a") (lit "group-a") = InvalidSignature) as E by (by vm_compute).
  destruct (H2 node_a 0 [] eq_refl eq_refl) as [H _]. rewrite E in H.
  split; [apply (H1 60 120), reachable_new|exact H].
Defined.

Lemma e2e_tests_pass_witness : @isolation_by_sid_and_sid_token toy_crypto = Val tt.
Proof. apply (@e2e_tests_pass toy_crypto toy_crypto_ok). cbv zeta. by_compute. Defined.

(** All of them pass with the toy cryptography. *)
Example e2e_tests_toy : Forall (λ t, t = Val tt) (@e2e_tests toy_crypto).
Proof. repeat apply Forall_cons_2; try apply Forall_nil_2. all: by vm_compute. Qed.
