(* ===== verification/Convergence.v ===== *)
(** * Convergence of a group

    What the components achieve together, when the peers do their part: a single
    synchronisation ends with exactly the keys of the members that the
    configuration names, and a host that joins late has its key installed by
    the round of the daemon that hears its announcement.  Signatures, wire
    format, HTTP, the handlers, the discovery engine, the cycle and the update
    of authorized_keys all take part. *)

From S2P Require Import Prelude Str Utf8 Hex KeyValue SshKeys AuthorizedKeys Auth Envelope.
From S2P Require Import Transport Discovery Config Http Paths System Files Tls Control.
From S2P Require Import Server Runtime Invariants.

Local Open Scope N_scope.

(** ** Members of the group *)

(** A text that is the value of a line of a message. *)
Definition named (s : str) : Prop := line_safe s ∧ wf_str s ∧ s ≠ [].

(** The bytes of the request for a key, and of its header. *)
Definition key_request {C : Crypto} (client : HttpKeyExchangeService) (ep : PeerEndpoint)
    (clock : N * N) : str :=
  serialize_envelope (build_get_public_key_request client (ep_participant_id ep) clock.1
    (next_nonce clock.2)).

Definition fits {C : Crypto} (client : HttpKeyExchangeService) (ep : PeerEndpoint)
    (clock : N * N) : Prop :=
  let request := key_request client ep clock in
  len (encode (header_text (request_lines (ep_address ep) (ep_port ep) PATH_GET_PUBLIC_KEY
    (byte_len request)))) ≤ 65536
  ∧ len (post_request (ep_address ep) (ep_port ep) PATH_GET_PUBLIC_KEY request) ≤ U64_MAX.

(** At the address of the endpoint a server of the client's group answers, at
    some time of its own. *)
Definition member_at {C : Crypto} {B : Build} (network : str → N → bytes → result io_error bytes)
    (client : HttpKeyExchangeService) (clock : N * N) (ep : PeerEndpoint)
    (server : HttpKeyExchangeService) : Prop :=
  svc_sid server = svc_sid client ∧ svc_sid_token server = svc_sid_token client ∧ service_ok server
  ∧ named (ep_participant_id ep) ∧ named (ep_address ep)
  ∧ clock.1 ≤ U64_MAX ∧ fits client ep clock
  ∧ ∃ now nanos, now ≤ U64_MAX
      ∧ served_by server network (ep_address ep) (ep_port ep) now (next_nonce nanos).

Lemma member_fetched {C : Crypto} {CO : CryptoOk C} {B : Build} network client clock ep server :
  member_at network client clock ep server →
  request_public_key network client ep clock.1 (next_nonce clock.2) = Ok (svc_public_key server).
Proof.
  intros (? & ? & ? & (? & ? & _) & ([? _] & ? & _) & ? & [? ?] & now & nanos & ? & ?).
  by eapply (fetch_served network client server ep clock.1 now clock.2 nanos).
Qed.

(** ** Lemmas: a single synchronisation *)

(** Printing succeeds in the run in which every call does. *)
Lemma run_says {E A} (m : io (abort E) unit) (k : io (abort E) A) s :
  says m → run (m ≫= λ _, k) s = run k s.
Proof. by intros [->|[line ->]]. Qed.

(** The file system lets authorized_keys be written. *)
Definition writable (s : fs) (path : str) : Prop :=
  ∃ dir, parent path = Some dir ∧ files s !! dir = None
    ∧ dirs s !! path = None ∧ dirs s !! temp_path_near path = None.

Lemma run_apply default_mode s path existing t keys :
  writable s path → old_text s path existing → upsert_managed_block existing keys = Ok t →
  (run (apply_managed_block_to_file default_mode path keys) s).1 = Ok t.
Proof. intros (dir & ? & ? & ? & ?) ? ?. by eapply run_update. Qed.

Section single_sync.
Context {C : Crypto} {CO : CryptoOk C} {B : Build} {H : HashOrder} {HO : HashOrderOk H} {R : Rustls}.
Context (home : option str) (default_mode : N) (Net : Network R) (clock : PeerEndpoint → N * N)
  (config : AppConfig).

#[local] Abbreviation path := (expand_home_path home (authorized_keys_path config)) (only parsing).
#[local] Abbreviation cycle service security :=
  (@run_sync_cycle H (service_source (exchange (Net := Net) security) clock service) config
    (bootstrap_engine config) ∅) (only parsing).

Lemma run_single_sync_Ok s service security existing text :
  sync_setup home config s service security → dry_run config = false → writable s path →
  old_text s path existing →
  upsert_managed_block existing (values (cycle service security)) = Ok text →
  (run (run_single_sync home default_mode Net clock config) s).1 = Ok (Some text).
Proof.
  intros [Hs Hsec] Hd Hw Ho Hu. unfold run_single_sync. cbn [run]. rewrite Hs.
  rewrite run_bind. unfold lift. cbn [io_map_err map_err run].
  rewrite run_bind, run_map_err, (run_build home config s security Hsec). cbn [fst snd map_err].
  rewrite run_says by apply warn_says. rewrite Hd, run_bind, run_bind, !run_map_err.
  pose proof (run_apply default_mode s path existing text _ Hw Ho Hu) as Hr.
  destruct (run (apply_managed_block_to_file _ _ _) s) as [r s']. cbn [fst] in Hr. subst r.
  cbn [fst snd map_err run]. by rewrite run_says by (right; by eexists).
Qed.

(** The peers that the configuration names, other than the host itself. *)
Definition peer_of (pid : str) (ep : PeerEndpoint) : Prop :=
  endpoint_for (bootstrap_peers config) (de_peers (bootstrap_engine config)) pid = Some ep
  ∧ pid ≠ Config.participant_id config.

Lemma cycle_members service security (members : str → HttpKeyExchangeService) k :
  (∀ pid ep, peer_of pid ep → member_at (exchange (Net := Net) security) service (clock ep) ep (members pid)) →
  k ∈ values (cycle service security) ↔ ∃ pid ep, peer_of pid ep ∧ k = svc_public_key (members pid).
Proof.
  intros Hm. rewrite cycle_values. apply exist_proper. intros pid. apply exist_proper. intros ep.
  split.
  - intros (He & Hp & Hk). split; [by split|]. assert (peer_of pid ep) as Hpe by by split.
    rewrite (member_fetched _ _ _ _ _ (Hm pid ep Hpe)) in Hk. by injection Hk.
  - intros [Hpe ->]. pose proof Hpe as [He Hp]. split_and!; [done..|].
    by apply member_fetched, Hm.
Qed.
End single_sync.

(** ** Lemmas: a host that joins late *)

(** The announcement of a member is heard by another: a new or changed record
    enters the table and asks for a synchronisation. *)
Lemma announcement_heard {C : Crypto} {CO : CryptoOk C} (sender d : DiscoveryEngine)
    (sid token pid addr key nkey : str) (p ts nanos heard skew ttl skew' ttl' : N) (payload : bytes) :
  engine_ok sid token skew' ttl' sender → engine_ok sid token skew ttl d →
  named sid → named pid → named addr → p ≤ U16_MAX →
  wf_str key → normalize_public_key key = Ok nkey →
  ts ≤ U64_MAX → heard - skew ≤ ts ≤ heard + skew →
  send_announcement sender pid addr p key ts (next_nonce nanos) = Ok payload →
  len payload ≤ UDP_BUFFER →
  v_seen_nonces (prune_nonces (de_verifier d) heard) !! (pid ++ lit ":" ++ next_nonce nanos) = None →
  let r := {| Discovery.participant_id := pid; address := addr; port := p; public_key := nkey |} in
  table_event (de_peers d) r ≠ Ignored →
  ∃ d' line, handle_datagram d payload heard = (d', Some line)
    ∧ de_peers d' = <[pid := r]> (de_peers d) ∧ de_sync_trigger_pending d' = true.
Proof.
  intros Hs Hd (Hsid & Hsidw & Hsid0) (Hpid & Hpidw & Hpid0) (Ha & Haw & Ha0) Hp Hkw Hk Hts Hwin Hsend Hlen
    Hseen r Hev.
  unfold send_announcement in Hsend.
  destruct (build_startup_announcement sender pid addr p key ts (next_nonce nanos)) as [e|] eqn:Eb; [|done].
  cbn [map_err mbind result_bind] in Hsend. injection Hsend as <-.
  assert (accepted d e heard {| ann_sid := sid; ann_participant_id := pid; ann_address := addr;
    ann_port := p; ann_public_key := nkey |}) as Hacc.
  { eapply (built_announcement_accepted sender d); try eassumption.
    unfold build_startup_announcement in Eb. rewrite Hk in Eb. injection Eb as <-. exact Hseen. }
  assert (envelope_safe e ∧ envelope_wf e) as [Hes Hew].
  { unfold build_startup_announcement in Eb. rewrite Hk in Eb. injection Eb as <-.
    destruct Hs as (-> & -> & _), (next_nonce_safe nanos) as [? ?].
    assert (wf_str nkey) by (by apply (normalize_wf key)).
    match goal with |- context [serialize_payload ?kvs] =>
      assert (wf_bytes (serialize_payload kvs)) by (apply payload_bytes; kv_wf_list) end.
    split; [apply sign_envelope_safe|apply sign_envelope_wf]; done. }
  unfold handle_datagram. rewrite take_ge.
  2: { unfold len in Hlen. unfold UDP_BUFFER in *. lia. }
  rewrite from_utf8_encode by by apply serialize_wf. rewrite parse_serialize by done.
  rewrite (process_accepted _ _ _ _ Hacc). cbn zeta. change (announced _) with r.
  change (ann_participant_id _) with pid. unfold is_ignored. rewrite bool_decide_false by done.
  eexists. destruct (table_event (de_peers d) r); [done|..]; eexists; by split_and!.
Qed.

(** Calls that change no file. *)
Definition still (c : syscall) : Prop :=
  match c with Print _ | Respond _ _ | SendTo _ _ => True | _ => False end.

Lemma still_safe {I : Environment} {E A} (m : io E A) (s : fs) :
  calls_only still m → safe (λ s', s' = s) (λ _ s', s' = s) m s.
Proof.
  assert (∀ s1, s1 = s → calls_only still m → safe (λ s', s' = s) (λ _ s', s' = s) m s1) as Hg; [|auto].
  induction m as [r|c k IH|p k IH|p k IH|p k IH]; intros s1 E1 Hm; cbn in Hm |- *; (split; [done|]); [done|..].
  2,3,4: intros o s2 [-> _]; by apply IH.
  destruct Hm as [Hc Hm]. intros ok s2 He. apply IH; [|apply Hm]. subst s1.
  by destruct c; try done; cbn in He.
Qed.

Section round.
Context {C : Crypto} {CO : CryptoOk C} {B : Build} {H : HashOrder} {HO : HashOrderOk H} {R : Rustls}.
Context (home : option str) (default_mode : N) (config : AppConfig).
Context (service : HttpKeyExchangeService) (security : TransportSecurity R)
  (local_public_key : str) (own_addr : str) (http_port udp_port : N).
Context (st : daemon) (it : iteration R).

#[local] Abbreviation path := (expand_home_path home (authorized_keys_path config)) (only parsing).
#[local] Abbreviation iterate := (daemon_iteration home default_mode config service security
  local_public_key own_addr http_port udp_port st it) (only parsing).

(** The keys after a round whose engine is [d]. *)
Definition round_keys (d : DiscoveryEngine) : gmap str str :=
  @run_sync_cycle H (service_source (exchange (Net := it_network it) security) (it_clock it) service)
    config d (dm_managed_keys st).

(** The only datagram of the round asks for a synchronisation. *)
Definition hears (d : DiscoveryEngine) : Prop :=
  ∃ payload heard line, it_datagrams it = [Ok (payload, heard)]
    ∧ handle_datagram (dm_discovery st) payload heard = (d, Some line)
    ∧ de_sync_trigger_pending d = true.

(** What a round has done when it ends without an error. *)
Definition round_done {I : Environment} (d : DiscoveryEngine) (s : fs) (st' : daemon) (s' : fs) : Prop :=
  dm_discovery st' = with_peers d (de_peers d) false
  ∧ dm_managed_keys st' = round_keys (with_peers d (de_peers d) false)
  ∧ (dry_run config = false → ∃ existing text, base_text s path existing
       ∧ upsert_managed_block existing (values (dm_managed_keys st')) = Ok text
       ∧ files s' !! path = Some {| content := encode text; file_mode := MODE_600 |}).

Lemma iteration_writes {I : Environment} d s :
  hears d → safe (λ _, True) (λ r s', ∀ st', r = Ok st' → round_done d s st' s') iterate s.
Proof.
  intros (payload & heard & line & Hit & Hd & Ht). unfold daemon_iteration. rewrite Hit.
  apply safe_bind. eapply safe_mono; [done| |apply still_safe; by apply connections_calls].
  intros [[]|e] s1 _ ->; [|by intros]. cbn [handle_udp_announcements]. rewrite Hd.
  apply safe_bind, safe_bind, safe_attempt; [done| |by intros].
  intros s1 ->. do 2 (split; [done|]). unfold take_sync_trigger. rewrite Ht, orb_true_r.
  change (run_sync_cycle config _ _) with (round_keys (with_peers d (de_peers d) false)).
  set (managed := round_keys _). apply safe_bind.
  eapply (safe_weaken _ (λ r s', ∀ u, r = Ok u → dry_run config = false → ∃ existing text,
    base_text s path existing ∧ upsert_managed_block existing (values managed) = Ok text
    ∧ files s' !! path = Some {| content := encode text; file_mode := MODE_600 |})).
  2: { destruct (dry_run config); [by split|]. apply safe_bind, safe_map_err, safe_map_err.
       eapply safe_mono; [done| |apply apply_safe, temp_path_ne].
       intros [text|e] s2 _ Hpost; [|by intros]. cbn [map_err].
       split; [done|]. intros u _ _. destruct (Hpost _ eq_refl) as ((existing & ? & ?) & ? & _).
       by exists existing, text. }
  intros [[]|e] s2 Hw; [|by intros]. specialize (Hw _ eq_refl).
  apply says_safe; [right; by eexists|done|by intros|]. apply safe_bind.
  eapply safe_mono; [done| |apply still_safe; by apply broadcast_calls].
  intros [[]|e] s3 _ ->; [|by intros]. destruct (add_u64 _ _) as [n|]; (split; [done|]); [|by intros].
  intros st' [= <-]. by split_and!.
Qed.

Lemma run_iteration d s existing text :
  hears d → it_connections it = [] → dry_run config = false →
  is_ok (normalize_public_key local_public_key) = true →
  it_now it + N.max (sync_interval_secs config) 1 ≤ U64_MAX →
  writable s path → old_text s path existing →
  upsert_managed_block existing (values (round_keys (with_peers d (de_peers d) false))) = Ok text →
  ∃ st', (run iterate s).1 = Ok st'.
Proof.
  intros (payload & heard & line & Hit & Hd & Ht) Hc Hdry Hkey Hnow Hw Ho Hu.
  unfold daemon_iteration. rewrite Hc, Hit. cbn [handle_http_connections].
  rewrite run_ret_bind, run_bind. cbn [handle_udp_announcements]. rewrite Hd.
  rewrite run_says by (right; by eexists). cbn [run]. unfold take_sync_trigger. rewrite Ht, orb_true_r, Hdry.
  change (run_sync_cycle config _ _) with (round_keys (with_peers d (de_peers d) false)).
  rewrite run_bind, run_bind. unfold lift. rewrite !run_map_err.
  pose proof (run_apply default_mode s path existing text _ Hw Ho Hu) as Hr.
  destruct (run (apply_managed_block_to_file _ _ _) s) as [r s']. cbn [fst] in Hr. subst r.
  cbn [fst snd map_err run]. rewrite run_says by (right; by eexists).
  unfold broadcast, send_announcement, build_startup_announcement.
  destruct (normalize_public_key local_public_key) as [k|]; [|done].
  cbn [map_err mbind result_bind]. rewrite run_bind, run_bind. unfold lift. cbn [io_map_err map_err run].
  cbn [ignore run exec]. rewrite add_u64_Val by done. by eexists.
Qed.

(** A member that is in the table has its key fetched. *)
Lemma round_fetches d r server :
  discovery_ok config d → de_peers d !! Discovery.participant_id r = Some r →
  Discovery.participant_id r ≠ Config.participant_id config →
  member_at (exchange (Net := it_network it) security) service
    (it_clock it (endpoint_of r)) (endpoint_of r) server →
  round_keys d !! Discovery.participant_id r = Some (svc_public_key server).
Proof.
  intros [Hd%reachable_engine _] Hr Hown Hm. unfold round_keys.
  rewrite run_sync_cycle_lookup by apply Hd. unfold endpoint_for. rewrite Hr, bool_decide_false by done.
  unfold fetch_key, service_source. by rewrite (member_fetched _ _ _ _ _ Hm).
Qed.
End round.

(** ** Properties *)

(** C2: a single synchronisation converges.  Suppose that it is not a dry run,
    that the markers in authorized_keys are in order, and that every peer the
    configuration names, other than the host itself, is at its address a member
    of the group that answers.  Then the run in which every system call
    succeeds that can ends with success, if authorized_keys can be written; and
    every run that ends with success, where the metadata of authorized_keys can
    be read, leaves in it the lines of the user and one block with exactly the
    public keys of those members.  The keys of the old block are not kept: a
    host that is no longer a peer loses its key. *)
Theorem sync_converges {I : Environment} {C : Crypto} {CO : CryptoOk C} {B : Build} {H : HashOrder}
    {HO : HashOrderOk H} {R : Rustls} (home : option str) (default_mode : N) (Net : Network R)
    (clock : PeerEndpoint → N * N) (config : AppConfig) (s : fs)
    (service : HttpKeyExchangeService) (security : TransportSecurity R)
    (members : str → HttpKeyExchangeService) (existing : str) :
  let path := expand_home_path home (authorized_keys_path config) in
  sync_setup home config s service security → dry_run config = false →
  (∀ pid ep, peer_of config pid ep →
     member_at (exchange (Net := Net) security) service (clock ep) ep (members pid)) →
  old_text s path existing → in_order (lines existing) →
  (writable s path → ∃ out, (run (run_single_sync home default_mode Net clock config) s).1 = Ok out)
  ∧ ∀ out s', stat_works path →
     reaches (run_single_sync home default_mode Net clock config) s (Ret (Ok out)) s' →
     ∃ keys, let text := join [LF] (before (lines existing) ++ block keys ++ after (lines existing)) in
       files s' !! path = Some {| content := encode text; file_mode := MODE_600 |}
       ∧ NoDup keys
       ∧ ∀ k, k ∈ keys ↔ ∃ pid ep, peer_of config pid ep ∧ k = svc_public_key (members pid).
Proof.
  intros path Hsetup Hdry Hm Ho Hin. split.
  - intros Hw. eexists. eapply run_single_sync_Ok; try done. apply upsert_normal; [done|].
    apply cycle_keys_ok.
  - intros out s' Hstat Hr.
    destruct (safe_reaches _ _ _ _ _ _ (run_single_sync_safe home default_mode Net clock config s) Hr) as [_ Hp].
    destruct (Hp _ eq_refl out eq_refl) as (service' & security' & [Hs' Hsec'] & _ & Hw).
    destruct Hsetup as [Hs Hsec]. rewrite Hs in Hs'. injection Hs' as <-.
    rewrite Hsec in Hsec'. injection Hsec' as <-.
    destruct (Hw Hdry) as (existing' & text & _ & Ho' & Hu & Hf).
    apply base_text_old in Ho'; [|done].
    rewrite (old_text_unique _ _ _ _ Ho' Ho), upsert_normal in Hu by (done || apply cycle_keys_ok).
    injection Hu as <-. eexists. split; [exact Hf|]. split; [apply NoDup_nub|].
    intros k. rewrite elem_of_nub. by apply cycle_members.
Qed.

(** C1: a host that joins late.  A member announces itself, and the daemon of
    another, not on a dry run, hears it as the only datagram of a round: a new or
    changed record, inside the window and not a replay.  If the member's server answers at the
    announced address, then every round that ends without an error has the
    record in its table and the member's key among its keys; and if the markers
    in authorized_keys are in order and its metadata can be read, it then lists
    that key in the managed block between the lines of the user.  Without
    connections and with room for the next time the round does end so, when
    authorized_keys can be written and every call succeeds that can. *)
Theorem late_joiner_converges {I : Environment} {C : Crypto} {CO : CryptoOk C} {B : Build} {H : HashOrder}
    {HO : HashOrderOk H} {R : Rustls} (home : option str) (default_mode : N) (config : AppConfig)
    (service joiner : HttpKeyExchangeService) (security : TransportSecurity R)
    (local_public_key own_addr : str) (http_port udp_port : N) (st : daemon) (it : iteration R)
    (sender : DiscoveryEngine) (r : PeerRecord) (key : str) (ts nanos heard skew ttl : N)
    (payload : bytes) (s : fs) (existing : str) :
  let path := expand_home_path home (authorized_keys_path config) in
  let round := daemon_iteration home default_mode config service security local_public_key
    own_addr http_port udp_port st it in
  let pid := Discovery.participant_id r in
  daemon_ok config st → dry_run config = false →
  engine_ok (sid config) (sid_token config) skew ttl sender →
  named (sid config) → named pid → named (address r) → port r ≤ U16_MAX →
  wf_str key → normalize_public_key key = Ok (public_key r) →
  ts ≤ U64_MAX → heard ≤ U64_MAX →
  heard - TIMESTAMP_SKEW_SECS ≤ ts ≤ heard + TIMESTAMP_SKEW_SECS →
  send_announcement sender pid (address r) (port r) key ts (next_nonce nanos) = Ok payload →
  len payload ≤ UDP_BUFFER → it_datagrams it = [Ok (payload, heard)] →
  v_seen_nonces (prune_nonces (de_verifier (dm_discovery st)) heard)
    !! (pid ++ lit ":" ++ next_nonce nanos) = None →
  table_event (de_peers (dm_discovery st)) r ≠ Ignored →
  pid ≠ Config.participant_id config →
  member_at (exchange (Net := it_network it) security) service (it_clock it (endpoint_of r))
    (endpoint_of r) joiner →
  old_text s path existing → in_order (lines existing) →
  (∀ st' s', reaches round s (Ret (Ok st')) s' →
     de_peers (dm_discovery st') !! pid = Some r
     ∧ dm_managed_keys st' !! pid = Some (svc_public_key joiner)
     ∧ (stat_works path → ∃ keys, svc_public_key joiner ∈ keys ∧ NoDup keys
         ∧ files s' !! path = Some {| content :=
             encode (join [LF] (before (lines existing) ++ block keys ++ after (lines existing)));
             file_mode := MODE_600 |}))
  ∧ (it_connections it = [] → writable s path → is_ok (normalize_public_key local_public_key) = true →
     it_now it + N.max (sync_interval_secs config) 1 ≤ U64_MAX →
     ∃ st', (run round s).1 = Ok st').
Proof.
  intros path round pid (Hd & Hm & _) Hdry Hs Hsid Hpid Ha Hp Hkw Hk Hts Hheard Hwin Hsend Hlen Hit Hseen
    Hev Hown Hmem Ho Hin.
  destruct (announcement_heard sender (dm_discovery st) (sid config) (sid_token config) pid (address r) key
    (public_key r) (port r) ts nanos heard TIMESTAMP_SKEW_SECS NONCE_TTL_SECS skew ttl payload)
    as (d & line & Hh & Hpeers & Ht); try done.
  { apply reachable_engine, Hd. }
  { by destruct r. }
  assert (hears st it d) as Hears by by exists payload, heard, line.
  set (d' := with_peers d (de_peers d) false).
  assert (discovery_ok config d') as Hd'.
  { pose proof (datagram_ok config _ payload heard Hd Hheard) as H1. rewrite Hh in H1.
    pose proof (discovery_step config d TakeTrigger H1 Logic.I) as H2. unfold apply_op, take_sync_trigger in H2.
    by rewrite Ht in H2. }
  assert (de_peers d' !! pid = Some r) as Hr.
  { cbn. rewrite Hpeers, lookup_insert_eq. by destruct r. }
  assert (Forall key_ok (values (round_keys config service security st it d'))) as Hkeys.
  { apply Forall_forall. intros k (q & Hq)%elem_of_values.
    exact (proj2 (cycle_ok config _ _ service d' _ Hd' Hm) q k Hq). }
  split.
  - intros st' s' Hreach.
    destruct (proj2 (safe_reaches _ _ _ _ _ _ (iteration_writes home default_mode config service security
      local_public_key own_addr http_port udp_port st it d s Hears) Hreach) _ eq_refl _ eq_refl) as (E1 & E2 & Hw).
    fold d' in E1, E2. rewrite E1. split; [done|].
    assert (dm_managed_keys st' !! pid = Some (svc_public_key joiner)) as Hj.
    { rewrite E2. by apply round_fetches. }
    split; [done|]. intros Hstat. destruct (Hw Hdry) as (existing' & text & Ho' & Hu & Hf).
    apply base_text_old in Ho'; [|done]. rewrite (old_text_unique _ _ _ _ Ho' Ho), E2, upsert_normal in Hu by done. injection Hu as <-.
    eexists. split_and!; [|apply NoDup_nub|exact Hf]. rewrite elem_of_nub. apply elem_of_values.
    exists pid. by rewrite <- E2.
  - intros Hc Hw Hl Hnow. eapply run_iteration; try done. by apply upsert_normal.
Qed.

(** ** Witnesses *)

(** The sample host with one bootstrap peer, or with none. *)
Definition host_config (peers : list str) : AppConfig :=
  {| sid := lit "group-a"; sid_token := lit "secret-token";
     Config.participant_id := lit "node-2"; http_listen_addr := lit "0.0.0.0:9922";
     udp_announce_addr := lit "0.0.0.0:9923"; bootstrap_peers := peers;
     sync_interval_secs := 30; public_key_path := lit "~/.ssh/id_ed25519.pub";
     authorized_keys_path := lit "~/.ssh/authorized_keys"; tls_cert_path := None;
     tls_key_path := None; tls_ca_path := None; tls_server_name := None;
     insecure_no_tls := true; dry_run := false |}.

Lemma sample_member :
  @member_at toy_crypto true (exchange (Net := toy_network sample_network) InsecureNoTls)
    sample_client (1000, 1) sample_endpoint sample_server.
Proof.
  split_and!; [done|done|apply sample_server_ok|by_compute..|].
  exists 1001, 2. split; [done|]. exact sample_network_serves.
Qed.

Lemma sample_peer pid ep :
  peer_of (host_config [lit "node-1@10.0.0.1:8080"]) pid ep → pid = lit "node-1" ∧ ep = sample_endpoint.
Proof.
  intros [He _]. unfold endpoint_for in He.
  assert (de_peers (bootstrap_engine (host_config [lit "node-1@10.0.0.1:8080"]))
    = {[lit "node-1" := {| Discovery.participant_id := lit "node-1"; address := lit "10.0.0.1";
         port := 8080; public_key := [] |}]}) as E by (by vm_compute).
  rewrite E in He. destruct (decide (pid = lit "node-1")) as [->|Hne].
  - rewrite lookup_singleton_eq in He. by injection He as <-.
  - rewrite lookup_singleton_ne in He by done.
    assert (foldl insert_bootstrap ∅ (bootstrap_peers (host_config [lit "node-1@10.0.0.1:8080"]))
      = {[lit "node-1" := sample_endpoint]}) as E' by (by vm_compute).
    rewrite E', lookup_singleton_ne in He by done. done.
Qed.

Lemma sync_converges_witness :
  let m := @run_single_sync toy_crypto map_order toy_rustls (Some (lit "/home/u")) 420
    (toy_network sample_network) (λ _, (1000, 1)) (host_config [lit "node-1@10.0.0.1:8080"]) in
  ∃ out keys, (run m sample_home).1 = Ok out
  ∧ files (run m sample_home).2 !! lit "/home/u/.ssh/authorized_keys"
    = Some {| content := encode (join [LF] ([lit "ssh-rsa AAAA mine"; []] ++ block keys ++ []));
              file_mode := MODE_600 |}
  ∧ Transport.sample_key ∈ keys.
Proof.
  intros m.
  destruct (@sync_converges no_environment toy_crypto toy_crypto_ok true map_order map_order_ok toy_rustls
    (Some (lit "/home/u")) 420 (toy_network sample_network) (λ _, (1000, 1))
    (host_config [lit "node-1@10.0.0.1:8080"]) sample_home sample_client InsecureNoTls
    (λ _, sample_server) (lit "ssh-rsa AAAA mine")) as [Hrun Hall].
  - split; by vm_compute.
  - done.
  - intros pid ep [-> ->]%sample_peer. apply sample_member.
  - by vm_compute.
  - by_compute.
  - destruct Hrun as [out Hout]; [exists (lit "/home/u/.ssh"); by split_and!; vm_compute|].
    destruct (Hall out (run m sample_home).2 Logic.I) as (keys & Hf & _ & Hk).
    { rewrite <- Hout. apply (@run_reaches no_environment). }
    exists out, keys. split; [exact Hout|]. split; [exact Hf|]. apply Hk.
    exists (lit "node-1"), sample_endpoint. split; [|done]. split; by vm_compute.
Defined.

(** What node-1 broadcasts, and the round of node-2 that hears it. *)
Definition node_1_engine : DiscoveryEngine :=
  DiscoveryEngine_new (lit "group-a") (lit "secret-token") 60 120.
Definition node_1_record : PeerRecord :=
  {| Discovery.participant_id := lit "node-1"; address := lit "10.0.0.1"; port := 8080;
     public_key := Transport.sample_key |}.
Definition node_1_payload : bytes :=
  match @send_announcement toy_crypto node_1_engine (lit "node-1") (lit "10.0.0.1") 8080
          Transport.sample_key 1000 (next_nonce 9) with
  | Ok payload => payload
  | Err _ => []
  end.
Definition hearing_round : iteration toy_rustls :=
  {| it_connections := []; it_datagrams := [Ok (node_1_payload, 1010)]; it_now := 1010;
     it_network := toy_network sample_network; it_clock := λ _, (1000, 1); it_announced := (1010, 8) |}.
Definition waiting_daemon : daemon :=
  {| dm_discovery := bootstrap_engine (host_config []); dm_managed_keys := ∅; dm_next_sync_at := 2000 |}.

Lemma late_joiner_converges_witness :
  let m := @daemon_iteration toy_crypto true map_order toy_rustls (Some (lit "/home/u")) 420 (host_config [])
    sample_client InsecureNoTls (lit "ssh-rsa AAAAB3NzaC1yc2E") (lit "node-2") 9922 9923
    waiting_daemon hearing_round in
  ∃ st', (run m sample_home).1 = Ok st' ∧ dm_managed_keys st' !! lit "node-1" = Some Transport.sample_key.
Proof.
  intros m.
  destruct (@late_joiner_converges no_environment toy_crypto toy_crypto_ok true map_order map_order_ok toy_rustls
    (Some (lit "/home/u")) 420 (host_config []) sample_client sample_server InsecureNoTls
    (lit "ssh-rsa AAAAB3NzaC1yc2E") (lit "node-2") 9922 9923 waiting_daemon hearing_round node_1_engine
    node_1_record Transport.sample_key 1000 9 1010 60 120 node_1_payload sample_home
    (lit "ssh-rsa AAAA mine")) as [Hall Hrun].
  - split_and!; [split|split|done].
    + apply (reachable_op _ _ _ _ (DiscoveryEngine_new _ _ _ _) (Bootstrap [])), reachable_new.
    + apply map_Forall_empty.
    + done.
    + apply map_Forall_empty.
  - done.
  - unfold engine_ok. by split_and!.
  - split_and!; by_compute.
  - split_and!; by_compute.
  - split_and!; by_compute.
  - done.
  - by_compute.
  - by vm_compute.
  - done.
  - done.
  - by_compute.
  - by vm_compute.
  - by_compute.
  - done.
  - by vm_compute.
  - by vm_compute.
  - by_compute.
  - apply sample_member.
  - by vm_compute.
  - by_compute.
  - destruct Hrun as [st' Hst]; [done|exists (lit "/home/u/.ssh"); by split_and!; vm_compute|by vm_compute|done|].
    exists st'. split; [exact Hst|]. apply (Hall st' (run m sample_home).2).
    rewrite <- Hst. apply (@run_reaches no_environment).
Defined.
